(** * Circuit-analysis engine of FisicaExperimentos: a shallow embedding

    The JavaScript sources under [src/utils] (NodeAnalyzer, CircuitMatrixBuilder,
    EquationSolver, OhmLawHelper, CircuitAnalyzer) and [src/components]
    (VoltageSource) are embedded as Rocq functions.  JavaScript numbers are
    IEEE-754 binary64 values, modelled by Rocq's primitive floats, so every
    function below can be run on concrete circuits.

    Conventions.  An object is a record whose fields have the type the engine
    gives them (a [value] is a number, [connections] is an array of
    identifiers); a property that may be absent is an option.  A method that
    changes its arguments returns the new values, and the coordinator passes
    its cache and the circuit along explicitly.  A thrown error is the left
    injection of a sum.  A [while] loop or a recursion is a function with
    fuel: the loop's own bound where it has one, and otherwise a bound that
    Part II shows to be enough. *)

From Stdlib Require Import PrimFloat ZArith Lia.
From Stdlib Require Uint63 FloatOps SpecFloat Ascii.
From stdpp Require Import base option list strings gmap pretty.

Set Warnings "-inexact-float".
Set Default Proof Using "Type".

(* ===================================================================== *)
(** * Part I: definitions                                                 *)
(* ===================================================================== *)

(** ** JavaScript numbers and the few built-ins the engine uses *)

Module JS.

Definition number : Type := float.

(** [Boolean(x)] for a number: [0], [-0] and [NaN] are falsy. *)
Definition truthy (x : float) : bool := negb (is_zero x || is_nan x).

(** [x || d] on numbers. *)
Definition or_else (x d : float) : float := if truthy x then x else d.

(** [o || d] where the property may be absent ([undefined] is falsy). *)
Definition opt_or_else (o : option float) (d : float) : float :=
  match o with
  | Some x => or_else x d
  | None => d
  end.

Definition lt (a b : float) : bool := (a <? b)%float.
Definition le (a b : float) : bool := (a <=? b)%float.
Definition gt (a b : float) : bool := (b <? a)%float.
Definition ge (a b : float) : bool := (b <=? a)%float.

(** [a === b] and [a !== b] on numbers. *)
Definition seq (a b : float) : bool := (a =? b)%float.
Definition sne (a b : float) : bool := negb (a =? b)%float.

Definition isNaN (x : float) : bool := is_nan x.
Definition isFinite (x : float) : bool := is_finite x.

(** [Math.max(a, b)] and [Math.min(a, b)]: NaN is contagious and
    [+0] is larger than [-0]. *)
Definition max (a b : float) : float :=
  if is_nan a || is_nan b then nan
  else if (a <? b)%float then b
  else if (b <? a)%float then a
  else if get_sign a then b else a.

Definition min (a b : float) : float :=
  if is_nan a || is_nan b then nan
  else if (a <? b)%float then a
  else if (b <? a)%float then b
  else if get_sign a then a else b.

(** A natural number (an array length, an index) as a number. *)
Definition ofNat (n : nat) : float := of_uint63 (Uint63.of_Z (Z.of_nat n)).

(** [Math.floor] and [Math.round].  Below [2^52] in magnitude, adding and
    subtracting [2^52] rounds to an integer, which is then corrected
    downwards; larger numbers, infinities and NaN are mapped to themselves.
    [Math.round] picks the upper integer from a fractional part of one half;
    the sign of a zero result is not tracked. *)
Definition two52 : float := 4503599627370496%float.

Definition floor (x : float) : float :=
  let a := abs x in
  if (a <? two52)%float then
    let t := ((a + two52) - two52)%float in
    if (x <? 0)%float
    then (- (if (t <? a)%float then t + 1 else t))%float
    else (if (a <? t)%float then t - 1 else t)%float
  else x.

Definition round (x : float) : float :=
  let r := floor x in
  if (0.5 <=? x - r)%float then (r + 1)%float else r.

(** Two numbers print to the same text (in a template string) exactly when
    they are equal as numbers or are both NaN. *)
Definition sameText (a b : float) : bool :=
  (a =? b)%float || (is_nan a && is_nan b).

(** Reading a property of [undefined] throws a [TypeError]; this is the
    wording of its message (V8). *)
Definition undefinedRead (property : string) : string :=
  "Cannot read properties of undefined (reading '" +:+ property +:+ "')".

(** A computation that may throw: [inl message] is the error thrown.
    [bind] runs the rest of the computation when nothing was thrown, and
    [foldThrow] is a [forEach] or [reduce] whose body may throw. *)
Definition bind {A B} (m : string + A) (f : A → string + B) : string + B :=
  match m with
  | inl thrown => inl thrown
  | inr a => f a
  end.

Definition foldThrow {A B} (f : A → B → string + A) (l : list B) (a : A)
  : string + A :=
  fold_left (λ acc x, bind acc (λ a, f a x)) l (inr a).

(** [Math.PI] *)
Definition PI : float := 3.141592653589793%float.

(** [new Array(n).fill(v)] *)
Definition fill {A} (n : nat) (v : A) : list A := replicate n v.

(** [arr[i]] read as a number: an index out of range gives [undefined],
    which every arithmetic operator and [Math.abs] turn into [NaN]. *)
Definition get (l : list float) (i : nat) : float := default nan (l !! i).

(** [m[i][j]] on an array of rows. *)
Definition get2 (m : list (list float)) (i j : nat) : float :=
  get (default [] (m !! i)) j.

(** [m[i][j] = v] for an existing cell.  The engine writes into matrices it
    has created with the dimensions it then uses, and the solving methods
    into copies of a square system, so the cells written exist. *)
Definition set2 (m : list (list float)) (i j : nat) (v : float)
  : list (list float) :=
  <[i := <[j := v]> (default [] (m !! i))]> m.

(** [arr.join(sep)] on strings. *)
Fixpoint join (sep : string) (l : list string) : string :=
  match l with
  | [] => ""
  | [s] => s
  | s :: rest => s +:+ sep +:+ join sep rest
  end.

(** A [Map] with string keys: entries are kept in insertion order and
    [set] on a present key replaces the value in place.  The plain objects
    the engine uses as dictionaries ([results.componentValues] and the
    like) are modelled the same way: their keys are identifiers such as
    [resistor_1] or [enode_0], never array indices, so [Object.entries]
    enumerates them in insertion order as well. *)
Definition Map (V : Type) : Type := list (string * V).

Fixpoint map_set {V} (m : Map V) (k : string) (v : V) : Map V :=
  match m with
  | [] => [(k, v)]
  | (k', v') :: rest =>
      if String.eqb k' k then (k', v) :: rest
      else (k', v') :: map_set rest k v
  end.

Fixpoint map_get {V} (m : Map V) (k : string) : option V :=
  match m with
  | [] => None
  | (k', v') :: rest => if String.eqb k' k then Some v' else map_get rest k
  end.

Definition map_has {V} (m : Map V) (k : string) : bool :=
  bool_decide (is_Some (map_get m k)).

Definition map_size {V} (m : Map V) : nat := length m.

End JS.

(** ** Data model *)

Module Point.
Record t := mk { x : float; y : float }.
End Point.

Module Impedance.
Record t := mk { real : float; imaginary : float }.
End Impedance.

(** A circuit element.  [connectionPoints] is the list returned by
    [getConnectionPoints()].  Properties that a component may lack are
    options ([None] is [undefined]). *)
Module Component.
Record t := mk {
  id : string;
  type : string;
  value : float;
  label : string;
  connectionPoints : list Point.t;
  (* electrical fields written by the coordinator *)
  voltage : float;
  current : float;
  power : float;
  (* type-specific parameters *)
  internalResistance : option float;
  temperature : option float;
  tempCoefficient : option float;
  isVariable : bool;
  tapPosition : option float;
  forwardVoltage : option float;
  forwardResistance : option float;
  reverseResistance : option float;
  saturationCurrent : option float;
  efficiency : option float;
  physicalSize : option float;
  powerRating : option float
}.

Definition set_electrical (c : t) (i v p : float) : t :=
  mk (id c) (type c) (value c) (label c) (connectionPoints c)
     v i p
     (internalResistance c) (temperature c) (tempCoefficient c)
     (isVariable c) (tapPosition c) (forwardVoltage c)
     (forwardResistance c) (reverseResistance c) (saturationCurrent c)
     (efficiency c) (physicalSize c) (powerRating c).
End Component.

Module Wire.
Record t := mk {
  id : string;
  start : Point.t;
  end_ : Point.t;
  junctions : list Point.t;
  resistance : float;
  startComponent : option string;
  endComponent : option string;
  voltage : float;
  current : float;
  power : float
}.
End Wire.

Module Circuit.
Record t := mk {
  components : list Component.t;
  wires : list Wire.t
}.
End Circuit.

(** An attachment of a component terminal to a node. *)
Module Attachment.
Record t := mk {
  componentId : string;
  component : Component.t;
  terminal : nat
}.
End Attachment.

Module PhysicalNode.
Record t := mk {
  id : string;
  x : float;
  y : float;
  components : list Attachment.t;
  wires : list string;
  type : string;
  isGround : bool
}.
End PhysicalNode.

Module ElectricalNode.
Record t := mk {
  id : string;
  x : float;
  y : float;
  physicalNodes : list string;
  components : list Attachment.t;
  wires : list string;
  connections : list string;
  isGround : bool;
  voltage : float;
  type : string
}.
End ElectricalNode.

Module Branch.
Record t := mk {
  id : string;
  type : string;
  componentId : option string;
  component : option Component.t;
  wireId : option string;
  startNodeId : string;
  endNodeId : string;
  current : float;
  voltage : float;
  impedance : Impedance.t
}.

(** [branch.component.value]: on a branch without component the read of
    [value] throws a [TypeError]. *)
Definition componentValue (b : t) : string + float :=
  match component b with
  | Some c => inr (Component.value c)
  | None => inl (JS.undefinedRead "value")
  end.
End Branch.

Module Mesh.
Record t := mk {
  id : string;
  branches : list Branch.t;
  nodes : list string
}.
End Mesh.

(** ** NodeAnalyzer: topology of the electrical-node graph
    ([src/utils/node_analyzer.js]) *)

Module Topology.
Record criticalNode := mkCritical {
  nodeId : string;
  reason : string;
  connectionCount : nat
}.

Record t := mk {
  description : string;
  isSeriesCircuit : bool;
  isParallelCircuit : bool;
  isLadderCircuit : bool;
  isBridgeCircuit : bool;
  hasLoops : bool;
  loopCount : nat;
  meshes : list Mesh.t;
  criticalNodes : list criticalNode
}.
End Topology.

Module NodeAnalysis.
Record statistics := mkStatistics {
  isolatedNodes : nat;
  junctionNodes : nat;
  terminalNodes : nat
}.

Record t := mk {
  isValid : bool;
  error : string;
  nodes : list ElectricalNode.t;
  branches : list Branch.t;
  topology : Topology.t;
  nodeCount : nat;
  branchCount : nat;
  voltageSourceCount : nat;
  currentSourceCount : nat;
  stats : statistics
}.
End NodeAnalysis.

(** The union-find structure of [node_analyzer.js]. *)
Module UnionFind.
Record t := mk { parent : list nat; rank : list nat }.

Definition create (size : nat) : t := mk (seq 0 size) (replicate size 0).

(** [find] with path compression.  The recursion follows the parents up to
    the root; [fuel] bounds its depth, and as many steps as there are
    elements always suffice ([find_enough_fuel] in Part II). *)
Fixpoint findFrom (fuel : nat) (uf : t) (x : nat) : nat * t :=
  let p := default x (parent uf !! x) in
  match fuel with
  | O => (p, uf)
  | S fuel' =>
      if negb (Nat.eqb p x) then
        let '(root, uf') := findFrom fuel' uf p in
        (root, mk (<[x := root]> (parent uf')) (rank uf'))
      else (p, uf)
  end.

Definition find (uf : t) (x : nat) : nat * t :=
  findFrom (length (parent uf)) uf x.

(** [union] by rank. *)
Definition union (uf : t) (x y : nat) : t :=
  let '(rootX, uf1) := find uf x in
  let '(rootY, uf2) := find uf1 y in
  if negb (Nat.eqb rootX rootY) then
    let rankX := default 0 (rank uf2 !! rootX) in
    let rankY := default 0 (rank uf2 !! rootY) in
    if Nat.ltb rankX rankY
    then mk (<[rootX := rootY]> (parent uf2)) (rank uf2)
    else if Nat.ltb rankY rankX
    then mk (<[rootY := rootX]> (parent uf2)) (rank uf2)
    else mk (<[rootY := rootX]> (parent uf2)) (<[rootX := S rankX]> (rank uf2))
  else uf2.

(** [connected]: the two calls of [find], left to right, both compressing
    paths; the answer and the structure afterwards. *)
Definition connected (uf : t) (x y : nat) : bool * t :=
  let '(rootX, uf1) := find uf x in
  let '(rootY, uf2) := find uf1 y in
  (Nat.eqb rootX rootY, uf2).
End UnionFind.

Module NodeAnalyzer.

Definition connectionCount (n : ElectricalNode.t) : nat :=
  length (ElectricalNode.connections n).

(** [detectSeriesCircuit] *)
Definition detectSeriesCircuit (nodes : list ElectricalNode.t)
    (branches : list Branch.t) : bool :=
  let nonTerminalNodes :=
    filter (λ node, negb (ElectricalNode.isGround node) &&
                    negb (String.eqb (ElectricalNode.type node) "component_terminal") = true)
           nodes in
  if Nat.eqb (length nonTerminalNodes) 0 then false
  else forallb (λ node, Nat.eqb (connectionCount node) 2) nonTerminalNodes.

(** [detectParallelCircuit] *)
Definition detectParallelCircuit (nodes : list ElectricalNode.t)
    (branches : list Branch.t) : bool :=
  if Nat.leb (length branches) 1 then false
  else
    match List.find (λ b, negb (String.eqb (Branch.type b) "wire")) branches with
    | None => false
    | Some firstBranch =>
        let otherBranches :=
          filter (λ b, negb (String.eqb (Branch.type b) "wire") &&
                       negb (String.eqb (Branch.id b) (Branch.id firstBranch)) = true)
                 branches in
        forallb (λ branch,
                   (String.eqb (Branch.startNodeId branch) (Branch.startNodeId firstBranch) &&
                    String.eqb (Branch.endNodeId branch) (Branch.endNodeId firstBranch))
                   || (String.eqb (Branch.startNodeId branch) (Branch.endNodeId firstBranch) &&
                       String.eqb (Branch.endNodeId branch) (Branch.startNodeId firstBranch)))
                otherBranches
    end.

(** [[...new Set(xs)]]: the distinct values, first occurrences first. *)
Fixpoint uniqueNat (seen xs : list nat) : list nat :=
  match xs with
  | [] => seen
  | x :: rest =>
      if existsb (Nat.eqb x) seen then uniqueNat seen rest
      else uniqueNat (seen ++ [x]) rest
  end.

(** [detectLadderCircuit]; the sort does not change length or membership. *)
Definition detectLadderCircuit (nodes : list ElectricalNode.t)
    (branches : list Branch.t) : bool :=
  let nodeConnectionCounts := map connectionCount nodes in
  let uniqueCounts := uniqueNat [] nodeConnectionCounts in
  Nat.eqb (length uniqueCounts) 2 &&
  existsb (Nat.eqb 2) uniqueCounts && existsb (Nat.eqb 3) uniqueCounts.

(** [detectBridgeCircuit]: [connectionCounts[k]] is the number of nodes with
    [k] connections ([undefined] when there is none, which equals no number). *)
Definition detectBridgeCircuit (nodes : list ElectricalNode.t)
    (branches : list Branch.t) : bool :=
  if negb (Nat.eqb (length nodes) 5) then false
  else
    let countOf k := length (filter (λ n, connectionCount n = k) nodes) in
    Nat.eqb (countOf 3) 4 && Nat.eqb (countOf 2) 1.

(** The loop of [findMeshFromBranch].  [fuel] is [maxIterations - iterations],
    the loop's own bound. *)
Fixpoint followPath (fuel : nat) (allBranches : list Branch.t)
    (startNode : string) (mesh : list Branch.t) (currentNode : string)
    (visitedBranches : gset string) : list Branch.t * gset string :=
  match fuel with
  | O => (mesh, visitedBranches)
  | S fuel' =>
      if String.eqb currentNode startNode then (mesh, visitedBranches)
      else
        match List.find
                (λ branch,
                   negb (bool_decide (Branch.id branch ∈ visitedBranches)) &&
                   (String.eqb (Branch.startNodeId branch) currentNode ||
                    String.eqb (Branch.endNodeId branch) currentNode))
                allBranches with
        | None => (mesh, visitedBranches)
        | Some nextBranch =>
            followPath fuel' allBranches startNode
              (mesh ++ [nextBranch])
              (if String.eqb (Branch.startNodeId nextBranch) currentNode
               then Branch.endNodeId nextBranch
               else Branch.startNodeId nextBranch)
              ({[Branch.id nextBranch]} ∪ visitedBranches)
        end
  end.

(** [findMeshFromBranch]: returns the walk and the updated visited set. *)
Definition findMeshFromBranch (startBranch : Branch.t)
    (allBranches : list Branch.t) (visitedBranches : gset string)
  : list Branch.t * gset string :=
  let maxIterations := length allBranches + 1 in
  followPath maxIterations allBranches (Branch.startNodeId startBranch)
    [startBranch] (Branch.endNodeId startBranch)
    ({[Branch.id startBranch]} ∪ visitedBranches).

(** [Array.from(set)] after adding [k]: insertion order, no duplicates. *)
Definition setAdd (s : list string) (k : string) : list string :=
  if existsb (String.eqb k) s then s else s ++ [k].

(** [getNodesFromBranches] *)
Definition getNodesFromBranches (branches : list Branch.t) : list string :=
  fold_left (λ nodeIds branch,
               setAdd (setAdd nodeIds (Branch.startNodeId branch))
                      (Branch.endNodeId branch))
            branches [].

(** One iteration of the [forEach] in [findMeshes]. *)
Definition findMeshesStep (branches : list Branch.t)
    (st : list Mesh.t * gset string) (startBranch : Branch.t)
  : list Mesh.t * gset string :=
  let '(meshes, visitedBranches) := st in
  if bool_decide (Branch.id startBranch ∈ visitedBranches) then st
  else
    let '(mesh, visitedBranches') :=
      findMeshFromBranch startBranch branches visitedBranches in
    if Nat.ltb 2 (length mesh)
    then (meshes ++ [Mesh.mk ("mesh_" +:+ pretty (length meshes)) mesh
                             (getNodesFromBranches mesh)],
          visitedBranches')
    else (meshes, visitedBranches').

(** [findMeshes] *)
Definition findMeshes (nodes : list ElectricalNode.t)
    (branches : list Branch.t) : list Mesh.t :=
  fst (fold_left (findMeshesStep branches) branches ([], ∅)).

(** [identifyCriticalNodes] *)
Definition identifyCriticalNodes (nodes : list ElectricalNode.t)
  : list Topology.criticalNode :=
  omap (λ node,
          let k := connectionCount node in
          if ElectricalNode.isGround node
          then Some (Topology.mkCritical (ElectricalNode.id node) "referencia (ground)" k)
          else if Nat.ltb 3 k
          then Some (Topology.mkCritical (ElectricalNode.id node)
                       ("alta conectividad (" +:+ pretty k +:+ " conexiones)") k)
          else if existsb (λ c, let ty := Component.type (Attachment.component c) in
                                String.eqb ty "voltage" || String.eqb ty "current")
                          (ElectricalNode.components node)
          then Some (Topology.mkCritical (ElectricalNode.id node) "conectado a fuente" k)
          else None)
       nodes.

(** [analyzeTopology] *)
Definition analyzeTopology (electricalNodes : list ElectricalNode.t)
    (branches : list Branch.t) : Topology.t :=
  let isSeriesCircuit := detectSeriesCircuit electricalNodes branches in
  let isParallelCircuit := detectParallelCircuit electricalNodes branches in
  let isLadderCircuit := detectLadderCircuit electricalNodes branches in
  let isBridgeCircuit := detectBridgeCircuit electricalNodes branches in
  let meshes := findMeshes electricalNodes branches in
  let loopCount := length meshes in
  let description :=
    if isSeriesCircuit then "serie"
    else if isParallelCircuit then "paralelo"
    else if isLadderCircuit then "escalera"
    else if isBridgeCircuit then "puente"
    else if Nat.eqb loopCount 1 then "malla simple"
    else if Nat.ltb 1 loopCount then "multi-malla"
    else "general" in
  Topology.mk description isSeriesCircuit isParallelCircuit isLadderCircuit
    isBridgeCircuit (Nat.ltb 0 loopCount) loopCount meshes
    (identifyCriticalNodes electricalNodes).

(** The queue loop of [isGraphConnected].  Every identifier enters the queue
    at most once, so the loop runs at most once per entry of a connection
    list, plus once for the first node; [fuel] is that bound
    ([isGraphConnected_fuel] in Part II). *)
Fixpoint bfs (fuel : nat) (nodes : list ElectricalNode.t)
    (queue : list string) (visited : gset string) : gset string :=
  match fuel, queue with
  | _, [] => visited
  | O, _ => visited
  | S fuel', currentNodeId :: queue' =>
      match List.find (λ n, String.eqb (ElectricalNode.id n) currentNodeId) nodes with
      | None => bfs fuel' nodes queue' visited
      | Some currentNode =>
          let '(queue'', visited') :=
            fold_left (λ '(q, v) neighborId,
                         if bool_decide (neighborId ∈ v) then (q, v)
                         else (q ++ [neighborId], {[neighborId]} ∪ v))
                      (ElectricalNode.connections currentNode)
                      (queue', visited) in
          bfs fuel' nodes queue'' visited'
      end
  end.

Definition bfsFuel (nodes : list ElectricalNode.t) : nat :=
  S (foldr (λ n acc, connectionCount n + acc) 0 nodes).

(** [isGraphConnected] *)
Definition isGraphConnected (nodes : list ElectricalNode.t) : bool :=
  match nodes with
  | [] => true
  | first :: _ =>
      let visited :=
        bfs (bfsFuel nodes) nodes [ElectricalNode.id first]
            {[ElectricalNode.id first]} in
      Nat.eqb (size visited) (length nodes)
  end.

(** [validateNodeStructure]: validity flag and joined error text. *)
Definition validateNodeStructure (nodes : list ElectricalNode.t)
    (branches : list Branch.t) : bool * string :=
  let isolatedNodes :=
    filter (λ node, Nat.eqb (connectionCount node) 0 &&
                    negb (ElectricalNode.isGround node) = true) nodes in
  let errors1 :=
    if Nat.ltb 0 (length isolatedNodes)
    then ["Nodos aislados detectados: " +:+
          JS.join ", " (map ElectricalNode.id isolatedNodes)]
    else [] in
  let groundNodes := filter (λ node, ElectricalNode.isGround node = true) nodes in
  let errors2 :=
    if Nat.eqb (length groundNodes) 0
    then errors1 ++ ["No se encontró nodo de referencia (ground)"]
    else errors1 in
  let errors3 :=
    if negb (isGraphConnected nodes)
    then errors2 ++ ["El circuito tiene componentes desconectados"]
    else errors2 in
  let hasNode nid :=
    existsb (λ n, String.eqb (ElectricalNode.id n) nid) nodes in
  let errors :=
    fold_left (λ errs branch,
                 if negb (hasNode (Branch.startNodeId branch)) ||
                    negb (hasNode (Branch.endNodeId branch))
                 then errs ++ ["Rama " +:+ Branch.id branch +:+ " conecta nodos inválidos"]
                 else errs)
              branches errors3 in
  (Nat.eqb (length errors) 0, JS.join "; " errors).

(** *** Steps 1 to 3 of [analyzeNodes]: nodes and branches from positions *)

Definition tolerance : float := 10%float.

(** [generateNodeKey]: the two rounded coordinates that the template string
    prints; keys are compared with [keyEq]. *)
Definition generateNodeKey (x y : float) : float * float :=
  ((JS.round (x / tolerance) * tolerance)%float,
   (JS.round (y / tolerance) * tolerance)%float).

Definition keyEq (k1 k2 : float * float) : bool :=
  JS.sameText (fst k1) (fst k2) && JS.sameText (snd k1) (snd k2).

(** The [Map] of physical nodes: created on the first use of a key with the
    next [node_k] identifier, updated in place afterwards. *)
Definition touchNode (st : list ((float * float) * PhysicalNode.t) * nat)
    (point : Point.t) (type : string)
    (update : PhysicalNode.t → PhysicalNode.t)
  : list ((float * float) * PhysicalNode.t) * nat :=
  let '(physicalNodes, nodeIdCounter) := st in
  let nodeKey := generateNodeKey (Point.x point) (Point.y point) in
  match list_find (λ kn, keyEq (fst kn) nodeKey = true) physicalNodes with
  | Some (index, (k, node)) =>
      (<[index := (k, update node)]> physicalNodes, nodeIdCounter)
  | None =>
      (physicalNodes ++
         [(nodeKey,
           update (PhysicalNode.mk ("node_" +:+ pretty nodeIdCounter)
                     (Point.x point) (Point.y point) [] [] type false))],
       S nodeIdCounter)
  end.

Definition attachComponent (component : Component.t) (terminalIndex : nat)
    (node : PhysicalNode.t) : PhysicalNode.t :=
  let components :=
    PhysicalNode.components node ++
      [Attachment.mk (Component.id component) component terminalIndex] in
  if String.eqb (Component.type component) "ground"
  then PhysicalNode.mk (PhysicalNode.id node) (PhysicalNode.x node)
         (PhysicalNode.y node) components (PhysicalNode.wires node) "ground" true
  else PhysicalNode.mk (PhysicalNode.id node) (PhysicalNode.x node)
         (PhysicalNode.y node) components (PhysicalNode.wires node)
         (PhysicalNode.type node) (PhysicalNode.isGround node).

Definition attachWire (wireId : string) (node : PhysicalNode.t) : PhysicalNode.t :=
  if existsb (String.eqb wireId) (PhysicalNode.wires node) then node
  else PhysicalNode.mk (PhysicalNode.id node) (PhysicalNode.x node)
         (PhysicalNode.y node) (PhysicalNode.components node)
         (PhysicalNode.wires node ++ [wireId])
         (PhysicalNode.type node) (PhysicalNode.isGround node).

(** [identifyPhysicalNodes] *)
Definition identifyPhysicalNodes (circuit : Circuit.t) : list PhysicalNode.t :=
  let afterComponents :=
    fold_left (λ st component,
                 fold_left (λ st' '(terminalIndex, point),
                              touchNode st' point "junction"
                                (attachComponent component terminalIndex))
                           (imap (λ i p, (i, p)) (Component.connectionPoints component))
                           st)
              (Circuit.components circuit) ([], 0) in
  let afterWires :=
    fold_left (λ st wire,
                 let st1 :=
                   fold_left (λ st' point,
                                touchNode st' point "wire_terminal"
                                  (attachWire (Wire.id wire)))
                             [Wire.start wire; Wire.end_ wire] st in
                 fold_left (λ st' junction,
                              touchNode st' junction "wire_junction"
                                (attachWire (Wire.id wire)))
                           (Wire.junctions wire) st1)
              (Circuit.wires circuit) afterComponents in
  map snd (fst afterWires).

(** [findNodeAtPosition]: the index of the first physical node within the
    tolerance on both axes. *)
Definition findNodeAtPosition (nodes : list PhysicalNode.t) (x y : float)
  : option nat :=
  fst <$> list_find (λ node,
                       JS.lt (abs (PhysicalNode.x node - x)%float) tolerance &&
                       JS.lt (abs (PhysicalNode.y node - y)%float) tolerance = true)
                    nodes.

(** [classifyNodeType] *)
Definition classifyNodeType (components : list Attachment.t) (wireCount : nat)
  : string :=
  let k := length components in
  if Nat.eqb k 0 && Nat.eqb wireCount 0 then "isolated"
  else if existsb (λ c, String.eqb (Component.type (Attachment.component c)) "ground")
                  components then "ground"
  else if Nat.ltb 0 k && Nat.eqb wireCount 0 then "component_terminal"
  else if Nat.eqb k 0 && Nat.ltb 0 wireCount then "wire_junction"
  else if Nat.eqb (k + wireCount) 2 then "simple_connection"
  else if Nat.ltb 2 (k + wireCount) then "junction"
  else "unknown".

(** [findElectricalNodeAtPosition], as an index. *)
Definition findElectricalNodeAtPosition (electricalNodes : list ElectricalNode.t)
    (x y : float) : option nat :=
  fst <$> list_find (λ node,
                       JS.lt (abs (ElectricalNode.x node - x)%float) tolerance &&
                       JS.lt (abs (ElectricalNode.y node - y)%float) tolerance = true)
                    electricalNodes.

Definition nodeIdAt (electricalNodes : list ElectricalNode.t) (i : nat) : string :=
  default "" (ElectricalNode.id <$> electricalNodes !! i).

Definition addConnection (neighborId : string) (node : ElectricalNode.t)
  : ElectricalNode.t :=
  if existsb (String.eqb neighborId) (ElectricalNode.connections node) then node
  else ElectricalNode.mk (ElectricalNode.id node) (ElectricalNode.x node)
         (ElectricalNode.y node) (ElectricalNode.physicalNodes node)
         (ElectricalNode.components node) (ElectricalNode.wires node)
         (ElectricalNode.connections node ++ [neighborId])
         (ElectricalNode.isGround node) (ElectricalNode.voltage node)
         (ElectricalNode.type node).

(** The bidirectional link added when two distinct nodes are found. *)
Definition connect (electricalNodes : list ElectricalNode.t)
    (n1 n2 : option nat) : list ElectricalNode.t :=
  match n1, n2 with
  | Some i1, Some i2 =>
      if Nat.eqb i1 i2 then electricalNodes
      else
        let id1 := nodeIdAt electricalNodes i1 in
        let id2 := nodeIdAt electricalNodes i2 in
        alter (addConnection id1) i2 (alter (addConnection id2) i1 electricalNodes)
  | _, _ => electricalNodes
  end.

Definition pointAt (points : list Point.t) (i : nat) : Point.t :=
  default (Point.mk nan nan) (points !! i).

(** [establishNodeConnections] *)
Definition establishNodeConnections (electricalNodes : list ElectricalNode.t)
    (circuit : Circuit.t) : list ElectricalNode.t :=
  let afterWires :=
    fold_left (λ nodes wire,
                 connect nodes
                   (findElectricalNodeAtPosition nodes
                      (Point.x (Wire.start wire)) (Point.y (Wire.start wire)))
                   (findElectricalNodeAtPosition nodes
                      (Point.x (Wire.end_ wire)) (Point.y (Wire.end_ wire))))
              (Circuit.wires circuit) electricalNodes in
  fold_left (λ nodes component,
               if String.eqb (Component.type component) "ground" then nodes
               else
                 let connectionPoints := Component.connectionPoints component in
                 if Nat.leb 2 (length connectionPoints) then
                   let p0 := pointAt connectionPoints 0 in
                   let p1 := pointAt connectionPoints 1 in
                   connect nodes
                     (findElectricalNodeAtPosition nodes (Point.x p0) (Point.y p0))
                     (findElectricalNodeAtPosition nodes (Point.x p1) (Point.y p1))
                 else nodes)
            (Circuit.components circuit) afterWires.

(** The first loop of [createElectricalNodes]: the physical nodes at the two
    ends of every ideal wire are united. *)
Definition uniteByWires (physicalNodes : list PhysicalNode.t)
    (circuit : Circuit.t) : UnionFind.t :=
  fold_left (λ uf wire,
               if JS.lt (Wire.resistance wire) 1e-6 then
                 match findNodeAtPosition physicalNodes
                         (Point.x (Wire.start wire)) (Point.y (Wire.start wire)),
                       findNodeAtPosition physicalNodes
                         (Point.x (Wire.end_ wire)) (Point.y (Wire.end_ wire)) with
                 | Some startIndex, Some endIndex =>
                     UnionFind.union uf startIndex endIndex
                 | _, _ => uf
                 end
               else uf)
            (Circuit.wires circuit) (UnionFind.create (length physicalNodes)).

(** [createElectricalNodes] *)
Definition createElectricalNodes (physicalNodes : list PhysicalNode.t)
    (circuit : Circuit.t) : list ElectricalNode.t :=
  let unionFind := uniteByWires physicalNodes circuit in
  let electricalNodeGroups : list (nat * list PhysicalNode.t) :=
    snd (fold_left
           (λ '(uf, groups) '(index, node),
              let '(rootIndex, uf') := UnionFind.find uf index in
              match list_find (λ g, fst g = rootIndex) groups with
              | Some (gi, (r, members)) =>
                  (uf', <[gi := (r, members ++ [node])]> groups)
              | None => (uf', groups ++ [(rootIndex, [node])])
              end)
           (imap (λ i n, (i, n)) physicalNodes) (unionFind, [])) in
  let electricalNodes :=
    imap (λ electricalNodeId '(rootIndex, nodeGroup),
            let count := JS.ofNat (length nodeGroup) in
            let avgX := (fold_left (λ sum n, (sum + PhysicalNode.x n)%float)
                                   nodeGroup 0%float / count)%float in
            let avgY := (fold_left (λ sum n, (sum + PhysicalNode.y n)%float)
                                   nodeGroup 0%float / count)%float in
            let allComponents := flat_map PhysicalNode.components nodeGroup in
            let allWires :=
              fold_left (λ acc physNode, fold_left setAdd (PhysicalNode.wires physNode) acc)
                        nodeGroup [] in
            let isGround := existsb PhysicalNode.isGround nodeGroup in
            ElectricalNode.mk ("enode_" +:+ pretty electricalNodeId) avgX avgY
              (map PhysicalNode.id nodeGroup) allComponents allWires []
              isGround 0%float
              (classifyNodeType allComponents (length allWires)))
         electricalNodeGroups in
  establishNodeConnections electricalNodes circuit.

(** [getComponentImpedance] of the node analyzer. *)
Definition getComponentImpedance (component : Component.t) (frequency : float)
  : Impedance.t :=
  let ty := Component.type component in
  if String.eqb ty "resistor" then Impedance.mk (Component.value component) 0
  else if String.eqb ty "capacitor" then
    if JS.seq frequency 0 then Impedance.mk infinity 0
    else Impedance.mk 0 (-1 / (2 * JS.PI * frequency * Component.value component))%float
  else if String.eqb ty "inductor" then
    Impedance.mk 0 (2 * JS.PI * frequency * Component.value component)%float
  else if String.eqb ty "voltage" || String.eqb ty "current" then
    Impedance.mk (JS.opt_or_else (Component.internalResistance component) 0) 0
  else if String.eqb ty "diode" then
    Impedance.mk (JS.opt_or_else (Component.forwardResistance component) 0.7) 0
  else Impedance.mk 0 0.

(** [identifyBranches] *)
Definition identifyBranches (circuit : Circuit.t)
    (electricalNodes : list ElectricalNode.t) : list Branch.t :=
  let componentBranches :=
    fold_left (λ branches component,
                 if String.eqb (Component.type component) "ground" then branches
                 else
                   let connectionPoints := Component.connectionPoints component in
                   if Nat.leb 2 (length connectionPoints) then
                     let p0 := pointAt connectionPoints 0 in
                     let p1 := pointAt connectionPoints 1 in
                     match findElectricalNodeAtPosition electricalNodes (Point.x p0) (Point.y p0),
                           findElectricalNodeAtPosition electricalNodes (Point.x p1) (Point.y p1) with
                     | Some s, Some e =>
                         branches ++
                           [Branch.mk ("branch_" +:+ pretty (length branches))
                              (Component.type component)
                              (Some (Component.id component)) (Some component) None
                              (nodeIdAt electricalNodes s) (nodeIdAt electricalNodes e)
                              0%float 0%float (getComponentImpedance component 0)]
                     | _, _ => branches
                     end
                   else branches)
              (Circuit.components circuit) [] in
  fold_left (λ branches wire,
               if JS.gt (Wire.resistance wire) 1e-6 then
                 match findElectricalNodeAtPosition electricalNodes
                         (Point.x (Wire.start wire)) (Point.y (Wire.start wire)),
                       findElectricalNodeAtPosition electricalNodes
                         (Point.x (Wire.end_ wire)) (Point.y (Wire.end_ wire)) with
                 | Some s, Some e =>
                     if Nat.eqb s e then branches
                     else
                       branches ++
                         [Branch.mk ("branch_" +:+ pretty (length branches)) "wire"
                            None None (Some (Wire.id wire))
                            (nodeIdAt electricalNodes s) (nodeIdAt electricalNodes e)
                            0%float 0%float (Impedance.mk (Wire.resistance wire) 0)]
                 | _, _ => branches
                 end
               else branches)
            (Circuit.wires circuit) componentBranches.

Definition countType (ty : string) (branches : list Branch.t) : nat :=
  length (filter (λ b, String.eqb (Branch.type b) ty = true) branches).

(** Steps 4 and 5 of [analyzeNodes] and the result it assembles, from the
    electrical nodes and branches of steps 1 to 3. *)
Definition analyzeNodesOf (electricalNodes : list ElectricalNode.t)
    (branches : list Branch.t) : NodeAnalysis.t :=
  let topology := analyzeTopology electricalNodes branches in
  let validation := validateNodeStructure electricalNodes branches in
  NodeAnalysis.mk (fst validation) (snd validation) electricalNodes branches
    topology (length electricalNodes) (length branches)
    (countType "voltage" branches) (countType "current" branches)
    (NodeAnalysis.mkStatistics
       (length (filter (λ n, connectionCount n = 0) electricalNodes))
       (length (filter (λ n, 2 < connectionCount n) electricalNodes))
       (length (filter (λ n, connectionCount n = 1) electricalNodes))).

(** [analyzeNodes].  On records and numbers none of the five steps throws,
    so the [catch] clause is not reached. *)
Definition analyzeNodes (circuit : Circuit.t) : NodeAnalysis.t :=
  let nodes := identifyPhysicalNodes circuit in
  let electricalNodes := createElectricalNodes nodes circuit in
  let branches := identifyBranches circuit electricalNodes in
  analyzeNodesOf electricalNodes branches.

(** The queue loop of [checkBasicConnectivity] over the component graph;
    an identifier is queued at most once and comes from a wire end
    ([checkBasicConnectivity_fuel] in Part II). *)
Fixpoint bfsComponents (fuel : nat) (componentGraph : JS.Map (list string))
    (queue : list string) (visited : gset string) : gset string :=
  match fuel, queue with
  | _, [] => visited
  | O, _ => visited
  | S fuel', currentId :: queue' =>
      let neighbors := default [] (JS.map_get componentGraph currentId) in
      let '(queue'', visited') :=
        fold_left (λ '(q, v) neighborId,
                     if bool_decide (neighborId ∈ v) then (q, v)
                     else (q ++ [neighborId], {[neighborId]} ∪ v))
                  neighbors (queue', visited) in
      bfsComponents fuel' componentGraph queue'' visited'
  end.

(** A wire end counts when it names a component ([null] and the empty
    string are falsy). *)
Definition namedEnd (o : option string) : option string :=
  match o with
  | Some s => if String.eqb s "" then None else Some s
  | None => None
  end.

(** One [componentGraph.get(a).add(b)]; [inl message] is the [TypeError]
    raised when [a] is not a key of the graph. *)
Definition addEdge (g : string + JS.Map (list string)) (a b : string)
  : string + JS.Map (list string) :=
  match g with
  | inl thrown => inl thrown
  | inr g =>
      match JS.map_get g a with
      | Some neighbors => inr (JS.map_set g a (setAdd neighbors b))
      | None => inl (JS.undefinedRead "add")
      end
  end.

(** The graph of [checkBasicConnectivity]: an empty neighbour set for every
    component, then both directions of every wire that names two
    components. *)
Definition componentGraph (circuit : Circuit.t) : string + JS.Map (list string) :=
  let emptyGraph : JS.Map (list string) :=
    fold_left (λ g comp, JS.map_set g (Component.id comp) [])
              (Circuit.components circuit) [] in
  fold_left (λ g wire,
               match namedEnd (Wire.startComponent wire),
                     namedEnd (Wire.endComponent wire) with
               | Some a, Some b => addEdge (addEdge g a b) b a
               | _, _ => g
               end)
            (Circuit.wires circuit) (inr emptyGraph).

(** The fuel of the queue loop: the first component and two neighbours per
    wire. *)
Definition connectivityFuel (circuit : Circuit.t) : nat :=
  S (2 * length (Circuit.wires circuit)).

(** [checkBasicConnectivity]: [inr isConnected], or [inl message] for the
    [TypeError] raised when a wire names a component that is not in the
    circuit. *)
Definition checkBasicConnectivity (circuit : Circuit.t) : string + bool :=
  match Circuit.components circuit, Circuit.wires circuit with
  | [], _ => inr false
  | _, [] => inr false
  | first :: _, _ =>
      match componentGraph circuit with
      | inl thrown => inl thrown
      | inr componentGraph =>
          let visited :=
            bfsComponents (connectivityFuel circuit) componentGraph
              [Component.id first] {[Component.id first]} in
          inr (Nat.eqb (size visited) (length (Circuit.components circuit)))
      end
  end.

End NodeAnalyzer.

(** ** CircuitMatrixBuilder ([src/utils/circuit_matrix.js]) *)

Module Dimensions.
Record t := mk {
  rows : option nat;
  cols : option nat;
  variables : option nat;
  voltageSourceCount : option nat;
  meshCount : option nat;
  totalResistance : option float;
  totalVoltage : option float;
  sourceVoltage : option float;
  isLadder : bool
}.
Definition empty : t := mk None None None None None None None None false.
End Dimensions.

Module Conditioning.
(** The object stored in [matrices.conditioning].  [isPositiveDefinite] is
    read by the solver's method selection; [checkMatrixConditioning] never
    writes it. *)
Record t := mk {
  determinant : option float;
  rank : option nat;
  isDiagonallyDominant : option bool;
  isSymmetric : option bool;
  isSingular : bool;
  warning : option string;
  isPositiveDefinite : bool
}.
Definition empty : t := mk None None None None false None false.
End Conditioning.

Module Matrices.
Record t := mk {
  isValid : bool;
  method : string;
  admittanceMatrix : option (list (list float));
  systemMatrix : option (list (list float));
  rightHandSide : option (list float);
  nodeIndexMap : JS.Map nat;
  branchIndexMap : JS.Map nat;
  dimensions : Dimensions.t;
  conditioning : option Conditioning.t;
  groundNodeId : option string;
  nodeCount : nat;
  branchCount : nat
}.
End Matrices.

Module CircuitMatrixBuilder.

Definition tolerance : float := 1e-12.

(** [createMatrix] *)
Definition createMatrix (rows cols : nat) : list (list float) :=
  replicate rows (replicate cols 0%float).

(** [createIndexMappings]: node index map (ground excluded), branch index
    map and the ground node identifier. *)
Definition createIndexMappings (nodeAnalysis : NodeAnalysis.t)
  : JS.Map nat * JS.Map nat * option string :=
  let groundNode :=
    List.find ElectricalNode.isGround (NodeAnalysis.nodes nodeAnalysis) in
  let groundNodeId := ElectricalNode.id <$> groundNode in
  let isGroundId nid :=
    match groundNodeId with
    | Some g => String.eqb nid g
    | None => false
    end in
  let nodeIndexMap :=
    fst (fold_left (λ '(m, nodeIndex) node,
                      if isGroundId (ElectricalNode.id node) then (m, nodeIndex)
                      else (JS.map_set m (ElectricalNode.id node) nodeIndex,
                            S nodeIndex))
                   (NodeAnalysis.nodes nodeAnalysis) ([], 0)) in
  let branchIndexMap :=
    fold_left (λ m '(index, branch), JS.map_set m (Branch.id branch) index)
              (imap (λ i b, (i, b)) (NodeAnalysis.branches nodeAnalysis)) [] in
  (nodeIndexMap, branchIndexMap, groundNodeId).

(** [calculateAdmittance] *)
Definition calculateAdmittance (impedance : Impedance.t) : Impedance.t :=
  let real := JS.or_else (Impedance.real impedance) 0 in
  let imag := JS.or_else (Impedance.imaginary impedance) 0 in
  let denominator := (real * real + imag * imag)%float in
  if JS.lt denominator tolerance
  then Impedance.mk infinity 0
  else Impedance.mk (real / denominator)%float (- imag / denominator)%float.

Definition addTo2 (m : list (list float)) (i j : nat) (v : float) :=
  JS.set2 m i j (JS.get2 m i j + v)%float.
Definition subFrom2 (m : list (list float)) (i j : nat) (v : float) :=
  JS.set2 m i j (JS.get2 m i j - v)%float.

(** [addBranchToNodalMatrix], on the pair (G, I).  The identifiers of the
    nodes are distinct, as [analyzeNodes] makes them, so every index of the
    node index map is below the number [n] of its entries and every cell
    written exists. *)
Definition addBranchToNodalMatrix (nodeIndexMap : JS.Map nat)
    (GI : list (list float) * list float) (branch : Branch.t)
  : string + (list (list float) * list float) :=
  let '(G, Ivec) := GI in
  let startNodeIndex := JS.map_get nodeIndexMap (Branch.startNodeId branch) in
  let endNodeIndex := JS.map_get nodeIndexMap (Branch.endNodeId branch) in
  let admittance := calculateAdmittance (Branch.impedance branch) in
  if negb (JS.isFinite (Impedance.real admittance)) then inr (G, Ivec)
  else
    let a := Impedance.real admittance in
    let G' :=
      match startNodeIndex, endNodeIndex with
      | Some s, Some e =>
          subFrom2 (subFrom2 (addTo2 (addTo2 G s s a) e e a) s e a) e s a
      | Some s, None => addTo2 G s s a
      | None, Some e => addTo2 G e e a
      | None, None => G
      end in
    if String.eqb (Branch.type branch) "current" then
      JS.bind (Branch.componentValue branch) (λ current,
        let I1 := match startNodeIndex with
                  | Some s => <[s := (JS.get Ivec s - current)%float]> Ivec
                  | None => Ivec
                  end in
        inr (G',
             match endNodeIndex with
             | Some e => <[e := (JS.get I1 e + current)%float]> I1
             | None => I1
             end))
    else inr (G', Ivec).

(** [handleVoltageSourcesNodal]: [None] when there is no voltage source
    (the function returns 0 and leaves the matrices alone), otherwise the
    expanded matrix, the expanded right-hand side and the source count. *)
Definition handleVoltageSourcesNodal (nodeAnalysis : NodeAnalysis.t)
    (nodeIndexMap : JS.Map nat) (originalSize : nat)
    (admittanceMatrix : list (list float)) (rightHandSide : list float)
  : string + option (list (list float) * list float * nat) :=
  let voltageSources :=
    filter (λ b, String.eqb (Branch.type b) "voltage" = true)
           (NodeAnalysis.branches nodeAnalysis) in
  if Nat.eqb (length voltageSources) 0 then inr None
  else
    let newSize := originalSize + length voltageSources in
    let copied :=
      fold_left (λ '(M, R) i,
                   (fold_left (λ M' j, JS.set2 M' i j (JS.get2 admittanceMatrix i j))
                              (seq 0 originalSize) M,
                    <[i := JS.get rightHandSide i]> R))
                (seq 0 originalSize)
                (createMatrix newSize newSize, JS.fill newSize 0%float) in
    JS.bind
      (JS.foldThrow
         (λ '(M, R) '(idx, source),
            let sourceRow := originalSize + idx in
            let M1 :=
              match JS.map_get nodeIndexMap (Branch.startNodeId source) with
              | Some s => JS.set2 (JS.set2 M sourceRow s 1%float) s sourceRow 1%float
              | None => M
              end in
            let M2 :=
              match JS.map_get nodeIndexMap (Branch.endNodeId source) with
              | Some e => JS.set2 (JS.set2 M1 sourceRow e (-1)%float) e sourceRow (-1)%float
              | None => M1
              end in
            JS.bind (Branch.componentValue source) (λ value,
              inr (M2, <[sourceRow := value]> R)))
         (imap (λ i b, (i, b)) voltageSources) copied)
      (λ '(expandedMatrix, expandedRHS),
         inr (Some (expandedMatrix, expandedRHS, length voltageSources))).

(** The pieces of the matrices object a builder fills in:
    admittance matrix, system matrix, right-hand side, dimensions. *)
Record built := mkBuilt {
  b_admittanceMatrix : option (list (list float));
  b_systemMatrix : list (list float);
  b_rightHandSide : list float;
  b_dimensions : Dimensions.t
}.

(** [buildNodalMatrices].  When voltage sources are present the expanded
    right-hand side is kept, while the last assignments of the function put
    the unexpanded admittance matrix and its size [n] back in place. *)
Definition buildNodalMatrices (nodeAnalysis : NodeAnalysis.t)
    (nodeIndexMap : JS.Map nat) (nodeCount : nat) : string + built :=
  let n := nodeCount in
  JS.bind
    (JS.foldThrow (addBranchToNodalMatrix nodeIndexMap)
                  (NodeAnalysis.branches nodeAnalysis)
                  (createMatrix n n, JS.fill n 0%float))
    (λ '(G, Ivec),
       JS.bind (handleVoltageSourcesNodal nodeAnalysis nodeIndexMap n G Ivec)
         (λ expanded,
            let rightHandSide := match expanded with
                                 | Some (_, expandedRHS, _) => expandedRHS
                                 | None => Ivec
                                 end in
            let voltageSourceCount := match expanded with
                                      | Some (_, _, k) => k
                                      | None => 0
                                      end in
            inr (mkBuilt (Some G) G rightHandSide
                   (Dimensions.mk (Some n) (Some n) (Some n)
                      (Some voltageSourceCount) None None None None false)))).

(** [findSharedBranches] *)
Definition findSharedBranches (mesh1 mesh2 : Mesh.t) : list Branch.t :=
  filter (λ branch1,
            existsb (λ branch2, String.eqb (Branch.id branch1) (Branch.id branch2))
                    (Mesh.branches mesh2) = true)
         (Mesh.branches mesh1).

(** The [reduce] used for both kinds of entry. *)
Definition sumRealImpedance (branches : list Branch.t) : float :=
  fold_left (λ sum branch,
               (sum + JS.or_else (Impedance.real (Branch.impedance branch)) 0)%float)
            branches 0%float.

(** [buildMeshImpedanceMatrix]: the two nested [forEach] loops writing
    [Z[i][j]]. *)
Definition buildMeshImpedanceMatrix (meshes : list Mesh.t)
    (Z : list (list float)) : list (list float) :=
  fold_left (λ Z1 '(i, mesh_i),
               fold_left (λ Z2 '(j, mesh_j),
                            if Nat.eqb i j
                            then JS.set2 Z2 i j (sumRealImpedance (Mesh.branches mesh_i))
                            else JS.set2 Z2 i j
                                   (sumRealImpedance (findSharedBranches mesh_i mesh_j)))
                         (imap (λ j m, (j, m)) meshes) Z1)
            (imap (λ i m, (i, m)) meshes) Z.

(** [getVoltageSourcePolarity] *)
Definition getVoltageSourcePolarity (voltageSource : Branch.t) (mesh : Mesh.t)
  : float := 1%float.

(** The [reduce] of [buildMeshVoltageVector] over the branches of a mesh. *)
Definition meshVoltage (mesh : Mesh.t) : string + float :=
  JS.foldThrow (λ sum branch,
                  if String.eqb (Branch.type branch) "voltage"
                  then JS.bind (Branch.componentValue branch) (λ value,
                         inr (sum + getVoltageSourcePolarity branch mesh * value)%float)
                  else inr sum)
               (Mesh.branches mesh) 0%float.

(** [buildMeshVoltageVector] *)
Definition buildMeshVoltageVector (meshes : list Mesh.t) (E : list float)
  : string + list float :=
  JS.foldThrow (λ E1 '(i, mesh),
                  JS.bind (meshVoltage mesh) (λ voltage, inr (<[i := voltage]> E1)))
               (imap (λ i m, (i, m)) meshes) E.

(** [buildMeshMatrices]; [inl] is the thrown error. *)
Definition buildMeshMatrices (nodeAnalysis : NodeAnalysis.t) : string + built :=
  let meshes := Topology.meshes (NodeAnalysis.topology nodeAnalysis) in
  let m := length meshes in
  if Nat.eqb m 0
  then inl "No se encontraron mallas independientes para análisis"
  else
    let Z := buildMeshImpedanceMatrix meshes (createMatrix m m) in
    JS.bind (buildMeshVoltageVector meshes (JS.fill m 0%float)) (λ E,
      inr (mkBuilt None Z E
             (Dimensions.mk (Some m) (Some m) (Some m) None (Some m)
                            None None None false))).

Definition branchesOfType (ty : string) (nodeAnalysis : NodeAnalysis.t)
  : list Branch.t :=
  filter (λ b, String.eqb (Branch.type b) ty = true)
         (NodeAnalysis.branches nodeAnalysis).

(** [buildSeriesMatrices] *)
Definition buildSeriesMatrices (nodeAnalysis : NodeAnalysis.t) : string + built :=
  let voltageSources := branchesOfType "voltage" nodeAnalysis in
  let resistors := branchesOfType "resistor" nodeAnalysis in
  if Nat.eqb (length voltageSources) 0
  then inl "Circuito serie sin fuente de voltaje"
  else
    JS.bind
      (JS.foldThrow (λ sum vs,
                       JS.bind (Branch.componentValue vs) (λ value,
                         inr (sum + value)%float))
                    voltageSources 0%float)
      (λ totalVoltage,
         let totalResistance :=
           fold_left (λ sum r, (sum + Impedance.real (Branch.impedance r))%float)
                     resistors 0%float in
         inr (mkBuilt None [[totalResistance]] [totalVoltage]
                (Dimensions.mk (Some 1) (Some 1) (Some 1) None None
                   (Some totalResistance) (Some totalVoltage) None false))).

(** [buildParallelMatrices] *)
Definition buildParallelMatrices (nodeAnalysis : NodeAnalysis.t) : string + built :=
  let voltageSources := branchesOfType "voltage" nodeAnalysis in
  let resistors := branchesOfType "resistor" nodeAnalysis in
  match voltageSources with
  | [] => inl "Circuito paralelo sin fuente de voltaje"
  | firstSource :: _ =>
      JS.bind (Branch.componentValue firstSource) (λ sourceVoltage,
        let n := length resistors in
        let systemMatrix :=
          fold_left (λ M '(i, resistor),
                       JS.set2 M i i
                         (JS.or_else (Impedance.real (Branch.impedance resistor)) 1))
                    (imap (λ i r, (i, r)) resistors) (createMatrix n n) in
        inr (mkBuilt None systemMatrix (JS.fill n sourceVoltage)
               (Dimensions.mk (Some n) (Some n) (Some n) None None
                              None None (Some sourceVoltage) false)))
  end.

(** [calculateDeterminant] and [approximateDeterminant] of the builder. *)
Definition approximateDeterminant (matrix : list (list float)) : float :=
  fold_left (λ product i, (product * JS.get2 matrix i i)%float)
            (seq 0 (length matrix)) 1%float.

Definition calculateDeterminant (matrix : list (list float)) : float :=
  let m00 := JS.get2 matrix 0 0 in let m01 := JS.get2 matrix 0 1 in
  let m02 := JS.get2 matrix 0 2 in let m10 := JS.get2 matrix 1 0 in
  let m11 := JS.get2 matrix 1 1 in let m12 := JS.get2 matrix 1 2 in
  let m20 := JS.get2 matrix 2 0 in let m21 := JS.get2 matrix 2 1 in
  let m22 := JS.get2 matrix 2 2 in
  match length matrix with
  | 1 => m00
  | 2 => (m00 * m11 - m01 * m10)%float
  | 3 => (m00 * (m11 * m22 - m12 * m21)
          - m01 * (m10 * m22 - m12 * m20)
          + m02 * (m10 * m21 - m11 * m20))%float
  | _ => approximateDeterminant matrix
  end.

(** [estimateRank] *)
Definition estimateRank (matrix : list (list float)) : nat :=
  length (filter (λ row,
                    JS.gt (fold_left (λ sum val, (sum + abs val)%float) row 0%float)
                          tolerance = true)
                 matrix).

(** [checkDiagonalDominance] *)
Definition checkDiagonalDominance (matrix : list (list float)) : bool :=
  forallb (λ '(i, row),
             let diagonal := abs (JS.get row i) in
             let offDiagonalSum :=
               fold_left (λ sum '(j, val),
                            if negb (Nat.eqb i j) then (sum + abs val)%float else sum)
                         (imap (λ j v, (j, v)) row) 0%float in
             negb (JS.lt diagonal offDiagonalSum))
          (imap (λ i r, (i, r)) matrix).

(** [checkSymmetry] *)
Definition checkSymmetry (matrix : list (list float)) : bool :=
  let n := length matrix in
  forallb (λ i,
             forallb (λ j,
                        negb (JS.gt (abs (JS.get2 matrix i j - JS.get2 matrix j i)%float)
                                    tolerance))
                     (seq 0 n))
          (seq 0 n).

(** [checkMatrixConditioning], for a present system matrix. *)
Definition checkMatrixConditioning (matrix : list (list float)) : Conditioning.t :=
  let determinant := calculateDeterminant matrix in
  let isDiagonallyDominant := checkDiagonalDominance matrix in
  let isSingular := JS.lt (abs determinant) tolerance in
  let warning1 :=
    if isSingular then Some "Matriz singular o cerca de singular" else None in
  let warning :=
    if negb isDiagonallyDominant
    then Some "Matriz no es diagonalmente dominante - posible inestabilidad numérica"
    else warning1 in
  Conditioning.mk (Some determinant) (Some (estimateRank matrix))
    (Some isDiagonallyDominant) (Some (checkSymmetry matrix))
    isSingular warning false.

(** [extractSubmatrix] *)
Definition extractSubmatrix (matrix : list (list float))
    (rowIndices colIndices : list nat) : list (list float) :=
  map (λ i, map (λ j, JS.get2 matrix i j) colIndices) rowIndices.

(** [isPositiveDefinite] (never called by the builder itself). *)
Definition isPositiveDefinite (matrix : list (list float)) : bool :=
  let n := length matrix in
  forallb (λ i, negb (JS.le (JS.get2 matrix i i) 0)) (seq 0 n) &&
  forallb (λ k,
             negb (JS.le (calculateDeterminant
                            (extractSubmatrix matrix (seq 0 k) (seq 0 k))) 0))
          (seq 1 n).

Inductive buildResult :=
| Built (matrices : Matrices.t)
| BuildFailed (error : string).

Definition resultIsValid (r : buildResult) : bool :=
  match r with
  | Built m => Matrices.isValid m
  | BuildFailed _ => false
  end.

(** [buildSystemMatrices]: index maps, dispatch on the method, conditioning.
    An error thrown by a builder is caught and reported. *)
Definition buildSystemMatrices (circuit : Circuit.t)
    (nodeAnalysis : NodeAnalysis.t) (method : string) : buildResult :=
  let '(nodeIndexMap, branchIndexMap, groundNodeId) :=
    createIndexMappings nodeAnalysis in
  let nodeCount := JS.map_size nodeIndexMap in
  let branchCount := JS.map_size branchIndexMap in
  let nodal := buildNodalMatrices nodeAnalysis nodeIndexMap nodeCount in
  let dispatched : option (string + (string * built)) :=
    if String.eqb method "nodal" || String.eqb method "nodal_modified"
    then Some (sum_map id (pair method) nodal)
    else if String.eqb method "mesh" || String.eqb method "mesh_modified"
    then Some (sum_map id (pair method) (buildMeshMatrices nodeAnalysis))
    else if String.eqb method "series"
    then Some (sum_map id (pair method) (buildSeriesMatrices nodeAnalysis))
    else if String.eqb method "parallel"
    then Some (sum_map id (pair method) (buildParallelMatrices nodeAnalysis))
    else if String.eqb method "ladder"
    then Some (sum_map id
                 (λ nodal,
                    ("ladder",
                     mkBuilt (b_admittanceMatrix nodal) (b_systemMatrix nodal)
                             (b_rightHandSide nodal)
                             (let d := b_dimensions nodal in
                              Dimensions.mk (Dimensions.rows d) (Dimensions.cols d)
                                (Dimensions.variables d)
                                (Dimensions.voltageSourceCount d)
                                (Dimensions.meshCount d)
                                (Dimensions.totalResistance d)
                                (Dimensions.totalVoltage d)
                                (Dimensions.sourceVoltage d) true)))
                 nodal)
    else None in
  match dispatched with
  | None => BuildFailed ("Método no soportado: " +:+ method)
  | Some (inl message) =>
      BuildFailed ("Error en construcción de matrices: " +:+ message)
  | Some (inr (method', b)) =>
      Built (Matrices.mk true method' (b_admittanceMatrix b)
               (Some (b_systemMatrix b)) (Some (b_rightHandSide b))
               nodeIndexMap branchIndexMap (b_dimensions b)
               (Some (checkMatrixConditioning (b_systemMatrix b)))
               groundNodeId nodeCount branchCount)
  end.

End CircuitMatrixBuilder.

(** ** EquationSolver ([src/utils/equation_solver.js]) *)

Module Solution.
(** What a solving method returns, as far as [solve] reads it.  [values] is
    absent only in the failure object of [solveSeriesCircuit]; [iterations]
    and [residuals] ([convergence.residuals]) are reported by the iterative
    methods.  The properties that only report how the result was obtained
    and are never read again ([decomposition], [determinant],
    [seriesAnalysis], [parallelAnalysis]) are left out. *)
Record t := mk {
  isValid : bool;
  error : option string;
  values : option (list float);
  method : option string;
  iterations : option nat;
  residuals : list float
}.
End Solution.

Module EquationSolver.

Definition tolerance : float := 1e-10.
Definition maxIterations : nat := 1000.

(** [createMatrix], [createIdentityMatrix], [cloneMatrix] *)
Definition createMatrix (rows cols : nat) : list (list float) :=
  replicate rows (replicate cols 0%float).

Definition createIdentityMatrix (n : nat) : list (list float) :=
  fold_left (λ identity i, JS.set2 identity i i 1%float) (seq 0 n)
            (createMatrix n n).

Definition cloneMatrix (matrix : list (list float)) : list (list float) :=
  map (λ row, row) matrix.

(** The partial-pivoting search shared by both factorisations:
    the row [k > i] with the largest [|M[k][i]|], or [i]. *)
Definition findPivotRow (M : list (list float)) (n i : nat) : nat :=
  fold_left (λ maxRow k,
               if JS.gt (abs (JS.get2 M k i)) (abs (JS.get2 M maxRow i))
               then k else maxRow)
            (seq (i + 1) (n - (i + 1))) i.

(** [[M[i], M[r]] = [M[r], M[i]]] *)
Definition swapRows (M : list (list float)) (i r : nat) : list (list float) :=
  let row_i := default [] (M !! i) in
  let row_r := default [] (M !! r) in
  <[r := row_i]> (<[i := row_r]> M).

(** Elimination below the pivot of column [i] in the augmented matrix. *)
Definition eliminateColumn (augmented : list (list float)) (n i : nat)
  : list (list float) :=
  fold_left (λ aug k,
               let factor := (JS.get2 aug k i / JS.get2 aug i i)%float in
               fold_left (λ aug' j,
                            JS.set2 aug' k j
                              (JS.get2 aug' k j - factor * JS.get2 aug' i j)%float)
                         (seq i (n + 1 - i)) aug)
            (seq (i + 1) (n - (i + 1))) augmented.

(** One round of the forward phase; [inl i] is the error thrown when the
    pivot of column [i] is below the tolerance. *)
Definition forwardStep (n : nat) (st : nat + list (list float)) (i : nat)
  : nat + list (list float) :=
  match st with
  | inl thrown => inl thrown
  | inr augmented =>
      let maxRow := findPivotRow augmented n i in
      let augmented1 :=
        if negb (Nat.eqb maxRow i) then swapRows augmented i maxRow
        else augmented in
      if JS.lt (abs (JS.get2 augmented1 i i)) tolerance then inl i
      else inr (eliminateColumn augmented1 n i)
  end.

Definition forwardElimination (n : nat) (augmented : list (list float))
  : nat + list (list float) :=
  fold_left (forwardStep n) (seq 0 n) (inr augmented).

(** Back substitution on an upper-triangular matrix [U] with right-hand
    side read by [rhs]: for [i = n-1] down to [0]. *)
Definition backSubstitution (n : nat) (U : list (list float))
    (rhs : nat → float) : list float :=
  fold_left (λ x i,
               let xi0 := rhs i in
               let xi1 :=
                 fold_left (λ acc j, (acc - JS.get2 U i j * JS.get x j)%float)
                           (seq (i + 1) (n - (i + 1))) xi0 in
               <[i := (xi1 / JS.get2 U i i)%float]> x)
            (rev (seq 0 n)) (JS.fill n nan).

Definition pivotMessage (i : nat) : string :=
  "Elemento pivote muy pequeño en posición (" +:+ pretty i +:+ ", " +:+
  pretty i +:+ ")".

(** [gaussianElimination] *)
Definition gaussianElimination (A : list (list float)) (b : list float)
  : Solution.t :=
  let n := length A in
  let augmented := imap (λ i row, row ++ [JS.get b i]) A in
  match forwardElimination n augmented with
  | inl i =>
      Solution.mk false
        (Some ("Error en eliminación gaussiana: " +:+ pivotMessage i))
        (Some (JS.fill n 0%float)) None None []
  | inr augmented' =>
      let x := backSubstitution n augmented' (λ i, JS.get2 augmented' i n) in
      Solution.mk true None (Some x) (Some "gaussian_elimination") None []
  end.

(** One round of the LU factorisation on the pair (L, U). *)
Definition luStep (n : nat)
    (st : nat + (list (list float) * list (list float))) (i : nat)
  : nat + (list (list float) * list (list float)) :=
  match st with
  | inl thrown => inl thrown
  | inr (L, U) =>
      let maxRow := findPivotRow U n i in
      let '(L1, U1) :=
        if negb (Nat.eqb maxRow i)
        then (fold_left (λ L' j,
                           let lij := JS.get2 L' i j in
                           let lmj := JS.get2 L' maxRow j in
                           JS.set2 (JS.set2 L' i j lmj) maxRow j lij)
                        (seq 0 i) L,
              swapRows U i maxRow)
        else (L, U) in
      if JS.lt (abs (JS.get2 U1 i i)) tolerance then inl i
      else
        inr (fold_left
               (λ '(L', U') k,
                  let lki := (JS.get2 U' k i / JS.get2 U' i i)%float in
                  let L'' := JS.set2 L' k i lki in
                  (L'',
                   fold_left (λ U'' j,
                                JS.set2 U'' k j
                                  (JS.get2 U'' k j - JS.get2 L'' k i * JS.get2 U'' i j)%float)
                             (seq i (n - i)) U'))
               (seq (i + 1) (n - (i + 1))) (L1, U1))
  end.

Definition luFactorisation (n : nat) (A : list (list float))
  : nat + (list (list float) * list (list float)) :=
  fold_left (luStep n) (seq 0 n) (inr (createIdentityMatrix n, cloneMatrix A)).

(** Forward substitution [Ly = b] of [luDecomposition] (unit diagonal,
    no division). *)
Definition forwardSubstitution (n : nat) (L : list (list float))
    (b : list float) : list float :=
  fold_left (λ y i,
               <[i := fold_left (λ acc j, (acc - JS.get2 L i j * JS.get y j)%float)
                                (seq 0 i) (JS.get b i)]> y)
            (seq 0 n) (JS.fill n nan).

Definition luPivotMessage (i : nat) : string :=
  "Pivote muy pequeño en descomposición LU: posición (" +:+ pretty i +:+
  ", " +:+ pretty i +:+ ")".

(** [luDecomposition].  In [equation_solver.js] the text of this method
    stands in two pieces.  The first, under the method's header, is the
    factorisation loop and ends with the comment line [// Resolver Ly = b].
    The second is the rest of that line, [(sustitución hacia adelante)],
    the two substitutions [Ly = b] and [Ux = y], the returned object and the
    [catch] clause with the text [Error en descomposición LU]; it stands
    after the closing brace of the class.  The lines that follow the first
    piece in the file (they divide by [L[i][i]] and solve [L^T x = y]) are
    the second half of [choleskyDecomposition], whose first half ends the
    file with the same comment line. *)
Definition luDecomposition (A : list (list float)) (b : list float)
  : Solution.t :=
  let n := length A in
  match luFactorisation n A with
  | inl i =>
      Solution.mk false
        (Some ("Error en descomposición LU: " +:+ luPivotMessage i))
        (Some (JS.fill n 0%float)) None None []
  | inr (L, U) =>
      let y := forwardSubstitution n L b in
      let x := backSubstitution n U (λ i, JS.get y i) in
      Solution.mk true None (Some x) (Some "lu_decomposition") None []
  end.

(** [approximateDeterminant], [getMinor] and [calculateDeterminant]
    (closed forms up to 3x3, cofactor expansion along row 0 for 4x4,
    product of the diagonal above). *)
Definition approximateDeterminant (matrix : list (list float)) : float :=
  fold_left (λ product i, (product * JS.get2 matrix i i)%float)
            (seq 0 (length matrix)) 1%float.

Definition getMinor (matrix : list (list float)) (row col : nat)
  : list (list float) :=
  let n := length matrix in
  map (λ i, map (λ j, JS.get2 matrix i j)
                (filter (λ j, j ≠ col) (seq 0 n)))
      (filter (λ i, i ≠ row) (seq 0 n)).

Definition determinantUpTo3 (matrix : list (list float)) : float :=
  let m00 := JS.get2 matrix 0 0 in let m01 := JS.get2 matrix 0 1 in
  let m02 := JS.get2 matrix 0 2 in let m10 := JS.get2 matrix 1 0 in
  let m11 := JS.get2 matrix 1 1 in let m12 := JS.get2 matrix 1 2 in
  let m20 := JS.get2 matrix 2 0 in let m21 := JS.get2 matrix 2 1 in
  let m22 := JS.get2 matrix 2 2 in
  match length matrix with
  | 1 => m00
  | 2 => (m00 * m11 - m01 * m10)%float
  | 3 => (m00 * (m11 * m22 - m12 * m21)
          - m01 * (m10 * m22 - m12 * m20)
          + m02 * (m10 * m21 - m11 * m20))%float
  | _ => approximateDeterminant matrix
  end.

Definition calculateDeterminant (matrix : list (list float)) : float :=
  match length matrix with
  | 4 =>
      fold_left (λ det i,
                   let minor := getMinor matrix 0 i in
                   let sign := if Nat.even i then 1%float else (-1)%float in
                   let cofactor := (sign * determinantUpTo3 minor)%float in
                   (det + JS.get2 matrix 0 i * cofactor)%float)
                (seq 0 4) 0%float
  | _ => determinantUpTo3 matrix
  end.

(** [cramerRule] *)
Definition cramerRule (A : list (list float)) (b : list float) : Solution.t :=
  let n := length A in
  let detA := calculateDeterminant A in
  if JS.lt (abs detA) tolerance
  then Solution.mk false
         (Some "Error en regla de Cramer: Determinante muy pequeño para regla de Cramer")
         (Some (JS.fill n 0%float)) None None []
  else
    let x :=
      fold_left (λ x i,
                   let Ai :=
                     fold_left (λ Ai j, JS.set2 Ai j i (JS.get b j))
                               (seq 0 n) (cloneMatrix A) in
                   let detAi := calculateDeterminant Ai in
                   <[i := (detAi / detA)%float]> x)
                (seq 0 n) (JS.fill n nan) in
    Solution.mk true None (Some x) (Some "cramer_rule") None [].

(** The factorisation loops of [choleskyDecomposition] on [L];
    [inl tt] is the thrown "not positive definite" error. *)
Definition choleskyCell (A : list (list float))
    (st : unit + list (list float)) (ij : nat * nat)
  : unit + list (list float) :=
  match st with
  | inl thrown => inl thrown
  | inr L =>
      let '(i, j) := ij in
      if Nat.eqb i j then
        let sum := fold_left (λ sum k, (sum + JS.get2 L j k * JS.get2 L j k)%float)
                             (seq 0 j) 0%float in
        let ljj := sqrt (JS.get2 A j j - sum)%float in
        if JS.le ljj 0 then inl tt else inr (JS.set2 L j j ljj)
      else
        let sum := fold_left (λ sum k, (sum + JS.get2 L i k * JS.get2 L j k)%float)
                             (seq 0 j) 0%float in
        inr (JS.set2 L i j ((JS.get2 A i j - sum) / JS.get2 L j j)%float)
  end.

Definition choleskyFactorisation (n : nat) (A : list (list float))
  : unit + list (list float) :=
  fold_left (choleskyCell A)
            (flat_map (λ i, map (pair i) (seq 0 (i + 1))) (seq 0 n))
            (inr (createMatrix n n)).

(** [choleskyDecomposition].  Its text stands in two pieces as well: the
    factorisation under the method's header, at the end of the file, and the
    substitutions [Ly = b] and [L^T x = y] with the returned object and the
    [catch] clause right after the factorisation loop of [luDecomposition]. *)
Definition choleskyDecomposition (A : list (list float)) (b : list float)
  : Solution.t :=
  let n := length A in
  match choleskyFactorisation n A with
  | inl _ =>
      Solution.mk false
        (Some "Error en descomposición Cholesky: Matriz no es definida positiva")
        (Some (JS.fill n 0%float)) None None []
  | inr L =>
      let y :=
        fold_left (λ y i,
                     let yi := fold_left (λ acc j, (acc - JS.get2 L i j * JS.get y j)%float)
                                         (seq 0 i) (JS.get b i) in
                     <[i := (yi / JS.get2 L i i)%float]> y)
                  (seq 0 n) (JS.fill n nan) in
      let x :=
        fold_left (λ x i,
                     let xi := fold_left (λ acc j, (acc - JS.get2 L j i * JS.get x j)%float)
                                         (seq (i + 1) (n - (i + 1))) (JS.get y i) in
                     <[i := (xi / JS.get2 L i i)%float]> x)
                  (rev (seq 0 n)) (JS.fill n nan) in
      Solution.mk true None (Some x) (Some "cholesky_decomposition") None []
  end.

(** [calculateResidual]: the norm of [Ax - b]. *)
Definition calculateResidual (A : list (list float)) (b x : list float) : float :=
  let n := length A in
  sqrt (fold_left (λ residual i,
                     let sum := fold_left (λ sum j, (sum + JS.get2 A i j * JS.get x j)%float)
                                          (seq 0 n) 0%float in
                     let diff := (sum - JS.get b i)%float in
                     (residual + diff * diff)%float)
                  (seq 0 n) 0%float).

(** One sweep of Jacobi: every component from the previous iterate. *)
Definition jacobiSweep (A : list (list float)) (b x xNew : list float)
  : list float :=
  let n := length A in
  fold_left (λ xNew' i,
               let sum := fold_left (λ sum j,
                                       if negb (Nat.eqb i j)
                                       then (sum + JS.get2 A i j * JS.get x j)%float
                                       else sum)
                                    (seq 0 n) 0%float in
               <[i := ((JS.get b i - sum) / JS.get2 A i i)%float]> xNew')
            (seq 0 n) xNew.

(** The iteration loop of [jacobiMethod]; [fuel] counts the iterations left. *)
Fixpoint jacobiLoop (fuel : nat) (A : list (list float)) (b : list float)
    (iter : nat) (x xNew : list float) (residuals : list float) : Solution.t :=
  match fuel with
  | O =>
      Solution.mk false
        (Some ("Error en método Jacobi: Jacobi no convergió en " +:+
               pretty maxIterations +:+ " iteraciones"))
        (Some x) None None residuals
  | S fuel' =>
      let xNew' := jacobiSweep A b x xNew in
      let residual := calculateResidual A b xNew' in
      let residuals' := residuals ++ [residual] in
      if JS.lt residual tolerance
      then Solution.mk true None (Some xNew') (Some "jacobi_iterative")
             (Some (iter + 1)) residuals'
      else jacobiLoop fuel' A b (iter + 1) xNew' xNew' residuals'
  end.

(** [jacobiMethod] *)
Definition jacobiMethod (A : list (list float)) (b : list float) : Solution.t :=
  let n := length A in
  jacobiLoop maxIterations A b 0 (JS.fill n 0%float) (JS.fill n nan) [].

(** One sweep of Gauss-Seidel: components are updated in place. *)
Definition gaussSeidelSweep (A : list (list float)) (b x : list float)
  : list float :=
  let n := length A in
  fold_left (λ x' i,
               let sum := fold_left (λ sum j,
                                       if negb (Nat.eqb i j)
                                       then (sum + JS.get2 A i j * JS.get x' j)%float
                                       else sum)
                                    (seq 0 n) 0%float in
               <[i := ((JS.get b i - sum) / JS.get2 A i i)%float]> x')
            (seq 0 n) x.

Fixpoint gaussSeidelLoop (fuel : nat) (A : list (list float)) (b : list float)
    (iter : nat) (x : list float) (residuals : list float) : Solution.t :=
  match fuel with
  | O =>
      Solution.mk false
        (Some ("Error en método Gauss-Seidel: Gauss-Seidel no convergió en " +:+
               pretty maxIterations +:+ " iteraciones"))
        (Some x) None None residuals
  | S fuel' =>
      let x' := gaussSeidelSweep A b x in
      let residual := calculateResidual A b x' in
      let residuals' := residuals ++ [residual] in
      if JS.lt residual tolerance
      then Solution.mk true None (Some x') (Some "gauss_seidel_iterative")
             (Some (iter + 1)) residuals'
      else gaussSeidelLoop fuel' A b (iter + 1) x' residuals'
  end.

(** [gaussSeidelMethod] *)
Definition gaussSeidelMethod (A : list (list float)) (b : list float)
  : Solution.t :=
  gaussSeidelLoop maxIterations A b 0 (JS.fill (length A) 0%float) [].

(** [solveSeriesCircuit]; an absent dimension reads as [undefined]. *)
Definition solveSeriesCircuit (matrices : Matrices.t) : Solution.t :=
  let dimensions := Matrices.dimensions matrices in
  let totalResistance := default nan (Dimensions.totalResistance dimensions) in
  let totalVoltage := default nan (Dimensions.totalVoltage dimensions) in
  if JS.le totalResistance 0
  then Solution.mk false (Some "Resistencia total inválida en circuito serie")
         None None None []
  else
    let current := (totalVoltage / totalResistance)%float in
    Solution.mk true None (Some [current]) (Some "series_analytical") None [].

(** [solveParallelCircuit] *)
Definition solveParallelCircuit (matrices : Matrices.t) : Solution.t :=
  let systemMatrix := default [] (Matrices.systemMatrix matrices) in
  let sourceVoltage :=
    default nan (Dimensions.sourceVoltage (Matrices.dimensions matrices)) in
  let currents :=
    imap (λ i row,
            let resistance := JS.get row i in
            if JS.gt resistance 0 then (sourceVoltage / resistance)%float
            else 0%float)
         systemMatrix in
  Solution.mk true None (Some currents) (Some "parallel_analytical") None [].

(** [vectorNorm] *)
Definition vectorNorm (vector : list float) : float :=
  sqrt (fold_left (λ sum val, (sum + val * val)%float) vector 0%float).

(** [verifySolution]: validity flag and residual.  Without a value vector
    the residual computation fails and the [catch] clause answers. *)
Definition verifySolution (A : list (list float)) (b : list float)
    (x : option (list float)) : bool * float :=
  match x with
  | None => (false, infinity)
  | Some x =>
      let residual := calculateResidual A b x in
      (JS.lt residual (tolerance * 1000)%float, residual)
  end.

(** [selectSolverMethod].  [solve] calls it after [validateInput], so the
    system matrix is present; a warning is a non-empty text. *)
Definition selectSolverMethod (matrices : Matrices.t) : string :=
  let n := length (default [] (Matrices.systemMatrix matrices)) in
  let method := Matrices.method matrices in
  let conditioning := Matrices.conditioning matrices in
  if String.eqb method "series" then "series_simple"
  else if String.eqb method "parallel" then "parallel_simple"
  else if Nat.leb n 3 &&
          match conditioning with
          | Some c => JS.gt (abs (default nan (Conditioning.determinant c))) tolerance
          | None => false
          end
  then "cramer"
  else if match conditioning with
          | Some c => bool_decide (Conditioning.isSymmetric c = Some true) &&
                      Conditioning.isPositiveDefinite c
          | None => false
          end
  then "cholesky"
  else if match conditioning with
          | None => true
          | Some c => match Conditioning.warning c with
                      | None => true
                      | Some w => String.eqb w ""
                      end
          end
  then (if Nat.leb n 10 then "direct_elimination" else "lu_decomposition")
  else if match conditioning with
          | Some c => bool_decide (Conditioning.isDiagonallyDominant c = Some true)
          | None => false
          end
  then "iterative_gauss_seidel"
  else "direct_elimination".

(** [extractNodeVoltages].  [matrices.groundNodeId] is [null] or a string,
    never [undefined], so the last entry is always reset to 0. *)
Definition extractNodeVoltages (solution : option (list float))
    (matrices : Matrices.t) : string + list float :=
  let nodeIndexMap := Matrices.nodeIndexMap matrices in
  let zeros := JS.fill (JS.map_size nodeIndexMap + 1) 0%float in
  let groundLast (nodeVoltages : list float) :=
    <[length nodeVoltages - 1 := 0%float]> nodeVoltages in
  match solution, nodeIndexMap with
  | None, _ :: _ => inl (JS.undefinedRead "length")
  | None, [] => inr (groundLast zeros)
  | Some solution, _ =>
      inr (groundLast
             (fold_left (λ nodeVoltages '(nodeId, index),
                           if Nat.ltb index (length solution)
                           then <[index := JS.get solution index]> nodeVoltages
                           else nodeVoltages)
                        nodeIndexMap zeros))
  end.

(** [extractBranchCurrents] *)
Definition extractBranchCurrents (solution : option (list float))
    (matrices : Matrices.t) : string + JS.Map float :=
  let method := Matrices.method matrices in
  let branchIndexMap := Matrices.branchIndexMap matrices in
  if String.eqb method "series" then
    match solution with
    | None => inl (JS.undefinedRead "0")
    | Some solution =>
        let current := JS.or_else (JS.get solution 0) 0 in
        inr (fold_left (λ branchCurrents '(branchId, index),
                          JS.map_set branchCurrents branchId current)
                       branchIndexMap [])
    end
  else if String.eqb method "parallel" then
    match solution, branchIndexMap with
    | None, (_, index) :: _ => inl (JS.undefinedRead (pretty index))
    | None, [] => inr []
    | Some solution, _ =>
        inr (fold_left (λ branchCurrents '(branchId, index),
                          JS.map_set branchCurrents branchId
                            (JS.or_else (JS.get solution index) 0))
                       branchIndexMap [])
    end
  else
    inr (fold_left (λ branchCurrents '(branchId, index),
                      JS.map_set branchCurrents branchId 0%float)
                   branchIndexMap []).

(** [validateInput]: [Some message] is the thrown error. *)
Definition validateInput (matrices : Matrices.t) : option string :=
  match Matrices.systemMatrix matrices, Matrices.rightHandSide matrices with
  | Some matrix, Some rhs =>
      let rows := length matrix in
      let cols := length (default [] (matrix !! 0)) in
      if Nat.eqb rows 0 || Nat.eqb cols 0
      then Some "Matriz del sistema vacía"
      else if negb (Nat.eqb rows cols)
      then Some ("Matriz no cuadrada: " +:+ pretty rows +:+ "x" +:+ pretty cols)
      else if negb (Nat.eqb rows (length rhs))
      then Some ("Dimensiones inconsistentes: matriz " +:+ pretty rows +:+ "x" +:+
                 pretty cols +:+ ", RHS " +:+ pretty (length rhs))
      else None
  | _, _ => Some "Matriz del sistema o vector RHS no definidos"
  end.

Module SolveResult.
Record t := mk {
  isValid : bool;
  error : option string;
  nodeVoltages : option (list float);
  branchCurrents : option (JS.Map float);
  solverMethod : option string;
  iterations : nat;
  residual : option float;
  solveTime : option float;
  residuals : list float;
  warnings : list string
}.
End SolveResult.

Section Solve.
(** [Number.prototype.toExponential] and the time measured by the two
    [performance.now()] calls come from the platform. *)
Variable toExponential : float → nat → string.
Variable solveTime : float.

Definition failed (message : string) : SolveResult.t :=
  SolveResult.mk false (Some ("Error en solucionador: " +:+ message))
    None None None 0 None None [] [].

(** [solve] *)
Definition solve (matrices : Matrices.t) : SolveResult.t :=
  match validateInput matrices with
  | Some message => failed message
  | None =>
      let systemMatrix := default [] (Matrices.systemMatrix matrices) in
      let rightHandSide := default [] (Matrices.rightHandSide matrices) in
      let solverMethod := selectSolverMethod matrices in
      let solution :=
        if String.eqb solverMethod "direct_elimination"
        then gaussianElimination systemMatrix rightHandSide
        else if String.eqb solverMethod "lu_decomposition"
        then luDecomposition systemMatrix rightHandSide
        else if String.eqb solverMethod "cholesky"
        then choleskyDecomposition systemMatrix rightHandSide
        else if String.eqb solverMethod "iterative_jacobi"
        then jacobiMethod systemMatrix rightHandSide
        else if String.eqb solverMethod "iterative_gauss_seidel"
        then gaussSeidelMethod systemMatrix rightHandSide
        else if String.eqb solverMethod "cramer"
        then cramerRule systemMatrix rightHandSide
        else if String.eqb solverMethod "series_simple"
        then solveSeriesCircuit matrices
        else if String.eqb solverMethod "parallel_simple"
        then solveParallelCircuit matrices
        else gaussianElimination systemMatrix rightHandSide in
      let '(verified, residual) :=
        verifySolution systemMatrix rightHandSide (Solution.values solution) in
      match extractNodeVoltages (Solution.values solution) matrices with
      | inl message => failed message
      | inr nodeVoltages =>
          match extractBranchCurrents (Solution.values solution) matrices with
          | inl message => failed message
          | inr branchCurrents =>
              SolveResult.mk (Solution.isValid solution) (Solution.error solution)
                (Some nodeVoltages) (Some branchCurrents) (Some solverMethod)
                (default 0 (Solution.iterations solution))
                (Some residual) (Some solveTime)
                (Solution.residuals solution)
                (if negb verified
                 then ["Verificación falló: residual = " +:+ toExponential residual 3]
                 else [])
          end
      end
  end.
End Solve.

End EquationSolver.

(** The entry of [results.componentValues] for one component. *)
Module ComponentValues.
Record t := mk {
  current : float;
  voltage : float;
  power : float;
  resistance : option float;
  impedance : Impedance.t
}.
End ComponentValues.

Module Thermal.
Record t := mk {
  temperature : float;
  temperatureRise : float;
  thermalResistance : float;
  derating : float;
  maxSafePower : float
}.
End Thermal.

Module ComponentPower.
(** [thermal] is [None] for the empty object of a component that is not a
    resistor. *)
Record t := mk {
  instantaneous : float;
  average : float;
  peak : float;
  rms : float;
  stored : float;
  dissipated : float;
  efficiency : float;
  powerDensity : float;
  thermal : option Thermal.t
}.
End ComponentPower.

Module ThermalAnalysis.
Record hotspot := mkHotspot {
  componentId : string;
  componentLabel : string;
  temperature : float;
  power : float
}.
Record t := mk {
  totalHeat : float;
  hotspots : list hotspot;
  averageTemperature : float;
  maxTemperature : float;
  coolingRequired : float;
  thermalTimeConstant : float
}.
End ThermalAnalysis.

Module PowerAnalysis.
Record t := mk {
  totalSupplied : float;
  totalDissipated : float;
  totalStored : float;
  totalUseful : float;
  efficiency : float;
  powerFactor : float;
  componentPowers : JS.Map ComponentPower.t;
  powerBalance : float;
  thermalAnalysis : option ThermalAnalysis.t;
  lossesResistive : float;
  lossesSwitching : float;
  lossesCore : float;
  lossesOther : float
}.
End PowerAnalysis.

(** ** OhmLawHelper: the per-component electrical model
    ([src/utils/ohm_law_helper.js])

    In that file the methods from [calculateVoltage] to
    [calculateDiodeImpedance] stand after the closing brace of the class;
    the text of each method is whole. *)

Module OhmLawHelper.

Definition tolerance : float := 1e-12.

Definition isType (component : Component.t) (ty : string) : bool :=
  String.eqb (Component.type component) ty.

(** [getEffectiveResistance] *)
Definition getEffectiveResistance (resistor : Component.t) : float :=
  let baseResistance := Component.value resistor in
  let baseResistance1 :=
    match Component.temperature resistor, Component.tempCoefficient resistor with
    | Some temperature, Some tempCoefficient =>
        let tempDelta := (temperature - 25)%float in
        let tempFactor := (1 + tempCoefficient * tempDelta / 1000000)%float in
        (baseResistance * tempFactor)%float
    | _, _ => baseResistance
    end in
  match Component.isVariable resistor, Component.tapPosition resistor with
  | true, Some tapPosition => (baseResistance1 * tapPosition)%float
  | _, _ => baseResistance1
  end.

Definition calculateResistorVoltage (resistor : Component.t) (current : float)
  : float :=
  (current * getEffectiveResistance resistor)%float.

Definition calculateResistorCurrent (resistor : Component.t) (voltage : float)
  : float :=
  let effectiveResistance := getEffectiveResistance resistor in
  if JS.gt effectiveResistance tolerance
  then (voltage / effectiveResistance)%float else 0%float.

(** [calculateCapacitorVoltage], with the default [deltaTime = 1e-3]. *)
Definition calculateCapacitorVoltage (capacitor : Component.t) (current : float)
  : float :=
  let deltaTime := 1e-3%float in
  if JS.lt (abs current) tolerance
  then JS.or_else (Component.voltage capacitor) 0
  else
    let deltaV := (current * deltaTime / Component.value capacitor)%float in
    (JS.or_else (Component.voltage capacitor) 0 + deltaV)%float.

Definition calculateCapacitorCurrent (capacitor : Component.t) (voltage : float)
  : float :=
  let deltaTime := 1e-3%float in
  if JS.le deltaTime 0 then 0%float
  else
    let previousVoltage := JS.or_else (Component.voltage capacitor) 0 in
    let deltaV := (voltage - previousVoltage)%float in
    (Component.value capacitor * (deltaV / deltaTime))%float.

(** [calculateInductorVoltage], with the default [deltaTime = 1e-3]. *)
Definition calculateInductorVoltage (inductor : Component.t) (current : float)
  : float :=
  let deltaTime := 1e-3%float in
  if JS.lt (abs (current - JS.or_else (Component.current inductor) 0)%float) tolerance
  then 0%float
  else
    let previousCurrent := JS.or_else (Component.current inductor) 0 in
    let deltaI := (current - previousCurrent)%float in
    (Component.value inductor * (deltaI / deltaTime))%float.

Definition calculateInductorCurrent (inductor : Component.t) (voltage : float)
  : float :=
  let deltaTime := 1e-3%float in
  if JS.le deltaTime 0 then JS.or_else (Component.current inductor) 0
  else
    let deltaI := (voltage * deltaTime / Component.value inductor)%float in
    (JS.or_else (Component.current inductor) 0 + deltaI)%float.

Definition calculateDiodeVoltage (diode : Component.t) (current : float) : float :=
  let forwardVoltage := JS.opt_or_else (Component.forwardVoltage diode) 0.7 in
  let seriesResistance := JS.opt_or_else (Component.forwardResistance diode) 0.1 in
  if JS.gt current 0
  then (forwardVoltage + current * seriesResistance)%float
  else (current * JS.opt_or_else (Component.reverseResistance diode) 1e6)%float.

Definition calculateDiodeCurrent (diode : Component.t) (voltage : float) : float :=
  let forwardVoltage := JS.opt_or_else (Component.forwardVoltage diode) 0.7 in
  let seriesResistance := JS.opt_or_else (Component.forwardResistance diode) 0.1 in
  if JS.gt voltage forwardVoltage
  then ((voltage - forwardVoltage) / seriesResistance)%float
  else JS.opt_or_else (Component.saturationCurrent diode) 1e-12.

(** [calculateVoltage]: the voltage across a component carrying [current].
    The guard on the arguments cannot fail on a component record and a
    number. *)
Definition calculateVoltage (component : Component.t) (current : float) : float :=
  if isType component "resistor" then calculateResistorVoltage component current
  else if isType component "capacitor" then calculateCapacitorVoltage component current
  else if isType component "inductor" then calculateInductorVoltage component current
  else if isType component "diode" then calculateDiodeVoltage component current
  else if isType component "voltage" then Component.value component
  else if isType component "current" then 0%float
  else (abs current * JS.or_else (Component.value component) 0)%float.

(** [calculateCurrent]: the current through a component under [voltage]. *)
Definition calculateCurrent (component : Component.t) (voltage : float) : float :=
  if isType component "resistor" then calculateResistorCurrent component voltage
  else if isType component "capacitor" then calculateCapacitorCurrent component voltage
  else if isType component "inductor" then calculateInductorCurrent component voltage
  else if isType component "diode" then calculateDiodeCurrent component voltage
  else if isType component "voltage" then 0%float
  else if isType component "current" then Component.value component
  else
    let resistance := JS.or_else (Component.value component) infinity in
    if JS.gt resistance tolerance then (voltage / resistance)%float else 0%float.

(** [calculatePower(voltage, current)] without a component. *)
Definition calculatePower (voltage current : float) : float :=
  abs (voltage * current)%float.

Definition calculateDiodeImpedance (diode : Component.t) : Impedance.t :=
  Impedance.mk (JS.opt_or_else (Component.forwardResistance diode) 0.1) 0.

Definition PI : float := JS.PI.

(** [calculateImpedance] *)
Definition calculateImpedance (component : Component.t) (frequency : float)
  : Impedance.t :=
  let omega := (2 * PI * frequency)%float in
  if isType component "resistor" then Impedance.mk (Component.value component) 0
  else if isType component "capacitor" then
    if JS.seq frequency 0 then Impedance.mk infinity 0
    else Impedance.mk 0 (-1 / (omega * Component.value component))%float
  else if isType component "inductor" then
    Impedance.mk 0 (omega * Component.value component)%float
  else if isType component "diode" then calculateDiodeImpedance component
  else if isType component "voltage" || isType component "current" then
    Impedance.mk (JS.opt_or_else (Component.internalResistance component) 0) 0
  else Impedance.mk (JS.or_else (Component.value component) 0) 0.

(** [calculateResistorThermal] *)
Definition calculateResistorThermal (resistor : Component.t) (power : float)
  : Thermal.t :=
  let maxSafePower := JS.opt_or_else (Component.powerRating resistor) 0.25 in
  let temperatureRise := (power * 250)%float in
  let temperature := (25 + temperatureRise)%float in
  let derating :=
    if JS.gt temperature 70
    then JS.max 0 (1 - (temperature - 70) / 100)%float
    else 1%float in
  Thermal.mk temperature temperatureRise 250 derating
    (maxSafePower * derating)%float.

(** [calculateComponentPowerAnalysis] *)
Definition calculateComponentPowerAnalysis (component : Component.t)
    (values : ComponentValues.t) : ComponentPower.t :=
  let instantaneous := JS.or_else (ComponentValues.power values) 0 in
  let voltage := JS.or_else (ComponentValues.voltage values) 0 in
  let current := JS.or_else (ComponentValues.current values) 0 in
  let density :=
    match Component.physicalSize component with
    | Some size => if JS.truthy size then (instantaneous / size)%float else 0%float
    | None => 0%float
    end in
  let base stored dissipated efficiency thermal :=
    ComponentPower.mk instantaneous instantaneous instantaneous instantaneous
      stored dissipated efficiency density thermal in
  if isType component "resistor" then
    base 0%float instantaneous 100%float
         (Some (calculateResistorThermal component instantaneous))
  else if isType component "capacitor" then
    base (0.5 * Component.value component * voltage * voltage)%float 0%float
         100%float None
  else if isType component "inductor" then
    base (0.5 * Component.value component * current * current)%float 0%float
         100%float None
  else if isType component "voltage" || isType component "current" then
    let efficiency := JS.opt_or_else (Component.efficiency component) 95 in
    base 0%float (instantaneous * (1 - efficiency / 100))%float efficiency None
  else base 0%float 0%float 100%float None.

(** [calculateThermalAnalysis] *)
Definition calculateThermalAnalysis (circuit : Circuit.t)
    (totalDissipated : float) (componentPowers : JS.Map ComponentPower.t)
  : ThermalAnalysis.t :=
  let hotspots :=
    omap (λ '(componentId, power),
            match List.find (λ c, String.eqb (Component.id c) componentId)
                            (Circuit.components circuit),
                  ComponentPower.thermal power with
            | Some component, Some thermal =>
                if JS.gt (Thermal.temperature thermal) 60
                then Some (ThermalAnalysis.mkHotspot componentId
                             (Component.label component)
                             (Thermal.temperature thermal)
                             (ComponentPower.instantaneous power))
                else None
            | _, _ => None
            end)
         componentPowers in
  ThermalAnalysis.mk totalDissipated hotspots 25%float
    (fold_left JS.max (map ThermalAnalysis.temperature hotspots) 25%float)
    (if JS.gt totalDissipated 1 then (totalDissipated * 0.1)%float else 0%float)
    0%float.

(** One entry of [results.componentValues] in [calculatePowerAnalysis]. *)
Definition accumulatePower (circuit : Circuit.t) (pa : PowerAnalysis.t)
    (entry : string * ComponentValues.t) : PowerAnalysis.t :=
  let '(componentId, values) := entry in
  match List.find (λ c, String.eqb (Component.id c) componentId)
                  (Circuit.components circuit) with
  | None => pa
  | Some component =>
      let power := calculateComponentPowerAnalysis component values in
      let inst := ComponentPower.instantaneous power in
      let powers := JS.map_set (PowerAnalysis.componentPowers pa) componentId power in
      let upd supplied dissipated stored resistive other :=
        PowerAnalysis.mk supplied dissipated stored
          (PowerAnalysis.totalUseful pa) (PowerAnalysis.efficiency pa)
          (PowerAnalysis.powerFactor pa) powers (PowerAnalysis.powerBalance pa)
          (PowerAnalysis.thermalAnalysis pa) resistive
          (PowerAnalysis.lossesSwitching pa) (PowerAnalysis.lossesCore pa) other in
      let supplied := PowerAnalysis.totalSupplied pa in
      let dissipated := PowerAnalysis.totalDissipated pa in
      let stored := PowerAnalysis.totalStored pa in
      let resistive := PowerAnalysis.lossesResistive pa in
      let other := PowerAnalysis.lossesOther pa in
      if isType component "voltage" || isType component "current" then
        upd (if JS.gt inst 0 then (supplied + inst)%float else supplied)
            dissipated stored resistive other
      else if isType component "resistor" then
        upd supplied (dissipated + inst)%float stored (resistive + inst)%float other
      else if isType component "capacitor" || isType component "inductor" then
        upd supplied dissipated
            (stored + abs (JS.or_else (ComponentPower.stored power) 0))%float
            resistive other
      else
        upd supplied (dissipated + abs inst)%float stored resistive
            (other + abs inst)%float
  end.

(** [calculatePowerAnalysis] *)
Definition calculatePowerAnalysis (componentValues : JS.Map ComponentValues.t)
    (circuit : Circuit.t) : PowerAnalysis.t :=
  let initial :=
    PowerAnalysis.mk 0 0 0 0 0 1 [] 0 None 0 0 0 0 in
  let pa := fold_left (accumulatePower circuit) componentValues initial in
  let supplied := PowerAnalysis.totalSupplied pa in
  let dissipated := PowerAnalysis.totalDissipated pa in
  let stored := PowerAnalysis.totalStored pa in
  let useful := (supplied - dissipated)%float in
  let efficiency :=
    if JS.gt supplied 0 then (useful / supplied * 100)%float else 0%float in
  PowerAnalysis.mk supplied dissipated stored useful efficiency
    (PowerAnalysis.powerFactor pa) (PowerAnalysis.componentPowers pa)
    (abs (supplied - dissipated - stored)%float)
    (Some (calculateThermalAnalysis circuit dissipated
             (PowerAnalysis.componentPowers pa)))
    (PowerAnalysis.lossesResistive pa) (PowerAnalysis.lossesSwitching pa)
    (PowerAnalysis.lossesCore pa) (PowerAnalysis.lossesOther pa).

(** [validatePowerBalance]: the [error] field of its result. *)
Definition validatePowerBalance (powerAnalysis : PowerAnalysis.t) : float :=
  let totalInput := PowerAnalysis.totalSupplied powerAnalysis in
  let totalOutput := (PowerAnalysis.totalDissipated powerAnalysis
                      + PowerAnalysis.totalStored powerAnalysis)%float in
  abs (totalInput - totalOutput)%float.

End OhmLawHelper.

(** ** VoltageSource ([src/components/VoltageSource.js]) *)

Module VoltageSource.

Record t := mk {
  value : float;
  sourceType : string;
  internalResistance : float;
  frequency : float;
  phase : float;
  amplitude : float;
  offset : float;
  dutyCycle : float;
  riseTime : float;
  fallTime : float;
  compliance : float;
  isEnabled : bool;
  outputVoltage : float;
  outputCurrent : float
}.

Definition set_outputVoltage (s : t) (v : float) : t :=
  mk (value s) (sourceType s) (internalResistance s) (frequency s) (phase s)
     (amplitude s) (offset s) (dutyCycle s) (riseTime s) (fallTime s)
     (compliance s) (isEnabled s) v (outputCurrent s).

Section Waveforms.
(** [Math.sin] and the remainder operator [%] on numbers. *)
Variable sin : float → float.
Variable rem : float → float → float.

(** The waveform value selected by the [switch] on [sourceType]. *)
Definition waveform (s : t) (time : float) : float :=
  if String.eqb (sourceType s) "dc" then value s
  else if String.eqb (sourceType s) "ac" then
    (amplitude s * sin (2 * OhmLawHelper.PI * frequency s * time + phase s)
     + offset s)%float
  else if String.eqb (sourceType s) "pulse" then
    let period := (1 / frequency s)%float in
    let cycleTime := rem time period in
    if JS.lt cycleTime (period * dutyCycle s)%float then value s else 0%float
  else if String.eqb (sourceType s) "ramp" then
    let rampPeriod := (riseTime s + fallTime s)%float in
    let rampCycleTime := rem time rampPeriod in
    if JS.lt rampCycleTime (riseTime s)
    then (value s * (rampCycleTime / riseTime s))%float
    else (value s * (1 - (rampCycleTime - riseTime s) / fallTime s))%float
  else 0%float.

(** [getOutputVoltage]: the returned voltage and the source with its
    [outputVoltage] field updated. *)
Definition getOutputVoltage (s : t) (time : float) : float * t :=
  if negb (isEnabled s) then (0%float, s)
  else
    let voltage := waveform s time in
    let voltage1 :=
      if JS.gt (internalResistance s) 0 && JS.sne (outputCurrent s) 0
      then (voltage - outputCurrent s * internalResistance s)%float
      else voltage in
    let voltage2 :=
      JS.max (- compliance s)%float (JS.min (compliance s) voltage1) in
    (voltage2, set_outputVoltage s voltage2).
End Waveforms.

End VoltageSource.

(** ** CircuitAnalyzer: the coordinator ([src/utils/solver.js]) *)

Module AnalysisResult.
(** The fields [processResults] computes for a successful analysis. *)
Record payload := mkPayload {
  method : string;
  timestamp : Z;
  nodeVoltages : JS.Map float;
  branchCurrents : JS.Map float;
  componentValues : JS.Map ComponentValues.t;
  currentFlow : JS.Map float;
  voltageDrops : JS.Map float;
  powerAnalysis : PowerAnalysis.t;
  circuitType : string;
  totalResistance : float;
  totalCurrent : float;
  totalPower : float;
  sourceVoltage : float;
  efficiency : float
}.

(** The object [analyzeCircuit] resolves to.  Absent properties are [None]. *)
Record t := mk {
  isValid : bool;
  error : option string;
  warnings : option (list string);
  fromCache : option bool;
  results : option payload
}.

(** [{ ...result, fromCache: true }] *)
Definition markFromCache (r : t) : t :=
  mk (isValid r) (error r) (warnings r) (Some true) (results r).
End AnalysisResult.

(** The data [generateCircuitHash] serialises. *)
Module CircuitData.
Record t := mk {
  components : list (string * float * string);
  wires : list (option string * option string * float)
}.
End CircuitData.

Module CircuitAnalyzer.

(** The analyzer's own state. *)
Record state := mkState {
  analysisCache : JS.Map AnalysisResult.t;
  lastCircuitHash : option string
}.

Definition initial : state := mkState [] None.

(** [clearCache] *)
Definition clearCache (st : state) : state := mkState [] None.

(** The [cacheSize] that [getStatistics] reports. *)
Definition cacheSize (st : state) : nat := JS.map_size (analysisCache st).

(** What one call reads from the clock: [new Date()] and the time measured
    around the solve. *)
Record clock := mkClock {
  now : Z;
  solveTime : float
}.

(** [validateComponent]: validity, joined errors, warnings.  The value of a
    component record is a number, so only the NaN test can fail. *)
Definition validateComponent (component : Component.t)
  : bool * string * list string :=
  let value := Component.value component in
  let ty := Component.type component in
  let errors0 := if JS.isNaN value then ["Valor no es un número válido"] else [] in
  let '(errors, warnings) :=
    if String.eqb ty "resistor" then
      (if JS.le value 0 then errors0 ++ ["La resistencia debe ser mayor que cero"]
       else errors0,
       (if JS.lt value 0.1
        then ["Resistencia muy baja: puede causar problemas numéricos"] else []) ++
       (if JS.gt value 1e12
        then ["Resistencia muy alta: puede causar problemas numéricos"] else []))
    else if String.eqb ty "voltage" then
      (errors0,
       if JS.gt (abs value) 1000 then ["Voltaje muy alto: verificar seguridad"] else [])
    else if String.eqb ty "current" then
      (errors0,
       if JS.gt (abs value) 100 then ["Corriente muy alta: verificar seguridad"] else [])
    else if String.eqb ty "capacitor" then
      (if JS.le value 0 then errors0 ++ ["La capacitancia debe ser mayor que cero"]
       else errors0, [])
    else if String.eqb ty "inductor" then
      (if JS.le value 0 then errors0 ++ ["La inductancia debe ser mayor que cero"]
       else errors0, [])
    else (errors0, []) in
  (Nat.eqb (length errors) 0, JS.join "; " errors, warnings).

Module Validation.
Record t := mk {
  isValid : bool;
  error : string;
  warnings : list string
}.
End Validation.

Definition countComponents (ty : string) (circuit : Circuit.t) : nat :=
  length (filter (λ c, String.eqb (Component.type c) ty = true)
                 (Circuit.components circuit)).

(** [validateCircuit].  [inl message] is the error thrown inside
    [checkBasicConnectivity].  A circuit record always has its two
    collections, so the first guard does not apply. *)
Definition validateCircuit (circuit : Circuit.t) : string + Validation.t :=
  let errors1 :=
    if Nat.eqb (length (Circuit.components circuit)) 0
    then ["El circuito no contiene componentes"] else [] in
  let voltageSources := countComponents "voltage" circuit in
  let currentSources := countComponents "current" circuit in
  let resistors := countComponents "resistor" circuit in
  let grounds := countComponents "ground" circuit in
  let errors2 :=
    if Nat.eqb voltageSources 0 && Nat.eqb currentSources 0
    then errors1 ++ ["El circuito debe tener al menos una fuente de voltaje o corriente"]
    else errors1 in
  let warnings1 :=
    (if Nat.eqb resistors 0
     then ["Circuito sin resistencias: puede tener comportamiento inestable"] else []) ++
    (if Nat.eqb grounds 0
     then ["No se encontró referencia a tierra: se asignará automáticamente"] else []) ++
    (if Nat.ltb 1 grounds
     then ["Múltiples referencias a tierra detectadas"] else []) in
  let '(errors3, warnings2) :=
    fold_left (λ '(errors, warnings) component,
                 let '(valid, error, componentWarnings) := validateComponent component in
                 ((if negb valid
                   then errors ++ [Component.label component +:+ ": " +:+ error]
                   else errors),
                  warnings ++ componentWarnings))
              (Circuit.components circuit) (errors2, warnings1) in
  match NodeAnalyzer.checkBasicConnectivity circuit with
  | inl thrown => inl thrown
  | inr isConnected =>
      let errors :=
        if negb isConnected
        then errors3 ++ ["Circuito contiene componentes desconectados"]
        else errors3 in
      inr (Validation.mk (Nat.eqb (length errors) 0) (JS.join "; " errors)
             (filter (λ w, negb (String.eqb w "") = true) warnings2))
  end.

(** [selectOptimalMethod]; the counts are array lengths, taken as integers
    because the subtraction can go below zero. *)
Definition selectOptimalMethod (nodeAnalysis : NodeAnalysis.t) : string :=
  let nodeCount := Z.of_nat (NodeAnalysis.nodeCount nodeAnalysis) in
  let branchCount := Z.of_nat (NodeAnalysis.branchCount nodeAnalysis) in
  let voltageSourceCount := Z.of_nat (NodeAnalysis.voltageSourceCount nodeAnalysis) in
  let currentSourceCount := Z.of_nat (NodeAnalysis.currentSourceCount nodeAnalysis) in
  let topology := NodeAnalysis.topology nodeAnalysis in
  if Topology.isSeriesCircuit topology then "series"
  else if Topology.isParallelCircuit topology then "parallel"
  else if Topology.isLadderCircuit topology then "ladder"
  else
    let nodalEquations := (nodeCount - 1)%Z in
    let meshEquations := (branchCount - nodeCount + 1)%Z in
    let adjustedNodalComplexity := (nodalEquations + voltageSourceCount * 2)%Z in
    let adjustedMeshComplexity := (meshEquations + currentSourceCount * 2)%Z in
    if (adjustedNodalComplexity <=? adjustedMeshComplexity)%Z
    then (if (0 <? voltageSourceCount)%Z then "nodal_modified" else "nodal")
    else (if (0 <? currentSourceCount)%Z then "mesh_modified" else "mesh").

(** [simpleHash] on the UTF-16 code units of a string: 32-bit wrap-around
    of [hash * 31 + char], printed in base 36. *)
Definition toInt32 (z : Z) : Z :=
  let m := (z mod 4294967296)%Z in
  if (2147483648 <=? m)%Z then (m - 4294967296)%Z else m.

Definition hashStep (hash char : Z) : Z :=
  toInt32 (toInt32 (hash * 32) - hash + char).

Definition digit36 (d : Z) : string :=
  String.substring (Z.to_nat d) 1 "0123456789abcdefghijklmnopqrstuvwxyz".

Fixpoint digits36 (fuel : nat) (n : Z) : string :=
  match fuel with
  | O => ""
  | S fuel' =>
      if (n <? 36)%Z then digit36 n
      else digits36 fuel' (n / 36) +:+ digit36 (n mod 36)
  end.

(** [n.toString(36)] for a 32-bit integer (at most seven digits). *)
Definition toString36 (n : Z) : string :=
  if (n <? 0)%Z then "-" +:+ digits36 7 (- n) else digits36 7 n.

Definition simpleHash (str : list Z) : string :=
  toString36 (fold_left hashStep str 0%Z).

Definition circuitData (circuit : Circuit.t) : CircuitData.t :=
  CircuitData.mk
    (map (λ c, (Component.type c, Component.value c, Component.id c))
         (Circuit.components circuit))
    (map (λ w, (Wire.startComponent w, Wire.endComponent w, Wire.resistance w))
         (Circuit.wires circuit)).

Definition setComponent (circuit : Circuit.t) (i : nat) (c : Component.t)
  : Circuit.t :=
  Circuit.mk (<[i := c]> (Circuit.components circuit)) (Circuit.wires circuit).

(** [getComponentImpedance] of the coordinator (frequency 0). *)
Definition getComponentImpedance (component : Component.t) : Impedance.t :=
  OhmLawHelper.calculateImpedance component 0.

(** [assignCurrentToComponent]: records the component's values in the
    results and writes [current], [voltage] and [power] into the component
    itself. *)
Definition assignCurrentToComponent (componentId : string) (current : float)
    (circuit : Circuit.t) (componentValues : JS.Map ComponentValues.t)
  : Circuit.t * JS.Map ComponentValues.t :=
  match list_find (λ c, String.eqb (Component.id c) componentId = true)
                  (Circuit.components circuit) with
  | None => (circuit, componentValues)
  | Some (i, component) =>
      let voltage := OhmLawHelper.calculateVoltage component current in
      let power := OhmLawHelper.calculatePower voltage current in
      (setComponent circuit i (Component.set_electrical component current voltage power),
       JS.map_set componentValues componentId
         (ComponentValues.mk current voltage power
            (if String.eqb (Component.type component) "resistor"
             then Some (Component.value component) else None)
            (getComponentImpedance component)))
  end.

(** A property that holds an identifier is used when it is a non-empty
    string. *)
Definition truthyId (o : option string) : option string :=
  match o with
  | Some s => if String.eqb s "" then None else Some s
  | None => None
  end.

(** The accumulator of the branch loop in [processResults]. *)
Record branchLoop := mkBranchLoop {
  bl_circuit : Circuit.t;
  bl_branchCurrents : JS.Map float;
  bl_componentValues : JS.Map ComponentValues.t;
  bl_currentFlow : JS.Map float
}.

(** One branch of that loop.  [solution.branchCurrents] is a [Map]; the
    expression [solution.branchCurrents[index]] reads a property the map
    object does not have, so it is [undefined] and [|| 0] makes the current
    0 for every branch. *)
Definition processBranch (acc : branchLoop) (branch : Branch.t) : branchLoop :=
  let current := 0%float in
  let branchCurrents := JS.map_set (bl_branchCurrents acc) (Branch.id branch) current in
  let '(circuit, componentValues) :=
    match truthyId (Branch.componentId branch) with
    | Some componentId =>
        assignCurrentToComponent componentId current (bl_circuit acc)
          (bl_componentValues acc)
    | None => (bl_circuit acc, bl_componentValues acc)
    end in
  let currentFlow :=
    match truthyId (Branch.wireId branch) with
    | Some wireId => JS.map_set (bl_currentFlow acc) wireId current
    | None => bl_currentFlow acc
    end in
  mkBranchLoop circuit branchCurrents componentValues currentFlow.

(** The totals [calculateTotalMetrics] writes:
    resistance, current, power, source voltage, efficiency. *)
Definition calculateTotalMetrics (method : string)
    (componentValues : JS.Map ComponentValues.t)
    (powerAnalysis : PowerAnalysis.t) (circuit : Circuit.t)
  : float * float * float * float * float :=
  let ofType ty :=
    filter (λ c, String.eqb (Component.type c) ty = true)
           (Circuit.components circuit) in
  let resistors := ofType "resistor" in
  let totalResistance :=
    if Nat.ltb 0 (length resistors) && String.eqb method "series"
    then fold_left (λ sum r, (sum + Component.value r)%float) resistors 0%float
    else if Nat.ltb 0 (length resistors) && String.eqb method "parallel"
    then
      let totalAdmittance :=
        fold_left (λ sum r, (sum + 1 / Component.value r)%float) resistors 0%float in
      if JS.gt totalAdmittance 0 then (1 / totalAdmittance)%float else infinity
    else 0%float in
  let voltageSources := ofType "voltage" in
  let '(sourceVoltage, totalCurrent) :=
    match voltageSources with
    | [] => (0%float, 0%float)
    | mainSource :: _ =>
        (fold_left (λ sum vs, (sum + Component.value vs)%float) voltageSources 0%float,
         match JS.map_get componentValues (Component.id mainSource) with
         | Some sourceValues => abs (ComponentValues.current sourceValues)
         | None => 0%float
         end)
    end in
  let totalPower :=
    fold_left (λ sum '(_, comp),
                 (sum + abs (JS.or_else (ComponentValues.power comp) 0))%float)
              componentValues 0%float in
  let efficiency :=
    if JS.gt (PowerAnalysis.totalSupplied powerAnalysis) 0
    then (PowerAnalysis.totalUseful powerAnalysis
          / PowerAnalysis.totalSupplied powerAnalysis * 100)%float
    else 0%float in
  (totalResistance, totalCurrent, totalPower, sourceVoltage, efficiency).

Section Analyzer.
(** Platform functions: [JSON.stringify] of the circuit data (as UTF-16
    code units) and the two number formatters. *)
Variable stringify : CircuitData.t → list Z.
Variable toFixed : float → nat → string.
Variable toExponential : float → nat → string.

(** [generateCircuitHash] *)
Definition generateCircuitHash (circuit : Circuit.t) : string :=
  simpleHash (stringify (circuitData circuit)).

(** [processResults]: the result object and the circuit with the
    electrical fields of its components written. *)
Definition processResults (solution : EquationSolver.SolveResult.t)
    (circuit : Circuit.t) (nodeAnalysis : NodeAnalysis.t) (method : string)
    (timestamp : Z) : AnalysisResult.t * Circuit.t :=
  let nodeVoltages :=
    match EquationSolver.SolveResult.nodeVoltages solution with
    | Some solved =>
        fold_left (λ m '(index, node),
                     JS.map_set m (ElectricalNode.id node)
                       (JS.or_else (JS.get solved index) 0))
                  (imap (λ i n, (i, n)) (NodeAnalysis.nodes nodeAnalysis)) []
    | None => []
    end in
  let loop :=
    match EquationSolver.SolveResult.branchCurrents solution with
    | Some _ =>
        fold_left processBranch (NodeAnalysis.branches nodeAnalysis)
                  (mkBranchLoop circuit [] [] [])
    | None => mkBranchLoop circuit [] [] []
    end in
  let circuit' := bl_circuit loop in
  let componentValues := bl_componentValues loop in
  let powerAnalysis := OhmLawHelper.calculatePowerAnalysis componentValues circuit' in
  let '(totalResistance, totalCurrent, totalPower, sourceVoltage, efficiency) :=
    calculateTotalMetrics method componentValues powerAnalysis circuit' in
  let powerBalanceError := OhmLawHelper.validatePowerBalance powerAnalysis in
  let warnings :=
    if JS.gt (abs powerBalanceError) 0.01
    then ["Desbalance de potencia: " +:+ toFixed powerBalanceError 3 +:+ "W"]
    else [] in
  (AnalysisResult.mk true None (Some warnings) None
     (Some (AnalysisResult.mkPayload method timestamp nodeVoltages
              (bl_branchCurrents loop) componentValues (bl_currentFlow loop) []
              powerAnalysis
              (Topology.description (NodeAnalysis.topology nodeAnalysis))
              totalResistance totalCurrent totalPower sourceVoltage efficiency)),
   circuit').

(** [validateResults]: the warnings; the result is valid when there is
    none ([verifyKirchhoffCurrentLaw] always answers valid). *)
Definition validateResults (results : AnalysisResult.t) : list string :=
  match AnalysisResult.results results with
  | None => []
  | Some payload =>
      flat_map (λ '(id, values),
                  (if JS.gt (abs (ComponentValues.current values)) 1000
                   then ["Corriente muy alta en " +:+ id +:+ ": " +:+
                         toFixed (ComponentValues.current values) 2 +:+ "A"]
                   else []) ++
                  (if JS.gt (abs (ComponentValues.voltage values)) 10000
                   then ["Voltaje muy alto en " +:+ id +:+ ": " +:+
                         toFixed (ComponentValues.voltage values) 2 +:+ "V"]
                   else []) ++
                  (if JS.gt (abs (ComponentValues.power values)) 100000
                   then ["Potencia muy alta en " +:+ id +:+ ": " +:+
                         toFixed (ComponentValues.power values) 2 +:+ "W"]
                   else []))
               (AnalysisResult.componentValues payload)
  end.

Definition invalid (error : option string) (warnings : option (list string))
  : AnalysisResult.t :=
  AnalysisResult.mk false error warnings None None.

(** [analyzeCircuit], one awaited call: the result, the analyzer state
    afterwards and the circuit afterwards. *)
Definition analyzeCircuit (st : state) (circuit : Circuit.t) (clk : clock)
  : AnalysisResult.t * state * Circuit.t :=
  let circuitHash := generateCircuitHash circuit in
  match JS.map_get (analysisCache st) circuitHash with
  | Some cached => (AnalysisResult.markFromCache cached, st, circuit)
  | None =>
      match validateCircuit circuit with
      | inl thrown =>
          (invalid (Some ("Error interno del analizador: " +:+ thrown)) None,
           st, circuit)
      | inr validation =>
          if negb (Validation.isValid validation)
          then (invalid (Some (Validation.error validation))
                        (Some (Validation.warnings validation)), st, circuit)
          else
            let nodeAnalysis := NodeAnalyzer.analyzeNodes circuit in
            if negb (NodeAnalysis.isValid nodeAnalysis)
            then (invalid (Some (NodeAnalysis.error nodeAnalysis)) None, st, circuit)
            else
              let analysisMethod := selectOptimalMethod nodeAnalysis in
              match CircuitMatrixBuilder.buildSystemMatrices
                      circuit nodeAnalysis analysisMethod with
              | CircuitMatrixBuilder.BuildFailed error =>
                  (invalid (Some error) None, st, circuit)
              | CircuitMatrixBuilder.Built matrices =>
                  if negb (Matrices.isValid matrices)
                  then (invalid None None, st, circuit)
                  else
                    let solution :=
                      EquationSolver.solve toExponential (solveTime clk) matrices in
                    if negb (EquationSolver.SolveResult.isValid solution)
                    then (invalid (EquationSolver.SolveResult.error solution) None,
                          st, circuit)
                    else
                      let '(results, circuit') :=
                        processResults solution circuit nodeAnalysis
                          analysisMethod (now clk) in
                      let validation2 := validateResults results in
                      let results' :=
                        if negb (Nat.eqb (length validation2) 0)
                        then AnalysisResult.mk (AnalysisResult.isValid results)
                               (AnalysisResult.error results)
                               (Some (default [] (AnalysisResult.warnings results)
                                      ++ validation2))
                               (AnalysisResult.fromCache results)
                               (AnalysisResult.results results)
                        else results in
                      (results',
                       mkState (JS.map_set (analysisCache st) circuitHash results')
                               (Some circuitHash),
                       circuit')
              end
      end
  end.
End Analyzer.

End CircuitAnalyzer.

(** ** Sample circuits and platform functions used to run the engine *)

Module Samples.

(** [JSON.stringify] of the hashed circuit data, for data whose numbers are
integers (printed in decimal, as JavaScript does below [1e21]); [NaN] and
the infinities print as [null]. *)
Definition integerValue (x : float) : option Z :=
  match FloatOps.Prim2SF x with
  | SpecFloat.S754_zero _ => Some 0%Z
  | SpecFloat.S754_finite s m e =>
      let magnitude :=
        if (0 <=? e)%Z then Some (Z.pos m * 2 ^ e)%Z
        else if (Z.pos m mod 2 ^ (- e) =? 0)%Z then Some (Z.pos m / 2 ^ (- e))%Z
        else None in
      (λ v, if s then (- v)%Z else v) <$> magnitude
  | _ => None
  end.

Definition numberText (x : float) : string :=
  if is_finite x then
    match integerValue x with
    | Some z => pretty z
    | None => "#"
    end
  else "null".

Definition quoteMark : string := String (Ascii.ascii_of_nat 34) EmptyString.

Definition quoted (s : string) : string := quoteMark +:+ s +:+ quoteMark.

Definition optionalText (o : option string) : string :=
  match o with
  | Some s => quoted s
  | None => "null"
  end.

Definition jsonText (d : CircuitData.t) : string :=
  "{" +:+ quoted "components" +:+ ":[" +:+
  JS.join ","
    (map (λ '(type, value, id),
            "{" +:+ quoted "type" +:+ ":" +:+ quoted type +:+ "," +:+
            quoted "value" +:+ ":" +:+ numberText value +:+ "," +:+
            quoted "id" +:+ ":" +:+ quoted id +:+ "}")
         (CircuitData.components d)) +:+
  "]," +:+ quoted "wires" +:+ ":[" +:+
  JS.join ","
    (map (λ '(start, end_, resistance),
            "{" +:+ quoted "start" +:+ ":" +:+ optionalText start +:+ "," +:+
            quoted "end" +:+ ":" +:+ optionalText end_ +:+ "," +:+
            quoted "resistance" +:+ ":" +:+ numberText resistance +:+ "}")
         (CircuitData.wires d)) +:+
  "]}".

Definition stringify (d : CircuitData.t) : list Z :=
  map (λ a, Z.of_nat (Ascii.nat_of_ascii a)) (String.list_ascii_of_string (jsonText d)).

(** Stand-ins for [toFixed] and [toExponential]: no sample below produces a
warning that formats a number. *)
Definition toFixed (x : float) (digits : nat) : string := numberText x.
Definition toExponential (x : float) (digits : nat) : string := numberText x.

Definition analyze := CircuitAnalyzer.analyzeCircuit stringify toFixed toExponential.

Definition clock1 : CircuitAnalyzer.clock := CircuitAnalyzer.mkClock 1000 1%float.
Definition clock2 : CircuitAnalyzer.clock := CircuitAnalyzer.mkClock 2000 2%float.

Definition component (id type : string) (value : float) (points : list Point.t)
  : Component.t :=
  Component.mk id type value id points 0%float 0%float 0%float
    None None None false None None None None None None None None.

(** An ideal wire of length zero joining two components at a terminal. *)
Definition joint (id : string) (at_ : Point.t) (a b : string) : Wire.t :=
  Wire.mk id at_ at_ [] 0%float (Some a) (Some b) 0%float 0%float 0%float.

Definition pA : Point.t := Point.mk 0 0.
Definition pB : Point.t := Point.mk 100 0.
Definition pC : Point.t := Point.mk 100 100.
Definition pD : Point.t := Point.mk 0 100.
Definition pE : Point.t := Point.mk 200 0.
Definition pF : Point.t := Point.mk 300 0.

(** A 12 V source across a resistor, grounded at [pA]. *)
Definition sourceAndResistor (ohms : float) : Circuit.t :=
  Circuit.mk
    [ component "voltage_1" "voltage" 12 [pA; pB];
      component "resistor_1" "resistor" ohms [pB; pA];
      component "ground_1" "ground" 0 [pA] ]
    [ joint "wire_1" pB "voltage_1" "resistor_1";
      joint "wire_2" pA "resistor_1" "ground_1" ].

(** A source followed by two resistors in a row; the far end [pF] is not
connected back to the source. *)
Definition openChain : Circuit.t :=
  Circuit.mk
    [ component "voltage_1" "voltage" 12 [pA; pB];
      component "resistor_1" "resistor" 100 [pB; pE];
      component "resistor_2" "resistor" 200 [pE; pF];
      component "ground_1" "ground" 0 [pA] ]
    [ joint "wire_1" pB "voltage_1" "resistor_1";
      joint "wire_2" pE "resistor_1" "resistor_2";
      joint "wire_3" pA "voltage_1" "ground_1" ].

(** Four nodes, every pair joined by one element. *)
Definition fullMesh : Circuit.t :=
  Circuit.mk
    [ component "voltage_1" "voltage" 12 [pA; pB];
      component "resistor_1" "resistor" 1000 [pB; pC];
      component "resistor_2" "resistor" 1000 [pB; pD];
      component "resistor_3" "resistor" 1000 [pC; pA];
      component "resistor_4" "resistor" 1000 [pD; pA];
      component "resistor_5" "resistor" 1000 [pC; pD];
      component "ground_1" "ground" 0 [pA] ]
    [ joint "wire_1" pB "voltage_1" "resistor_1";
      joint "wire_2" pB "resistor_1" "resistor_2";
      joint "wire_3" pC "resistor_1" "resistor_3";
      joint "wire_4" pC "resistor_3" "resistor_5";
      joint "wire_5" pD "resistor_2" "resistor_4";
      joint "wire_6" pA "resistor_4" "ground_1" ].

End Samples.

(** ** Notions used in the statements of Part II *)

(** *** Loops that write array cells *)

(** A [forEach] over [l] that writes cell [j] of an array with a value
    computed from the index and the element. *)
Definition writeCells {A B : Type} (h : nat → A → B) (ps : list (nat * A))
    (row : list B) : list B :=
  fold_left (λ r '(j, x), <[j := h j x]> r) ps row.

(** *** Well-formed union-find forests *)

(** The rank of an element ([0] outside the structure). *)
Definition rankOf (uf : UnionFind.t) (x : nat) : nat :=
  default 0 (UnionFind.rank uf !! x).

(** The forest is well formed when every parent is an element and has a
larger rank than its child. *)
Definition wellFormed (uf : UnionFind.t) : Prop :=
  length (UnionFind.rank uf) = length (UnionFind.parent uf) ∧
  ∀ x p, UnionFind.parent uf !! x = Some p →
         p < length (UnionFind.parent uf) ∧ (p ≠ x → rankOf uf x < rankOf uf p).

(** Following the parents from [x] ends at the root [r]. *)
Inductive reaches (parent : list nat) : nat → nat → Prop :=
| reaches_root x :
    parent !! x = Some x → reaches parent x x
| reaches_step x p r :
    parent !! x = Some p → p ≠ x → reaches parent p r → reaches parent x r.

(** The answer of [connected]. *)
Definition sameSet (uf : UnionFind.t) (x y : nat) : bool :=
  fst (UnionFind.connected uf x y).

(** The number of elements ranked above [x]: a bound on the length of the
path from [x] to its root. *)
Definition above (uf : UnionFind.t) (x : nat) : nat :=
  length (filter (λ y, rankOf uf x < rankOf uf y)
                 (seq 0 (length (UnionFind.parent uf)))).

(** *** Work left in a queue loop *)

(** The work a queue loop has left: the identifiers in the queue and the
identifiers of [universe] not yet visited. *)
Definition queueWork (universe : gset string) (queue : list string)
    (visited : gset string) : nat :=
  length queue + size (universe ∖ visited).

(** The number of neighbour entries of a graph. *)
Definition edgeCount (g : JS.Map (list string)) : nat := length (g ≫= snd).

(** *** Entries of the mesh impedance matrix *)

(** The value the builder stores in cell [(i, j)]. *)
Definition meshCell (mesh_i : Mesh.t) (i j : nat) (mesh_j : Mesh.t) : float :=
  if Nat.eqb i j
  then CircuitMatrixBuilder.sumRealImpedance (Mesh.branches mesh_i)
  else CircuitMatrixBuilder.sumRealImpedance
         (CircuitMatrixBuilder.findSharedBranches mesh_i mesh_j).

(** The loop over [mesh_i] for a list [l] of rows still to be written. *)
Definition meshRowsLoop (ms : list Mesh.t) (l : list (nat * Mesh.t))
    (Z : list (list float)) : list (list float) :=
  fold_left (λ Z1 '(i, mesh_i),
               fold_left (λ Z2 '(j, mesh_j), JS.set2 Z2 i j (meshCell mesh_i i j mesh_j))
                         (imap (λ j m, (j, m)) ms) Z1)
            l Z.

(** The system matrix of a successful build. *)
Definition builtSystemMatrix (r : CircuitMatrixBuilder.buildResult)
  : option (list (list float)) :=
  match r with
  | CircuitMatrixBuilder.Built matrices => Matrices.systemMatrix matrices
  | CircuitMatrixBuilder.BuildFailed _ => None
  end.

(** *** Walks and meshes *)

(** The node a walk reaches: each branch must touch the current node and
leads to its other end. *)
Fixpoint walkEnd (currentNode : string) (branches : list Branch.t) : option string :=
  match branches with
  | [] => Some currentNode
  | branch :: rest =>
      if String.eqb (Branch.startNodeId branch) currentNode
      then walkEnd (Branch.endNodeId branch) rest
      else if String.eqb (Branch.endNodeId branch) currentNode
      then walkEnd (Branch.startNodeId branch) rest
      else None
  end.

(** A closed walk: following the branches from the start node of the first
branch leads back to that node. *)
Definition isClosedWalk (mesh : list Branch.t) : bool :=
  match mesh with
  | [] => false
  | first :: _ =>
      bool_decide (walkEnd (Branch.startNodeId first) mesh
                   = Some (Branch.startNodeId first))
  end.

(** A walk: every branch touches the node the branches before it lead to,
starting from the start node of the first branch. *)
Definition isWalk (mesh : list Branch.t) : Prop :=
  match mesh with
  | [] => False
  | first :: _ => is_Some (walkEnd (Branch.startNodeId first) mesh)
  end.

(** The identifiers of the branches of a list of meshes, in order. *)
Definition meshBranchIds (meshes : list Mesh.t) : list string :=
  meshes ≫= (λ mesh, Branch.id <$> Mesh.branches mesh).

(** What [findMeshes] maintains: no identifier occurs twice in the meshes
recorded so far, and all of them are in the visited set. *)
Definition meshesDisjoint (st : list Mesh.t * gset string) : Prop :=
  NoDup (meshBranchIds (fst st)) ∧
  ∀ id, id ∈ meshBranchIds (fst st) → id ∈ snd st.

(** *** Systems handed to the solver *)

(** The system the builder makes for the four-node sample under mesh
analysis. *)
Definition fullMeshMatrices : Matrices.t :=
  match CircuitMatrixBuilder.buildSystemMatrices Samples.fullMesh
          (NodeAnalyzer.analyzeNodes Samples.fullMesh) "mesh" with
  | CircuitMatrixBuilder.Built matrices => matrices
  | CircuitMatrixBuilder.BuildFailed _ =>
      Matrices.mk false "" None None None [] [] Dimensions.empty None None 0 0
  end.

(** A system record around a given matrix, with the conditioning the builder
computes for it. *)
Definition systemOf (method : string) (matrix : list (list float))
    (rightHandSide : list float) : Matrices.t :=
  Matrices.mk true method None (Some matrix) (Some rightHandSide) [] []
    Dimensions.empty (Some (CircuitMatrixBuilder.checkMatrixConditioning matrix))
    None 0 0.

(** Four triangles that meet at the node [pA]: a 12 V source and two
resistors of 1000 ohm in the first, three resistors of 1000 ohm in each of
the others; the ground is at [pB]. *)
Definition pG : Point.t := Point.mk 200 100.
Definition pH : Point.t := Point.mk 300 100.
Definition pI : Point.t := Point.mk 0 200.

Definition fourTriangles : Circuit.t :=
  Circuit.mk
    [ Samples.component "voltage_1" "voltage" 12 [Samples.pA; Samples.pB];
      Samples.component "resistor_1" "resistor" 1000 [Samples.pB; Samples.pC];
      Samples.component "resistor_2" "resistor" 1000 [Samples.pC; Samples.pA];
      Samples.component "resistor_3" "resistor" 1000 [Samples.pA; Samples.pD];
      Samples.component "resistor_4" "resistor" 1000 [Samples.pD; Samples.pE];
      Samples.component "resistor_5" "resistor" 1000 [Samples.pE; Samples.pA];
      Samples.component "resistor_6" "resistor" 1000 [Samples.pA; Samples.pF];
      Samples.component "resistor_7" "resistor" 1000 [Samples.pF; pG];
      Samples.component "resistor_8" "resistor" 1000 [pG; Samples.pA];
      Samples.component "resistor_9" "resistor" 1000 [Samples.pA; pH];
      Samples.component "resistor_10" "resistor" 1000 [pH; pI];
      Samples.component "resistor_11" "resistor" 1000 [pI; Samples.pA];
      Samples.component "ground_1" "ground" 0 [Samples.pB] ]
    [ Samples.joint "wire_1" Samples.pB "voltage_1" "resistor_1";
      Samples.joint "wire_2" Samples.pC "resistor_1" "resistor_2";
      Samples.joint "wire_3" Samples.pA "resistor_2" "resistor_3";
      Samples.joint "wire_4" Samples.pD "resistor_3" "resistor_4";
      Samples.joint "wire_5" Samples.pE "resistor_4" "resistor_5";
      Samples.joint "wire_6" Samples.pA "resistor_5" "resistor_6";
      Samples.joint "wire_7" Samples.pF "resistor_6" "resistor_7";
      Samples.joint "wire_8" pG "resistor_7" "resistor_8";
      Samples.joint "wire_9" Samples.pA "resistor_8" "resistor_9";
      Samples.joint "wire_10" pH "resistor_9" "resistor_10";
      Samples.joint "wire_11" pI "resistor_10" "resistor_11";
      Samples.joint "wire_12" Samples.pB "voltage_1" "ground_1" ].

(** The mesh impedance matrix of the four triangles: symmetric and positive
definite. *)
Definition fourTrianglesMatrix : list (list float) :=
  [[2000; 0; 0; 0]; [0; 3000; 0; 0]; [0; 0; 3000; 0]; [0; 0; 0; 3000]]%float.

(** *** Pivots and failure objects of the direct methods *)

(** The augmented matrix Gaussian elimination starts from. *)
Definition augment (A : list (list float)) (b : list float) : list (list float) :=
  imap (λ i row, row ++ [JS.get b i]) A.

(** The pivot of round [i]: the diagonal entry after the row exchange. *)
Definition pivotAfterSwap (M : list (list float)) (n i : nat) : float :=
  let maxRow := EquationSolver.findPivotRow M n i in
  let M1 := if negb (Nat.eqb maxRow i) then EquationSolver.swapRows M i maxRow else M in
  JS.get2 M1 i i.

(** "A pivot of magnitude below the tolerance arises in round [i]" of
Gaussian elimination: rounds [0 .. i-1] went through and the pivot of round
[i] is below [1e-10]. *)
Definition smallPivotArises (n : nat) (augmented : list (list float)) (i : nat)
  : Prop :=
  i < n ∧
  ∃ reached,
    fold_left (EquationSolver.forwardStep n) (seq 0 i) (inr augmented) = inr reached ∧
    JS.lt (abs (pivotAfterSwap reached n i)) EquationSolver.tolerance = true.

(** The same for the LU factorisation, whose pivots are those of [U]. *)
Definition luSmallPivotArises (n : nat) (A : list (list float)) (i : nat) : Prop :=
  i < n ∧
  ∃ L U,
    fold_left (EquationSolver.luStep n) (seq 0 i)
              (inr (EquationSolver.createIdentityMatrix n, EquationSolver.cloneMatrix A))
      = inr (L, U) ∧
    JS.lt (abs (pivotAfterSwap U n i)) EquationSolver.tolerance = true.

(** A square system: [n] rows of [n] cells and [n] right-hand sides.  On
such a system every cell the methods write exists. *)
Definition isSquareSystem (A : list (list float)) (b : list float) : bool :=
  forallb (λ row, Nat.eqb (length row) (length A)) A &&
  Nat.eqb (length b) (length A).

(** The failure objects of the three methods. *)
Definition gaussianAbort (n i : nat) : Solution.t :=
  Solution.mk false
    (Some ("Error en eliminación gaussiana: " +:+ EquationSolver.pivotMessage i))
    (Some (JS.fill n 0%float)) None None [].

Definition luAbort (n i : nat) : Solution.t :=
  Solution.mk false
    (Some ("Error en descomposición LU: " +:+ EquationSolver.luPivotMessage i))
    (Some (JS.fill n 0%float)) None None [].

Definition cramerMessage : string :=
  "Determinante muy pequeño para regla de Cramer".

Definition cramerAbort (n : nat) : Solution.t :=
  Solution.mk false (Some ("Error en regla de Cramer: " +:+ cramerMessage))
    (Some (JS.fill n 0%float)) None None [].

(** "An explicit invalid result carrying the error [message]": the result is
marked invalid, its error text ends with [message] (after the name of the
method that failed), and the solution vector it reports is [n] zeros. *)
Definition abortsWith (result : Solution.t) (n : nat) (message : string) : Prop :=
  Solution.isValid result = false ∧
  (∃ methodPrefix, Solution.error result = Some (methodPrefix +:+ message)) ∧
  Solution.values result = Some (JS.fill n 0%float).

(** A singular system with large entries: the second row is 49 times the
first. *)
Definition singularSystem : list (list float) :=
  [[1; 1099511627776]; [49; 53876069761024]]%float.

(** *** Sources *)

(** The clamp to plus or minus the compliance, as [getOutputVoltage] writes it. *)
Definition clamp (compliance voltage : float) : float :=
  JS.max (- compliance)%float (JS.min compliance voltage).

(** The voltage the claim describes: nominal value minus I * R_internal,
clamped to the compliance. *)
Definition claimedSourceVoltage (nominal current internalResistance compliance : float)
  : float :=
  clamp compliance (nominal - current * internalResistance)%float.

(** A 12 V source with 1 ohm of internal resistance. *)
Definition realSource : Component.t :=
  Component.mk "voltage_1" "voltage" 12 "V1" [] 0%float 0%float 0%float
    (Some 1%float) None None false None None None None None None None None.

(** The same source as a [VoltageSource] object that delivers 2 A. *)
Definition realSourceObject : VoltageSource.t :=
  VoltageSource.mk 12 "dc" 1 60 0 12 0 0.5 0.001 0.001 (12 * 1.1)%float true 12 2.

(** A 1 mA current source. *)
Definition currentSource : Component.t :=
  Component.mk "current_1" "current" 0.001 "I1" [] 0%float 0%float 0%float
    None None None false None None None None None None None None.

(** *** Outcome of a call of the coordinator *)

(** The three parts of what a call of [analyzeCircuit] leaves: the result,
    the analyzer state and the circuit. *)
Definition resultOf (out : AnalysisResult.t * CircuitAnalyzer.state * Circuit.t)
  : AnalysisResult.t := fst (fst out).

Definition stateOf (out : AnalysisResult.t * CircuitAnalyzer.state * Circuit.t)
  : CircuitAnalyzer.state := snd (fst out).

Definition circuitOf (out : AnalysisResult.t * CircuitAnalyzer.state * Circuit.t)
  : Circuit.t := snd out.

(** The electrical fields of all components and wires of a circuit. *)
Definition electricalFields (circuit : Circuit.t)
  : list (float * float * float) * list (float * float * float) :=
  (map (λ c, (Component.voltage c, Component.current c, Component.power c))
       (Circuit.components circuit),
   map (λ w, (Wire.voltage w, Wire.current w, Wire.power w))
       (Circuit.wires circuit)).

(** *** Further sample circuits *)

(** A wire between two points that names no component. *)
Definition plainWire (id : string) (start end_ : Point.t) (resistance : float)
  : Wire.t :=
  Wire.mk id start end_ [] resistance None None 0%float 0%float 0%float.

(** Two ideal wires in a row. *)
Definition twoWires : Circuit.t :=
  Circuit.mk [] [ plainWire "wire_1" Samples.pA Samples.pB 0;
                  plainWire "wire_2" Samples.pB Samples.pE 0 ].

(** A source and a resistor with the identifiers, types and values of
[Samples.sourceAndResistor 1000], drawn apart from each other: no terminal
of one element meets a terminal of another. *)
Definition scattered : Circuit.t :=
  Circuit.mk
    [ Samples.component "voltage_1" "voltage" 12 [Samples.pC; Samples.pD];
      Samples.component "resistor_1" "resistor" 1000 [Samples.pE; Samples.pF];
      Samples.component "ground_1" "ground" 0 [Samples.pA] ]
    [ Samples.joint "wire_1" Samples.pB "voltage_1" "resistor_1";
      Samples.joint "wire_2" Samples.pA "resistor_1" "ground_1" ].

(** *** Runs of the analyzer *)

(** What a client does with an analyzer: an awaited call of
[analyzeCircuit], or [clearCache]. *)
Inductive operation :=
| Analyze (circuit : Circuit.t) (clk : CircuitAnalyzer.clock)
| ClearCache.

Section Runs.
Variable stringify : CircuitData.t → list Z.
Variable toFixed : float → nat → string.
Variable toExponential : float → nat → string.

(** The results of the calls of a run, in order, and the analyzer state at
the end. *)
Fixpoint run (st : CircuitAnalyzer.state) (ops : list operation)
  : list AnalysisResult.t * CircuitAnalyzer.state :=
  match ops with
  | [] => ([], st)
  | Analyze circuit clk :: rest =>
      let out := CircuitAnalyzer.analyzeCircuit stringify toFixed toExponential
                   st circuit clk in
      let later := run (stateOf out) rest in
      (resultOf out :: fst later, snd later)
  | ClearCache :: rest => run (CircuitAnalyzer.clearCache st) rest
  end.
End Runs.

(** The number of calls of [analyzeCircuit] in a run. *)
Definition isCall (op : operation) : bool :=
  match op with
  | Analyze _ _ => true
  | ClearCache => false
  end.

Definition callCount (ops : list operation) : nat :=
  length (filter (λ op, isCall op = true) ops).

(** The currents a result reports: one per branch, one per component, one
per wire, and the total. *)
Definition reportedCurrents (payload : AnalysisResult.payload) : list float :=
  map snd (AnalysisResult.branchCurrents payload) ++
  map (λ entry, ComponentValues.current (snd entry))
      (AnalysisResult.componentValues payload) ++
  map snd (AnalysisResult.currentFlow payload) ++
  [AnalysisResult.totalCurrent payload].

(** The four-node sample with one resistor replaced by a 1 mA current
source. *)
Definition fullMeshWithCurrentSource : Circuit.t :=
  Circuit.mk
    [ Samples.component "voltage_1" "voltage" 12 [Samples.pA; Samples.pB];
      Samples.component "resistor_1" "resistor" 1000 [Samples.pB; Samples.pC];
      Samples.component "resistor_2" "resistor" 1000 [Samples.pB; Samples.pD];
      Samples.component "resistor_3" "resistor" 1000 [Samples.pC; Samples.pA];
      Samples.component "current_1" "current" 0.001 [Samples.pD; Samples.pA];
      Samples.component "resistor_5" "resistor" 1000 [Samples.pC; Samples.pD];
      Samples.component "ground_1" "ground" 0 [Samples.pA] ]
    [ Samples.joint "wire_1" Samples.pB "voltage_1" "resistor_1";
      Samples.joint "wire_2" Samples.pB "resistor_1" "resistor_2";
      Samples.joint "wire_3" Samples.pC "resistor_1" "resistor_3";
      Samples.joint "wire_4" Samples.pC "resistor_3" "resistor_5";
      Samples.joint "wire_5" Samples.pD "resistor_2" "current_1";
      Samples.joint "wire_6" Samples.pA "current_1" "ground_1" ].

(** *** Methods *)

(** The analysis methods [buildSystemMatrices] has a case for. *)
Definition supportedMethods : list string :=
  ["nodal"; "nodal_modified"; "mesh"; "mesh_modified"; "series"; "parallel"; "ladder"].

(** The solving methods [solve] has a case for. *)
Definition solverMethods : list string :=
  ["direct_elimination"; "lu_decomposition"; "cholesky"; "iterative_jacobi";
   "iterative_gauss_seidel"; "cramer"; "series_simple"; "parallel_simple"].

(** Two triangles that meet at the node [pA]: a 12 V source and two
resistors of 1000 ohm on one side, three resistors of 1000 ohm on the other;
the ground is at [pB]. *)
Definition twoTriangles : Circuit.t :=
  Circuit.mk
    [ Samples.component "voltage_1" "voltage" 12 [Samples.pA; Samples.pB];
      Samples.component "resistor_1" "resistor" 1000 [Samples.pB; Samples.pC];
      Samples.component "resistor_2" "resistor" 1000 [Samples.pC; Samples.pA];
      Samples.component "resistor_3" "resistor" 1000 [Samples.pA; Samples.pD];
      Samples.component "resistor_4" "resistor" 1000 [Samples.pD; Samples.pE];
      Samples.component "resistor_5" "resistor" 1000 [Samples.pE; Samples.pA];
      Samples.component "ground_1" "ground" 0 [Samples.pB] ]
    [ Samples.joint "wire_1" Samples.pB "voltage_1" "resistor_1";
      Samples.joint "wire_2" Samples.pC "resistor_1" "resistor_2";
      Samples.joint "wire_3" Samples.pA "resistor_2" "resistor_3";
      Samples.joint "wire_4" Samples.pD "resistor_3" "resistor_4";
      Samples.joint "wire_5" Samples.pE "resistor_4" "resistor_5";
      Samples.joint "wire_6" Samples.pB "voltage_1" "ground_1" ].

(** *** Reports of the iterative methods *)

(** What an iterative method reports after at most [limit] sweeps.  A valid
result carries the number [k] of sweeps done, between 1 and [limit], the
iterate [x] of the last sweep and one residual per sweep: the last one is
the residual of [x] and is below the tolerance, the earlier ones are not.
An invalid result carries [limit] residuals, none below the tolerance, the
text [failure], and neither a method name nor an iteration count. *)
Definition convergenceReport (A : list (list float)) (b : list float)
    (limit : nat) (name failure : string) (result : Solution.t) : Prop :=
  if Solution.isValid result
  then ∃ k x earlier,
         Solution.iterations result = Some k ∧ 1 ≤ k ≤ limit ∧
         Solution.values result = Some x ∧
         Solution.residuals result = earlier ++ [EquationSolver.calculateResidual A b x] ∧
         length earlier = k - 1 ∧
         Forall (λ r, JS.lt r EquationSolver.tolerance = false) earlier ∧
         JS.lt (EquationSolver.calculateResidual A b x) EquationSolver.tolerance = true ∧
         Solution.method result = Some name ∧ Solution.error result = None
  else Solution.iterations result = None ∧
       length (Solution.residuals result) = limit ∧
       Forall (λ r, JS.lt r EquationSolver.tolerance = false) (Solution.residuals result) ∧
       Solution.error result = Some failure ∧ Solution.method result = None.

(** *** A bridge *)

(** A node with the given identifier and neighbours. *)
Definition junctionNode (id : string) (connections : list string)
  : ElectricalNode.t :=
  ElectricalNode.mk id 0 0 [] [] [] connections false 0 "junction".

(** The five nodes of a bridge: four with three neighbours, one with two. *)
Definition bridgeNodes : list ElectricalNode.t :=
  [ junctionNode "enode_0" ["enode_1"; "enode_2"; "enode_4"];
    junctionNode "enode_1" ["enode_0"; "enode_3"; "enode_2"];
    junctionNode "enode_2" ["enode_0"; "enode_3"; "enode_1"];
    junctionNode "enode_3" ["enode_1"; "enode_2"; "enode_4"];
    junctionNode "enode_4" ["enode_0"; "enode_3"] ].

(** *** Square and symmetric matrices *)

(** An [n] by [n] matrix, and a matrix whose cell [(i, j)] always holds the
very number of cell [(j, i)]. *)
Definition squareMatrix (n : nat) (M : list (list float)) : Prop :=
  length M = n ∧ Forall (λ row, length row = n) M.

Definition symmetricMatrix (M : list (list float)) : Prop :=
  ∀ i j, JS.get2 M i j = JS.get2 M j i.

(** The system the builder makes for the four-node sample under nodal
analysis. *)
Definition fullMeshNodalMatrices : Matrices.t :=
  match CircuitMatrixBuilder.buildSystemMatrices Samples.fullMesh
          (NodeAnalyzer.analyzeNodes Samples.fullMesh) "nodal" with
  | CircuitMatrixBuilder.Built matrices => matrices
  | CircuitMatrixBuilder.BuildFailed _ =>
      Matrices.mk false "" None None None [] [] Dimensions.empty None None 0 0
  end.

(** *** Reachability *)

(** [linked nodes a b]: the node the loop of [isGraphConnected] finds for the
identifier [a] lists [b] among its connections. *)
Definition linked (nodes : list ElectricalNode.t) (a b : string) : Prop :=
  ∃ node, List.find (λ n, String.eqb (ElectricalNode.id n) a) nodes = Some node ∧
          b ∈ ElectricalNode.connections node.
(* ===================================================================== *)
(** * Part II: properties                                                 *)
(* ===================================================================== *)

(** Closed facts are checked by evaluation, one conjunct at a time. *)
Ltac conjuncts := intros; repeat match goal with |- _ ∧ _ => split end.
Ltac evaluate := conjuncts; vm_compute; reflexivity.

(** ** Loops that write array cells *)

Section CellLoops.
Context {A B : Type}.

Lemma writeCells_length (h : nat → A → B) (ps : list (nat * A)) (row : list B) :
  length (writeCells h ps row) = length row.
Proof.
  revert row. induction ps as [|[j x] ps IH]; intros row; simpl; [done|].
  rewrite IH. apply length_insert.
Qed.

Lemma writeCells_snoc (h : nat → A → B) (ps : list (nat * A)) (j : nat) (x : A)
    (row : list B) :
  writeCells h (ps ++ [(j, x)]) row = <[j := h j x]> (writeCells h ps row).
Proof. unfold writeCells. by rewrite fold_left_app. Qed.

Lemma imap_pair_snoc (l : list A) (x : A) :
  imap (λ j y, (j, y)) (l ++ [x]) = imap (λ j y, (j, y)) l ++ [(length l, x)].
Proof. rewrite imap_app. simpl. by rewrite Nat.add_0_r. Qed.

(** After the loop, the cells below [length l] hold the computed values and
    the others are untouched. *)
Lemma writeCells_lookup (h : nat → A → B) (l : list A) (row : list B) (j : nat) :
  length l ≤ length row →
  writeCells h (imap (λ j x, (j, x)) l) row !! j =
    match l !! j with
    | Some x => Some (h j x)
    | None => row !! j
    end.
Proof.
  revert row j. induction l as [|x l IH] using rev_ind; intros row j Hlen.
  - done.
  - rewrite length_app in Hlen. simpl in Hlen.
    rewrite imap_pair_snoc, writeCells_snoc.
    destruct (decide (j = length l)) as [->|Hne].
    + rewrite list_lookup_insert_eq by (rewrite writeCells_length; lia).
      by rewrite lookup_app_r, Nat.sub_diag by lia.
    + rewrite list_lookup_insert_ne by done.
      rewrite IH by lia.
      destruct (decide (j < length l)) as [Hlt|Hge].
      * by rewrite lookup_app_l by lia.
      * rewrite (lookup_ge_None_2 l j) by lia.
        by rewrite (lookup_ge_None_2 (l ++ [x]) j) by (rewrite length_app; simpl; lia).
Qed.
End CellLoops.

(** Writing the cells of row [i] of a matrix one by one replaces that row
    by the row with the cells written. *)
Lemma set2_row_loop {A} (h : nat → A → float) (i : nat) (ps : list (nat * A))
    (Z : list (list float)) (row : list float) :
  Z !! i = Some row →
  fold_left (λ Z' '(j, x), JS.set2 Z' i j (h j x)) ps Z
  = <[i := writeCells h ps row]> Z.
Proof.
  revert Z row. induction ps as [|[j x] ps IH]; intros Z row HZ; simpl.
  - by rewrite list_insert_id.
  - assert (i < length Z) as Hi by (by eapply lookup_lt_Some).
    unfold JS.set2 at 2. rewrite HZ. simpl.
    rewrite (IH _ (<[j := h j x]> row)) by (by rewrite list_lookup_insert_eq).
    by rewrite list_insert_insert_eq.
Qed.

(** ** The union-find structure: [find] reaches a root *)

Lemma filter_length_lt {A} (P Q : A → Prop) `{∀ x, Decision (P x)}
    `{∀ x, Decision (Q x)} (l : list A) (z : A) :
  (∀ y, P y → Q y) → z ∈ l → Q z → ¬ P z →
  length (filter P l) < length (filter Q l).
Proof.
  intros HPQ Hz HQ HP.
  assert (∀ l', length (filter P l') ≤ length (filter Q l')) as Hle.
  { induction l' as [|a l' IH]; [done|].
    rewrite !filter_cons. destruct (decide (P a)) as [Ha|Ha].
    - rewrite decide_True by auto. simpl. lia.
    - destruct (decide (Q a)); simpl; lia. }
  induction l as [|a l IH]; [by apply elem_of_nil in Hz|].
  rewrite !filter_cons. apply elem_of_cons in Hz as [<-|Hz].
  - rewrite decide_False, decide_True by done. simpl. specialize (Hle l). lia.
  - specialize (IH Hz). destruct (decide (P a)) as [Ha|Ha].
    + rewrite decide_True by auto. simpl. lia.
    + destruct (decide (Q a)); simpl; lia.
Qed.

Lemma above_parent (uf : UnionFind.t) (x p : nat) :
  p < length (UnionFind.parent uf) → rankOf uf x < rankOf uf p →
  above uf p < above uf x.
Proof.
  intros Hp Hrank. unfold above.
  apply (filter_length_lt _ _ _ p).
  - intros y Hy. lia.
  - apply elem_of_seq. lia.
  - done.
  - lia.
Qed.

Lemma filter_length_lt_all {A} (P : A → Prop) `{∀ x, Decision (P x)}
    (l : list A) (z : A) :
  z ∈ l → ¬ P z → length (filter P l) < length l.
Proof.
  intros Hz HP. induction l as [|a l IH]; [by apply elem_of_nil in Hz|].
  rewrite filter_cons. apply elem_of_cons in Hz as [<-|Hz].
  - rewrite decide_False by done. pose proof (length_filter P l). simpl. lia.
  - specialize (IH Hz). destruct (decide (P a)); simpl; lia.
Qed.

Lemma above_bound (uf : UnionFind.t) (x : nat) :
  x < length (UnionFind.parent uf) → above uf x < length (UnionFind.parent uf).
Proof.
  intros Hx. unfold above.
  pose proof (filter_length_lt_all (λ y, rankOf uf x < rankOf uf y)
                (seq 0 (length (UnionFind.parent uf))) x) as Hlt.
  rewrite length_seq in Hlt. apply Hlt; [|lia].
  apply elem_of_seq. lia.
Qed.

(** What [find] does on a well-formed forest when the fuel covers the path:
it returns the root of [x], keeps the ranks and the roots, and leaves the
forest well formed. *)
Lemma findFrom_spec (fuel : nat) (uf : UnionFind.t) (x : nat) :
  wellFormed uf →
  x < length (UnionFind.parent uf) →
  above uf x < fuel →
  let root := fst (UnionFind.findFrom fuel uf x) in
  let uf' := snd (UnionFind.findFrom fuel uf x) in
  UnionFind.rank uf' = UnionFind.rank uf ∧
  length (UnionFind.parent uf') = length (UnionFind.parent uf) ∧
  wellFormed uf' ∧
  root < length (UnionFind.parent uf) ∧
  rankOf uf x ≤ rankOf uf root ∧
  UnionFind.parent uf' !! root = Some root ∧
  ∀ y, UnionFind.parent uf !! y = Some y → UnionFind.parent uf' !! y = Some y.
Proof.
  intros Hwf. revert x.
  induction fuel as [|fuel IH]; intros x Hx Habove; [lia|].
  cbv zeta in *. cbn [UnionFind.findFrom].
  destruct (lookup_lt_is_Some_2 _ _ Hx) as [p Hp]. rewrite Hp. cbn [default from_option id].
  destruct (Nat.eqb p x) eqn:Heq; cbn [negb].
  { apply Nat.eqb_eq in Heq as ->. cbn [fst snd].
    split; [done|]. split; [done|]. split; [done|]. split; [done|].
    split; [lia|]. split; done. }
  apply Nat.eqb_neq in Heq.
  destruct Hwf as [Hlen Hedges]. destruct (Hedges x p Hp) as [Hpn Hrank].
  specialize (Hrank Heq).
  pose proof (above_parent uf x p Hpn Hrank) as Hless.
  specialize (IH p Hpn ltac:(lia)).
  destruct (UnionFind.findFrom fuel uf p) as [root uf'].
  cbn [fst snd] in *.
  destruct IH as (Hrk & Hlen' & [Hlen'' Hedges'] & Hroot & Hle & Hfix & Hroots).
  assert (rankOf uf x < rankOf uf root) as Hxroot by lia.
  assert (root ≠ x) as Hne by (intros ->; lia).
  assert (∀ y, rankOf (UnionFind.mk (<[x := root]> (UnionFind.parent uf'))
                         (UnionFind.rank uf')) y = rankOf uf y) as Hsame.
  { intros y. unfold rankOf. cbn [UnionFind.rank]. by rewrite Hrk. }
  assert (∀ y, rankOf uf' y = rankOf uf y) as Hsame'.
  { intros y. unfold rankOf. by rewrite Hrk. }
  cbn [UnionFind.rank UnionFind.parent].
  split; [done|]. split; [by rewrite length_insert|]. split; [|split; [done|]].
  - split; cbn [UnionFind.rank UnionFind.parent]; [by rewrite length_insert, Hlen'', Hlen'|].
    intros y q Hq. rewrite length_insert, !Hsame.
    destruct (decide (y = x)) as [->|Hyx].
    + rewrite list_lookup_insert_eq in Hq by lia. injection Hq as <-.
      split; [lia|]. done.
    + rewrite list_lookup_insert_ne in Hq by done.
      destruct (Hedges' y q Hq) as [Hqn Hqr]. rewrite !Hsame' in Hqr. done.
  - split; [lia|]. split.
    + by rewrite list_lookup_insert_ne.
    + intros y Hy. assert (y ≠ x) as Hyx by (intros ->; congruence).
      rewrite list_lookup_insert_ne by done. by apply Hroots.
Qed.

(** [find]: its fuel, the number of elements, covers every path. *)
Lemma find_spec (uf : UnionFind.t) (x : nat) :
  wellFormed uf →
  x < length (UnionFind.parent uf) →
  let root := fst (UnionFind.find uf x) in
  let uf' := snd (UnionFind.find uf x) in
  UnionFind.rank uf' = UnionFind.rank uf ∧
  length (UnionFind.parent uf') = length (UnionFind.parent uf) ∧
  wellFormed uf' ∧
  root < length (UnionFind.parent uf) ∧
  rankOf uf x ≤ rankOf uf root ∧
  UnionFind.parent uf' !! root = Some root ∧
  ∀ y, UnionFind.parent uf !! y = Some y → UnionFind.parent uf' !! y = Some y.
Proof.
  intros Hwf Hx. apply findFrom_spec; [done|done|]. by apply above_bound.
Qed.

(** More fuel does not change what [find] returns. *)
Lemma findFrom_enough_fuel (fuel : nat) (uf : UnionFind.t) (x more : nat) :
  wellFormed uf →
  x < length (UnionFind.parent uf) →
  above uf x < fuel →
  UnionFind.findFrom (fuel + more) uf x = UnionFind.findFrom fuel uf x.
Proof.
  intros Hwf. revert x.
  induction fuel as [|fuel IH]; intros x Hx Habove; [lia|].
  cbn [Nat.add UnionFind.findFrom].
  destruct (lookup_lt_is_Some_2 _ _ Hx) as [p Hp]. rewrite Hp.
  cbn [default from_option id].
  destruct (Nat.eqb p x) eqn:Heq; cbn [negb]; [done|].
  apply Nat.eqb_neq in Heq.
  destruct Hwf as [Hlen Hedges]. destruct (Hedges x p Hp) as [Hpn Hrank].
  specialize (Hrank Heq).
  pose proof (above_parent uf x p Hpn Hrank) as Hless.
  by rewrite (IH p Hpn) by lia.
Qed.

Lemma find_enough_fuel (uf : UnionFind.t) (x more : nat) :
  wellFormed uf →
  UnionFind.findFrom (length (UnionFind.parent uf) + more) uf x
  = UnionFind.find uf x.
Proof.
  intros Hwf. unfold UnionFind.find.
  destruct (decide (x < length (UnionFind.parent uf))) as [Hx|Hx].
  - apply findFrom_enough_fuel; [done|done|]. by apply above_bound.
  - assert (∀ fuel, UnionFind.findFrom fuel uf x = (x, uf)) as Hout.
    { intros fuel.
      destruct fuel; cbn [UnionFind.findFrom];
        rewrite (lookup_ge_None_2 (UnionFind.parent uf) x) by lia;
        cbn [default from_option id]; [done|]. by rewrite Nat.eqb_refl. }
    by rewrite !Hout.
Qed.

(** A fresh structure is well formed, and [union] of two elements keeps a
well-formed forest well formed. *)
Lemma create_wellFormed (size : nat) : wellFormed (UnionFind.create size).
Proof.
  split; simpl.
  - by rewrite length_replicate, length_seq.
  - intros x p Hp. apply lookup_seq in Hp as [-> Hx]. rewrite length_seq.
    split; [lia|done].
Qed.

Lemma union_wellFormed (uf : UnionFind.t) (x y : nat) :
  wellFormed uf →
  x < length (UnionFind.parent uf) →
  y < length (UnionFind.parent uf) →
  wellFormed (UnionFind.union uf x y) ∧
  length (UnionFind.parent (UnionFind.union uf x y)) = length (UnionFind.parent uf).
Proof.
  intros Hwf Hx Hy. unfold UnionFind.union.
  pose proof (find_spec uf x Hwf Hx) as Hfx. cbv zeta in Hfx.
  destruct (UnionFind.find uf x) as [rootX uf1]. cbn [fst snd] in Hfx.
  destruct Hfx as (Hrk1 & Hlen1 & Hwf1 & HrootX & _ & HfixX & _).
  pose proof (find_spec uf1 y Hwf1 ltac:(lia)) as Hfy. cbv zeta in Hfy.
  destruct (UnionFind.find uf1 y) as [rootY uf2]. cbn [fst snd] in Hfy.
  destruct Hfy as (Hrk2 & Hlen2 & Hwf2 & HrootY & _ & HfixY & Hroots).
  specialize (Hroots rootX HfixX).
  destruct (Nat.eqb rootX rootY) eqn:Heq; cbn [negb]; [split; [done|lia]|].
  apply Nat.eqb_neq in Heq.
  destruct Hwf2 as [Hlen Hedges].
  set (rankX := default 0 (UnionFind.rank uf2 !! rootX)).
  set (rankY := default 0 (UnionFind.rank uf2 !! rootY)).
  assert (rankX = rankOf uf2 rootX) as HrX by done.
  assert (rankY = rankOf uf2 rootY) as HrY by done.
  destruct (Nat.ltb rankX rankY) eqn:Hlt; [|destruct (Nat.ltb rankY rankX) eqn:Hgt].
  - apply Nat.ltb_lt in Hlt. split; [|cbn [UnionFind.parent]; rewrite length_insert; lia].
    split; cbn [UnionFind.parent UnionFind.rank]; [by rewrite length_insert|].
    intros z q Hq. rewrite length_insert. unfold rankOf. cbn [UnionFind.rank].
    fold (rankOf uf2 z). fold (rankOf uf2 q).
    destruct (decide (z = rootX)) as [->|Hz].
    + rewrite list_lookup_insert_eq in Hq by lia. injection Hq as <-.
      split; [lia|]. intros _. lia.
    + rewrite list_lookup_insert_ne in Hq by done. by apply Hedges.
  - apply Nat.ltb_lt in Hgt. split; [|cbn [UnionFind.parent]; rewrite length_insert; lia].
    split; cbn [UnionFind.parent UnionFind.rank]; [by rewrite length_insert|].
    intros z q Hq. rewrite length_insert. unfold rankOf. cbn [UnionFind.rank].
    fold (rankOf uf2 z). fold (rankOf uf2 q).
    destruct (decide (z = rootY)) as [->|Hz].
    + rewrite list_lookup_insert_eq in Hq by lia. injection Hq as <-.
      split; [lia|]. intros _. lia.
    + rewrite list_lookup_insert_ne in Hq by done. by apply Hedges.
  - apply Nat.ltb_ge in Hlt, Hgt.
    split; [|cbn [UnionFind.parent]; rewrite length_insert; lia].
    split; cbn [UnionFind.parent UnionFind.rank]; [by rewrite !length_insert|].
    intros z q Hq. rewrite length_insert.
    assert (∀ w, rankOf (UnionFind.mk (<[rootY := rootX]> (UnionFind.parent uf2))
                           (<[rootX := S rankX]> (UnionFind.rank uf2))) w
                 = if decide (w = rootX) then S rankX else rankOf uf2 w) as Hrank.
    { intros w. unfold rankOf. cbn [UnionFind.rank].
      destruct (decide (w = rootX)) as [->|Hw].
      - by rewrite list_lookup_insert_eq by lia.
      - by rewrite list_lookup_insert_ne. }
    rewrite !Hrank.
    destruct (decide (z = rootY)) as [->|Hz].
    + rewrite list_lookup_insert_eq in Hq by lia. injection Hq as <-.
      split; [lia|]. intros _.
      rewrite decide_False by done. rewrite decide_True by done. lia.
    + rewrite list_lookup_insert_ne in Hq by done.
      destruct (Hedges z q Hq) as [Hqn Hqr]. split; [done|]. intros Hne.
      specialize (Hqr Hne).
      destruct (decide (z = rootX)) as [->|HzX].
      * congruence.
      * destruct (decide (q = rootX)) as [->|HqX]; lia.
Qed.

Lemma findNodeAtPosition_index (nodes : list PhysicalNode.t) (x y : float)
    (index : nat) :
  NodeAnalyzer.findNodeAtPosition nodes x y = Some index → index < length nodes.
Proof.
  unfold NodeAnalyzer.findNodeAtPosition. intros Hfind.
  apply fmap_Some in Hfind as ([i node] & Hfind & ->).
  apply list_find_Some in Hfind as (Hnode & _). by eapply lookup_lt_Some.
Qed.

(** The structure [createElectricalNodes] builds from the wires is well
formed, so each of its [find] calls reaches a root within its fuel. *)
Lemma uniteByWires_wellFormed (physicalNodes : list PhysicalNode.t)
    (circuit : Circuit.t) :
  wellFormed (NodeAnalyzer.uniteByWires physicalNodes circuit) ∧
  length (UnionFind.parent (NodeAnalyzer.uniteByWires physicalNodes circuit))
    = length physicalNodes.
Proof.
  unfold NodeAnalyzer.uniteByWires.
  set (step := λ (uf : UnionFind.t) (wire : Wire.t), _).
  assert (∀ wires uf,
            wellFormed uf ∧ length (UnionFind.parent uf) = length physicalNodes →
            wellFormed (fold_left step wires uf) ∧
            length (UnionFind.parent (fold_left step wires uf))
              = length physicalNodes) as Hfold.
  { induction wires as [|wire wires IH]; intros uf [Hwf Hlen]; [done|].
    cbn [fold_left]. apply IH. unfold step.
    destruct (JS.lt (Wire.resistance wire) _); [|done].
    destruct (NodeAnalyzer.findNodeAtPosition physicalNodes _ _)
      as [startIndex|] eqn:Hstart; [|done].
    destruct (NodeAnalyzer.findNodeAtPosition physicalNodes
                (Point.x (Wire.end_ wire)) _) as [endIndex|] eqn:Hend; [|done].
    apply findNodeAtPosition_index in Hstart, Hend.
    destruct (union_wellFormed uf startIndex endIndex Hwf) as [Hwf' Hlen']; [lia|lia|].
    split; [done|lia]. }
  apply Hfold. split; [apply create_wellFormed|].
  simpl. by rewrite length_seq.
Qed.

(** ** The queue loops run to the end *)

Lemma size_list_to_set_le (l : list string) :
  size (list_to_set l : gset string) ≤ length l.
Proof.
  induction l as [|x l IH]; cbn [list_to_set foldr length].
  - by rewrite size_empty.
  - rewrite size_union_alt, size_singleton.
    pose proof (subseteq_size (list_to_set l ∖ {[x]}) (list_to_set l : gset string))
      as Hsub.
    assert (list_to_set l ∖ {[x]} ⊆ (list_to_set l : gset string)) as Hincl
      by apply subseteq_difference_l, reflexivity.
    specialize (Hsub Hincl). lia.
Qed.

Lemma size_visit (universe visited : gset string) (x : string) :
  x ∈ universe → x ∉ visited →
  S (size (universe ∖ ({[x]} ∪ visited))) = size (universe ∖ visited).
Proof.
  intros HU Hv.
  assert (universe ∖ ({[x]} ∪ visited) = (universe ∖ visited) ∖ {[x]}) as ->.
  { apply set_eq. intros y. rewrite !elem_of_difference, elem_of_union,
      elem_of_singleton. tauto. }
  assert ({[x]} ⊆ universe ∖ visited) as Hsub.
  { apply singleton_subseteq_l. by apply elem_of_difference. }
  rewrite (size_difference _ _ Hsub), size_singleton.
  pose proof (subseteq_size _ _ Hsub) as Hle. rewrite size_singleton in Hle. lia.
Qed.

(** Visiting the neighbours of a node does not add work. *)
Lemma visitNeighbors_work (universe : gset string) (neighbors : list string)
    (queue : list string) (visited : gset string) :
  (∀ x, x ∈ neighbors → x ∈ universe) →
  let out :=
    fold_left (λ '(q, v) neighborId,
                 if bool_decide (neighborId ∈ v) then (q, v)
                 else (q ++ [neighborId], {[neighborId]} ∪ v))
              neighbors (queue, visited) in
  queueWork universe (fst out) (snd out) = queueWork universe queue visited.
Proof.
  revert queue visited.
  induction neighbors as [|x neighbors IH]; intros queue visited HU; [done|].
  cbn [fold_left]. case_bool_decide as Hx.
  - apply IH. intros y Hy. apply HU. by right.
  - etrans; [apply IH; intros y Hy; apply HU; by right|].
    unfold queueWork. rewrite length_app. cbn [length].
    rewrite <- (size_visit universe visited x); [lia| |done].
    apply HU. by left.
Qed.

Lemma bfs_empty_queue fuel nodes visited :
  NodeAnalyzer.bfs fuel nodes [] visited = visited.
Proof. by destruct fuel. Qed.

(** With fuel for the work left, more fuel does not change the result of
the loop of [isGraphConnected]: the loop ends because its queue is empty. *)
Lemma bfs_enough_fuel (universe : gset string) (nodes : list ElectricalNode.t) :
  (∀ node x, node ∈ nodes → x ∈ ElectricalNode.connections node → x ∈ universe) →
  ∀ fuel queue visited more,
    queueWork universe queue visited ≤ fuel →
    NodeAnalyzer.bfs (fuel + more) nodes queue visited
    = NodeAnalyzer.bfs fuel nodes queue visited.
Proof.
  intros HU. induction fuel as [|fuel IH]; intros queue visited more Hwork.
  - destruct queue as [|c queue]; [by rewrite !bfs_empty_queue|].
    unfold queueWork in Hwork. simpl in Hwork. lia.
  - destruct queue as [|currentNodeId queue]; [by rewrite !bfs_empty_queue|].
    cbn [Nat.add NodeAnalyzer.bfs].
    destruct (List.find _ nodes) as [currentNode|] eqn:Hfind.
    + apply List.find_some in Hfind as [Hin _]. apply list_elem_of_In in Hin.
      pose proof (visitNeighbors_work universe
                    (ElectricalNode.connections currentNode) queue visited
                    (λ x Hx, HU currentNode x Hin Hx)) as Hsame.
      cbv zeta in Hsame.
      destruct (fold_left _ (ElectricalNode.connections currentNode) (queue, visited))
        as [queue' visited'].
      apply IH. cbn [fst snd] in Hsame. rewrite Hsame.
      unfold queueWork in *. simpl in Hwork. lia.
    + apply IH. unfold queueWork in *. simpl in Hwork. lia.
Qed.

Lemma bfsFuel_connections (nodes : list ElectricalNode.t) :
  NodeAnalyzer.bfsFuel nodes = S (length (nodes ≫= ElectricalNode.connections)).
Proof.
  unfold NodeAnalyzer.bfsFuel. f_equal.
  induction nodes as [|node nodes IH]; [done|].
  rewrite bind_cons, length_app. simpl. by rewrite IH.
Qed.

(** The fuel [isGraphConnected] gives its loop is enough. *)
Lemma isGraphConnected_fuel (nodes : list ElectricalNode.t) (start : string)
    (more : nat) :
  NodeAnalyzer.bfs (NodeAnalyzer.bfsFuel nodes + more) nodes [start] {[start]}
  = NodeAnalyzer.bfs (NodeAnalyzer.bfsFuel nodes) nodes [start] {[start]}.
Proof.
  apply (bfs_enough_fuel (list_to_set (nodes ≫= ElectricalNode.connections))).
  - intros node x Hnode Hx. apply elem_of_list_to_set, list_elem_of_bind.
    by exists node.
  - rewrite bfsFuel_connections. unfold queueWork. cbn [length].
    pose proof (size_list_to_set_le (nodes ≫= ElectricalNode.connections)) as Hle.
    pose proof (subseteq_size
                  (list_to_set (nodes ≫= ElectricalNode.connections) ∖ {[start]})
                  (list_to_set (nodes ≫= ElectricalNode.connections) : gset string))
      as Hsub.
    assert (list_to_set (nodes ≫= ElectricalNode.connections) ∖ {[start]}
            ⊆ (list_to_set (nodes ≫= ElectricalNode.connections) : gset string))
      as Hincl by apply subseteq_difference_l, reflexivity.
    specialize (Hsub Hincl). lia.
Qed.

Lemma map_get_entry {V} (g : JS.Map V) (k : string) (v : V) :
  JS.map_get g k = Some v → ∃ k', (k', v) ∈ g.
Proof.
  induction g as [|[k0 v0] g IH]; simpl; [done|].
  destruct (String.eqb k0 k).
  - intros [= ->]. exists k0. by left.
  - intros Hget. destruct (IH Hget) as [k' Hin]. exists k'. by right.
Qed.

Lemma map_set_edgeCount (g : JS.Map (list string)) (k : string)
    (old new : list string) :
  JS.map_get g k = Some old →
  edgeCount (JS.map_set g k new) + length old = edgeCount g + length new.
Proof.
  unfold edgeCount.
  induction g as [|[k0 v0] g IH]; cbn [JS.map_get JS.map_set]; [done|].
  destruct (String.eqb k0 k).
  - intros [= ->]. rewrite !bind_cons, !length_app. cbn [snd]. lia.
  - intros Hget. specialize (IH Hget).
    rewrite !bind_cons, !length_app. cbn [snd]. lia.
Qed.

Lemma map_set_empty_edgeCount (g : JS.Map (list string)) (k : string) :
  edgeCount (JS.map_set g k []) ≤ edgeCount g.
Proof.
  unfold edgeCount.
  induction g as [|[k0 v0] g IH]; cbn [JS.map_set]; [done|].
  destruct (String.eqb k0 k); rewrite !bind_cons, !length_app; cbn [snd length]; lia.
Qed.

Lemma setAdd_length (s : list string) (k : string) :
  length (NodeAnalyzer.setAdd s k) ≤ S (length s).
Proof.
  unfold NodeAnalyzer.setAdd. destruct (existsb _ s); [lia|].
  rewrite length_app. simpl. lia.
Qed.

Lemma addEdge_edgeCount (acc : string + JS.Map (list string)) (a b : string)
    (g : JS.Map (list string)) :
  NodeAnalyzer.addEdge acc a b = inr g →
  ∃ g0, acc = inr g0 ∧ edgeCount g ≤ S (edgeCount g0).
Proof.
  destruct acc as [thrown|g0]; simpl; [done|].
  destruct (JS.map_get g0 a) as [neighbors|] eqn:Hget; [|done].
  intros [= <-]. exists g0. split; [done|].
  pose proof (map_set_edgeCount g0 a neighbors (NodeAnalyzer.setAdd neighbors b) Hget).
  pose proof (setAdd_length neighbors b). lia.
Qed.

(** A built graph has at most two neighbour entries per wire. *)
Lemma componentGraph_edgeCount (circuit : Circuit.t) (g : JS.Map (list string)) :
  NodeAnalyzer.componentGraph circuit = inr g →
  edgeCount g ≤ 2 * length (Circuit.wires circuit).
Proof.
  unfold NodeAnalyzer.componentGraph.
  set (step := λ (g : string + JS.Map (list string)) (wire : Wire.t), _).
  assert (∀ wires acc g,
            fold_left step wires acc = inr g →
            ∃ g0, acc = inr g0 ∧ edgeCount g ≤ edgeCount g0 + 2 * length wires)
    as Hwires.
  { induction wires as [|wire wires IH]; intros acc g' Hfold; simpl in Hfold.
    - exists g'. split; [done|lia].
    - destruct (IH _ _ Hfold) as (g1 & Hstep & Hle). unfold step in Hstep.
      destruct (NodeAnalyzer.namedEnd (Wire.startComponent wire)) as [a|];
        [destruct (NodeAnalyzer.namedEnd (Wire.endComponent wire)) as [b|]|].
      + apply addEdge_edgeCount in Hstep as (g2 & Hstep & Hle2).
        apply addEdge_edgeCount in Hstep as (g3 & -> & Hle3).
        exists g3. split; [done|]. simpl. lia.
      + exists g1. split; [done|]. simpl. lia.
      + exists g1. split; [done|]. simpl. lia. }
  assert (∀ components g0,
            edgeCount (fold_left (λ g comp, JS.map_set g (Component.id comp) [])
                                 components g0) ≤ edgeCount g0) as Hempty.
  { induction components as [|comp components IH]; intros g0; simpl; [done|].
    etrans; [apply IH|]. apply map_set_empty_edgeCount. }
  intros Hfold. apply Hwires in Hfold as (g0 & [= <-] & Hle).
  specialize (Hempty (Circuit.components circuit) []).
  unfold edgeCount at 2 in Hempty. simpl in Hempty. lia.
Qed.

Lemma bfsComponents_empty_queue fuel graph visited :
  NodeAnalyzer.bfsComponents fuel graph [] visited = visited.
Proof. by destruct fuel. Qed.

(** With fuel for the work left, more fuel does not change the result of
the loop of [checkBasicConnectivity]. *)
Lemma bfsComponents_enough_fuel (universe : gset string)
    (graph : JS.Map (list string)) :
  (∀ k neighbors x,
     JS.map_get graph k = Some neighbors → x ∈ neighbors → x ∈ universe) →
  ∀ fuel queue visited more,
    queueWork universe queue visited ≤ fuel →
    NodeAnalyzer.bfsComponents (fuel + more) graph queue visited
    = NodeAnalyzer.bfsComponents fuel graph queue visited.
Proof.
  intros HU. induction fuel as [|fuel IH]; intros queue visited more Hwork.
  - destruct queue as [|c queue]; [by rewrite !bfsComponents_empty_queue|].
    unfold queueWork in Hwork. simpl in Hwork. lia.
  - destruct queue as [|currentId queue]; [by rewrite !bfsComponents_empty_queue|].
    cbn [Nat.add NodeAnalyzer.bfsComponents].
    assert (∀ x, x ∈ default [] (JS.map_get graph currentId) → x ∈ universe) as Hin.
    { destruct (JS.map_get graph currentId) as [neighbors|] eqn:Hget; simpl.
      - intros x. by apply (HU currentId).
      - intros x Hx. by apply elem_of_nil in Hx. }
    pose proof (visitNeighbors_work universe _ queue visited Hin) as Hsame.
    cbv zeta in Hsame.
    destruct (fold_left _ (default [] (JS.map_get graph currentId)) (queue, visited))
      as [queue' visited'].
    apply IH. cbn [fst snd] in Hsame. rewrite Hsame.
    unfold queueWork in *. simpl in Hwork. lia.
Qed.

(** The fuel [checkBasicConnectivity] gives its loop is enough. *)
Lemma checkBasicConnectivity_fuel (circuit : Circuit.t)
    (graph : JS.Map (list string)) (start : string) (more : nat) :
  NodeAnalyzer.componentGraph circuit = inr graph →
  NodeAnalyzer.bfsComponents (NodeAnalyzer.connectivityFuel circuit + more) graph
    [start] {[start]}
  = NodeAnalyzer.bfsComponents (NodeAnalyzer.connectivityFuel circuit) graph
      [start] {[start]}.
Proof.
  intros Hgraph.
  apply (bfsComponents_enough_fuel (list_to_set (graph ≫= snd))).
  - intros k neighbors x Hget Hx. apply map_get_entry in Hget as [k' Hentry].
    apply elem_of_list_to_set, list_elem_of_bind. by exists (k', neighbors).
  - pose proof (componentGraph_edgeCount circuit graph Hgraph) as Hedges.
    pose proof (size_list_to_set_le (graph ≫= snd)) as Hle.
    pose proof (subseteq_size (list_to_set (graph ≫= snd) ∖ {[start]})
                  (list_to_set (graph ≫= snd) : gset string)) as Hsub.
    assert (list_to_set (graph ≫= snd) ∖ {[start]}
            ⊆ (list_to_set (graph ≫= snd) : gset string))
      as Hincl by apply subseteq_difference_l, reflexivity.
    specialize (Hsub Hincl).
    unfold NodeAnalyzer.connectivityFuel, queueWork, edgeCount in *.
    cbn [length]. lia.
Qed.

(** ** The mesh impedance matrix: what the builder stores *)

Lemma fold_left_ext_in {S T} (f g : S → T → S) (l : list T) (s : S) :
  (∀ a x, f a x = g a x) → fold_left f l s = fold_left g l s.
Proof.
  intros Hfg. revert s. induction l as [|x l IH]; intros s; simpl; [done|].
  by rewrite Hfg, IH.
Qed.

Lemma buildMeshImpedanceMatrix_loop (meshes : list Mesh.t) (Z : list (list float)) :
  CircuitMatrixBuilder.buildMeshImpedanceMatrix meshes Z
  = meshRowsLoop meshes (imap (λ i m, (i, m)) meshes) Z.
Proof.
  unfold CircuitMatrixBuilder.buildMeshImpedanceMatrix, meshRowsLoop.
  apply fold_left_ext_in. intros Z1 [i mesh_i].
  apply fold_left_ext_in. intros Z2 [j mesh_j].
  unfold meshCell. by destruct (Nat.eqb i j).
Qed.

Lemma meshRowsLoop_snoc ms l i mesh_i Z :
  meshRowsLoop ms (l ++ [(i, mesh_i)]) Z
  = fold_left (λ Z2 '(j, mesh_j), JS.set2 Z2 i j (meshCell mesh_i i j mesh_j))
              (imap (λ j m, (j, m)) ms) (meshRowsLoop ms l Z).
Proof. unfold meshRowsLoop. by rewrite fold_left_app. Qed.

(** Row [i] of the result is row [i] of [Z] with its cells written from
    [mesh_i]; rows the loop has not reached are those of [Z]. *)
Lemma meshRowsLoop_rows (ms l : list Mesh.t) (Z : list (list float)) :
  length l ≤ length Z →
  length (meshRowsLoop ms (imap (λ i m, (i, m)) l) Z) = length Z ∧
  ∀ i, meshRowsLoop ms (imap (λ i m, (i, m)) l) Z !! i =
       match l !! i with
       | Some mesh_i =>
           writeCells (meshCell mesh_i i) (imap (λ j m, (j, m)) ms) <$> Z !! i
       | None => Z !! i
       end.
Proof.
  induction l as [|mesh l IH] using rev_ind; intros Hlen.
  - split; [done|]. intros i. done.
  - rewrite length_app in Hlen. simpl in Hlen.
    destruct IH as [IHlen IHrows]; [lia|].
    rewrite imap_pair_snoc, meshRowsLoop_snoc.
    destruct (lookup_lt_is_Some_2 Z (length l)) as [row Hrow]; [lia|].
    assert (meshRowsLoop ms (imap (λ i m, (i, m)) l) Z !! length l = Some row) as Hcur.
    { rewrite IHrows. by rewrite lookup_ge_None_2 by lia. }
    rewrite (set2_row_loop _ _ _ _ _ Hcur).
    split; [by rewrite length_insert|].
    intros i. destruct (decide (i = length l)) as [->|Hne].
    + rewrite list_lookup_insert_eq by lia.
      rewrite lookup_app_r, Nat.sub_diag by lia. simpl. by rewrite Hrow.
    + rewrite list_lookup_insert_ne by done. rewrite IHrows.
      destruct (decide (i < length l)) as [Hlt|Hge].
      * by rewrite lookup_app_l by lia.
      * rewrite (lookup_ge_None_2 l i) by lia.
        by rewrite (lookup_ge_None_2 (l ++ [mesh]) i) by (rewrite length_app; simpl; lia).
Qed.

(** Every cell of the matrix built for [m] meshes. *)
Lemma buildMeshImpedanceMatrix_cell (meshes : list Mesh.t) (i j : nat)
    (mesh_i mesh_j : Mesh.t) :
  meshes !! i = Some mesh_i →
  meshes !! j = Some mesh_j →
  JS.get2 (CircuitMatrixBuilder.buildMeshImpedanceMatrix meshes
             (CircuitMatrixBuilder.createMatrix (length meshes) (length meshes)))
          i j
  = meshCell mesh_i i j mesh_j.
Proof.
  intros Hi Hj. rewrite buildMeshImpedanceMatrix_loop.
  set (m := length meshes).
  assert (i < m) as Hlti by (by eapply lookup_lt_Some).
  destruct (meshRowsLoop_rows meshes meshes
              (CircuitMatrixBuilder.createMatrix m m)) as [_ Hrows].
  { unfold CircuitMatrixBuilder.createMatrix. by rewrite length_replicate. }
  unfold JS.get2, JS.get. rewrite Hrows, Hi.
  unfold CircuitMatrixBuilder.createMatrix.
  rewrite lookup_replicate_2 by done. simpl.
  rewrite writeCells_lookup by (by rewrite length_replicate).
  by rewrite Hj.
Qed.

(** The system matrix of a successful build for mesh analysis. *)
Lemma buildSystemMatrices_mesh (circuit : Circuit.t) (nodeAnalysis : NodeAnalysis.t)
    (method : string) (matrices : Matrices.t) :
  method = "mesh" ∨ method = "mesh_modified" →
  CircuitMatrixBuilder.buildSystemMatrices circuit nodeAnalysis method
    = CircuitMatrixBuilder.Built matrices →
  let meshes := Topology.meshes (NodeAnalysis.topology nodeAnalysis) in
  Matrices.systemMatrix matrices
  = Some (CircuitMatrixBuilder.buildMeshImpedanceMatrix meshes
            (CircuitMatrixBuilder.createMatrix (length meshes) (length meshes))).
Proof.
  intros Hmethod Hbuilt meshes.
  unfold CircuitMatrixBuilder.buildSystemMatrices in Hbuilt.
  destruct (CircuitMatrixBuilder.createIndexMappings nodeAnalysis)
    as [[nodeIndexMap branchIndexMap] groundNodeId].
  assert (∃ b, CircuitMatrixBuilder.buildMeshMatrices nodeAnalysis = inr b ∧
               Matrices.systemMatrix matrices
                 = Some (CircuitMatrixBuilder.b_systemMatrix b)) as (b & Hb & HZ).
  { destruct Hmethod as [-> | ->]; simpl in Hbuilt;
      destruct (CircuitMatrixBuilder.buildMeshMatrices nodeAnalysis) as [e|b];
      simpl in Hbuilt; [done| |done|]; injection Hbuilt as <-; by exists b. }
  unfold CircuitMatrixBuilder.buildMeshMatrices in Hb. fold meshes in Hb.
  destruct (Nat.eqb (length meshes) 0); [done|].
  destruct (CircuitMatrixBuilder.buildMeshVoltageVector meshes _) as [thrown|E];
    [done|].
  injection Hb as <-. exact HZ.
Qed.

(** Every row of the matrix built for [m] meshes has [m] cells. *)
Lemma buildMeshImpedanceMatrix_rows (meshes : list Mesh.t) (row : list float) :
  row ∈ CircuitMatrixBuilder.buildMeshImpedanceMatrix meshes
          (CircuitMatrixBuilder.createMatrix (length meshes) (length meshes)) →
  length row = length meshes.
Proof.
  intros Hrow. apply list_elem_of_lookup in Hrow as [i Hi].
  rewrite buildMeshImpedanceMatrix_loop in Hi.
  set (m := length meshes) in *.
  destruct (meshRowsLoop_rows meshes meshes
              (CircuitMatrixBuilder.createMatrix m m)) as [_ Hrows].
  { unfold CircuitMatrixBuilder.createMatrix. by rewrite length_replicate. }
  rewrite Hrows in Hi. unfold CircuitMatrixBuilder.createMatrix in Hi.
  destruct (meshes !! i) as [mesh_i|].
  - destruct (replicate m (replicate m 0%float) !! i) as [row0|] eqn:Hrow0; [|done].
    apply lookup_replicate in Hrow0 as [-> _]. injection Hi as <-.
    by rewrite writeCells_length, length_replicate.
  - apply lookup_replicate in Hi as [-> _]. by rewrite length_replicate.
Qed.

(** What the builder stores for the meshes it is given: an m x m system
matrix in which entry (i,i) is the sum of the resistances ([real || 0]) of
the branches of mesh i, and entry (i,j), i <> j, is the sum of the
resistances of the branches of mesh i whose identifier also occurs in
mesh j. *)
Lemma buildMeshImpedanceMatrix_entries (circuit : Circuit.t) (nodeAnalysis : NodeAnalysis.t)
    (method : string) (matrices : Matrices.t) :
  method = "mesh" ∨ method = "mesh_modified" →
  CircuitMatrixBuilder.buildSystemMatrices circuit nodeAnalysis method
    = CircuitMatrixBuilder.Built matrices →
  let meshes := Topology.meshes (NodeAnalysis.topology nodeAnalysis) in
  ∃ Z, Matrices.systemMatrix matrices = Some Z ∧
       length Z = length meshes ∧
       (∀ row, row ∈ Z → length row = length meshes) ∧
       ∀ i j mesh_i mesh_j,
         meshes !! i = Some mesh_i →
         meshes !! j = Some mesh_j →
         JS.get2 Z i j =
           if decide (i = j)
           then CircuitMatrixBuilder.sumRealImpedance (Mesh.branches mesh_i)
           else CircuitMatrixBuilder.sumRealImpedance
                  (CircuitMatrixBuilder.findSharedBranches mesh_i mesh_j).
Proof.
  intros Hmethod Hbuilt meshes.
  eexists. split; [exact (buildSystemMatrices_mesh _ _ _ _ Hmethod Hbuilt)|].
  fold meshes. split; [|split].
  - rewrite buildMeshImpedanceMatrix_loop.
    destruct (meshRowsLoop_rows meshes meshes
                (CircuitMatrixBuilder.createMatrix (length meshes) (length meshes)))
      as [Hlen _].
    + unfold CircuitMatrixBuilder.createMatrix. by rewrite length_replicate.
    + rewrite Hlen. unfold CircuitMatrixBuilder.createMatrix.
      by rewrite length_replicate.
  - apply buildMeshImpedanceMatrix_rows.
  - intros i j mesh_i mesh_j Hi Hj.
    rewrite (buildMeshImpedanceMatrix_cell meshes i j mesh_i mesh_j Hi Hj).
    unfold meshCell. destruct (decide (i = j)) as [->|Hne].
    + by rewrite Nat.eqb_refl.
    + by apply Nat.eqb_neq in Hne as ->.
Qed.

(** ** Mesh finding (claim C5) *)

Lemma findMeshesStep_length (branches : list Branch.t)
    (st : list Mesh.t * gset string) (startBranch : Branch.t) :
  Forall (λ mesh, 2 < length (Mesh.branches mesh)) (fst st) →
  Forall (λ mesh, 2 < length (Mesh.branches mesh))
         (fst (NodeAnalyzer.findMeshesStep branches st startBranch)).
Proof.
  destruct st as [meshes visited]. intros Hall.
  unfold NodeAnalyzer.findMeshesStep.
  case_bool_decide; [done|].
  destruct (NodeAnalyzer.findMeshFromBranch startBranch branches visited)
    as [mesh visited'].
  destruct (Nat.ltb 2 (length mesh)) eqn:Hlen; simpl; [|done].
  apply Forall_app. split; [done|].
  apply Forall_singleton. simpl. by apply Nat.ltb_lt.
Qed.

(** The length part of C5 holds: a recorded mesh has more than 2 branches. *)
Lemma findMeshes_length (nodes : list ElectricalNode.t) (branches : list Branch.t) :
  Forall (λ mesh, 2 < length (Mesh.branches mesh))
         (NodeAnalyzer.findMeshes nodes branches).
Proof.
  unfold NodeAnalyzer.findMeshes.
  assert (∀ l st,
            Forall (λ mesh, 2 < length (Mesh.branches mesh)) (fst st) →
            Forall (λ mesh, 2 < length (Mesh.branches mesh))
                   (fst (fold_left (NodeAnalyzer.findMeshesStep branches) l st)))
    as Hfold.
  { induction l as [|b l IH]; intros st Hst; simpl; [done|].
    apply IH. by apply findMeshesStep_length. }
  apply Hfold. simpl. constructor.
Qed.

(** C5: the code records a walk that ran out of branches.  In the open chain
(source, resistor, resistor, far end left unconnected) the walk from the
source ends at [enode_3], not at its start [enode_0], and is still recorded
as [mesh_0]. *)
Theorem findMeshes_records_open_walk :
  let nodeAnalysis := NodeAnalyzer.analyzeNodes Samples.openChain in
  NodeAnalysis.isValid nodeAnalysis = true ∧
  ∃ mesh,
    Topology.meshes (NodeAnalysis.topology nodeAnalysis) = [mesh] ∧
    Mesh.id mesh = "mesh_0" ∧
    map Branch.id (Mesh.branches mesh) = ["branch_0"; "branch_1"; "branch_2"] ∧
    (Branch.startNodeId <$> head (Mesh.branches mesh)) = Some "enode_0" ∧
    walkEnd "enode_0" (Mesh.branches mesh) = Some "enode_3" ∧
    isClosedWalk (Mesh.branches mesh) = false.
Proof.
  split; [vm_compute; reflexivity|].
  eexists. split; [vm_compute; reflexivity|].
  evaluate.
Qed.

(** *** Meshes found by the walk share no branch *)

(** The walk only appends branches whose identifier is not yet in the
visited set, and adds their identifiers to it. *)
Lemma followPath_fresh fuel allBranches startNode mesh currentNode
    (visited : gset string) :
  ∃ extra,
    NodeAnalyzer.followPath fuel allBranches startNode mesh currentNode visited
      = (mesh ++ extra, list_to_set (Branch.id <$> extra) ∪ visited) ∧
    NoDup (Branch.id <$> extra) ∧
    ∀ id, id ∈ Branch.id <$> extra → id ∉ visited.
Proof.
  assert (∀ mesh (visited : gset string),
            ∃ extra : list Branch.t,
              (mesh, visited)
                = (mesh ++ extra, list_to_set (Branch.id <$> extra) ∪ visited) ∧
              NoDup (Branch.id <$> extra) ∧
              ∀ id, id ∈ Branch.id <$> extra → id ∉ visited) as Hstop.
  { intros mesh' visited'. exists []. rewrite app_nil_r. cbn [fmap list_fmap list_to_set].
    rewrite (left_id_L ∅ (∪)). split; [done|]. split; [constructor|].
    intros id Hin. by apply elem_of_nil in Hin. }
  revert mesh currentNode visited.
  induction fuel as [|fuel IH]; intros mesh currentNode visited; [apply Hstop|].
  cbn [NodeAnalyzer.followPath].
  destruct (String.eqb currentNode startNode); [apply Hstop|].
  destruct (List.find _ allBranches) as [nextBranch|] eqn:Hfind; [|apply Hstop].
  apply List.find_some in Hfind as [_ Hnext].
  apply andb_prop in Hnext as [Hunvisited _].
  apply negb_true_iff, bool_decide_eq_false in Hunvisited.
  destruct (IH (mesh ++ [nextBranch])
               (if String.eqb (Branch.startNodeId nextBranch) currentNode
                then Branch.endNodeId nextBranch
                else Branch.startNodeId nextBranch)
               ({[Branch.id nextBranch]} ∪ visited))
    as (extra & Hout & Hnodup & Hfresh).
  exists (nextBranch :: extra). rewrite Hout, <- app_assoc.
  cbn [app fmap list_fmap list_to_set].
  split; [|split].
  - f_equal. rewrite (assoc_L (∪)). f_equal. apply (comm_L (∪)).
  - constructor; [|exact Hnodup]. intros Hin. apply Hfresh in Hin.
    apply Hin, elem_of_union_l, elem_of_singleton. reflexivity.
  - intros id Hin. apply elem_of_cons in Hin as [->|Hin]; [exact Hunvisited|].
    apply Hfresh in Hin. intros Hvisited. by apply Hin, elem_of_union_r.
Qed.

Lemma findMeshesStep_disjoint (branches : list Branch.t)
    (st : list Mesh.t * gset string) (startBranch : Branch.t) :
  meshesDisjoint st →
  meshesDisjoint (NodeAnalyzer.findMeshesStep branches st startBranch).
Proof.
  destruct st as [meshes visited]. intros [Hnodup Hvisited]. simpl in *.
  unfold NodeAnalyzer.findMeshesStep.
  case_bool_decide as Hstart; [done|].
  unfold NodeAnalyzer.findMeshFromBranch.
  destruct (followPath_fresh (length branches + 1) branches
              (Branch.startNodeId startBranch) [startBranch]
              (Branch.endNodeId startBranch)
              ({[Branch.id startBranch]} ∪ visited))
    as (extra & -> & Hextra & Hfresh).
  assert (∀ id, id ∈ Branch.id <$> extra → id ≠ Branch.id startBranch ∧ id ∉ visited)
    as Hnew.
  { intros id Hin. apply Hfresh in Hin. split.
    - intros ->. apply Hin, elem_of_union_l, elem_of_singleton. reflexivity.
    - intros Hv. by apply Hin, elem_of_union_r. }
  destruct (Nat.ltb 2 (length ([startBranch] ++ extra))); split; simpl.
  - unfold meshBranchIds. rewrite bind_app. simpl. rewrite app_nil_r.
    apply NoDup_app. split; [exact Hnodup|]. split.
    + intros id Hold Hin. apply Hvisited in Hold.
      apply elem_of_cons in Hin as [->|Hin]; [done|].
      by apply Hnew in Hin as [_ Hin].
    + constructor; [|exact Hextra]. intros Hin. by apply Hnew in Hin as [Hin _].
  - unfold meshBranchIds. rewrite bind_app. simpl. rewrite app_nil_r.
    intros id Hin. apply elem_of_app in Hin as [Hold|Hin].
    + apply Hvisited in Hold. by apply elem_of_union_r, elem_of_union_r.
    + apply elem_of_cons in Hin as [->|Hin].
      * apply elem_of_union_r, elem_of_union_l, elem_of_singleton. reflexivity.
      * by apply elem_of_union_l, elem_of_list_to_set.
  - exact Hnodup.
  - intros id Hin. apply Hvisited in Hin. by apply elem_of_union_r, elem_of_union_r.
Qed.

Lemma findMeshes_disjoint (nodes : list ElectricalNode.t) (branches : list Branch.t) :
  NoDup (meshBranchIds (NodeAnalyzer.findMeshes nodes branches)).
Proof.
  unfold NodeAnalyzer.findMeshes.
  assert (∀ l st, meshesDisjoint st →
                  meshesDisjoint (fold_left (NodeAnalyzer.findMeshesStep branches) l st))
    as Hfold.
  { induction l as [|b l IH]; intros st Hst; simpl; [done|].
    apply IH. by apply findMeshesStep_disjoint. }
  apply (Hfold branches ([], ∅)). split; simpl; [constructor|].
  intros id Hin. by apply elem_of_nil in Hin.
Qed.

(** In a list without repetition that is a concatenation of blocks, two
different blocks have no element in common. *)
Lemma NoDup_bind_blocks {A B} (f : A → list B) (l : list A) (i j : nat) (a b : A)
    (x : B) :
  NoDup (l ≫= f) → i ≠ j → l !! i = Some a → l !! j = Some b →
  x ∈ f a → x ∉ f b.
Proof.
  revert i j. induction l as [|c l IH]; intros i j Hnodup Hij Hi Hj Ha Hb; [done|].
  rewrite bind_cons in Hnodup. apply NoDup_app in Hnodup as (_ & Hsep & Hrest).
  destruct i as [|i], j as [|j]; simpl in *; simplify_eq.
  - apply (Hsep x Ha). apply list_elem_of_bind. exists b.
    split; [done|]. by eapply list_elem_of_lookup_2.
  - apply (Hsep x Hb). apply list_elem_of_bind. exists a.
    split; [done|]. by eapply list_elem_of_lookup_2.
  - apply (IH i j); auto.
Qed.

(** Two different meshes found by [findMeshes] share no branch. *)
Lemma findMeshes_share_no_branch (nodes : list ElectricalNode.t)
    (branches : list Branch.t) (i j : nat) (mesh_i mesh_j : Mesh.t) :
  i ≠ j →
  NodeAnalyzer.findMeshes nodes branches !! i = Some mesh_i →
  NodeAnalyzer.findMeshes nodes branches !! j = Some mesh_j →
  CircuitMatrixBuilder.findSharedBranches mesh_i mesh_j = [].
Proof.
  intros Hij Hi Hj. unfold CircuitMatrixBuilder.findSharedBranches.
  match goal with |- ?shared = [] => destruct shared as [|branch1 rest] eqn:Hshared end;
    [done|].
  assert (branch1 ∈ branch1 :: rest) as Hin1 by left.
  rewrite <- Hshared in Hin1.
  apply list_elem_of_filter in Hin1 as [Hexists Hin1].
  apply existsb_exists in Hexists as (branch2 & Hin2 & Hsame).
  apply String.eqb_eq in Hsame.
  pose proof (findMeshes_disjoint nodes branches) as Hnodup.
  exfalso.
  apply (NoDup_bind_blocks _ _ i j mesh_i mesh_j (Branch.id branch1) Hnodup Hij Hi Hj).
  - apply list_elem_of_fmap. by exists branch1.
  - rewrite Hsame. apply list_elem_of_fmap. exists branch2.
    split; [done|]. by apply list_elem_of_In.
Qed.

(** *** Recorded meshes are walks *)

Lemma walkEnd_snoc (start currentNode : string) (mesh : list Branch.t)
    (nextBranch : Branch.t) :
  walkEnd start mesh = Some currentNode →
  walkEnd start (mesh ++ [nextBranch]) = walkEnd currentNode [nextBranch].
Proof.
  revert start. induction mesh as [|branch mesh IH]; intros start Hwalk.
  - simpl in Hwalk. by injection Hwalk as ->.
  - cbn [app walkEnd] in *.
    destruct (String.eqb (Branch.startNodeId branch) start); [by apply IH|].
    destruct (String.eqb (Branch.endNodeId branch) start); [by apply IH|done].
Qed.

(** The loop of [findMeshFromBranch] extends a walk to a walk. *)
Lemma followPath_walk (fuel : nat) (allBranches : list Branch.t)
    (startNode origin : string) (mesh : list Branch.t) (currentNode : string)
    (visited : gset string) :
  walkEnd origin mesh = Some currentNode →
  is_Some (walkEnd origin
             (fst (NodeAnalyzer.followPath fuel allBranches startNode mesh
                     currentNode visited))).
Proof.
  revert mesh currentNode visited.
  induction fuel as [|fuel IH]; intros mesh currentNode visited Hwalk;
    [by eexists|].
  cbn [NodeAnalyzer.followPath].
  destruct (String.eqb currentNode startNode); [by eexists|].
  destruct (List.find _ allBranches) as [nextBranch|] eqn:Hfind; [|by eexists].
  apply List.find_some in Hfind as [_ Hnext].
  apply andb_prop in Hnext as [_ Htouches].
  apply IH. rewrite (walkEnd_snoc _ _ _ _ Hwalk). cbn [walkEnd].
  destruct (String.eqb (Branch.startNodeId nextBranch) currentNode); [done|].
  cbn [orb] in Htouches. by rewrite Htouches.
Qed.

Lemma findMeshFromBranch_walk (startBranch : Branch.t)
    (allBranches : list Branch.t) (visited : gset string) :
  isWalk (fst (NodeAnalyzer.findMeshFromBranch startBranch allBranches visited)).
Proof.
  unfold NodeAnalyzer.findMeshFromBranch.
  pose proof (followPath_walk (length allBranches + 1) allBranches
                (Branch.startNodeId startBranch) (Branch.startNodeId startBranch)
                [startBranch] (Branch.endNodeId startBranch)
                ({[Branch.id startBranch]} ∪ visited)) as Hwalk.
  destruct (followPath_fresh (length allBranches + 1) allBranches
              (Branch.startNodeId startBranch) [startBranch]
              (Branch.endNodeId startBranch)
              ({[Branch.id startBranch]} ∪ visited)) as (extra & Hout & _).
  rewrite Hout in *. cbn [fst app isWalk] in *.
  apply Hwalk. cbn [walkEnd]. by rewrite String.eqb_refl.
Qed.

(** The walk part of C5 holds: every recorded mesh is a walk that starts at
the start node of its first branch. *)
Lemma findMeshes_walks (nodes : list ElectricalNode.t) (branches : list Branch.t) :
  Forall (λ mesh, isWalk (Mesh.branches mesh))
         (NodeAnalyzer.findMeshes nodes branches).
Proof.
  unfold NodeAnalyzer.findMeshes.
  assert (∀ l st,
            Forall (λ mesh, isWalk (Mesh.branches mesh)) (fst st) →
            Forall (λ mesh, isWalk (Mesh.branches mesh))
                   (fst (fold_left (NodeAnalyzer.findMeshesStep branches) l st)))
    as Hfold.
  { induction l as [|b l IH]; intros st Hst; [done|].
    cbn [fold_left]. apply IH. destruct st as [meshes visited].
    unfold NodeAnalyzer.findMeshesStep. case_bool_decide; [done|].
    pose proof (findMeshFromBranch_walk b branches visited) as Hwalk.
    destruct (NodeAnalyzer.findMeshFromBranch b branches visited)
      as [mesh visited'].
    destruct (Nat.ltb 2 (length mesh)); [|done].
    cbn [fst] in *. apply Forall_app. split; [done|].
    by apply Forall_singleton. }
  apply Hfold. constructor.
Qed.

(** ** The mesh impedance matrix of an analysis (claim C1) *)

(** C1: for every mesh or mesh_modified analysis of a circuit, the builder
returns an m x m matrix, m the number of meshes of the analysis.  Entry
(i,i) is the sum of the impedances of the branches of mesh i, each taken as
the builder of this real matrix takes it, by its resistance [real || 0].
Entry (i,j), i <> j, equals ([===]) the negative of the sum of the
impedances of the branches the meshes i and j share: the meshes of an
analysis come from [findMeshes] and never share a branch, so the shared sum
is empty and the entry is 0. *)
Theorem analyzed_mesh_matrix_entries (circuit : Circuit.t) (method : string)
    (matrices : Matrices.t) :
  let nodeAnalysis := NodeAnalyzer.analyzeNodes circuit in
  let meshes := Topology.meshes (NodeAnalysis.topology nodeAnalysis) in
  method = "mesh" ∨ method = "mesh_modified" →
  CircuitMatrixBuilder.buildSystemMatrices circuit nodeAnalysis method
    = CircuitMatrixBuilder.Built matrices →
  ∃ Z, Matrices.systemMatrix matrices = Some Z ∧
       length Z = length meshes ∧
       (∀ row, row ∈ Z → length row = length meshes) ∧
       ∀ i j mesh_i mesh_j,
         meshes !! i = Some mesh_i →
         meshes !! j = Some mesh_j →
         if decide (i = j)
         then JS.get2 Z i j
              = CircuitMatrixBuilder.sumRealImpedance (Mesh.branches mesh_i)
         else JS.seq (JS.get2 Z i j)
                     (- CircuitMatrixBuilder.sumRealImpedance
                          (CircuitMatrixBuilder.findSharedBranches mesh_i mesh_j))%float
              = true ∧
              CircuitMatrixBuilder.findSharedBranches mesh_i mesh_j = [] ∧
              JS.get2 Z i j = 0%float.
Proof.
  intros nodeAnalysis meshes Hmethod Hbuilt.
  destruct (buildMeshImpedanceMatrix_entries circuit nodeAnalysis method matrices
              Hmethod Hbuilt) as (Z & HZ & Hlength & Hrows & Hcells).
  exists Z. split; [exact HZ|]. split; [exact Hlength|]. split; [exact Hrows|].
  intros i j mesh_i mesh_j Hi Hj. specialize (Hcells i j mesh_i mesh_j Hi Hj).
  destruct (decide (i = j)) as [->|Hij]; [exact Hcells|].
  pose proof (findMeshes_share_no_branch (NodeAnalysis.nodes nodeAnalysis)
                (NodeAnalysis.branches nodeAnalysis) i j mesh_i mesh_j
                Hij Hi Hj) as Hshared.
  rewrite Hshared in Hcells |- *. split; [|split; [done|exact Hcells]].
  rewrite Hcells. reflexivity.
Qed.

(** The theorem at the two triangles: 2000 and 3000 ohm on the diagonal, 0
off the diagonal. *)
Lemma analyzed_mesh_matrix_entries_witness :
  ∃ Z, builtSystemMatrix
         (CircuitMatrixBuilder.buildSystemMatrices twoTriangles
            (NodeAnalyzer.analyzeNodes twoTriangles) "mesh") = Some Z ∧
       JS.get2 Z 0 0 = 2000%float ∧ JS.get2 Z 1 1 = 3000%float ∧
       JS.get2 Z 0 1 = 0%float ∧ JS.get2 Z 1 0 = 0%float ∧
       JS.seq (JS.get2 Z 0 1) (- 0)%float = true.
Proof.
  destruct (CircuitMatrixBuilder.buildSystemMatrices twoTriangles
              (NodeAnalyzer.analyzeNodes twoTriangles) "mesh")
    as [matrices|error] eqn:Hbuilt; [|by vm_compute in Hbuilt].
  destruct (analyzed_mesh_matrix_entries twoTriangles "mesh" matrices
              (or_introl eq_refl) Hbuilt) as (Z & HZ & _).
  exists Z. split; [exact HZ|].
  vm_compute in Hbuilt. injection Hbuilt as <-. injection HZ as <-.
  repeat split; reflexivity.
Defined.

(** ** Choice of the analysis method (claim C8) *)

(** The counts [analyzeNodes] reports are the lengths of its lists. *)
Lemma analyzeNodes_counts (circuit : Circuit.t) :
  let nodeAnalysis := NodeAnalyzer.analyzeNodes circuit in
  NodeAnalysis.nodeCount nodeAnalysis = length (NodeAnalysis.nodes nodeAnalysis) ∧
  NodeAnalysis.branchCount nodeAnalysis = length (NodeAnalysis.branches nodeAnalysis) ∧
  NodeAnalysis.voltageSourceCount nodeAnalysis
    = NodeAnalyzer.countType "voltage" (NodeAnalysis.branches nodeAnalysis) ∧
  NodeAnalysis.currentSourceCount nodeAnalysis
    = NodeAnalyzer.countType "current" (NodeAnalysis.branches nodeAnalysis).
Proof. done. Qed.

(** C8: when the topology is not series, parallel or ladder, the coordinator
compares (nodeCount - 1) + 2 * voltageSourceCount with
(branchCount - nodeCount + 1) + 2 * currentSourceCount.  If the first is at
most the second a nodal method is chosen (so ties are nodal), otherwise a
mesh method; the modified variant is chosen exactly when the circuit has
voltage sources (nodal side) or current sources (mesh side). *)
Theorem selectOptimalMethod_general (nodeAnalysis : NodeAnalysis.t) :
  let topology := NodeAnalysis.topology nodeAnalysis in
  let nodeCount := Z.of_nat (NodeAnalysis.nodeCount nodeAnalysis) in
  let branchCount := Z.of_nat (NodeAnalysis.branchCount nodeAnalysis) in
  let voltageSourceCount := NodeAnalysis.voltageSourceCount nodeAnalysis in
  let currentSourceCount := NodeAnalysis.currentSourceCount nodeAnalysis in
  let nodal := ((nodeCount - 1) + 2 * Z.of_nat voltageSourceCount)%Z in
  let mesh := ((branchCount - nodeCount + 1) + 2 * Z.of_nat currentSourceCount)%Z in
  let method := CircuitAnalyzer.selectOptimalMethod nodeAnalysis in
  Topology.isSeriesCircuit topology = false →
  Topology.isParallelCircuit topology = false →
  Topology.isLadderCircuit topology = false →
  ((nodal ≤ mesh)%Z →
     (method = "nodal_modified" ∨ method = "nodal") ∧
     (method = "nodal_modified" ↔ 0 < voltageSourceCount)) ∧
  ((mesh < nodal)%Z →
     (method = "mesh_modified" ∨ method = "mesh") ∧
     (method = "mesh_modified" ↔ 0 < currentSourceCount)).
Proof.
  intros topology nodeCount branchCount voltageSourceCount currentSourceCount
         nodal mesh method Hseries Hparallel Hladder.
  subst method. unfold CircuitAnalyzer.selectOptimalMethod.
  fold topology. rewrite Hseries, Hparallel, Hladder.
  fold nodeCount branchCount voltageSourceCount currentSourceCount.
  replace (nodeCount - 1 + Z.of_nat voltageSourceCount * 2)%Z with nodal
    by (unfold nodal; lia).
  replace (branchCount - nodeCount + 1 + Z.of_nat currentSourceCount * 2)%Z with mesh
    by (unfold mesh; lia).
  split; intros Hcmp.
  - assert ((nodal <=? mesh)%Z = true) as -> by (apply Z.leb_le; lia).
    destruct (0 <? Z.of_nat voltageSourceCount)%Z eqn:Hv.
    + apply Z.ltb_lt in Hv. split; [by left|]. split; [lia|done].
    + apply Z.ltb_ge in Hv. split; [by right|]. split; [done|lia].
  - assert ((nodal <=? mesh)%Z = false) as -> by (apply Z.leb_gt; lia).
    destruct (0 <? Z.of_nat currentSourceCount)%Z eqn:Hc.
    + apply Z.ltb_lt in Hc. split; [by left|]. split; [lia|done].
    + apply Z.ltb_ge in Hc. split; [by right|]. split; [done|lia].
Qed.

(** The theorem at the four-node sample: 4 nodes, 6 branches and one voltage
source give 5 against 3, and no current source, so plain mesh analysis. *)
Lemma selectOptimalMethod_general_witness :
  CircuitAnalyzer.selectOptimalMethod (NodeAnalyzer.analyzeNodes Samples.fullMesh)
  = "mesh".
Proof.
  destruct (selectOptimalMethod_general (NodeAnalyzer.analyzeNodes Samples.fullMesh)
              eq_refl eq_refl eq_refl) as [_ Hmesh].
  destruct Hmesh as [[Hmod | Hplain] _]; [vm_compute; reflexivity | | exact Hplain].
  vm_compute in Hmod. discriminate Hmod.
Defined.

(** ** Branch currents reported by the solver (claim C10) *)

Lemma map_get_set {V} (m : JS.Map V) (k k' : string) (v : V) :
  JS.map_get (JS.map_set m k v) k'
  = if String.eqb k k' then Some v else JS.map_get m k'.
Proof.
  induction m as [|[k0 v0] m IH]; simpl.
  - by rewrite String.eqb_sym.
  - destruct (String.eqb k0 k) eqn:Hk0; simpl.
    + apply String.eqb_eq in Hk0 as ->.
      by destruct (String.eqb k k').
    + destruct (String.eqb k0 k') eqn:Hk0'.
      * apply String.eqb_eq in Hk0' as ->.
        by rewrite String.eqb_sym, Hk0.
      * done.
Qed.

(** The map built by setting every key of [entries] to the same value. *)
Lemma map_get_constant_fill {V W} (entries : JS.Map W) (v : V) (m : JS.Map V)
    (k : string) :
  JS.map_get (fold_left (λ acc '(key, _), JS.map_set acc key v) entries m) k
  = match JS.map_get entries k with
    | Some _ => Some v
    | None => JS.map_get m k
    end.
Proof.
  revert m. induction entries as [|[key w] entries IH]; intros m; simpl; [done|].
  rewrite IH, map_get_set.
  destruct (String.eqb key k); [by destruct (JS.map_get entries k)|done].
Qed.

Lemma extractBranchCurrents_other_methods (solution : option (list float))
    (matrices : Matrices.t) :
  Matrices.method matrices ≠ "series" →
  Matrices.method matrices ≠ "parallel" →
  EquationSolver.extractBranchCurrents solution matrices
  = inr (fold_left (λ acc '(branchId, _), JS.map_set acc branchId 0%float)
                   (Matrices.branchIndexMap matrices) []).
Proof.
  intros Hseries Hparallel. unfold EquationSolver.extractBranchCurrents.
  apply String.eqb_neq in Hseries as ->.
  apply String.eqb_neq in Hparallel as ->.
  done.
Qed.

(** C10: for a system whose method is neither series nor parallel, the
branch-current map in the solver's result gives current 0 to every branch
of the branch index map, and to nothing else; hence a branch current other
than 0 in a solver result means the method was series or parallel. *)
Theorem solver_branch_currents_zero (toExponential : float → nat → string)
    (solveTime : float) (matrices : Matrices.t) (branchCurrents : JS.Map float) :
  EquationSolver.SolveResult.branchCurrents
    (EquationSolver.solve toExponential solveTime matrices) = Some branchCurrents →
  (Matrices.method matrices ≠ "series" →
   Matrices.method matrices ≠ "parallel" →
   ∀ branchId,
     JS.map_get branchCurrents branchId
     = match JS.map_get (Matrices.branchIndexMap matrices) branchId with
       | Some _ => Some 0%float
       | None => None
       end) ∧
  (∀ branchId current,
     JS.map_get branchCurrents branchId = Some current →
     current ≠ 0%float →
     Matrices.method matrices = "series" ∨ Matrices.method matrices = "parallel").
Proof.
  intros Hsolve.
  assert (Matrices.method matrices ≠ "series" →
          Matrices.method matrices ≠ "parallel" →
          ∀ branchId,
            JS.map_get branchCurrents branchId
            = match JS.map_get (Matrices.branchIndexMap matrices) branchId with
              | Some _ => Some 0%float
              | None => None
              end) as Hzero.
  { intros Hseries Hparallel branchId.
    unfold EquationSolver.solve in Hsolve.
    destruct (EquationSolver.validateInput matrices); [done|].
    destruct (EquationSolver.verifySolution _ _ _) as [verified residual].
    destruct (EquationSolver.extractNodeVoltages _ _); [done|].
    rewrite extractBranchCurrents_other_methods in Hsolve by done.
    simpl in Hsolve. injection Hsolve as <-.
    by rewrite map_get_constant_fill. }
  split; [exact Hzero|].
  intros branchId current Hget Hne.
  destruct (decide (Matrices.method matrices = "series")) as [|Hseries]; [by left|].
  destruct (decide (Matrices.method matrices = "parallel")) as [|Hparallel]; [by right|].
  rewrite (Hzero Hseries Hparallel) in Hget.
  destruct (JS.map_get (Matrices.branchIndexMap matrices) branchId); congruence.
Qed.

(** The theorem at that system: it is solved (Cramer's rule, mesh current
6 mA) and all six branches are reported with current 0. *)
Lemma solver_branch_currents_zero_witness :
  let result :=
    EquationSolver.solve Samples.toExponential 1%float fullMeshMatrices in
  EquationSolver.SolveResult.isValid result = true ∧
  ∃ branchCurrents,
    EquationSolver.SolveResult.branchCurrents result = Some branchCurrents ∧
    map (JS.map_get branchCurrents)
        ["branch_0"; "branch_1"; "branch_2"; "branch_3"; "branch_4"; "branch_5"]
    = replicate 6 (Some 0%float).
Proof.
  split; [vm_compute; reflexivity|].
  set (branchCurrents :=
         default [] (EquationSolver.SolveResult.branchCurrents
                       (EquationSolver.solve Samples.toExponential 1%float
                          fullMeshMatrices))).
  exists branchCurrents. split; [vm_compute; reflexivity|].
  destruct (solver_branch_currents_zero Samples.toExponential 1%float
              fullMeshMatrices branchCurrents) as [Hzero _];
    [vm_compute; reflexivity|].
  assert (Matrices.method fullMeshMatrices ≠ "series") as Hseries
    by (vm_compute; discriminate).
  assert (Matrices.method fullMeshMatrices ≠ "parallel") as Hparallel
    by (vm_compute; discriminate).
  cbn [map]. rewrite !(Hzero Hseries Hparallel). vm_compute. reflexivity.
Defined.

(** ** Choice of the solving method (claim C7) *)

(** What [checkMatrixConditioning] stores: a warning is present exactly when
the matrix is near-singular or not diagonally dominant, and the
positive-definite flag is never set. *)
Lemma checkMatrixConditioning_flags (matrix : list (list float)) :
  let c := CircuitMatrixBuilder.checkMatrixConditioning matrix in
  (Conditioning.warning c = None ↔
     JS.lt (abs (CircuitMatrixBuilder.calculateDeterminant matrix))
           CircuitMatrixBuilder.tolerance = false ∧
     CircuitMatrixBuilder.checkDiagonalDominance matrix = true) ∧
  Conditioning.isSymmetric c = Some (CircuitMatrixBuilder.checkSymmetry matrix) ∧
  Conditioning.isPositiveDefinite c = false.
Proof.
  unfold CircuitMatrixBuilder.checkMatrixConditioning. simpl.
  split; [|done].
  destruct (CircuitMatrixBuilder.checkDiagonalDominance matrix);
    destruct (JS.lt _ _); simpl; split; (intros [? ?] || intros ?); try done.
Qed.

(** The rules of [selectSolverMethod] for a system not tagged series or
parallel, in the order of the code: Cramer's rule when n <= 3 and the
recorded determinant exceeds the tolerance in magnitude; otherwise Cholesky
when the conditioning record carries both the symmetric and the
positive-definite flag; otherwise, when the record carries no warning,
Gaussian elimination for n <= 10 and LU decomposition for n > 10. *)
Lemma selectSolverMethod_rules (matrices : Matrices.t)
    (systemMatrix : list (list float)) (c : Conditioning.t) :
  let n := length systemMatrix in
  let cramerApplies :=
    Nat.leb n 3 &&
    JS.gt (abs (default nan (Conditioning.determinant c))) EquationSolver.tolerance in
  let choleskyApplies :=
    bool_decide (Conditioning.isSymmetric c = Some true) &&
    Conditioning.isPositiveDefinite c in
  Matrices.systemMatrix matrices = Some systemMatrix →
  Matrices.method matrices ≠ "series" →
  Matrices.method matrices ≠ "parallel" →
  Matrices.conditioning matrices = Some c →
  (cramerApplies = true →
     EquationSolver.selectSolverMethod matrices = "cramer") ∧
  (cramerApplies = false → choleskyApplies = true →
     EquationSolver.selectSolverMethod matrices = "cholesky") ∧
  (cramerApplies = false → choleskyApplies = false →
   Conditioning.warning c = None →
     EquationSolver.selectSolverMethod matrices
     = if decide (n ≤ 10) then "direct_elimination" else "lu_decomposition").
Proof.
  intros n cramerApplies choleskyApplies Hsystem Hseries Hparallel Hc.
  unfold EquationSolver.selectSolverMethod. rewrite Hsystem, Hc.
  cbn [default from_option id].
  apply String.eqb_neq in Hseries as ->.
  apply String.eqb_neq in Hparallel as ->.
  fold n. fold cramerApplies. fold choleskyApplies.
  repeat split.
  - by intros ->.
  - by intros -> ->.
  - intros -> -> ->. destruct (decide (n ≤ 10)) as [Hle|Hgt].
    + by apply Nat.leb_le in Hle as ->.
    + assert (Nat.leb n 10 = false) as -> by (apply Nat.leb_gt; lia). done.
Qed.

(** Without a conditioning record the choice is by size alone. *)
Lemma selectSolverMethod_without_conditioning (matrices : Matrices.t)
    (systemMatrix : list (list float)) :
  Matrices.systemMatrix matrices = Some systemMatrix →
  Matrices.method matrices ≠ "series" →
  Matrices.method matrices ≠ "parallel" →
  Matrices.conditioning matrices = None →
  EquationSolver.selectSolverMethod matrices
  = if decide (length systemMatrix ≤ 10)
    then "direct_elimination" else "lu_decomposition".
Proof.
  intros Hsystem Hseries Hparallel Hc.
  unfold EquationSolver.selectSolverMethod. rewrite Hsystem, Hc.
  cbn [default from_option id].
  apply String.eqb_neq in Hseries as ->.
  apply String.eqb_neq in Hparallel as ->.
  rewrite andb_false_r.
  destruct (decide (length systemMatrix ≤ 10)) as [Hle|Hgt].
  - by apply Nat.leb_le in Hle as ->.
  - assert (Nat.leb (length systemMatrix) 10 = false) as ->
      by (apply Nat.leb_gt; lia). done.
Qed.

(** C7 fails on a circuit the analyzer accepts.  [fourTriangles] is analysed
by the mesh method and the system built for it is the 4 x 4 matrix
[fourTrianglesMatrix]: symmetric and positive definite by the builder's own
tests, too large for Cramer's rule, stored as symmetric and without a
warning.  The conditioning record carries no positive-definite flag, as
[checkMatrixConditioning] never computes one, so the method selected and
used by [solve] is Gaussian elimination, not Cholesky. *)
Theorem positive_definite_system_is_not_solved_by_cholesky :
  let nodeAnalysis := NodeAnalyzer.analyzeNodes fourTriangles in
  AnalysisResult.isValid
    (resultOf (Samples.analyze CircuitAnalyzer.initial fourTriangles Samples.clock1))
  = true ∧
  CircuitAnalyzer.selectOptimalMethod nodeAnalysis = "mesh" ∧
  ∃ matrices c,
    CircuitMatrixBuilder.buildSystemMatrices fourTriangles nodeAnalysis "mesh"
    = CircuitMatrixBuilder.Built matrices ∧
    Matrices.method matrices = "mesh" ∧
    Matrices.systemMatrix matrices = Some fourTrianglesMatrix ∧
    CircuitMatrixBuilder.checkSymmetry fourTrianglesMatrix = true ∧
    CircuitMatrixBuilder.isPositiveDefinite fourTrianglesMatrix = true ∧
    Matrices.conditioning matrices = Some c ∧
    Conditioning.isSymmetric c = Some true ∧
    Conditioning.warning c = None ∧
    Conditioning.isPositiveDefinite c = false ∧
    EquationSolver.selectSolverMethod matrices = "direct_elimination" ∧
    EquationSolver.SolveResult.solverMethod
      (EquationSolver.solve Samples.toExponential 0 matrices)
    = Some "direct_elimination".
Proof.
  cbv zeta. split; [vm_compute; reflexivity|]. split; [vm_compute; reflexivity|].
  destruct (CircuitMatrixBuilder.buildSystemMatrices fourTriangles
              (NodeAnalyzer.analyzeNodes fourTriangles) "mesh")
    as [matrices|error] eqn:Hbuilt; [|by vm_compute in Hbuilt].
  exists matrices,
    (CircuitMatrixBuilder.checkMatrixConditioning fourTrianglesMatrix).
  split; [reflexivity|].
  vm_compute in Hbuilt. injection Hbuilt as <-.
  repeat split; vm_compute; reflexivity.
Qed.

(** ** Direct methods and small pivots (claim C6) *)

Lemma forwardStep_thrown (n : nat) (l : list nat) (i : nat) :
  fold_left (EquationSolver.forwardStep n) l (inl i) = inl i.
Proof. induction l as [|k l IH]; simpl; [done|exact IH]. Qed.

Lemma luStep_thrown (n : nat) (l : list nat) (i : nat) :
  fold_left (EquationSolver.luStep n) l (inl i) = inl i.
Proof. induction l as [|k l IH]; simpl; [done|exact IH]. Qed.

Lemma seq_split (n i : nat) :
  i < n → seq 0 n = seq 0 i ++ i :: seq (S i) (n - S i).
Proof.
  intros Hlt. replace n with (i + S (n - S i)) at 1 by lia.
  by rewrite seq_app.
Qed.

Lemma forwardStep_pivot (n i : nat) (M : list (list float)) :
  EquationSolver.forwardStep n (inr M) i
  = if JS.lt (abs (pivotAfterSwap M n i)) EquationSolver.tolerance
    then inl i
    else inr (EquationSolver.eliminateColumn
                (if negb (Nat.eqb (EquationSolver.findPivotRow M n i) i)
                 then EquationSolver.swapRows M i (EquationSolver.findPivotRow M n i)
                 else M) n i).
Proof. done. Qed.

(** The forward phase throws at round [i] exactly when a small pivot arises
there. *)
Lemma forwardElimination_throws (n : nat) (augmented : list (list float)) (i : nat) :
  EquationSolver.forwardElimination n augmented = inl i
  ↔ smallPivotArises n augmented i.
Proof.
  unfold EquationSolver.forwardElimination, smallPivotArises. split.
  - assert (∀ k, fold_left (EquationSolver.forwardStep n) (seq 0 k) (inr augmented)
                 = inl i →
                 i < k ∧
                 ∃ reached,
                   fold_left (EquationSolver.forwardStep n) (seq 0 i) (inr augmented)
                     = inr reached ∧
                   JS.lt (abs (pivotAfterSwap reached n i)) EquationSolver.tolerance
                     = true) as Hk.
    { induction k as [|k IH]; [done|].
      rewrite seq_S, fold_left_app. cbn [fold_left].
      destruct (fold_left (EquationSolver.forwardStep n) (seq 0 k) (inr augmented))
        as [thrown|reached] eqn:Hprefix.
      - cbn [EquationSolver.forwardStep]. intros [= ->]. destruct (IH eq_refl) as [Hlt Hrest].
        split; [lia|exact Hrest].
      - rewrite forwardStep_pivot.
        destruct (JS.lt _ _) eqn:Hsmall; [|done].
        intros [= <-]. split; [lia|]. exists reached. by rewrite Hprefix. }
    apply Hk.
  - intros (Hlt & reached & Hprefix & Hsmall).
    rewrite (seq_split n i Hlt), fold_left_app, Hprefix. cbn [fold_left].
    rewrite forwardStep_pivot, Hsmall. apply forwardStep_thrown.
Qed.

Lemma luStep_pivot (n i : nat) (L U : list (list float)) :
  JS.lt (abs (pivotAfterSwap U n i)) EquationSolver.tolerance = true →
  EquationSolver.luStep n (inr (L, U)) i = inl i.
Proof.
  intros Hsmall. unfold EquationSolver.luStep, pivotAfterSwap in *.
  destruct (negb (Nat.eqb (EquationSolver.findPivotRow U n i) i)); by rewrite Hsmall.
Qed.

Lemma luFactorisation_throws (n : nat) (A : list (list float)) (i : nat) :
  luSmallPivotArises n A i → EquationSolver.luFactorisation n A = inl i.
Proof.
  intros (Hlt & L & U & Hprefix & Hsmall).
  unfold EquationSolver.luFactorisation.
  rewrite (seq_split n i Hlt), fold_left_app, Hprefix. cbn [fold_left].
  rewrite (luStep_pivot n i L U Hsmall). apply luStep_thrown.
Qed.

Lemma gaussianElimination_abort (A : list (list float)) (b : list float) (i : nat) :
  smallPivotArises (length A) (augment A b) i →
  EquationSolver.gaussianElimination A b = gaussianAbort (length A) i.
Proof.
  intros Harises. apply forwardElimination_throws in Harises.
  unfold EquationSolver.gaussianElimination.
  unfold augment in Harises. by rewrite Harises.
Qed.

Lemma luDecomposition_abort (A : list (list float)) (b : list float) (i : nat) :
  luSmallPivotArises (length A) A i →
  EquationSolver.luDecomposition A b = luAbort (length A) i.
Proof.
  intros Harises. apply luFactorisation_throws in Harises.
  unfold EquationSolver.luDecomposition. by rewrite Harises.
Qed.

Lemma cramerRule_abort (A : list (list float)) (b : list float) :
  JS.lt (abs (EquationSolver.calculateDeterminant A)) EquationSolver.tolerance = true →
  EquationSolver.cramerRule A b = cramerAbort (length A).
Proof. intros Hsmall. unfold EquationSolver.cramerRule. by rewrite Hsmall. Qed.

(** An invalid result of a direct method always has an error text and a
solution vector of zeros. *)
Lemma direct_methods_invalid_result (A : list (list float)) (b : list float)
    (result : Solution.t) :
  result ∈ [EquationSolver.gaussianElimination A b;
            EquationSolver.luDecomposition A b;
            EquationSolver.cramerRule A b] →
  Solution.isValid result = false →
  is_Some (Solution.error result) ∧
  Solution.values result = Some (JS.fill (length A) 0%float).
Proof.
  intros Hresult. rewrite !elem_of_cons in Hresult.
  destruct Hresult as [->|[->|[->|Hnone]]].
  - unfold EquationSolver.gaussianElimination.
    destruct (EquationSolver.forwardElimination _ _); simpl; [eauto|done].
  - unfold EquationSolver.luDecomposition.
    destruct (EquationSolver.luFactorisation _ _) as [|[L U]]; simpl; [eauto|done].
  - unfold EquationSolver.cramerRule. destruct (JS.lt _ _); simpl; [eauto|done].
  - by apply elem_of_nil in Hnone.
Qed.

(** C6 (as amended): on a square system, whenever a pivot of magnitude below
the tolerance 1e-10 arises during factorisation, Gaussian elimination and LU
decomposition return an explicit invalid result carrying the pivot error
message, and Cramer's rule does so whenever the determinant it computes is
below the tolerance in magnitude.  Every invalid result of the three methods
carries an error message and a solution vector of n zeros, which holds
neither NaN nor Infinity. *)
Theorem direct_methods_abort (A : list (list float)) (b : list float) :
  let n := length A in
  isSquareSystem A b = true →
  (∀ i, smallPivotArises n (augment A b) i →
        abortsWith (EquationSolver.gaussianElimination A b) n
                   (EquationSolver.pivotMessage i)) ∧
  (∀ i, luSmallPivotArises n A i →
        abortsWith (EquationSolver.luDecomposition A b) n
                   (EquationSolver.luPivotMessage i)) ∧
  (JS.lt (abs (EquationSolver.calculateDeterminant A)) EquationSolver.tolerance = true →
   abortsWith (EquationSolver.cramerRule A b) n cramerMessage) ∧
  (∀ result,
     result ∈ [EquationSolver.gaussianElimination A b;
               EquationSolver.luDecomposition A b;
               EquationSolver.cramerRule A b] →
     Solution.isValid result = false →
     is_Some (Solution.error result) ∧
     Solution.values result = Some (JS.fill n 0%float)) ∧
  Forall (λ v, JS.isFinite v = true) (JS.fill n 0%float).
Proof.
  intros n Hsquare. split; [|split; [|split; [|split]]].
  - intros i Harises. rewrite (gaussianElimination_abort A b i Harises).
    split; [done|]. split; [|done]. by eexists.
  - intros i Harises. rewrite (luDecomposition_abort A b i Harises).
    split; [done|]. split; [|done]. by eexists.
  - intros Hsmall. rewrite (cramerRule_abort A b Hsmall).
    split; [done|]. split; [|done]. by eexists.
  - apply direct_methods_invalid_result.
  - unfold JS.fill. apply Forall_replicate. reflexivity.
Qed.

(** The theorem at a small singular system: the pivot of round 1 is about
1.1e-16, and the determinant is 0, so all three methods abort. *)
Lemma direct_methods_abort_witness :
  let A := [[1; 1]; [49; 49]]%float in
  let b := [1; 1]%float in
  abortsWith (EquationSolver.gaussianElimination A b) 2
             (EquationSolver.pivotMessage 1) ∧
  abortsWith (EquationSolver.luDecomposition A b) 2
             (EquationSolver.luPivotMessage 1) ∧
  abortsWith (EquationSolver.cramerRule A b) 2 cramerMessage.
Proof.
  intros A b.
  destruct (direct_methods_abort A b eq_refl) as (Hgauss & Hlu & Hcramer & _).
  split; [|split].
  - apply Hgauss. split; [vm_compute; lia|].
    eexists. split; vm_compute; reflexivity.
  - apply Hlu. split; [vm_compute; lia|].
    eexists _, _. split; vm_compute; reflexivity.
  - apply Hcramer. vm_compute. reflexivity.
Defined.

(** C6 as stated fails: [singularSystem] has determinant 0 (its second row
is 49 times the first), but rounding leaves a pivot of about 1.2e-4 in round
1, above the tolerance.  Gaussian elimination and LU decomposition return a
valid result; with a large right-hand side the entries Gaussian elimination
reports are infinite.  The solver's own selection sends this system to
Gaussian elimination. *)
Lemma singular_system_accepted :
  let b := [1; 1e308]%float in
  isSquareSystem singularSystem b = true ∧
  map (λ v, (49 * v)%float) (default [] (singularSystem !! 0))
    = default [] (singularSystem !! 1) ∧
  EquationSolver.calculateDeterminant singularSystem = 0%float ∧
  Solution.isValid (EquationSolver.gaussianElimination singularSystem b) = true ∧
  Solution.values (EquationSolver.gaussianElimination singularSystem b)
    = Some [infinity; neg_infinity] ∧
  Solution.isValid (EquationSolver.luDecomposition singularSystem b) = true ∧
  EquationSolver.selectSolverMethod (systemOf "nodal" singularSystem b)
    = "direct_elimination".
Proof. evaluate. Qed.

(** ** Ideal sources in the electrical model (claim C4) *)

(** C4 (as amended): the electrical model returns the nominal value of a
voltage source unchanged, whatever the current through it, and the nominal
value of a current source unchanged, whatever the voltage across it.  The
drop over the internal resistance and the clamp to the compliance belong to
[VoltageSource.getOutputVoltage]: for an enabled dc source it returns the
nominal value, less outputCurrent * R_internal when R_internal > 0 and the
recorded output current is not 0, clamped to plus or minus the compliance. *)
Theorem ideal_sources :
  (∀ component current,
     Component.type component = "voltage" →
     OhmLawHelper.calculateVoltage component current = Component.value component) ∧
  (∀ component voltage,
     Component.type component = "current" →
     OhmLawHelper.calculateCurrent component voltage = Component.value component) ∧
  (∀ sin rem source time,
     VoltageSource.isEnabled source = true →
     VoltageSource.sourceType source = "dc" →
     fst (VoltageSource.getOutputVoltage sin rem source time)
     = clamp (VoltageSource.compliance source)
         (if JS.gt (VoltageSource.internalResistance source) 0 &&
             JS.sne (VoltageSource.outputCurrent source) 0
          then (VoltageSource.value source
                - VoltageSource.outputCurrent source
                  * VoltageSource.internalResistance source)%float
          else VoltageSource.value source)).
Proof.
  repeat split.
  - intros component current Htype.
    unfold OhmLawHelper.calculateVoltage, OhmLawHelper.isType. by rewrite Htype.
  - intros component voltage Htype.
    unfold OhmLawHelper.calculateCurrent, OhmLawHelper.isType. by rewrite Htype.
  - intros sin rem source time Henabled Hdc.
    unfold VoltageSource.getOutputVoltage, VoltageSource.waveform, clamp.
    rewrite Henabled, Hdc. simpl. by destruct (_ && _).
Qed.

(** The theorem at the 12 V source with 1 ohm inside, carrying 2 A: the model
answers 12 V, the source object 10 V; and the 1 mA current source. *)
Lemma ideal_sources_witness :
  OhmLawHelper.calculateVoltage realSource 2 = 12%float ∧
  OhmLawHelper.calculateCurrent currentSource 5 = 0.001%float ∧
  fst (VoltageSource.getOutputVoltage (λ x, x) (λ x _, x) realSourceObject 0)
    = 10%float.
Proof.
  destruct ideal_sources as (Hvoltage & Hcurrent & Hobject).
  split; [|split].
  - by rewrite (Hvoltage realSource 2%float eq_refl).
  - by rewrite (Hcurrent currentSource 5%float eq_refl).
  - rewrite (Hobject (λ x, x) (λ x _, x) realSourceObject 0%float eq_refl eq_refl).
    vm_compute. reflexivity.
Defined.

(** C4 as stated fails: for the 12 V source with 1 ohm of internal resistance
and a current of 2 A the claim gives 12 - 2 * 1 = 10 V (inside the compliance
of 13.2 V), while the electrical model answers 12 V. *)
Lemma model_ignores_internal_resistance :
  Component.internalResistance realSource = Some 1%float ∧
  claimedSourceVoltage 12 2 1 (12 * 1.1) = 10%float ∧
  OhmLawHelper.calculateVoltage realSource 2 = 12%float ∧
  JS.seq (OhmLawHelper.calculateVoltage realSource 2)
         (claimedSourceVoltage 12 2 1 (12 * 1.1)) = false.
Proof. evaluate. Qed.

(** ** The coordinator (claims C2, C3 and C9) *)

Section Coordinator.
Variable stringify : CircuitData.t → list Z.
Variable toFixed : float → nat → string.
Variable toExponential : float → nat → string.

Local Abbreviation analyzeCircuit :=
  (CircuitAnalyzer.analyzeCircuit stringify toFixed toExponential).

(** [processResults] always builds a valid result. *)
Lemma processResults_valid solution circuit nodeAnalysis method timestamp :
  AnalysisResult.isValid
    (fst (CircuitAnalyzer.processResults toFixed solution circuit nodeAnalysis
            method timestamp)) = true.
Proof.
  unfold CircuitAnalyzer.processResults.
  destruct (CircuitAnalyzer.calculateTotalMetrics _ _ _ _) as [[[[? ?] ?] ?] ?].
  done.
Qed.

(** The shape of a call that misses the cache and passes every stage. *)
Lemma analyzeCircuit_cases st circuit clk :
  let out := analyzeCircuit st circuit clk in
  let circuitHash := CircuitAnalyzer.generateCircuitHash stringify circuit in
  (∃ cached,
     JS.map_get (CircuitAnalyzer.analysisCache st) circuitHash = Some cached ∧
     out = (AnalysisResult.markFromCache cached, st, circuit)) ∨
  (JS.map_get (CircuitAnalyzer.analysisCache st) circuitHash = None ∧
   AnalysisResult.isValid (resultOf out) = false ∧
   stateOf out = st ∧ circuitOf out = circuit) ∨
  (JS.map_get (CircuitAnalyzer.analysisCache st) circuitHash = None ∧
   AnalysisResult.isValid (resultOf out) = true ∧
   AnalysisResult.fromCache (resultOf out) = None ∧
   stateOf out
     = CircuitAnalyzer.mkState
         (JS.map_set (CircuitAnalyzer.analysisCache st) circuitHash (resultOf out))
         (Some circuitHash) ∧
   ∃ solution nodeAnalysis method,
     EquationSolver.SolveResult.isValid solution = true ∧
     circuitOf out
       = snd (CircuitAnalyzer.processResults toFixed solution circuit nodeAnalysis
                method (CircuitAnalyzer.now clk))).
Proof.
  intros out circuitHash. subst out.
  unfold CircuitAnalyzer.analyzeCircuit. fold circuitHash.
  destruct (JS.map_get (CircuitAnalyzer.analysisCache st) circuitHash)
    as [cached|] eqn:Hcache.
  { left. by exists cached. }
  right.
  destruct (CircuitAnalyzer.validateCircuit circuit) as [thrown|validation];
    [by left|].
  destruct (negb (CircuitAnalyzer.Validation.isValid validation)); [by left|].
  destruct (negb (NodeAnalysis.isValid (NodeAnalyzer.analyzeNodes circuit)));
    [by left|].
  destruct (CircuitMatrixBuilder.buildSystemMatrices _ _ _) as [matrices|error];
    [|by left].
  destruct (negb (Matrices.isValid matrices)); [by left|].
  destruct (EquationSolver.SolveResult.isValid
              (EquationSolver.solve toExponential (CircuitAnalyzer.solveTime clk)
                 matrices)) eqn:Hsolved; [|by left].
  right. cbn [negb].
  pose proof (processResults_valid
                (EquationSolver.solve toExponential (CircuitAnalyzer.solveTime clk)
                   matrices)
                circuit (NodeAnalyzer.analyzeNodes circuit)
                (CircuitAnalyzer.selectOptimalMethod (NodeAnalyzer.analyzeNodes circuit))
                (CircuitAnalyzer.now clk)) as Hvalid.
  assert (AnalysisResult.fromCache
            (fst (CircuitAnalyzer.processResults toFixed
                    (EquationSolver.solve toExponential (CircuitAnalyzer.solveTime clk)
                       matrices)
                    circuit (NodeAnalyzer.analyzeNodes circuit)
                    (CircuitAnalyzer.selectOptimalMethod
                       (NodeAnalyzer.analyzeNodes circuit))
                    (CircuitAnalyzer.now clk))) = None) as Hfresh.
  { unfold CircuitAnalyzer.processResults.
    destruct (CircuitAnalyzer.calculateTotalMetrics _ _ _ _) as [[[[? ?] ?] ?] ?].
    done. }
  destruct (CircuitAnalyzer.processResults _ _ _ _ _ _) as [results circuit'] eqn:Hp.
  cbn [fst] in Hvalid, Hfresh.
  unfold resultOf, stateOf, circuitOf.
  destruct (negb (Nat.eqb (length (CircuitAnalyzer.validateResults toFixed results)) 0));
    cbn [fst snd AnalysisResult.isValid AnalysisResult.fromCache];
    (split; [done|]); (split; [done|]); (split; [done|]); (split; [done|]);
    eexists _, _, _; (split; [exact Hsolved|]); by rewrite Hp.
Qed.

(** C2: when [analyzeCircuit] returns an invalid result, the call has not
written any electrical field ([voltage], [current], [power]) of a component
or wire; the circuit is exactly as before, and so is the cache.  Fields are
written only by [processResults], which runs after a valid solve. *)
Theorem invalid_analysis_writes_nothing st circuit clk :
  AnalysisResult.isValid (resultOf (analyzeCircuit st circuit clk)) = false →
  circuitOf (analyzeCircuit st circuit clk) = circuit ∧
  electricalFields (circuitOf (analyzeCircuit st circuit clk))
    = electricalFields circuit ∧
  stateOf (analyzeCircuit st circuit clk) = st.
Proof.
  intros Hinvalid.
  assert (circuitOf (analyzeCircuit st circuit clk) = circuit ∧
          stateOf (analyzeCircuit st circuit clk) = st) as [Hcircuit Hstate].
  { destruct (analyzeCircuit_cases st circuit clk)
      as [(cached & _ & Hout) | [(_ & _ & Hst & Hc) | (_ & Hvalid & _)]].
    - by rewrite Hout.
    - done.
    - congruence. }
  by rewrite Hcircuit.
Qed.

(** The other direction: a call that changes the circuit returned a valid
result, and the change is the one [processResults] makes from a valid
solution of the solver. *)
Lemma fields_written_after_valid_solve st circuit clk :
  circuitOf (analyzeCircuit st circuit clk) ≠ circuit →
  AnalysisResult.isValid (resultOf (analyzeCircuit st circuit clk)) = true ∧
  ∃ solution nodeAnalysis method,
    EquationSolver.SolveResult.isValid solution = true ∧
    circuitOf (analyzeCircuit st circuit clk)
      = snd (CircuitAnalyzer.processResults toFixed solution circuit nodeAnalysis
               method (CircuitAnalyzer.now clk)).
Proof.
  intros Hchanged.
  destruct (analyzeCircuit_cases st circuit clk)
    as [(cached & _ & Hout) | [(_ & _ & _ & Hc) | (_ & Hvalid & _ & _ & Hsolved)]].
  - rewrite Hout in Hchanged. done.
  - done.
  - done.
Qed.
End Coordinator.

(** The theorem at the sample whose resistor has 0 ohm: the analysis is
invalid and the circuit is returned as it was. *)
Lemma invalid_analysis_writes_nothing_witness :
  let out := Samples.analyze CircuitAnalyzer.initial (Samples.sourceAndResistor 0)
               Samples.clock1 in
  AnalysisResult.isValid (resultOf out) = false ∧
  circuitOf out = Samples.sourceAndResistor 0 ∧
  stateOf out = CircuitAnalyzer.initial.
Proof.
  split; [vm_compute; reflexivity|].
  destruct (invalid_analysis_writes_nothing Samples.stringify Samples.toFixed
              Samples.toExponential CircuitAnalyzer.initial
              (Samples.sourceAndResistor 0) Samples.clock1)
    as (Hcircuit & _ & Hstate); [vm_compute; reflexivity|].
  split; [exact Hcircuit|exact Hstate].
Defined.

(** A valid analysis does write: with 1000 ohm the source's [voltage] field
goes from 0 to 12. *)
Lemma valid_analysis_writes_fields :
  let out := Samples.analyze CircuitAnalyzer.initial (Samples.sourceAndResistor 1000)
               Samples.clock1 in
  AnalysisResult.isValid (resultOf out) = true ∧
  fst (electricalFields (Samples.sourceAndResistor 1000))
    = [(0, 0, 0); (0, 0, 0); (0, 0, 0)]%float ∧
  fst (electricalFields (circuitOf out))
    = [(12, 0, 0); (0, 0, 0); (0, 0, 0)]%float.
Proof. evaluate. Qed.

(** *** The fingerprint cache (C3) *)

Lemma map_insert_same {A B} (f : A → B) (l : list A) (i : nat) (x y : A) :
  l !! i = Some x → f y = f x → map f (<[i := y]> l) = map f l.
Proof.
  revert i. induction l as [|a l IH]; intros i Hi Hf; [done|].
  destruct i as [|i]; simpl in *.
  - injection Hi as ->. by rewrite Hf.
  - by rewrite (IH i).
Qed.

(** Writing electrical fields does not change the data that is hashed. *)
Lemma assignCurrentToComponent_data componentId current circuit componentValues :
  CircuitAnalyzer.circuitData
    (fst (CircuitAnalyzer.assignCurrentToComponent componentId current circuit
            componentValues))
  = CircuitAnalyzer.circuitData circuit.
Proof.
  unfold CircuitAnalyzer.assignCurrentToComponent.
  destruct (list_find _ _) as [[i component]|] eqn:Hfind; [|done].
  apply list_find_Some in Hfind as (Hi & _ & _).
  unfold CircuitAnalyzer.circuitData, CircuitAnalyzer.setComponent. simpl.
  by rewrite (map_insert_same _ _ _ component).
Qed.

Lemma processBranch_data acc branch :
  CircuitAnalyzer.circuitData
    (CircuitAnalyzer.bl_circuit (CircuitAnalyzer.processBranch acc branch))
  = CircuitAnalyzer.circuitData (CircuitAnalyzer.bl_circuit acc).
Proof.
  unfold CircuitAnalyzer.processBranch.
  destruct (CircuitAnalyzer.truthyId (Branch.componentId branch)) as [componentId|].
  - pose proof (assignCurrentToComponent_data componentId 0%float
                  (CircuitAnalyzer.bl_circuit acc)
                  (CircuitAnalyzer.bl_componentValues acc)) as Hdata.
    destruct (CircuitAnalyzer.assignCurrentToComponent _ _ _ _) as [circuit' values'].
    done.
  - done.
Qed.

Lemma processResults_data toFixed solution circuit nodeAnalysis method timestamp :
  CircuitAnalyzer.circuitData
    (snd (CircuitAnalyzer.processResults toFixed solution circuit nodeAnalysis
            method timestamp))
  = CircuitAnalyzer.circuitData circuit.
Proof.
  unfold CircuitAnalyzer.processResults.
  destruct (CircuitAnalyzer.calculateTotalMetrics _ _ _ _) as [[[[? ?] ?] ?] ?].
  cbn [snd].
  destruct (EquationSolver.SolveResult.branchCurrents solution); [|done].
  assert (∀ l acc,
            CircuitAnalyzer.circuitData
              (CircuitAnalyzer.bl_circuit (fold_left CircuitAnalyzer.processBranch l acc))
            = CircuitAnalyzer.circuitData (CircuitAnalyzer.bl_circuit acc)) as Hfold.
  { induction l as [|b l IH]; intros acc; [done|].
    simpl. by rewrite IH, processBranch_data. }
  by rewrite Hfold.
Qed.

(** C3 (as amended): after a call that returned a valid result, a second
call on the unmodified circuit is served from the cache: it returns the
first result with the property [fromCache: true] added and all other
properties identical (whatever the clock says by then), and changes neither
the cache nor the circuit. *)
Theorem second_call_served_from_cache (stringify : CircuitData.t → list Z)
    (toFixed toExponential : float → nat → string)
    (st : CircuitAnalyzer.state) (circuit : Circuit.t)
    (clk1 clk2 : CircuitAnalyzer.clock) :
  let first := CircuitAnalyzer.analyzeCircuit stringify toFixed toExponential
                 st circuit clk1 in
  AnalysisResult.isValid (resultOf first) = true →
  CircuitAnalyzer.analyzeCircuit stringify toFixed toExponential
    (stateOf first) (circuitOf first) clk2
  = (AnalysisResult.markFromCache (resultOf first), stateOf first, circuitOf first).
Proof.
  intros first Hvalid.
  destruct (analyzeCircuit_cases stringify toFixed toExponential st circuit clk1)
    as [(cached & Hcache & Hout) |
        [(_ & Hinvalid & _) |
         (Hmiss & _ & _ & Hstate & solution & nodeAnalysis & method & _ & Hcircuit)]].
  - subst first. rewrite Hout. unfold resultOf, stateOf, circuitOf. cbn [fst snd].
    unfold CircuitAnalyzer.analyzeCircuit. by rewrite Hcache.
  - subst first. congruence.
  - fold first in Hstate, Hcircuit.
    assert (CircuitAnalyzer.generateCircuitHash stringify (circuitOf first)
            = CircuitAnalyzer.generateCircuitHash stringify circuit) as Hhash.
    { unfold CircuitAnalyzer.generateCircuitHash.
      by rewrite Hcircuit, processResults_data. }
    unfold CircuitAnalyzer.analyzeCircuit at 1.
    rewrite Hhash, Hstate. cbn [CircuitAnalyzer.analysisCache].
    by rewrite map_get_set, String.eqb_refl.
Qed.

(** The theorem at the sample with 1000 ohm: the second call, made later,
returns the first result marked [fromCache] and leaves state and circuit. *)
Lemma second_call_served_from_cache_witness :
  let first := Samples.analyze CircuitAnalyzer.initial
                 (Samples.sourceAndResistor 1000) Samples.clock1 in
  AnalysisResult.isValid (resultOf first) = true ∧
  Samples.analyze (stateOf first) (circuitOf first) Samples.clock2
  = (AnalysisResult.markFromCache (resultOf first), stateOf first, circuitOf first).
Proof.
  split; [vm_compute; reflexivity|].
  apply (second_call_served_from_cache Samples.stringify Samples.toFixed
           Samples.toExponential CircuitAnalyzer.initial
           (Samples.sourceAndResistor 1000) Samples.clock1 Samples.clock2).
  vm_compute. reflexivity.
Defined.

(** C3 as stated fails: the second result is not identical to the first, it
carries the extra property [fromCache: true]. *)
Lemma second_result_differs :
  let first := Samples.analyze CircuitAnalyzer.initial
                 (Samples.sourceAndResistor 1000) Samples.clock1 in
  let second := Samples.analyze (stateOf first) (circuitOf first) Samples.clock1 in
  AnalysisResult.isValid (resultOf first) = true ∧
  AnalysisResult.fromCache (resultOf first) = None ∧
  AnalysisResult.fromCache (resultOf second) = Some true ∧
  resultOf second ≠ resultOf first.
Proof.
  conjuncts; try (vm_compute; reflexivity).
  intros Hsame. apply (f_equal AnalysisResult.fromCache) in Hsame.
  vm_compute in Hsame. discriminate Hsame.
Qed.

(** An invalid result is not cached: the second call on the sample with
0 ohm finds the cache empty and is not marked [fromCache]. *)
Lemma invalid_result_not_cached :
  let first := Samples.analyze CircuitAnalyzer.initial
                 (Samples.sourceAndResistor 0) Samples.clock1 in
  let second := Samples.analyze (stateOf first) (circuitOf first) Samples.clock2 in
  AnalysisResult.isValid (resultOf first) = false ∧
  CircuitAnalyzer.analysisCache (stateOf first) = [] ∧
  AnalysisResult.fromCache (resultOf second) = None ∧
  resultOf second = resultOf first.
Proof. evaluate. Qed.

(** *** Validation of component values (C9) *)

Lemma validateComponent_nonpositive_resistance (component : Component.t) :
  Component.type component = "resistor" →
  JS.le (Component.value component) 0 = true →
  fst (fst (CircuitAnalyzer.validateComponent component)) = false.
Proof.
  intros Htype Hle. unfold CircuitAnalyzer.validateComponent.
  rewrite Htype, Hle. cbn [String.eqb Ascii.eqb Bool.eqb fst].
  rewrite length_app. cbn [length]. by rewrite Nat.add_1_r.
Qed.

(** The loop over the components keeps the errors it has and adds one for
every component that fails its validation. *)
Lemma validation_errors_grow (components : list Component.t)
    (errors warnings : list string) (bad : Component.t) :
  errors ≠ [] ∨
    (bad ∈ components ∧ fst (fst (CircuitAnalyzer.validateComponent bad)) = false) →
  fst (fold_left
         (λ '(errors, warnings) component,
            let '(valid, error, componentWarnings) :=
              CircuitAnalyzer.validateComponent component in
            ((if negb valid
              then errors ++ [Component.label component +:+ ": " +:+ error]
              else errors),
             warnings ++ componentWarnings))
         components (errors, warnings)) ≠ [].
Proof.
  revert errors warnings.
  induction components as [|c components IH]; intros errors warnings Hcase.
  - destruct Hcase as [Hne|[Hin _]]; [done|by apply elem_of_nil in Hin].
  - cbn [fold_left].
    destruct (CircuitAnalyzer.validateComponent c) as [[valid error] ws] eqn:Hc.
    apply IH.
    destruct Hcase as [Hne|[Hin Hbad]].
    + left. destruct (negb valid); [|done]. by destruct errors.
    + apply elem_of_cons in Hin as [->|Hin].
      * left. rewrite Hc in Hbad. cbn [fst] in Hbad. subst valid.
        cbn [negb]. by destruct errors.
      * right. done.
Qed.

Lemma validateCircuit_nonpositive_resistance (circuit : Circuit.t)
    (resistor : Component.t) (validation : CircuitAnalyzer.Validation.t) :
  resistor ∈ Circuit.components circuit →
  Component.type resistor = "resistor" →
  JS.le (Component.value resistor) 0 = true →
  CircuitAnalyzer.validateCircuit circuit = inr validation →
  CircuitAnalyzer.Validation.isValid validation = false.
Proof.
  intros Hin Htype Hle. unfold CircuitAnalyzer.validateCircuit.
  match goal with
  | |- context [fold_left ?f ?l (?e, ?w)] =>
      pose proof (validation_errors_grow l e w resistor
                    (or_intror (conj Hin
                       (validateComponent_nonpositive_resistance _ Htype Hle))))
        as Hgrow;
      destruct (fold_left f l (e, w)) as [errors3 warnings2]
  end.
  cbn [fst] in Hgrow.
  destruct (NodeAnalyzer.checkBasicConnectivity circuit) as [|isConnected]; [done|].
  intros [= <-]. cbn [CircuitAnalyzer.Validation.isValid].
  destruct (negb isConnected).
  - rewrite length_app. cbn [length]. by rewrite Nat.add_1_r.
  - by destruct errors3.
Qed.

(** C9 (as amended): a resistor whose value is zero or negative is a fatal
validation error.  On a circuit that contains one, [analyzeCircuit] (when the
fingerprint is not cached) returns [isValid = false] and leaves circuit and
cache as they were; when validation completes, the result carries the
validation error text and the warnings validation collected. *)
Theorem nonpositive_resistance_is_fatal (stringify : CircuitData.t → list Z)
    (toFixed toExponential : float → nat → string)
    (st : CircuitAnalyzer.state) (circuit : Circuit.t) (clk : CircuitAnalyzer.clock)
    (resistor : Component.t) :
  let out := CircuitAnalyzer.analyzeCircuit stringify toFixed toExponential
               st circuit clk in
  resistor ∈ Circuit.components circuit →
  Component.type resistor = "resistor" →
  JS.le (Component.value resistor) 0 = true →
  JS.map_get (CircuitAnalyzer.analysisCache st)
             (CircuitAnalyzer.generateCircuitHash stringify circuit) = None →
  AnalysisResult.isValid (resultOf out) = false ∧
  circuitOf out = circuit ∧ stateOf out = st ∧
  ∀ validation,
    CircuitAnalyzer.validateCircuit circuit = inr validation →
    CircuitAnalyzer.Validation.isValid validation = false ∧
    AnalysisResult.error (resultOf out)
      = Some (CircuitAnalyzer.Validation.error validation) ∧
    AnalysisResult.warnings (resultOf out)
      = Some (CircuitAnalyzer.Validation.warnings validation).
Proof.
  intros out Hin Htype Hle Hmiss. subst out.
  unfold CircuitAnalyzer.analyzeCircuit. rewrite Hmiss.
  destruct (CircuitAnalyzer.validateCircuit circuit) as [thrown|validation] eqn:Hv.
  - split; [done|]. split; [done|]. split; [done|]. intros validation [=].
  - pose proof (validateCircuit_nonpositive_resistance circuit resistor validation
                  Hin Htype Hle Hv) as Hfatal.
    rewrite Hfatal. cbn [negb].
    split; [done|]. split; [done|]. split; [done|].
    intros validation' [= <-]. done.
Qed.

(** The theorem at the sample with 0 ohm, and what the result says. *)
Lemma nonpositive_resistance_is_fatal_witness :
  let out := Samples.analyze CircuitAnalyzer.initial (Samples.sourceAndResistor 0)
               Samples.clock1 in
  AnalysisResult.isValid (resultOf out) = false ∧
  circuitOf out = Samples.sourceAndResistor 0 ∧
  AnalysisResult.error (resultOf out)
    = Some "resistor_1: La resistencia debe ser mayor que cero".
Proof.
  destruct (nonpositive_resistance_is_fatal Samples.stringify Samples.toFixed
              Samples.toExponential CircuitAnalyzer.initial
              (Samples.sourceAndResistor 0) Samples.clock1
              (Samples.component "resistor_1" "resistor" 0 [Samples.pB; Samples.pA]))
    as (Hinvalid & Hcircuit & _ & _).
  - apply list_elem_of_lookup. exists 1. reflexivity.
  - reflexivity.
  - vm_compute. reflexivity.
  - reflexivity.
  - split; [exact Hinvalid|]. split; [exact Hcircuit|]. vm_compute. reflexivity.
Defined.

(** C9 as stated fails: with a resistance of 0 ohm, and with -5 ohm, the
analysis does not proceed; it returns [isValid = false] with the error of the
resistor, the low-resistance warning being attached to that failed result.
The same circuit with 1000 ohm is analysed successfully. *)
Lemma zero_resistance_invalidates :
  let failed ohms :=
    resultOf (Samples.analyze CircuitAnalyzer.initial
                (Samples.sourceAndResistor ohms) Samples.clock1) in
  failed 0%float
    = AnalysisResult.mk false
        (Some "resistor_1: La resistencia debe ser mayor que cero")
        (Some ["Resistencia muy baja: puede causar problemas numéricos"])
        None None ∧
  failed (-5)%float = failed 0%float ∧
  AnalysisResult.isValid (failed 1000%float) = true.
Proof. evaluate. Qed.

(* ===================================================================== *)
(** * Part III: further properties of the engine                          *)
(* ===================================================================== *)

(** ** The union-find structure: sets *)

Lemma reaches_is_root parent x r : reaches parent x r → parent !! r = Some r.
Proof. induction 1; done. Qed.

Lemma reaches_unique parent x r r' :
  reaches parent x r → reaches parent x r' → r = r'.
Proof.
  intros H. revert r'. induction H as [x Hx|x p r Hp Hne _ IH]; intros r' H'.
  - inversion H' as [y Hy|y q s Hq Hneq _]; subst; [done|congruence].
  - inversion H' as [y Hy|y q s Hq Hneq Hrest]; subst; [congruence|].
    apply IH. congruence.
Qed.

(** Path compression: pointing [x] at its root changes no root. *)
Lemma reaches_compress parent x r :
  x < length parent → reaches parent x r →
  ∀ y s, reaches parent y s ↔ reaches (<[x := r]> parent) y s.
Proof.
  intros Hx Hxr y s. pose proof (reaches_is_root _ _ _ Hxr) as Hr. split.
  - induction 1 as [y Hy|y p s Hp Hne Hrest IH].
    + destruct (decide (y = x)) as [->|Hyx].
      * assert (r = x) as -> by (eapply reaches_unique; [exact Hxr|by constructor]).
        constructor. by rewrite list_lookup_insert_eq.
      * constructor. by rewrite list_lookup_insert_ne.
    + destruct (decide (y = x)) as [->|Hyx].
      * assert (s = r) as ->.
        { eapply reaches_unique; [|exact Hxr]. by eapply reaches_step. }
        assert (r ≠ x) as Hrx by (intros ->; congruence).
        eapply reaches_step; [by rewrite list_lookup_insert_eq|done|].
        constructor. by rewrite list_lookup_insert_ne.
      * eapply reaches_step; [by rewrite list_lookup_insert_ne|done|done].
  - induction 1 as [y Hy|y p s Hp Hne Hrest IH].
    + destruct (decide (y = x)) as [->|Hyx].
      * rewrite list_lookup_insert_eq in Hy by done. injection Hy as ->. done.
      * rewrite list_lookup_insert_ne in Hy by done. by constructor.
    + destruct (decide (y = x)) as [->|Hyx].
      * rewrite list_lookup_insert_eq in Hp by done. injection Hp as ->.
        assert (s = p) as ->.
        { eapply reaches_unique; [exact IH|by constructor]. }
        done.
      * rewrite list_lookup_insert_ne in Hp by done.
        by eapply reaches_step.
Qed.

Lemma findFrom_reaches (fuel : nat) (uf : UnionFind.t) (x : nat) :
  wellFormed uf →
  x < length (UnionFind.parent uf) →
  above uf x < fuel →
  reaches (UnionFind.parent uf) x (fst (UnionFind.findFrom fuel uf x)) ∧
  ∀ y s, reaches (UnionFind.parent uf) y s
         ↔ reaches (UnionFind.parent (snd (UnionFind.findFrom fuel uf x))) y s.
Proof.
  intros Hwf. revert x.
  induction fuel as [|fuel IH]; intros x Hx Habove; [lia|].
  pose proof (findFrom_spec fuel uf) as Hspec.
  cbn [UnionFind.findFrom].
  destruct (lookup_lt_is_Some_2 _ _ Hx) as [p Hp]. rewrite Hp. cbn [default from_option id].
  destruct (Nat.eqb p x) eqn:Heq; cbn [negb].
  { apply Nat.eqb_eq in Heq as ->. cbn [fst snd]. split; [by constructor|done]. }
  apply Nat.eqb_neq in Heq.
  destruct (Hwf) as [Hlen Hedges]. destruct (Hedges x p Hp) as [Hpn Hrank].
  specialize (Hrank Heq).
  pose proof (above_parent uf x p Hpn Hrank) as Hless.
  specialize (IH p Hpn ltac:(lia)).
  specialize (Hspec p Hwf Hpn ltac:(lia)). cbv zeta in Hspec.
  destruct (UnionFind.findFrom fuel uf p) as [root uf'].
  cbn [fst snd UnionFind.parent] in *.
  destruct IH as [Hroot Hsame].
  destruct Hspec as (_ & Hlen' & _).
  assert (reaches (UnionFind.parent uf) x root) as Hxroot by (by eapply reaches_step).
  split; [done|].
  intros y s. rewrite Hsame. apply reaches_compress; [lia|]. by apply Hsame.
Qed.

Lemma find_reaches (uf : UnionFind.t) (x : nat) :
  wellFormed uf →
  x < length (UnionFind.parent uf) →
  reaches (UnionFind.parent uf) x (fst (UnionFind.find uf x)) ∧
  ∀ y s, reaches (UnionFind.parent uf) y s
         ↔ reaches (UnionFind.parent (snd (UnionFind.find uf x))) y s.
Proof.
  intros Hwf Hx. apply findFrom_reaches; [done|done|]. by apply above_bound.
Qed.

Lemma sameSet_reaches (uf : UnionFind.t) (x y : nat) :
  wellFormed uf →
  x < length (UnionFind.parent uf) →
  y < length (UnionFind.parent uf) →
  sameSet uf x y = true
  ↔ ∃ r, reaches (UnionFind.parent uf) x r ∧ reaches (UnionFind.parent uf) y r.
Proof.
  intros Hwf Hx Hy. unfold sameSet, UnionFind.connected.
  pose proof (find_spec uf x Hwf Hx) as Hfx. cbv zeta in Hfx.
  pose proof (find_reaches uf x Hwf Hx) as Hrx.
  destruct (UnionFind.find uf x) as [rootX uf1]. cbn [fst snd] in *.
  destruct Hfx as (_ & Hlen1 & Hwf1 & _).
  destruct Hrx as [HrootX Hsame1].
  pose proof (find_reaches uf1 y Hwf1 ltac:(lia)) as Hry.
  destruct (UnionFind.find uf1 y) as [rootY uf2]. cbn [fst snd] in *.
  destruct Hry as [HrootY _]. apply Hsame1 in HrootY.
  rewrite Nat.eqb_eq. split.
  - intros ->. by exists rootY.
  - intros (r & Hxr & Hyr).
    rewrite (reaches_unique _ _ _ _ HrootX Hxr).
    by rewrite (reaches_unique _ _ _ _ HrootY Hyr).
Qed.

(** Linking the root [a] under the root [b]. *)
Lemma reaches_link parent a b :
  a < length parent → parent !! a = Some a → parent !! b = Some b → a ≠ b →
  ∀ y s', reaches (<[a := b]> parent) y s'
          ↔ ∃ s, reaches parent y s ∧ s' = if decide (s = a) then b else s.
Proof.
  intros Ha Hroota Hrootb Hab y s'. split.
  - induction 1 as [y Hy|y p s' Hp Hne Hrest IH].
    + destruct (decide (y = a)) as [->|Hya].
      * rewrite list_lookup_insert_eq in Hy by done. congruence.
      * rewrite list_lookup_insert_ne in Hy by done.
        exists y. split; [by constructor|]. by rewrite decide_False.
    + destruct IH as (s & Hps & ->).
      destruct (decide (y = a)) as [->|Hya].
      * rewrite list_lookup_insert_eq in Hp by done. injection Hp as ->.
        assert (s = p) as ->.
        { eapply reaches_unique; [exact Hps|by constructor]. }
        exists a. split; [by constructor|].
        repeat case_decide; congruence.
      * rewrite list_lookup_insert_ne in Hp by done.
        exists s. split; [by eapply reaches_step|done].
  - intros (s & Hys & ->).
    induction Hys as [y Hy|y p s Hp Hne Hrest IH].
    + destruct (decide (y = a)) as [->|Hya].
      * eapply reaches_step; [by rewrite list_lookup_insert_eq|congruence|].
        constructor. by rewrite list_lookup_insert_ne.
      * constructor. by rewrite list_lookup_insert_ne.
    + assert (y ≠ a) as Hya by (intros ->; congruence).
      eapply reaches_step; [by rewrite list_lookup_insert_ne|done|done].
Qed.

Lemma reaches_total (uf : UnionFind.t) (x : nat) :
  wellFormed uf → x < length (UnionFind.parent uf) →
  ∃ r, reaches (UnionFind.parent uf) x r.
Proof. intros Hwf Hx. eexists. by apply find_reaches. Qed.

(** What [union] does to the roots. *)
Lemma union_reaches (uf : UnionFind.t) (x y : nat) :
  wellFormed uf →
  x < length (UnionFind.parent uf) →
  y < length (UnionFind.parent uf) →
  ∃ rootX rootY keep,
    reaches (UnionFind.parent uf) x rootX ∧
    reaches (UnionFind.parent uf) y rootY ∧
    (keep = rootX ∨ keep = rootY) ∧
    ∀ z s', reaches (UnionFind.parent (UnionFind.union uf x y)) z s'
            ↔ ∃ s, reaches (UnionFind.parent uf) z s ∧
                   s' = if decide (s = rootX ∨ s = rootY) then keep else s.
Proof.
  intros Hwf Hx Hy. unfold UnionFind.union.
  pose proof (find_spec uf x Hwf Hx) as Hfx. cbv zeta in Hfx.
  pose proof (find_reaches uf x Hwf Hx) as Hrx.
  destruct (UnionFind.find uf x) as [rootX uf1]. cbn [fst snd] in *.
  destruct Hfx as (_ & Hlen1 & Hwf1 & HrootXn & _ & HfixX & _).
  destruct Hrx as [HrootX Hsame1].
  pose proof (find_spec uf1 y Hwf1 ltac:(lia)) as Hfy. cbv zeta in Hfy.
  pose proof (find_reaches uf1 y Hwf1 ltac:(lia)) as Hry.
  destruct (UnionFind.find uf1 y) as [rootY uf2]. cbn [fst snd] in *.
  destruct Hfy as (_ & Hlen2 & Hwf2 & HrootYn & _ & HfixY & Hroots).
  destruct Hry as [HrootY Hsame2].
  specialize (Hroots rootX HfixX).
  apply Hsame1 in HrootY.
  assert (∀ z s, reaches (UnionFind.parent uf) z s
                 ↔ reaches (UnionFind.parent uf2) z s) as Hsame.
  { intros z s. by rewrite Hsame1, Hsame2. }
  destruct (Nat.eqb rootX rootY) eqn:Heq; cbn [negb].
  { apply Nat.eqb_eq in Heq as <-.
    exists rootX, rootX, rootX. split; [done|]. split; [done|]. split; [by left|].
    intros z s'. rewrite <- Hsame. split.
    - intros Hz. exists s'. split; [done|]. destruct (decide _) as [[->| ->]|]; done.
    - intros (s & Hz & ->). destruct (decide _) as [[->| ->]|]; done. }
  apply Nat.eqb_neq in Heq.
  assert (∀ a b (rk : list nat),
            a < length (UnionFind.parent uf2) →
            UnionFind.parent uf2 !! a = Some a → UnionFind.parent uf2 !! b = Some b →
            a ≠ b → (a = rootX ∧ b = rootY ∨ a = rootY ∧ b = rootX) →
            ∀ z s', reaches (<[a := b]> (UnionFind.parent uf2)) z s'
                    ↔ ∃ s, reaches (UnionFind.parent uf) z s ∧
                           s' = if decide (s = rootX ∨ s = rootY) then b else s) as Hlink.
  { intros a b _ Ha Hra Hrb Hab Hcase z s'.
    rewrite (reaches_link _ a b Ha Hra Hrb Hab). split.
    - intros (s & Hz & ->). exists s. split; [by apply Hsame|].
      destruct (decide (s = a)) as [->|Hsa].
      + rewrite decide_True; [done|]. destruct Hcase as [[-> _]|[-> _]]; auto.
      + destruct (decide _) as [Hs|Hs]; [|done].
        destruct Hcase as [[-> ->]|[-> ->]]; destruct Hs as [->| ->]; done.
    - intros (s & Hz & ->). exists s. split; [by apply Hsame|].
      destruct (decide (s = a)) as [->|Hsa].
      + rewrite decide_True; [done|]. destruct Hcase as [[-> _]|[-> _]]; auto.
      + destruct (decide _) as [Hs|Hs]; [|done].
        destruct Hcase as [[-> ->]|[-> ->]]; destruct Hs as [->| ->]; done. }
  exists rootX, rootY.
  destruct (Nat.ltb _ _); [|destruct (Nat.ltb _ _)]; cbn [UnionFind.parent].
  - exists rootY. split; [done|]. split; [done|]. split; [by right|].
    apply (Hlink rootX rootY []); [lia|done|done|done|by left].
  - exists rootX. split; [done|]. split; [done|]. split; [by left|].
    apply (Hlink rootY rootX []); [lia|done|done|done|by right].
  - exists rootX. split; [done|]. split; [done|]. split; [by left|].
    apply (Hlink rootY rootX []); [lia|done|done|done|by right].
Qed.

(** The sets after [union], in terms of the roots before. *)
Lemma union_sameSet_roots (uf : UnionFind.t) (x y : nat) :
  wellFormed uf →
  x < length (UnionFind.parent uf) →
  y < length (UnionFind.parent uf) →
  ∃ rootX rootY keep,
    reaches (UnionFind.parent uf) x rootX ∧
    reaches (UnionFind.parent uf) y rootY ∧
    (keep = rootX ∨ keep = rootY) ∧
    ∀ a b, a < length (UnionFind.parent uf) → b < length (UnionFind.parent uf) →
      sameSet (UnionFind.union uf x y) a b = true
      ↔ ∃ ra rb, reaches (UnionFind.parent uf) a ra ∧
                 reaches (UnionFind.parent uf) b rb ∧
                 (if decide (ra = rootX ∨ ra = rootY) then keep else ra)
                 = (if decide (rb = rootX ∨ rb = rootY) then keep else rb).
Proof.
  intros Hwf Hx Hy.
  destruct (union_wellFormed uf x y Hwf Hx Hy) as [Hwf' Hlen'].
  destruct (union_reaches uf x y Hwf Hx Hy)
    as (rootX & rootY & keep & HrootX & HrootY & Hkeep & Hnew).
  exists rootX, rootY, keep. split; [done|]. split; [done|]. split; [done|].
  intros a b Ha Hb. rewrite sameSet_reaches by (done || lia). split.
  - intros (r & Har & Hbr). apply Hnew in Har as (ra & Hra & ->).
    apply Hnew in Hbr as (rb & Hrb & Heq). by exists ra, rb.
  - intros (ra & rb & Hra & Hrb & Heq). eexists. split; apply Hnew.
    + by exists ra.
    + exists rb. by split.
Qed.

Lemma sameSet_refl (uf : UnionFind.t) (x : nat) :
  wellFormed uf → x < length (UnionFind.parent uf) → sameSet uf x x = true.
Proof.
  intros Hwf Hx. apply sameSet_reaches; [done..|].
  destruct (reaches_total uf x Hwf Hx) as [r Hr]. by exists r.
Qed.

(** [union] joins its arguments and separates nothing. *)
Lemma union_sameSet_grows (uf : UnionFind.t) (x y : nat) :
  wellFormed uf →
  x < length (UnionFind.parent uf) →
  y < length (UnionFind.parent uf) →
  sameSet (UnionFind.union uf x y) x y = true ∧
  ∀ a b, a < length (UnionFind.parent uf) → b < length (UnionFind.parent uf) →
         sameSet uf a b = true → sameSet (UnionFind.union uf x y) a b = true.
Proof.
  intros Hwf Hx Hy.
  destruct (union_sameSet_roots uf x y Hwf Hx Hy)
    as (rootX & rootY & keep & HrootX & HrootY & Hkeep & Hnew).
  split.
  - apply Hnew; [done|done|]. exists rootX, rootY.
    split; [done|]. split; [done|]. rewrite !decide_True; auto.
  - intros a b Ha Hb Hab. apply Hnew; [done|done|].
    apply sameSet_reaches in Hab as (r & Har & Hbr); [|done..].
    by exists r, r.
Qed.

(** X1: on a well-formed structure, [union(x, y)] puts [x] and [y] in the
same set and merges exactly their two sets: afterwards [connected(a, b)]
answers true if and only if it did before, or one of [a], [b] was connected
to [x] and the other to [y]. *)
Theorem union_merges_two_sets (uf : UnionFind.t) (x y a b : nat) :
  wellFormed uf →
  x < length (UnionFind.parent uf) →
  y < length (UnionFind.parent uf) →
  a < length (UnionFind.parent uf) →
  b < length (UnionFind.parent uf) →
  sameSet (UnionFind.union uf x y) x y = true ∧
  (sameSet (UnionFind.union uf x y) a b = true
   ↔ sameSet uf a b = true
     ∨ (sameSet uf a x = true ∧ sameSet uf y b = true)
     ∨ (sameSet uf a y = true ∧ sameSet uf x b = true)).
Proof.
  intros Hwf Hx Hy Ha Hb.
  destruct (union_sameSet_roots uf x y Hwf Hx Hy)
    as (rootX & rootY & keep & HrootX & HrootY & Hkeep & Hnew).
  split.
  { apply Hnew; [done|done|]. exists rootX, rootY.
    split; [done|]. split; [done|]. rewrite !decide_True; auto. }
  rewrite Hnew by done. rewrite !sameSet_reaches by done. split.
  - intros (ra & rb & Hra & Hrb & Heq).
    destruct (decide (ra = rootX ∨ ra = rootY)) as [Hp|Hp];
      destruct (decide (rb = rootX ∨ rb = rootY)) as [Hq|Hq].
    + destruct Hp as [->| ->], Hq as [->| ->].
      * left. by exists rootX.
      * right. left. split; [by exists rootX|by exists rootY].
      * right. right. split; [by exists rootY|by exists rootX].
      * left. by exists rootY.
    + subst rb. exfalso. apply Hq. destruct Hkeep; auto.
    + subst ra. exfalso. apply Hp. destruct Hkeep; auto.
    + subst rb. left. by exists ra.
  - intros [(r & Har & Hbr)|[[(r & Har & Hxr) (r' & Hyr & Hbr)]
                            |[(r & Har & Hyr) (r' & Hxr & Hbr)]]].
    + by exists r, r.
    + exists r, r'. split; [done|]. split; [done|].
      rewrite (reaches_unique _ _ _ _ Hxr HrootX).
      rewrite (reaches_unique _ _ _ _ Hyr HrootY).
      rewrite !decide_True; auto.
    + exists r, r'. split; [done|]. split; [done|].
      rewrite (reaches_unique _ _ _ _ Hxr HrootX).
      rewrite (reaches_unique _ _ _ _ Hyr HrootY).
      rewrite !decide_True; auto.
Qed.

Lemma union_merges_two_sets_witness :
  sameSet (UnionFind.union (UnionFind.create 3) 0 1) 0 1 = true ∧
  (sameSet (UnionFind.union (UnionFind.create 3) 0 1) 1 2 = true
   ↔ sameSet (UnionFind.create 3) 1 2 = true
     ∨ (sameSet (UnionFind.create 3) 1 0 = true ∧ sameSet (UnionFind.create 3) 1 2 = true)
     ∨ (sameSet (UnionFind.create 3) 1 1 = true ∧ sameSet (UnionFind.create 3) 0 2 = true)).
Proof.
  apply (union_merges_two_sets (UnionFind.create 3) 0 1 1 2);
    [apply create_wellFormed|simpl; lia..].
Defined.

(** The ends of an ideal wire are united. *)
Lemma uniteByWires_step_mono (physicalNodes : list PhysicalNode.t)
    (wires : list Wire.t) (uf : UnionFind.t) (a b : nat) :
  let step := λ (uf : UnionFind.t) (wire : Wire.t),
    if JS.lt (Wire.resistance wire) 1e-6 then
      match NodeAnalyzer.findNodeAtPosition physicalNodes
              (Point.x (Wire.start wire)) (Point.y (Wire.start wire)),
            NodeAnalyzer.findNodeAtPosition physicalNodes
              (Point.x (Wire.end_ wire)) (Point.y (Wire.end_ wire)) with
      | Some startIndex, Some endIndex => UnionFind.union uf startIndex endIndex
      | _, _ => uf
      end
    else uf in
  wellFormed uf → length (UnionFind.parent uf) = length physicalNodes →
  a < length physicalNodes → b < length physicalNodes →
  sameSet uf a b = true →
  sameSet (fold_left step wires uf) a b = true.
Proof.
  intros step. revert uf.
  induction wires as [|wire wires IH]; intros uf Hwf Hlen Ha Hb Hab; [done|].
  cbn [fold_left].
  assert (wellFormed (step uf wire) ∧
          length (UnionFind.parent (step uf wire)) = length physicalNodes ∧
          sameSet (step uf wire) a b = true) as (Hwf' & Hlen' & Hab').
  { unfold step.
    destruct (JS.lt (Wire.resistance wire) _); [|done].
    destruct (NodeAnalyzer.findNodeAtPosition physicalNodes _ _)
      as [startIndex|] eqn:Hstart; [|done].
    destruct (NodeAnalyzer.findNodeAtPosition physicalNodes
                (Point.x (Wire.end_ wire)) _) as [endIndex|] eqn:Hend; [|done].
    apply findNodeAtPosition_index in Hstart, Hend.
    destruct (union_wellFormed uf startIndex endIndex Hwf) as [Hwf' Hlen']; [lia|lia|].
    split; [done|]. split; [lia|].
    apply (proj2 (union_sameSet_grows uf startIndex endIndex Hwf
                    ltac:(lia) ltac:(lia))); [lia|lia|done]. }
  by apply IH.
Qed.

(** X3: in the structure [createElectricalNodes] builds, the physical nodes
found at the two ends of an ideal wire (resistance below [1e-6]) are in the
same set, whatever the other wires are. *)
Theorem ideal_wire_unites_its_ends (physicalNodes : list PhysicalNode.t)
    (circuit : Circuit.t) (wire : Wire.t) (startIndex endIndex : nat) :
  wire ∈ Circuit.wires circuit →
  JS.lt (Wire.resistance wire) 1e-6 = true →
  NodeAnalyzer.findNodeAtPosition physicalNodes
    (Point.x (Wire.start wire)) (Point.y (Wire.start wire)) = Some startIndex →
  NodeAnalyzer.findNodeAtPosition physicalNodes
    (Point.x (Wire.end_ wire)) (Point.y (Wire.end_ wire)) = Some endIndex →
  sameSet (NodeAnalyzer.uniteByWires physicalNodes circuit) startIndex endIndex = true.
Proof.
  intros Hin Hideal Hstart Hend. unfold NodeAnalyzer.uniteByWires.
  apply list_elem_of_split in Hin as (before & after & ->).
  set (step := λ (uf : UnionFind.t) (wire : Wire.t), _).
  rewrite fold_left_app.
  change (fold_left step (wire :: after) ?u) with (fold_left step after (step u wire)).
  assert (∀ wires uf,
            wellFormed uf ∧ length (UnionFind.parent uf) = length physicalNodes →
            wellFormed (fold_left step wires uf) ∧
            length (UnionFind.parent (fold_left step wires uf))
              = length physicalNodes) as Hfold.
  { induction wires as [|w wires IH]; intros uf [Hwf Hlen]; [done|].
    cbn [fold_left]. apply IH. unfold step.
    destruct (JS.lt (Wire.resistance w) _); [|done].
    destruct (NodeAnalyzer.findNodeAtPosition physicalNodes
                (Point.x (Wire.start w)) _) as [s|] eqn:Hs; [|done].
    destruct (NodeAnalyzer.findNodeAtPosition physicalNodes
                (Point.x (Wire.end_ w)) _) as [e|] eqn:He; [|done].
    apply findNodeAtPosition_index in Hs, He.
    destruct (union_wellFormed uf s e Hwf) as [Hwf' Hlen']; [lia|lia|].
    split; [done|lia]. }
  destruct (Hfold before (UnionFind.create (length physicalNodes)))
    as [Hwf1 Hlen1].
  { split; [apply create_wellFormed|]. simpl. by rewrite length_seq. }
  pose proof (findNodeAtPosition_index _ _ _ _ Hstart) as Hs.
  pose proof (findNodeAtPosition_index _ _ _ _ Hend) as He.
  destruct (union_wellFormed _ startIndex endIndex Hwf1) as [Hwf2 Hlen2]; [lia|lia|].
  assert (∀ u, step u wire = UnionFind.union u startIndex endIndex) as Hstep.
  { intros u. unfold step. by rewrite Hideal, Hstart, Hend. }
  rewrite Hstep.
  apply (uniteByWires_step_mono physicalNodes after); [done|lia|done|done|].
  exact (proj1 (union_sameSet_grows _ startIndex endIndex Hwf1
                  ltac:(lia) ltac:(lia))).
Qed.

Lemma findFrom_parent (fuel : nat) (uf : UnionFind.t) (x : nat) :
  wellFormed uf →
  x < length (UnionFind.parent uf) →
  above uf x < fuel →
  UnionFind.parent (snd (UnionFind.findFrom fuel uf x)) !! x
  = Some (fst (UnionFind.findFrom fuel uf x)).
Proof.
  intros Hwf Hx Hab.
  destruct fuel as [|fuel]; [lia|].
  pose proof (findFrom_spec fuel uf) as Hspec.
  cbn [UnionFind.findFrom].
  destruct (lookup_lt_is_Some_2 _ _ Hx) as [p Hp]. rewrite Hp. cbn [default from_option id].
  destruct (Nat.eqb p x) eqn:Heq; cbn [negb].
  { apply Nat.eqb_eq in Heq as ->. done. }
  apply Nat.eqb_neq in Heq.
  destruct (Hwf) as [Hlen Hedges]. destruct (Hedges x p Hp) as [Hpn Hrank].
  specialize (Hrank Heq).
  pose proof (above_parent uf x p Hpn Hrank) as Hless.
  specialize (Hspec p Hwf Hpn ltac:(lia)). cbv zeta in Hspec.
  destruct (UnionFind.findFrom fuel uf p) as [root uf'].
  cbn [fst snd UnionFind.parent] in *.
  destruct Hspec as (_ & Hlen' & _).
  rewrite list_lookup_insert_eq by lia. done.
Qed.

(** X2: on a well-formed structure, [find(x)] returns a root, leaves [x]
pointing at that root (path compression), and changes the answer of no later
[find]: calling it again on [x] gives the same root, and every other element
keeps its root. *)
Theorem find_compresses_without_changing_sets (uf : UnionFind.t) (x y : nat) :
  wellFormed uf →
  x < length (UnionFind.parent uf) →
  y < length (UnionFind.parent uf) →
  let root := fst (UnionFind.find uf x) in
  let uf' := snd (UnionFind.find uf x) in
  UnionFind.parent uf' !! x = Some root ∧
  UnionFind.parent uf' !! root = Some root ∧
  fst (UnionFind.find uf' x) = root ∧
  fst (UnionFind.find uf' y) = fst (UnionFind.find uf y).
Proof.
  intros Hwf Hx Hy root uf'.
  pose proof (find_spec uf x Hwf Hx) as Hfx. cbv zeta in Hfx.
  pose proof (find_reaches uf x Hwf Hx) as [Hroot Hsame].
  fold root in Hfx, Hroot. fold uf' in Hfx, Hsame.
  destruct Hfx as (_ & Hlen & Hwf' & _ & _ & Hfix & _).
  assert (∀ z, z < length (UnionFind.parent uf) →
               fst (UnionFind.find uf' z) = fst (UnionFind.find uf z)) as Hkeep.
  { intros z Hz.
    pose proof (find_reaches uf z Hwf Hz) as [Hz1 _].
    pose proof (find_reaches uf' z Hwf' ltac:(lia)) as [Hz2 _].
    apply Hsame in Hz2. eapply reaches_unique; eauto. }
  split; [|split; [done|split; [by apply Hkeep|by apply Hkeep]]].
  apply findFrom_parent; [done|done|]. by apply above_bound.
Qed.

Lemma find_compresses_without_changing_sets_witness :
  let uf := UnionFind.union (UnionFind.union (UnionFind.create 4) 0 1) 2 0 in
  let root := fst (UnionFind.find uf 1) in
  let uf' := snd (UnionFind.find uf 1) in
  UnionFind.parent uf' !! 1 = Some root ∧
  UnionFind.parent uf' !! root = Some root ∧
  fst (UnionFind.find uf' 1) = root ∧
  fst (UnionFind.find uf' 2) = fst (UnionFind.find uf 2).
Proof.
  apply (find_compresses_without_changing_sets
           (UnionFind.union (UnionFind.union (UnionFind.create 4) 0 1) 2 0) 1 2).
  - apply union_wellFormed; [|simpl; lia..].
    apply union_wellFormed; [apply create_wellFormed|simpl; lia..].
  - vm_compute. lia.
  - vm_compute. lia.
Defined.

Lemma ideal_wire_unites_its_ends_witness :
  sameSet (NodeAnalyzer.uniteByWires
             (NodeAnalyzer.identifyPhysicalNodes twoWires) twoWires) 0 1 = true.
Proof.
  apply (ideal_wire_unites_its_ends
           (NodeAnalyzer.identifyPhysicalNodes twoWires) twoWires
           (plainWire "wire_1" Samples.pA Samples.pB 0)).
  - apply list_elem_of_here.
  - reflexivity.
  - vm_compute. reflexivity.
  - vm_compute. reflexivity.
Defined.

(** ** The coordinator: what a valid result went through *)

Section Pipeline.
Variable stringify : CircuitData.t → list Z.
Variable toFixed : float → nat → string.
Variable toExponential : float → nat → string.

Local Abbreviation analyzeCircuit :=
  (CircuitAnalyzer.analyzeCircuit stringify toFixed toExponential).

(** A call that misses the cache and returns a valid result passed
validation, node analysis, matrix construction and the solver, and its
payload and circuit are those of [processResults]. *)
Lemma analyzeCircuit_pipeline st circuit clk :
  let out := analyzeCircuit st circuit clk in
  let nodeAnalysis := NodeAnalyzer.analyzeNodes circuit in
  let method := CircuitAnalyzer.selectOptimalMethod nodeAnalysis in
  JS.map_get (CircuitAnalyzer.analysisCache st)
             (CircuitAnalyzer.generateCircuitHash stringify circuit) = None →
  AnalysisResult.isValid (resultOf out) = true →
  (∃ validation,
     CircuitAnalyzer.validateCircuit circuit = inr validation ∧
     CircuitAnalyzer.Validation.isValid validation = true) ∧
  NodeAnalysis.isValid nodeAnalysis = true ∧
  ∃ matrices,
    CircuitMatrixBuilder.buildSystemMatrices circuit nodeAnalysis method
      = CircuitMatrixBuilder.Built matrices ∧
    let solution :=
      EquationSolver.solve toExponential (CircuitAnalyzer.solveTime clk) matrices in
    let processed :=
      CircuitAnalyzer.processResults toFixed solution circuit nodeAnalysis method
        (CircuitAnalyzer.now clk) in
    EquationSolver.SolveResult.isValid solution = true ∧
    AnalysisResult.results (resultOf out) = AnalysisResult.results (fst processed) ∧
    circuitOf out = snd processed.
Proof.
  intros out nodeAnalysis method Hmiss. subst out.
  unfold CircuitAnalyzer.analyzeCircuit. rewrite Hmiss.
  fold nodeAnalysis. fold method.
  destruct (CircuitAnalyzer.validateCircuit circuit) as [thrown|validation];
    [done|].
  destruct (CircuitAnalyzer.Validation.isValid validation) eqn:Hv; [|done].
  destruct (NodeAnalysis.isValid nodeAnalysis) eqn:Hn; [|done].
  destruct (CircuitMatrixBuilder.buildSystemMatrices _ _ _) as [matrices|error];
    [|done].
  destruct (Matrices.isValid matrices); [|done].
  destruct (EquationSolver.SolveResult.isValid
              (EquationSolver.solve toExponential (CircuitAnalyzer.solveTime clk)
                 matrices)) eqn:Hsolved; [|done].
  cbn [negb]. intros _.
  split; [by exists validation|]. split; [done|].
  exists matrices. split; [done|]. cbv zeta. rewrite Hsolved. split; [done|].
  destruct (CircuitAnalyzer.processResults _ _ _ _ _ _) as [results circuit'].
  unfold resultOf, circuitOf.
  by destruct (negb (Nat.eqb (length (CircuitAnalyzer.validateResults toFixed results)) 0)).
Qed.

(** The three outcomes of a call: served from the cache; invalid, with no
payload and the state untouched; or computed, valid and stored. *)
Lemma analyzeCircuit_outcome st circuit clk :
  let out := analyzeCircuit st circuit clk in
  let circuitHash := CircuitAnalyzer.generateCircuitHash stringify circuit in
  (∃ cached,
     JS.map_get (CircuitAnalyzer.analysisCache st) circuitHash = Some cached ∧
     out = (AnalysisResult.markFromCache cached, st, circuit)) ∨
  (AnalysisResult.isValid (resultOf out) = false ∧
   AnalysisResult.results (resultOf out) = None ∧
   AnalysisResult.fromCache (resultOf out) = None ∧
   stateOf out = st) ∨
  (AnalysisResult.isValid (resultOf out) = true ∧
   AnalysisResult.fromCache (resultOf out) = None ∧
   stateOf out
     = CircuitAnalyzer.mkState
         (JS.map_set (CircuitAnalyzer.analysisCache st) circuitHash (resultOf out))
         (Some circuitHash) ∧
   ∃ solution nodeAnalysis method,
     AnalysisResult.results (resultOf out)
     = AnalysisResult.results
         (fst (CircuitAnalyzer.processResults toFixed solution circuit nodeAnalysis
                 method (CircuitAnalyzer.now clk)))).
Proof.
  intros out circuitHash. subst out.
  unfold CircuitAnalyzer.analyzeCircuit. fold circuitHash.
  destruct (JS.map_get (CircuitAnalyzer.analysisCache st) circuitHash)
    as [cached|] eqn:Hcache.
  { left. by exists cached. }
  right.
  destruct (CircuitAnalyzer.validateCircuit circuit) as [thrown|validation];
    [by left|].
  destruct (negb (CircuitAnalyzer.Validation.isValid validation)); [by left|].
  destruct (negb (NodeAnalysis.isValid (NodeAnalyzer.analyzeNodes circuit)));
    [by left|].
  destruct (CircuitMatrixBuilder.buildSystemMatrices _ _ _) as [matrices|error];
    [|by left].
  destruct (negb (Matrices.isValid matrices)); [by left|].
  destruct (EquationSolver.SolveResult.isValid
              (EquationSolver.solve toExponential (CircuitAnalyzer.solveTime clk)
                 matrices)) eqn:Hsolved; [|by left].
  right. cbn [negb].
  pose proof (processResults_valid toFixed
                (EquationSolver.solve toExponential (CircuitAnalyzer.solveTime clk)
                   matrices)
                circuit (NodeAnalyzer.analyzeNodes circuit)
                (CircuitAnalyzer.selectOptimalMethod (NodeAnalyzer.analyzeNodes circuit))
                (CircuitAnalyzer.now clk)) as Hvalid.
  assert (AnalysisResult.fromCache
            (fst (CircuitAnalyzer.processResults toFixed
                    (EquationSolver.solve toExponential (CircuitAnalyzer.solveTime clk)
                       matrices)
                    circuit (NodeAnalyzer.analyzeNodes circuit)
                    (CircuitAnalyzer.selectOptimalMethod
                       (NodeAnalyzer.analyzeNodes circuit))
                    (CircuitAnalyzer.now clk))) = None) as Hfresh.
  { unfold CircuitAnalyzer.processResults.
    destruct (CircuitAnalyzer.calculateTotalMetrics _ _ _ _) as [[[[? ?] ?] ?] ?].
    done. }
  match goal with
  | |- context [CircuitAnalyzer.processResults ?f ?s ?c ?n ?m ?t] =>
      assert (∃ solution nodeAnalysis method,
                AnalysisResult.results
                  (fst (CircuitAnalyzer.processResults f s c n m t))
                = AnalysisResult.results
                    (fst (CircuitAnalyzer.processResults toFixed solution circuit
                            nodeAnalysis method (CircuitAnalyzer.now clk)))) as Hsrc
        by (by exists s, n, m)
  end.
  destruct (CircuitAnalyzer.processResults _ _ _ _ _ _) as [results circuit'].
  cbn [fst] in Hvalid, Hfresh, Hsrc.
  unfold resultOf, stateOf, circuitOf.
  destruct (negb (Nat.eqb (length (CircuitAnalyzer.validateResults toFixed results)) 0));
    cbn [fst snd AnalysisResult.isValid AnalysisResult.fromCache
         AnalysisResult.results];
    (split; [done|]); (split; [done|]); (split; [done|]); done.
Qed.

End Pipeline.

(** ** The fingerprint cache *)

Lemma map_set_Forall {V} (Q : V → Prop) (m : JS.Map V) (k : string) (v : V) :
  Forall (λ entry, Q (snd entry)) m → Q v →
  Forall (λ entry, Q (snd entry)) (JS.map_set m k v).
Proof.
  intros Hm Hv. induction m as [|[k' v'] m IH]; cbn [JS.map_set].
  - by constructor.
  - apply Forall_cons in Hm as [Hhead Hm].
    destruct (String.eqb k' k); constructor; auto.
Qed.

Lemma map_get_Forall {V} (Q : V → Prop) (m : JS.Map V) (k : string) (v : V) :
  Forall (λ entry, Q (snd entry)) m → JS.map_get m k = Some v → Q v.
Proof.
  intros Hm Hget. apply map_get_entry in Hget as [k' Hin].
  rewrite Forall_forall in Hm. exact (Hm (k', v) Hin).
Qed.

Lemma map_set_size {V} (m : JS.Map V) (k : string) (v : V) :
  JS.map_size (JS.map_set m k v) ≤ S (JS.map_size m).
Proof.
  unfold JS.map_size. induction m as [|[k' v'] m IH]; cbn [JS.map_set]; [done|].
  destruct (String.eqb k' k); cbn [length]; lia.
Qed.

(** X4: the fingerprint covers only the type, value and id of each
component and the two component names and the resistance of each wire.
After a call that returned a valid result, a call on any circuit with the
same such data, whatever its positions, connection points, labels or other
parameters, is served from the cache: it returns the first circuit's
result marked [fromCache], and changes neither the cache nor the circuit it
was given. *)
Theorem same_data_is_served_from_cache (stringify : CircuitData.t → list Z)
    (toFixed toExponential : float → nat → string)
    (st : CircuitAnalyzer.state) (circuit other : Circuit.t)
    (clk1 clk2 : CircuitAnalyzer.clock) :
  let first := CircuitAnalyzer.analyzeCircuit stringify toFixed toExponential
                 st circuit clk1 in
  AnalysisResult.isValid (resultOf first) = true →
  CircuitAnalyzer.circuitData other = CircuitAnalyzer.circuitData circuit →
  CircuitAnalyzer.analyzeCircuit stringify toFixed toExponential
    (stateOf first) other clk2
  = (AnalysisResult.markFromCache (resultOf first), stateOf first, other).
Proof.
  intros first Hvalid Hdata.
  assert (CircuitAnalyzer.generateCircuitHash stringify other
          = CircuitAnalyzer.generateCircuitHash stringify circuit) as Hhash.
  { unfold CircuitAnalyzer.generateCircuitHash. by rewrite Hdata. }
  destruct (analyzeCircuit_outcome stringify toFixed toExponential st circuit clk1)
    as [(cached & Hcache & Hout) |
        [(Hinvalid & _) | (_ & _ & Hstate & _)]].
  - subst first. rewrite Hout. unfold resultOf, stateOf, circuitOf. cbn [fst snd].
    unfold CircuitAnalyzer.analyzeCircuit. by rewrite Hhash, Hcache.
  - subst first. congruence.
  - fold first in Hstate.
    unfold CircuitAnalyzer.analyzeCircuit at 1.
    rewrite Hhash, Hstate. cbn [CircuitAnalyzer.analysisCache].
    rewrite map_get_set, String.eqb_refl. by rewrite <- Hstate.
Qed.

Lemma same_data_is_served_from_cache_witness :
  let first := Samples.analyze CircuitAnalyzer.initial
                 (Samples.sourceAndResistor 1000) Samples.clock1 in
  let second := Samples.analyze (stateOf first) scattered Samples.clock2 in
  AnalysisResult.isValid (resultOf first) = true ∧
  NodeAnalysis.isValid (NodeAnalyzer.analyzeNodes scattered) = false ∧
  second = (AnalysisResult.markFromCache (resultOf first), stateOf first, scattered).
Proof.
  split; [vm_compute; reflexivity|]. split; [vm_compute; reflexivity|].
  apply (same_data_is_served_from_cache Samples.stringify Samples.toFixed
           Samples.toExponential CircuitAnalyzer.initial
           (Samples.sourceAndResistor 1000) scattered Samples.clock1 Samples.clock2).
  - vm_compute. reflexivity.
  - reflexivity.
Defined.

(** X5: in every run of an analyzer that starts with a new one, the
cache holds valid results only, each with its payload; so every result
marked [fromCache] is valid and carries a payload.  The cache has at most
one entry per call made, and every call returns a result. *)
Theorem cache_holds_valid_results_only (stringify : CircuitData.t → list Z)
    (toFixed toExponential : float → nat → string) (ops : list operation) :
  let out := run stringify toFixed toExponential CircuitAnalyzer.initial ops in
  Forall (λ result,
            AnalysisResult.fromCache result = Some true →
            AnalysisResult.isValid result = true ∧
            is_Some (AnalysisResult.results result))
         (fst out) ∧
  Forall (λ entry,
            AnalysisResult.isValid (snd entry) = true ∧
            is_Some (AnalysisResult.results (snd entry)))
         (CircuitAnalyzer.analysisCache (snd out)) ∧
  CircuitAnalyzer.cacheSize (snd out) ≤ callCount ops ∧
  length (fst out) = callCount ops.
Proof.
  cbv zeta.
  set (good := λ result : AnalysisResult.t,
         AnalysisResult.isValid result = true ∧
         is_Some (AnalysisResult.results result)).
  assert (∀ st,
            Forall (λ entry, good (snd entry)) (CircuitAnalyzer.analysisCache st) →
            Forall (λ result, AnalysisResult.fromCache result = Some true → good result)
                   (fst (run stringify toFixed toExponential st ops)) ∧
            Forall (λ entry, good (snd entry))
                   (CircuitAnalyzer.analysisCache
                      (snd (run stringify toFixed toExponential st ops))) ∧
            CircuitAnalyzer.cacheSize (snd (run stringify toFixed toExponential st ops))
              ≤ CircuitAnalyzer.cacheSize st + callCount ops ∧
            length (fst (run stringify toFixed toExponential st ops)) = callCount ops)
    as Hrun.
  { induction ops as [|[circuit clk|] ops IH]; intros st Hcache.
    - cbn. split; [done|]. split; [done|]. split; [lia|done].
    - cbn [run fst snd]. unfold callCount. rewrite filter_cons_True by done.
      cbn [length]. fold (callCount ops).
      destruct (analyzeCircuit_outcome stringify toFixed toExponential st circuit clk)
        as [(cached & Hhit & Hout) |
            [(Hinvalid & Hnone & Hfresh & Hstate) |
             (Hvalid & Hfresh & Hstate & solution & nodeAnalysis & method & Hres)]].
      + rewrite Hout. unfold resultOf, stateOf. cbn [fst snd].
        destruct (IH st Hcache) as (Hresults & Hcache' & Hsize & Hlen).
        split; [|split; [done|split; [lia|by rewrite Hlen]]].
        constructor; [|done]. intros _.
        exact (map_get_Forall good _ _ _ Hcache Hhit).
      + rewrite Hstate.
        destruct (IH st Hcache) as (Hresults & Hcache' & Hsize & Hlen).
        split; [|split; [done|split; [lia|by rewrite Hlen]]].
        constructor; [|done]. congruence.
      + assert (good (resultOf (CircuitAnalyzer.analyzeCircuit stringify toFixed
                                  toExponential st circuit clk))) as Hgood.
        { split; [done|]. rewrite Hres.
          unfold CircuitAnalyzer.processResults.
          destruct (CircuitAnalyzer.calculateTotalMetrics _ _ _ _) as [[[[? ?] ?] ?] ?].
          by eexists. }
        rewrite Hstate.
        destruct (IH (CircuitAnalyzer.mkState
                        (JS.map_set (CircuitAnalyzer.analysisCache st)
                           (CircuitAnalyzer.generateCircuitHash stringify circuit)
                           (resultOf (CircuitAnalyzer.analyzeCircuit stringify toFixed
                                        toExponential st circuit clk)))
                        (Some (CircuitAnalyzer.generateCircuitHash stringify circuit))))
          as (Hresults & Hcache' & Hsize & Hlen).
        { cbn [CircuitAnalyzer.analysisCache]. by apply map_set_Forall. }
        split; [|split; [done|split; [|by rewrite Hlen]]].
        * constructor; [|done]. congruence.
        * unfold CircuitAnalyzer.cacheSize in *.
          cbn [CircuitAnalyzer.analysisCache] in Hsize.
          pose proof (map_set_size (CircuitAnalyzer.analysisCache st)
                        (CircuitAnalyzer.generateCircuitHash stringify circuit)
                        (resultOf (CircuitAnalyzer.analyzeCircuit stringify toFixed
                                     toExponential st circuit clk))).
          lia.
    - cbn [run]. unfold callCount. rewrite filter_cons_False by done.
      fold (callCount ops).
      destruct (IH (CircuitAnalyzer.clearCache st)) as (Hresults & Hcache' & Hsize & Hlen).
      { constructor. }
      split; [done|]. split; [done|]. split; [|done].
      unfold CircuitAnalyzer.cacheSize in *. cbn in Hsize. lia. }
  destruct (Hrun CircuitAnalyzer.initial) as (H1 & H2 & H3 & H4); [constructor|].
  split; [done|]. split; [done|]. split; [|done].
  unfold CircuitAnalyzer.cacheSize in *. cbn in H3. lia.
Qed.

(** ** Currents reported by the coordinator *)






(** Not vacuous: the analysis of the sample reports a payload. *)
Lemma sample_payload :
  ∃ payload,
    AnalysisResult.results
      (resultOf (Samples.analyze CircuitAnalyzer.initial
                   (Samples.sourceAndResistor 1000) Samples.clock1)) = Some payload ∧
    AnalysisResult.sourceVoltage payload = 12%float ∧
    reportedCurrents payload = [0; 0; 0; 0; 0]%float.
Proof. eexists. split; [vm_compute; reflexivity|]. split; vm_compute; reflexivity. Qed.

(** ** What validation rejects *)

Lemma validateCircuit_invalid (circuit : Circuit.t)
    (validation : CircuitAnalyzer.Validation.t) :
  CircuitAnalyzer.validateCircuit circuit = inr validation →
  Circuit.components circuit = [] ∨
  (CircuitAnalyzer.countComponents "voltage" circuit = 0 ∧
   CircuitAnalyzer.countComponents "current" circuit = 0) ∨
  (∃ bad, bad ∈ Circuit.components circuit ∧
          fst (fst (CircuitAnalyzer.validateComponent bad)) = false) ∨
  NodeAnalyzer.checkBasicConnectivity circuit = inr false →
  CircuitAnalyzer.Validation.isValid validation = false.
Proof.
  intros Hv Hcase. unfold CircuitAnalyzer.validateCircuit in Hv.
  cbv zeta in Hv.
  match type of Hv with
  | context [fold_left ?f ?l (?e, ?w)] =>
      pose proof (validation_errors_grow l e w) as Hgrow;
      destruct (fold_left f l (e, w)) as [errors3 warnings2]
  end.
  cbn [fst] in Hgrow.
  destruct (NodeAnalyzer.checkBasicConnectivity circuit) as [|isConnected] eqn:Hc;
    [done|].
  injection Hv as <-. cbn [CircuitAnalyzer.Validation.isValid].
  assert (∀ l : list string, l ≠ [] → Nat.eqb (length l) 0 = false) as Hne.
  { intros [|? ?]; done. }
  destruct Hcase as [Hempty|[[Hnov Hnoc]|[(bad & Hin & Hbad)|Hdisc]]].
  - apply Hne. destruct (negb isConnected); [by destruct errors3|].
    apply (Hgrow (Component.mk "" "" 0 "" [] 0 0 0 None None None false None
                    None None None None None None None)).
    left. rewrite Hempty. cbn. by destruct (_ && _).
  - apply Hne. destruct (negb isConnected); [by destruct errors3|].
    apply (Hgrow (Component.mk "" "" 0 "" [] 0 0 0 None None None false None
                    None None None None None None None)).
    left. rewrite Hnov, Hnoc. cbn [Nat.eqb andb].
    by destruct (if Nat.eqb _ 0 then _ else _).
  - apply Hne. destruct (negb isConnected); [by destruct errors3|].
    apply (Hgrow bad). by right.
  - injection Hdisc as ->. cbn [negb]. apply Hne. by destruct errors3.
Qed.

Section Rejected.
Variable stringify : CircuitData.t → list Z.
Variable toFixed : float → nat → string.
Variable toExponential : float → nat → string.

Lemma analyzeCircuit_rejected st circuit clk :
  JS.map_get (CircuitAnalyzer.analysisCache st)
             (CircuitAnalyzer.generateCircuitHash stringify circuit) = None →
  (∀ validation,
     CircuitAnalyzer.validateCircuit circuit = inr validation →
     CircuitAnalyzer.Validation.isValid validation = false) →
  AnalysisResult.isValid
    (resultOf (CircuitAnalyzer.analyzeCircuit stringify toFixed toExponential
                 st circuit clk)) = false.
Proof.
  intros Hmiss Hreject.
  destruct (AnalysisResult.isValid _) eqn:Hvalid; [|done].
  destruct (analyzeCircuit_pipeline stringify toFixed toExponential st circuit clk
              Hmiss Hvalid) as [(validation & Hv & Hok) _].
  specialize (Hreject validation Hv). congruence.
Qed.
End Rejected.

Lemma validateComponent_bad_value (component : Component.t) :
  JS.isNaN (Component.value component) = true ∨
  ((Component.type component = "capacitor" ∨ Component.type component = "inductor") ∧
   JS.le (Component.value component) 0 = true) →
  fst (fst (CircuitAnalyzer.validateComponent component)) = false.
Proof.
  assert (∀ (l : list string) x, Nat.eqb (length (l ++ [x])) 0 = false) as Hsnoc.
  { intros l x. rewrite length_app. cbn [length]. by rewrite Nat.add_1_r. }
  intros [Hnan|[[Htype|Htype] Hle]]; unfold CircuitAnalyzer.validateComponent.
  - rewrite Hnan. cbv zeta.
    repeat match goal with
           | |- context [String.eqb ?a ?b] => destruct (String.eqb a b)
           | |- context [JS.le ?a ?b] => destruct (JS.le a b)
           end; done.
  - rewrite Htype, Hle. cbn [String.eqb Ascii.eqb Bool.eqb fst]. apply Hsnoc.
  - rewrite Htype, Hle. cbn [String.eqb Ascii.eqb Bool.eqb fst]. apply Hsnoc.
Qed.

(** X7: a circuit without components, without wires or without a
voltage or current source is never analysed: a call that is not served from
the cache returns an invalid result.  Without components or without wires
[checkBasicConnectivity] answers "not connected" before it looks at anything
else, so validation completes and its error text is the result's. *)
Theorem circuit_without_components_sources_or_wires_is_rejected
    (stringify : CircuitData.t → list Z)
    (toFixed toExponential : float → nat → string)
    (st : CircuitAnalyzer.state) (circuit : Circuit.t) (clk : CircuitAnalyzer.clock) :
  JS.map_get (CircuitAnalyzer.analysisCache st)
             (CircuitAnalyzer.generateCircuitHash stringify circuit) = None →
  Circuit.components circuit = [] ∨
  Circuit.wires circuit = [] ∨
  (CircuitAnalyzer.countComponents "voltage" circuit = 0 ∧
   CircuitAnalyzer.countComponents "current" circuit = 0) →
  AnalysisResult.isValid
    (resultOf (CircuitAnalyzer.analyzeCircuit stringify toFixed toExponential
                 st circuit clk)) = false ∧
  ((Circuit.components circuit = [] ∨ Circuit.wires circuit = []) →
   ∃ validation,
     CircuitAnalyzer.validateCircuit circuit = inr validation ∧
     CircuitAnalyzer.Validation.isValid validation = false ∧
     AnalysisResult.error
       (resultOf (CircuitAnalyzer.analyzeCircuit stringify toFixed toExponential
                    st circuit clk))
     = Some (CircuitAnalyzer.Validation.error validation)).
Proof.
  intros Hmiss Hcase.
  assert ((Circuit.components circuit = [] ∨ Circuit.wires circuit = []) →
          NodeAnalyzer.checkBasicConnectivity circuit = inr false) as Hconn.
  { unfold NodeAnalyzer.checkBasicConnectivity.
    intros [->| ->]; [done|]. by destruct (Circuit.components circuit). }
  split.
  - apply analyzeCircuit_rejected; [done|]. intros validation Hv.
    apply (validateCircuit_invalid circuit validation Hv).
    destruct Hcase as [Hc|[Hw|Hs]]; [by left| |by right; left].
    right. right. right. apply Hconn. by right.
  - intros Hshape. specialize (Hconn Hshape).
    destruct (CircuitAnalyzer.validateCircuit circuit) as [thrown|validation] eqn:Hv.
    { unfold CircuitAnalyzer.validateCircuit in Hv. cbv zeta in Hv.
      destruct (fold_left _ _ _) as [e w]. by rewrite Hconn in Hv. }
    exists validation. split; [done|].
    assert (CircuitAnalyzer.Validation.isValid validation = false) as Hbad.
    { apply (validateCircuit_invalid circuit validation Hv). by repeat right. }
    split; [done|].
    unfold CircuitAnalyzer.analyzeCircuit. rewrite Hmiss, Hv, Hbad. done.
Qed.

Lemma circuit_without_components_sources_or_wires_is_rejected_witness :
  let lone := Circuit.mk [Samples.component "voltage_1" "voltage" 12
                            [Samples.pA; Samples.pB]] [] in
  AnalysisResult.isValid (resultOf (Samples.analyze CircuitAnalyzer.initial lone
                                      Samples.clock1)) = false ∧
  AnalysisResult.error (resultOf (Samples.analyze CircuitAnalyzer.initial lone
                                    Samples.clock1))
  = Some "Circuito contiene componentes desconectados".
Proof.
  pose proof (circuit_without_components_sources_or_wires_is_rejected
                Samples.stringify Samples.toFixed Samples.toExponential
                CircuitAnalyzer.initial
                (Circuit.mk [Samples.component "voltage_1" "voltage" 12
                               [Samples.pA; Samples.pB]] [])
                Samples.clock1 eq_refl (or_intror (or_introl eq_refl))) as [Hinvalid _].
  split; [exact Hinvalid|]. vm_compute. reflexivity.
Defined.

(** X8: a component whose value is NaN, whatever its type, and a
capacitor or inductor whose value is zero or negative, are fatal: validation
of a circuit that contains one never succeeds, and a call that is not served
from the cache returns an invalid result. *)
Theorem unusable_component_value_is_fatal (stringify : CircuitData.t → list Z)
    (toFixed toExponential : float → nat → string)
    (st : CircuitAnalyzer.state) (circuit : Circuit.t) (clk : CircuitAnalyzer.clock)
    (bad : Component.t) :
  bad ∈ Circuit.components circuit →
  JS.isNaN (Component.value bad) = true ∨
  ((Component.type bad = "capacitor" ∨ Component.type bad = "inductor") ∧
   JS.le (Component.value bad) 0 = true) →
  JS.map_get (CircuitAnalyzer.analysisCache st)
             (CircuitAnalyzer.generateCircuitHash stringify circuit) = None →
  (∀ validation,
     CircuitAnalyzer.validateCircuit circuit = inr validation →
     CircuitAnalyzer.Validation.isValid validation = false) ∧
  AnalysisResult.isValid
    (resultOf (CircuitAnalyzer.analyzeCircuit stringify toFixed toExponential
                 st circuit clk)) = false.
Proof.
  intros Hin Hbad Hmiss.
  assert (∀ validation,
            CircuitAnalyzer.validateCircuit circuit = inr validation →
            CircuitAnalyzer.Validation.isValid validation = false) as Hreject.
  { intros validation Hv. apply (validateCircuit_invalid circuit validation Hv).
    right. right. left. exists bad. split; [done|].
    by apply validateComponent_bad_value. }
  split; [done|]. by apply analyzeCircuit_rejected.
Qed.

Lemma unusable_component_value_is_fatal_witness :
  let circuit :=
    Circuit.mk
      [ Samples.component "voltage_1" "voltage" 12 [Samples.pA; Samples.pB];
        Samples.component "capacitor_1" "capacitor" 0 [Samples.pB; Samples.pA];
        Samples.component "ground_1" "ground" 0 [Samples.pA] ]
      [ Samples.joint "wire_1" Samples.pB "voltage_1" "capacitor_1";
        Samples.joint "wire_2" Samples.pA "capacitor_1" "ground_1" ] in
  AnalysisResult.isValid (resultOf (Samples.analyze CircuitAnalyzer.initial circuit
                                      Samples.clock1)) = false ∧
  AnalysisResult.error (resultOf (Samples.analyze CircuitAnalyzer.initial circuit
                                    Samples.clock1))
  = Some "capacitor_1: La capacitancia debe ser mayor que cero".
Proof.
  split; [|vm_compute; reflexivity].
  apply (unusable_component_value_is_fatal Samples.stringify Samples.toFixed
           Samples.toExponential CircuitAnalyzer.initial _ Samples.clock1
           (Samples.component "capacitor_1" "capacitor" 0 [Samples.pB; Samples.pA])).
  - apply list_elem_of_further, list_elem_of_here.
  - right. split; [by left|reflexivity].
  - reflexivity.
Defined.

(** ** Wires that name unknown components *)

Lemma map_set_keys {V} (m : JS.Map V) (k k' : string) (v : V) :
  is_Some (JS.map_get (JS.map_set m k v) k') ↔ k = k' ∨ is_Some (JS.map_get m k').
Proof.
  rewrite map_get_set. destruct (String.eqb k k') eqn:Heq.
  - apply String.eqb_eq in Heq. split; [by left|by eexists].
  - apply String.eqb_neq in Heq. split; [by right|by intros [?|?]].
Qed.

Lemma emptyGraph_keys (components : list Component.t) (g : JS.Map (list string))
    (k : string) :
  is_Some (JS.map_get (fold_left (λ g comp, JS.map_set g (Component.id comp) [])
                                 components g) k)
  ↔ k ∈ Component.id <$> components ∨ is_Some (JS.map_get g k).
Proof.
  revert g. induction components as [|c components IH]; intros g; cbn [fold_left].
  - rewrite fmap_nil, elem_of_nil. tauto.
  - rewrite IH, map_set_keys, fmap_cons, elem_of_cons. intuition.
Qed.

Lemma addEdge_keys (acc : string + JS.Map (list string)) (a b : string)
    (g : JS.Map (list string)) :
  NodeAnalyzer.addEdge acc a b = inr g →
  ∃ g0, acc = inr g0 ∧ is_Some (JS.map_get g0 a) ∧
        ∀ k, is_Some (JS.map_get g k) ↔ is_Some (JS.map_get g0 k).
Proof.
  destruct acc as [thrown|g0]; [done|]. cbn [NodeAnalyzer.addEdge].
  destruct (JS.map_get g0 a) as [neighbors|] eqn:Hget; [|done].
  intros [= <-]. exists g0. split; [done|]. split; [by rewrite Hget|].
  intros k. rewrite map_set_keys. split; [|tauto].
  intros [<-|?]; [by rewrite Hget|done].
Qed.

Lemma addEdge_throws (acc : string + JS.Map (list string)) (a b thrown : string) :
  NodeAnalyzer.addEdge acc a b = inl thrown →
  acc = inl thrown ∨ thrown = JS.undefinedRead "add".
Proof.
  destruct acc as [t|g0]; cbn [NodeAnalyzer.addEdge]; [intros [= ->]; by left|].
  destruct (JS.map_get g0 a); [done|]. intros [= <-]. by right.
Qed.

(** The wire loop of [checkBasicConnectivity] from a graph [acc]. *)
Lemma wireLoop_keys (wires : list Wire.t) (acc : string + JS.Map (list string))
    (g : JS.Map (list string)) :
  fold_left (λ g wire,
               match NodeAnalyzer.namedEnd (Wire.startComponent wire),
                     NodeAnalyzer.namedEnd (Wire.endComponent wire) with
               | Some a, Some b => NodeAnalyzer.addEdge (NodeAnalyzer.addEdge g a b) b a
               | _, _ => g
               end) wires acc = inr g →
  ∃ g0, acc = inr g0 ∧
        (∀ k, is_Some (JS.map_get g k) ↔ is_Some (JS.map_get g0 k)) ∧
        ∀ wire a b, wire ∈ wires →
                    NodeAnalyzer.namedEnd (Wire.startComponent wire) = Some a →
                    NodeAnalyzer.namedEnd (Wire.endComponent wire) = Some b →
                    is_Some (JS.map_get g0 a) ∧ is_Some (JS.map_get g0 b).
Proof.
  revert acc. induction wires as [|wire wires IH]; intros acc; cbn [fold_left].
  - intros ->. exists g. split; [done|]. split; [done|].
    intros wire a b Hin. by apply elem_of_nil in Hin.
  - intros Hfold. apply IH in Hfold as (g1 & Hstep & Hkeys & Hnamed).
    destruct (NodeAnalyzer.namedEnd (Wire.startComponent wire)) as [a|] eqn:Ha;
      [destruct (NodeAnalyzer.namedEnd (Wire.endComponent wire)) as [b|] eqn:Hb|].
    + apply addEdge_keys in Hstep as (g2 & Hstep & Hb2 & Hkeys2).
      apply addEdge_keys in Hstep as (g0 & -> & Ha0 & Hkeys0).
      exists g0. split; [done|]. split.
      { intros k. by rewrite Hkeys, Hkeys2, Hkeys0. }
      intros w a' b' Hin Ha' Hb'. apply elem_of_cons in Hin as [->|Hin].
      * rewrite Ha in Ha'. rewrite Hb in Hb'. injection Ha' as <-. injection Hb' as <-.
        split; [done|]. by apply Hkeys0.
      * destruct (Hnamed w a' b' Hin Ha' Hb') as [H1 H2].
        split; by apply Hkeys0, Hkeys2.
    + exists g1. split; [done|]. split; [done|].
      intros w a' b' Hin Ha' Hb'. apply elem_of_cons in Hin as [->|Hin]; [congruence|].
      by apply (Hnamed w).
    + exists g1. split; [done|]. split; [done|].
      intros w a' b' Hin Ha' Hb'. apply elem_of_cons in Hin as [->|Hin]; [congruence|].
      by apply (Hnamed w).
Qed.

Lemma wireLoop_throws (wires : list Wire.t) (acc : string + JS.Map (list string))
    (thrown : string) :
  fold_left (λ g wire,
               match NodeAnalyzer.namedEnd (Wire.startComponent wire),
                     NodeAnalyzer.namedEnd (Wire.endComponent wire) with
               | Some a, Some b => NodeAnalyzer.addEdge (NodeAnalyzer.addEdge g a b) b a
               | _, _ => g
               end) wires acc = inl thrown →
  acc = inl thrown ∨ thrown = JS.undefinedRead "add".
Proof.
  revert acc. induction wires as [|wire wires IH]; intros acc; cbn [fold_left].
  - intros ->. by left.
  - intros Hfold. apply IH in Hfold as [Hstep|?]; [|by right].
    destruct (NodeAnalyzer.namedEnd (Wire.startComponent wire)) as [a|];
      [destruct (NodeAnalyzer.namedEnd (Wire.endComponent wire)) as [b|]|];
      [|by left|by left].
    apply addEdge_throws in Hstep as [Hstep|?]; [|by right].
    apply addEdge_throws in Hstep as [Hstep|?]; [by left|by right].
Qed.

(** A successful graph has the identifiers of the components as its keys,
and every wire with two named ends names two of them. *)
Lemma componentGraph_keys (circuit : Circuit.t) (g : JS.Map (list string)) :
  NodeAnalyzer.componentGraph circuit = inr g →
  (∀ k, is_Some (JS.map_get g k) ↔ k ∈ Component.id <$> Circuit.components circuit) ∧
  ∀ wire a b, wire ∈ Circuit.wires circuit →
              NodeAnalyzer.namedEnd (Wire.startComponent wire) = Some a →
              NodeAnalyzer.namedEnd (Wire.endComponent wire) = Some b →
              a ∈ Component.id <$> Circuit.components circuit ∧
              b ∈ Component.id <$> Circuit.components circuit.
Proof.
  unfold NodeAnalyzer.componentGraph. cbv zeta. intros Hgraph.
  apply wireLoop_keys in Hgraph as (g0 & [= <-] & Hkeys & Hnamed).
  assert (∀ k, is_Some (JS.map_get
                          (fold_left (λ (g : JS.Map (list string)) comp,
                                        JS.map_set g (Component.id comp) [])
                             (Circuit.components circuit) []) k)
               ↔ k ∈ Component.id <$> Circuit.components circuit) as Hempty.
  { intros k. rewrite emptyGraph_keys. cbn [JS.map_get].
    split; [intros [?|[? ?]]; done|by left]. }
  split.
  - intros k. by rewrite Hkeys, Hempty.
  - intros wire a b Hin Ha Hb. destruct (Hnamed wire a b Hin Ha Hb) as [H1 H2].
    split; by apply Hempty.
Qed.

(** X9: when a wire with two named ends names a component that
is not in the (non-empty) circuit, [componentGraph.get(...)] is [undefined]
and the call of [add] on it throws inside [checkBasicConnectivity];
[validateCircuit] does not catch it, so [analyzeCircuit] answers, when not
served from the cache, with an invalid result whose error is "Error interno
del analizador: " followed by the message of that [TypeError], and without
the warnings validation had collected. *)
Theorem wire_naming_unknown_component_aborts (stringify : CircuitData.t → list Z)
    (toFixed toExponential : float → nat → string)
    (st : CircuitAnalyzer.state) (circuit : Circuit.t) (clk : CircuitAnalyzer.clock)
    (wire : Wire.t) (a b : string) :
  Circuit.components circuit ≠ [] →
  wire ∈ Circuit.wires circuit →
  NodeAnalyzer.namedEnd (Wire.startComponent wire) = Some a →
  NodeAnalyzer.namedEnd (Wire.endComponent wire) = Some b →
  a ∉ Component.id <$> Circuit.components circuit ∨
  b ∉ Component.id <$> Circuit.components circuit →
  JS.map_get (CircuitAnalyzer.analysisCache st)
             (CircuitAnalyzer.generateCircuitHash stringify circuit) = None →
  let out := CircuitAnalyzer.analyzeCircuit stringify toFixed toExponential
               st circuit clk in
  NodeAnalyzer.checkBasicConnectivity circuit = inl (JS.undefinedRead "add") ∧
  AnalysisResult.isValid (resultOf out) = false ∧
  AnalysisResult.error (resultOf out)
  = Some ("Error interno del analizador: " +:+ JS.undefinedRead "add") ∧
  AnalysisResult.warnings (resultOf out) = None.
Proof.
  intros Hcomponents Hin Ha Hb Hunknown Hmiss out.
  assert (NodeAnalyzer.componentGraph circuit = inl (JS.undefinedRead "add")) as Hgraph.
  { destruct (NodeAnalyzer.componentGraph circuit) as [thrown|g] eqn:Hg.
    - unfold NodeAnalyzer.componentGraph in Hg. cbv zeta in Hg.
      apply wireLoop_throws in Hg as [?| ->]; done.
    - apply componentGraph_keys in Hg as [_ Hnamed].
      destruct (Hnamed wire a b Hin Ha Hb) as [H1 H2]. by destruct Hunknown. }
  assert (NodeAnalyzer.checkBasicConnectivity circuit = inl (JS.undefinedRead "add"))
    as Hconn.
  { unfold NodeAnalyzer.checkBasicConnectivity. rewrite Hgraph.
    destruct (Circuit.components circuit); [done|].
    destruct (Circuit.wires circuit); [by apply elem_of_nil in Hin|done]. }
  split; [done|].
  assert (CircuitAnalyzer.validateCircuit circuit = inl (JS.undefinedRead "add")) as Hv.
  { unfold CircuitAnalyzer.validateCircuit. cbv zeta.
    destruct (fold_left _ _ _) as [e w]. by rewrite Hconn. }
  subst out. unfold CircuitAnalyzer.analyzeCircuit. rewrite Hmiss, Hv. done.
Qed.

Lemma wire_naming_unknown_component_aborts_witness :
  let circuit :=
    Circuit.mk
      [ Samples.component "voltage_1" "voltage" 12 [Samples.pA; Samples.pB];
        Samples.component "resistor_1" "resistor" 1000 [Samples.pB; Samples.pA] ]
      [ Samples.joint "wire_1" Samples.pB "voltage_1" "resistor_2" ] in
  let out := Samples.analyze CircuitAnalyzer.initial circuit Samples.clock1 in
  NodeAnalyzer.checkBasicConnectivity circuit = inl (JS.undefinedRead "add") ∧
  AnalysisResult.isValid (resultOf out) = false ∧
  AnalysisResult.error (resultOf out)
  = Some ("Error interno del analizador: " +:+ JS.undefinedRead "add") ∧
  AnalysisResult.warnings (resultOf out) = None.
Proof.
  apply (wire_naming_unknown_component_aborts Samples.stringify Samples.toFixed
           Samples.toExponential CircuitAnalyzer.initial _ Samples.clock1
           (Samples.joint "wire_1" Samples.pB "voltage_1" "resistor_2")
           "voltage_1" "resistor_2").
  - done.
  - apply list_elem_of_here.
  - reflexivity.
  - reflexivity.
  - right. vm_compute. intros Hin. repeat (apply elem_of_cons in Hin as [[=]|Hin]).
    by apply elem_of_nil in Hin.
  - reflexivity.
Defined.

(** ** Circuits without a ground component *)

Lemma touchNode_no_ground (st : list ((float * float) * PhysicalNode.t) * nat)
    (point : Point.t) (type : string) (update : PhysicalNode.t → PhysicalNode.t) :
  (∀ node, PhysicalNode.isGround node = false →
           PhysicalNode.isGround (update node) = false) →
  Forall (λ kn, PhysicalNode.isGround (snd kn) = false) (fst st) →
  Forall (λ kn, PhysicalNode.isGround (snd kn) = false)
         (fst (NodeAnalyzer.touchNode st point type update)).
Proof.
  intros Hupdate Hst. destruct st as [physicalNodes nodeIdCounter].
  unfold NodeAnalyzer.touchNode. cbn [fst] in Hst.
  destruct (list_find _ physicalNodes) as [[index [k node]]|] eqn:Hfind; cbn [fst].
  - apply list_find_Some in Hfind as (Hlook & _).
    apply Forall_insert; [done|]. cbn [snd]. apply Hupdate.
    exact (Forall_lookup_1 _ _ _ _ Hst Hlook).
  - apply Forall_app. split; [done|]. constructor; [|done]. cbn [snd].
    by apply Hupdate.
Qed.

Lemma attachComponent_no_ground (component : Component.t) (terminalIndex : nat)
    (node : PhysicalNode.t) :
  String.eqb (Component.type component) "ground" = false →
  PhysicalNode.isGround node = false →
  PhysicalNode.isGround
    (NodeAnalyzer.attachComponent component terminalIndex node) = false.
Proof. intros Htype Hnode. unfold NodeAnalyzer.attachComponent. by rewrite Htype. Qed.

Lemma attachWire_no_ground (wireId : string) (node : PhysicalNode.t) :
  PhysicalNode.isGround node = false →
  PhysicalNode.isGround (NodeAnalyzer.attachWire wireId node) = false.
Proof. intros Hnode. unfold NodeAnalyzer.attachWire. by destruct (existsb _ _). Qed.

Lemma fold_left_invariant {S T} (P : S → Prop) (Q : T → Prop) (f : S → T → S)
    (l : list T) (s : S) :
  (∀ a x, P a → Q x → P (f a x)) → Forall Q l → P s → P (fold_left f l s).
Proof.
  intros Hstep Hl. revert s. induction Hl as [|x l Hx Hl IH]; intros s Hs; [done|].
  cbn [fold_left]. apply IH. by apply Hstep.
Qed.

Lemma Forall_true {T} (l : list T) : Forall (λ _, True) l.
Proof. by apply Forall_forall. Qed.

Lemma identifyPhysicalNodes_no_ground (circuit : Circuit.t) :
  Forall (λ c, String.eqb (Component.type c) "ground" = false)
         (Circuit.components circuit) →
  Forall (λ node, PhysicalNode.isGround node = false)
         (NodeAnalyzer.identifyPhysicalNodes circuit).
Proof.
  intros Hcomponents. unfold NodeAnalyzer.identifyPhysicalNodes. cbv zeta.
  apply Forall_fmap.
  set (P := λ st : list ((float * float) * PhysicalNode.t) * nat,
         Forall (λ kn, PhysicalNode.isGround (snd kn) = false) (fst st)).
  change (P (fold_left
               (λ st wire,
                  let st1 :=
                    fold_left (λ st' point,
                                 NodeAnalyzer.touchNode st' point "wire_terminal"
                                   (NodeAnalyzer.attachWire (Wire.id wire)))
                              [Wire.start wire; Wire.end_ wire] st in
                  fold_left (λ st' junction,
                               NodeAnalyzer.touchNode st' junction "wire_junction"
                                 (NodeAnalyzer.attachWire (Wire.id wire)))
                            (Wire.junctions wire) st1)
               (Circuit.wires circuit)
               (fold_left
                  (λ st component,
                     fold_left (λ st' '(terminalIndex, point),
                                  NodeAnalyzer.touchNode st' point "junction"
                                    (NodeAnalyzer.attachComponent component terminalIndex))
                               (imap (λ i p, (i, p)) (Component.connectionPoints component))
                               st)
                  (Circuit.components circuit) ([], 0)))).
  apply (fold_left_invariant P (λ _, True)); [|apply Forall_true|].
  - intros st wire Hst _. cbv zeta.
    apply (fold_left_invariant P (λ _, True)); [|apply Forall_true|].
    + intros st' junction Hst' _. apply touchNode_no_ground; [|done].
      apply attachWire_no_ground.
    + apply (fold_left_invariant P (λ _, True)); [|apply Forall_true|done].
      intros st' point Hst' _. apply touchNode_no_ground; [|done].
      apply attachWire_no_ground.
  - apply (fold_left_invariant P (λ c, String.eqb (Component.type c) "ground" = false));
      [|done|by constructor].
    intros st component Hst Htype.
    apply (fold_left_invariant P (λ _, True)); [|apply Forall_true|done].
    intros st' [terminalIndex point] Hst' _. apply touchNode_no_ground; [|done].
    intros node. by apply attachComponent_no_ground.
Qed.

Lemma existsb_Forall_false {T} (f : T → bool) (l : list T) :
  Forall (λ x, f x = false) l → existsb f l = false.
Proof. induction 1 as [|x l Hx _ IH]; [done|]. cbn. by rewrite Hx, IH. Qed.

Lemma Forall_imap_pair {T} (Q : T → Prop) (l : list T) :
  Forall Q l → Forall (λ p : nat * T, Q (snd p)) (imap (λ i x, (i, x)) l).
Proof.
  intros Hl. apply Forall_lookup_2. intros i [j x] Hlook.
  rewrite list_lookup_imap in Hlook. apply fmap_Some in Hlook as (y & Hy & [= -> ->]).
  exact (Forall_lookup_1 _ _ _ _ Hl Hy).
Qed.

Lemma addConnection_isGround (neighborId : string) (node : ElectricalNode.t) :
  ElectricalNode.isGround (NodeAnalyzer.addConnection neighborId node)
  = ElectricalNode.isGround node.
Proof. unfold NodeAnalyzer.addConnection. by destruct (existsb _ _). Qed.

Lemma connect_no_ground (nodes : list ElectricalNode.t) (n1 n2 : option nat) :
  Forall (λ node, ElectricalNode.isGround node = false) nodes →
  Forall (λ node, ElectricalNode.isGround node = false)
         (NodeAnalyzer.connect nodes n1 n2).
Proof.
  intros Hnodes. unfold NodeAnalyzer.connect.
  destruct n1 as [i1|]; [|done]. destruct n2 as [i2|]; [|done].
  destruct (Nat.eqb i1 i2); [done|].
  apply Forall_alter; [|intros x _; by rewrite addConnection_isGround].
  apply Forall_alter; [done|intros x _; by rewrite addConnection_isGround].
Qed.

Lemma establishNodeConnections_no_ground (nodes : list ElectricalNode.t)
    (circuit : Circuit.t) :
  Forall (λ node, ElectricalNode.isGround node = false) nodes →
  Forall (λ node, ElectricalNode.isGround node = false)
         (NodeAnalyzer.establishNodeConnections nodes circuit).
Proof.
  intros Hnodes. unfold NodeAnalyzer.establishNodeConnections. cbv zeta.
  apply (fold_left_invariant
           (Forall (λ node, ElectricalNode.isGround node = false)) (λ _, True));
    [|apply Forall_true|].
  - intros ns component Hns _.
    destruct (String.eqb (Component.type component) "ground"); [done|].
    destruct (Nat.leb 2 _); [|done]. by apply connect_no_ground.
  - apply (fold_left_invariant
             (Forall (λ node, ElectricalNode.isGround node = false)) (λ _, True));
      [|apply Forall_true|done].
    intros ns wire Hns _. by apply connect_no_ground.
Qed.

Lemma createElectricalNodes_no_ground (physicalNodes : list PhysicalNode.t)
    (circuit : Circuit.t) :
  Forall (λ node, PhysicalNode.isGround node = false) physicalNodes →
  Forall (λ node, ElectricalNode.isGround node = false)
         (NodeAnalyzer.createElectricalNodes physicalNodes circuit).
Proof.
  intros Hphysical. unfold NodeAnalyzer.createElectricalNodes. cbv zeta.
  apply establishNodeConnections_no_ground.
  set (groups := snd (fold_left _ _ _)).
  assert (Forall (λ g : nat * list PhysicalNode.t,
                    Forall (λ node, PhysicalNode.isGround node = false) (snd g))
                 groups) as Hgroups.
  { subst groups.
    apply (fold_left_invariant
             (λ st : UnionFind.t * list (nat * list PhysicalNode.t),
                Forall (λ g : nat * list PhysicalNode.t,
                          Forall (λ node, PhysicalNode.isGround node = false) (snd g))
                       (snd st))
             (λ p : nat * PhysicalNode.t, PhysicalNode.isGround (snd p) = false));
      [|by apply (Forall_imap_pair (λ node, PhysicalNode.isGround node = false))
       |by constructor].
    intros [uf gs] [index node] Hgs Hnode. cbn [snd] in *.
    destruct (UnionFind.find uf index) as [rootIndex uf'].
    destruct (list_find _ gs) as [[gi [r members]]|] eqn:Hfind; cbn [snd].
    - apply list_find_Some in Hfind as (Hlook & _).
      apply Forall_insert; [done|]. cbn [snd].
      apply Forall_app. split; [|by constructor].
      exact (Forall_lookup_1 _ _ _ _ Hgs Hlook).
    - apply Forall_app. split; [done|]. constructor; [|done]. by constructor. }
  apply Forall_lookup_2. intros i node Hlook.
  rewrite list_lookup_imap in Hlook.
  apply fmap_Some in Hlook as ([root group] & Hg & ->).
  cbn [ElectricalNode.isGround].
  apply existsb_Forall_false.
  exact (Forall_lookup_1 _ _ _ _ Hgroups Hg).
Qed.

Lemma validateNodeStructure_no_ground (nodes : list ElectricalNode.t)
    (branches : list Branch.t) :
  Forall (λ node, ElectricalNode.isGround node = false) nodes →
  fst (NodeAnalyzer.validateNodeStructure nodes branches) = false.
Proof.
  intros Hnodes. unfold NodeAnalyzer.validateNodeStructure. cbv zeta. cbn [fst].
  assert (filter (λ node, ElectricalNode.isGround node = true) nodes = []) as ->.
  { induction Hnodes as [|node nodes Hnode _ IH]; [done|].
    rewrite filter_cons_False by congruence. done. }
  cbn [length Nat.eqb].
  match goal with
  | |- Nat.eqb (length (fold_left ?f branches ?e)) 0 = false =>
      assert (∀ l errs, errs ≠ [] → fold_left f l errs ≠ []) as Hgrow;
      [|specialize (Hgrow branches e);
        destruct (fold_left f branches e); [|done]]
  end.
  { induction l as [|b l IH]; intros errs Herrs; [done|].
    cbn [fold_left]. apply IH. destruct (_ || _); [by destruct errs|done]. }
  exfalso. apply Hgrow; [|done].
  destruct (negb (NodeAnalyzer.isGraphConnected nodes));
    destruct (Nat.ltb 0 _); cbn; done.
Qed.

(** X10: validation only warns about a circuit without a ground
component ("se asignará automáticamente"), and nothing assigns one: no
physical node and no electrical node of such a circuit is a ground node, so
[validateNodeStructure] reports an error and [analyzeCircuit], when not
served from the cache, returns an invalid result. *)
Theorem circuit_without_ground_is_not_analysed (stringify : CircuitData.t → list Z)
    (toFixed toExponential : float → nat → string)
    (st : CircuitAnalyzer.state) (circuit : Circuit.t) (clk : CircuitAnalyzer.clock) :
  (∀ component, component ∈ Circuit.components circuit →
                Component.type component ≠ "ground") →
  NodeAnalysis.isValid (NodeAnalyzer.analyzeNodes circuit) = false ∧
  (JS.map_get (CircuitAnalyzer.analysisCache st)
              (CircuitAnalyzer.generateCircuitHash stringify circuit) = None →
   AnalysisResult.isValid
     (resultOf (CircuitAnalyzer.analyzeCircuit stringify toFixed toExponential
                  st circuit clk)) = false).
Proof.
  intros Hnoground.
  assert (NodeAnalysis.isValid (NodeAnalyzer.analyzeNodes circuit) = false) as Hnodes.
  { unfold NodeAnalyzer.analyzeNodes, NodeAnalyzer.analyzeNodesOf. cbv zeta.
    cbn [NodeAnalysis.isValid].
    apply validateNodeStructure_no_ground, createElectricalNodes_no_ground,
      identifyPhysicalNodes_no_ground.
    apply Forall_forall. intros c Hc. apply String.eqb_neq. by apply Hnoground. }
  split; [done|]. intros Hmiss.
  destruct (AnalysisResult.isValid _) eqn:Hvalid; [|done].
  destruct (analyzeCircuit_pipeline stringify toFixed toExponential st circuit clk
              Hmiss Hvalid) as (_ & Hok & _).
  congruence.
Qed.

Lemma circuit_without_ground_is_not_analysed_witness :
  let circuit :=
    Circuit.mk
      [ Samples.component "voltage_1" "voltage" 12 [Samples.pA; Samples.pB];
        Samples.component "resistor_1" "resistor" 1000 [Samples.pB; Samples.pA] ]
      [ Samples.joint "wire_1" Samples.pB "voltage_1" "resistor_1" ] in
  let out := Samples.analyze CircuitAnalyzer.initial circuit Samples.clock1 in
  (∃ validation,
     CircuitAnalyzer.validateCircuit circuit = inr validation ∧
     CircuitAnalyzer.Validation.isValid validation = true ∧
     CircuitAnalyzer.Validation.warnings validation
     = ["No se encontró referencia a tierra: se asignará automáticamente"]) ∧
  AnalysisResult.isValid (resultOf out) = false ∧
  AnalysisResult.error (resultOf out)
  = Some "No se encontró nodo de referencia (ground)".
Proof.
  split; [eexists; split; [vm_compute; reflexivity|split; vm_compute; reflexivity]|].
  split; [|vm_compute; reflexivity].
  apply (circuit_without_ground_is_not_analysed Samples.stringify Samples.toFixed
           Samples.toExponential CircuitAnalyzer.initial _ Samples.clock1).
  - intros component Hin.
    repeat (apply elem_of_cons in Hin as [->|Hin]; [by vm_compute|]).
    by apply elem_of_nil in Hin.
  - reflexivity.
Defined.

(** ** Components that no wire names *)

Lemma map_set_Forall_entries {V} (Q : string * V → Prop) (m : JS.Map V)
    (k : string) (v : V) :
  Forall Q m → Q (k, v) → Forall Q (JS.map_set m k v).
Proof.
  intros Hm Hv. induction m as [|[k' v'] m IH]; cbn [JS.map_set].
  - by constructor.
  - apply Forall_cons in Hm as [Hhead Hm].
    destruct (String.eqb k' k) eqn:Heq; constructor; auto.
    apply String.eqb_eq in Heq as ->. done.
Qed.

Lemma map_get_Forall_entries {V} (Q : string * V → Prop) (m : JS.Map V)
    (k : string) (v : V) :
  Forall Q m → JS.map_get m k = Some v → Q (k, v).
Proof.
  intros Hm. induction Hm as [|[k' v'] m Hhead _ IH]; cbn [JS.map_get]; [done|].
  destruct (String.eqb k' k) eqn:Heq; [|done].
  apply String.eqb_eq in Heq as ->. by intros [= <-].
Qed.

Lemma setAdd_elem (s : list string) (k x : string) :
  x ∈ NodeAnalyzer.setAdd s k → x ∈ s ∨ x = k.
Proof.
  unfold NodeAnalyzer.setAdd. destruct (existsb _ _); [by left|].
  intros [?|Hin]%elem_of_app; [by left|]. right. by apply list_elem_of_singleton in Hin.
Qed.

Lemma addEdge_inr (acc : string + JS.Map (list string)) (a b : string)
    (g : JS.Map (list string)) :
  NodeAnalyzer.addEdge acc a b = inr g →
  ∃ g0 neighbors, acc = inr g0 ∧ JS.map_get g0 a = Some neighbors ∧
                  g = JS.map_set g0 a (NodeAnalyzer.setAdd neighbors b).
Proof.
  destruct acc as [thrown|g0]; [done|]. cbn [NodeAnalyzer.addEdge].
  destruct (JS.map_get g0 a) as [neighbors|] eqn:Hget; [|done].
  intros [= <-]. by exists g0, neighbors.
Qed.

(** Every neighbour entry of the graph comes from a wire: both the key and
the neighbour are ends of a wire that names two components. *)
Lemma componentGraph_entries (circuit : Circuit.t) (g : JS.Map (list string))
    (k x : string) (neighbors : list string) :
  NodeAnalyzer.componentGraph circuit = inr g →
  JS.map_get g k = Some neighbors → x ∈ neighbors →
  ∃ wire a b, wire ∈ Circuit.wires circuit ∧
              NodeAnalyzer.namedEnd (Wire.startComponent wire) = Some a ∧
              NodeAnalyzer.namedEnd (Wire.endComponent wire) = Some b ∧
              (k = a ∨ k = b) ∧ (x = a ∨ x = b).
Proof.
  unfold NodeAnalyzer.componentGraph. cbv zeta.
  set (named := λ (wires : list Wire.t) (entry : string * list string),
         ∀ x, x ∈ snd entry →
              ∃ wire a b, wire ∈ wires ∧
                          NodeAnalyzer.namedEnd (Wire.startComponent wire) = Some a ∧
                          NodeAnalyzer.namedEnd (Wire.endComponent wire) = Some b ∧
                          (fst entry = a ∨ fst entry = b) ∧ (x = a ∨ x = b)).
  assert (∀ wires g0, Forall (named wires) g0 →
                      ∀ w, Forall (named (wires ++ [w])) g0) as Hmono.
  { intros wires g0 Hg0 w. eapply Forall_impl; [exact Hg0|].
    intros entry Hentry y Hy. destruct (Hentry y Hy) as (wire & a & b & Hin & H).
    exists wire, a, b. split; [|done]. apply elem_of_app. by left. }
  assert (∀ wires acc g,
            fold_left (λ g wire,
                         match NodeAnalyzer.namedEnd (Wire.startComponent wire),
                               NodeAnalyzer.namedEnd (Wire.endComponent wire) with
                         | Some a, Some b =>
                             NodeAnalyzer.addEdge (NodeAnalyzer.addEdge g a b) b a
                         | _, _ => g
                         end) wires (inr acc) = inr g →
            Forall (named []) acc → Forall (named wires) g) as Hloop.
  { induction wires as [|w wires IH] using rev_ind; intros acc g0.
    - cbn [fold_left]. by intros [= <-].
    - rewrite fold_left_app. cbn [fold_left]. intros Hstep Hacc.
      destruct (fold_left _ wires (inr acc)) as [thrown|g1] eqn:Hprefix.
      { destruct (NodeAnalyzer.namedEnd (Wire.startComponent w));
          [|done]. by destruct (NodeAnalyzer.namedEnd (Wire.endComponent w)). }
      specialize (IH acc g1 Hprefix Hacc). pose proof (Hmono _ _ IH w) as Hg1.
      destruct (NodeAnalyzer.namedEnd (Wire.startComponent w)) as [a|] eqn:Ha;
        [destruct (NodeAnalyzer.namedEnd (Wire.endComponent w)) as [b|] eqn:Hb|];
        [|by injection Hstep as <-|by injection Hstep as <-].
      apply addEdge_inr in Hstep as (g2 & nb & Hstep & Hnb & ->).
      apply addEdge_inr in Hstep as (g1' & na & [= <-] & Hna & ->).
      assert (∃ wire a' b', wire ∈ wires ++ [w] ∧
                NodeAnalyzer.namedEnd (Wire.startComponent wire) = Some a' ∧
                NodeAnalyzer.namedEnd (Wire.endComponent wire) = Some b' ∧
                a' = a ∧ b' = b) as (wire & a' & b' & Hin & Ha' & Hb' & -> & ->).
      { exists w, a, b. split; [|done]. apply elem_of_app. right.
        apply list_elem_of_here. }
      assert (Forall (named (wires ++ [w]))
                     (JS.map_set g1 a (NodeAnalyzer.setAdd na b))) as Hg2.
      { apply map_set_Forall_entries; [done|].
        intros y Hy. cbn [fst snd] in *. apply setAdd_elem in Hy as [Hy| ->].
        - exact (map_get_Forall_entries _ _ _ _ Hg1 Hna y Hy).
        - exists wire, a, b. by repeat split; auto. }
      apply map_set_Forall_entries; [done|].
      intros y Hy. cbn [fst snd] in *. apply setAdd_elem in Hy as [Hy| ->].
      + exact (map_get_Forall_entries _ _ _ _ Hg2 Hnb y Hy).
      + exists wire, a, b. by repeat split; auto. }
  intros Hgraph Hget Hx.
  apply Hloop in Hgraph.
  - exact (map_get_Forall_entries _ _ _ _ Hgraph Hget x Hx).
  - apply (fold_left_invariant (Forall (named [])) (λ _, True));
      [|by apply Forall_forall|constructor].
    intros g0 comp Hg0 _. apply map_set_Forall_entries; [done|].
    intros y Hy. by apply elem_of_nil in Hy.
Qed.

(** The queue loop stays inside a set of identifiers that is closed under
the neighbours of its members. *)
Lemma bfsComponents_closed (universe : gset string) (graph : JS.Map (list string)) :
  (∀ k neighbors x,
     JS.map_get graph k = Some neighbors → k ∈ universe → x ∈ neighbors →
     x ∈ universe) →
  ∀ fuel queue visited,
    (∀ q, q ∈ queue → q ∈ universe) → visited ⊆ universe →
    NodeAnalyzer.bfsComponents fuel graph queue visited ⊆ universe.
Proof.
  intros Hclosed.
  assert (∀ neighbors queue visited,
            (∀ x, x ∈ neighbors → x ∈ universe) →
            (∀ q, q ∈ queue → q ∈ universe) → visited ⊆ universe →
            let out :=
              fold_left (λ '(q, v) neighborId,
                           if bool_decide (neighborId ∈ v) then (q, v)
                           else (q ++ [neighborId], {[neighborId]} ∪ v))
                        neighbors (queue, visited) in
            (∀ q, q ∈ fst out → q ∈ universe) ∧ snd out ⊆ universe) as Hvisit.
  { induction neighbors as [|n neighbors IH]; intros queue visited Hn Hq Hv; [done|].
    cbn [fold_left]. destruct (bool_decide (n ∈ visited)).
    - apply IH; [|done|done]. intros x Hx. apply Hn. by apply list_elem_of_further.
    - apply IH.
      + intros x Hx. apply Hn. by apply list_elem_of_further.
      + intros q [Hin|Hin]%elem_of_app; [by apply Hq|].
        apply list_elem_of_singleton in Hin as ->. apply Hn, list_elem_of_here.
      + apply union_subseteq. split; [|done].
        apply singleton_subseteq_l, Hn, list_elem_of_here. }
  induction fuel as [|fuel IH]; intros queue visited Hq Hv.
  - by destruct queue.
  - destruct queue as [|currentId queue]; [done|].
    cbn [NodeAnalyzer.bfsComponents].
    specialize (Hvisit (default [] (JS.map_get graph currentId)) queue visited).
    destruct (fold_left _ _ _) as [queue' visited'].
    destruct Hvisit as [Hq' Hv'].
    + intros x Hx. destruct (JS.map_get graph currentId) as [neighbors|] eqn:Hget.
      * apply (Hclosed currentId neighbors x Hget); [|done].
        apply Hq, list_elem_of_here.
      * by apply elem_of_nil in Hx.
    + intros q Hin. apply Hq. by apply list_elem_of_further.
    + done.
    + by apply IH.
Qed.

Lemma size_list_to_set_without (ids : list string) (k : string) :
  k ∈ ids → size (list_to_set ids ∖ {[k]} : gset string) < length ids.
Proof.
  intros Hin.
  assert (({[k]} : gset string) ⊆ list_to_set ids) as Hsub.
  { apply singleton_subseteq_l. by apply elem_of_list_to_set. }
  pose proof (size_difference (list_to_set ids : gset string) {[k]} Hsub) as Hsize.
  rewrite size_singleton in Hsize.
  pose proof (size_list_to_set_le ids).
  assert (size (list_to_set ids : gset string) ≠ 0).
  { apply size_non_empty_iff. intros Hempty.
    assert (k ∈ (list_to_set ids : gset string)) as Hk by (by apply elem_of_list_to_set).
    rewrite Hempty in Hk. by apply elem_of_empty in Hk. }
  lia.
Qed.

(** A component that no wire names is never reached. *)
Lemma checkBasicConnectivity_unwired (circuit : Circuit.t) (component : Component.t) :
  component ∈ Circuit.components circuit →
  2 ≤ length (Circuit.components circuit) →
  (∀ wire a b, wire ∈ Circuit.wires circuit →
               NodeAnalyzer.namedEnd (Wire.startComponent wire) = Some a →
               NodeAnalyzer.namedEnd (Wire.endComponent wire) = Some b →
               a ≠ Component.id component ∧ b ≠ Component.id component) →
  NodeAnalyzer.checkBasicConnectivity circuit ≠ inr true.
Proof.
  intros Hin Htwo Hunwired. unfold NodeAnalyzer.checkBasicConnectivity.
  destruct (Circuit.components circuit) as [|first others] eqn:Hcomponents; [done|].
  destruct (Circuit.wires circuit) as [|w ws] eqn:Hwires; [done|].
  destruct (NodeAnalyzer.componentGraph circuit) as [thrown|graph] eqn:Hgraph; [done|].
  cbv zeta.
  match goal with
  | |- inr (Nat.eqb ?a ?b) ≠ _ =>
      assert (a < b) as Hless; [|destruct (Nat.eqb_spec a b); [lia|done]]
  end.
  pose proof (componentGraph_keys circuit graph Hgraph) as [_ Hnamed].
  pose proof (componentGraph_entries circuit graph) as Hentries.
  rewrite Hcomponents in Hnamed.
  set (ids := Component.id <$> first :: others) in *.
  set (universe := if decide (Component.id component = Component.id first)
                   then ({[Component.id first]} : gset string)
                   else list_to_set ids ∖ {[Component.id component]}).
  assert (size universe < length (first :: others)) as Hsmall.
  { subst universe. destruct (decide _).
    - rewrite size_singleton. lia.
    - replace (length (first :: others)) with (length ids) by apply length_fmap.
      apply size_list_to_set_without. by apply list_elem_of_fmap_2. }
  assert (NodeAnalyzer.bfsComponents (NodeAnalyzer.connectivityFuel circuit) graph
            [Component.id first] {[Component.id first]} ⊆ universe) as Hsub.
  { apply bfsComponents_closed.
    - intros k neighbors x Hget Hk Hx.
      destruct (Hentries k x neighbors Hgraph Hget Hx)
        as (wire & a & b & Hw & Ha & Hb & Hka & Hxa).
      rewrite Hwires in Hw.
      destruct (Hunwired wire a b Hw Ha Hb) as [Hna Hnb].
      destruct (Hnamed wire a b) as [Hida Hidb]; [by rewrite Hwires|done|done|].
      subst universe. destruct (decide _) as [Heq|Hne].
      + apply elem_of_singleton in Hk. subst k. rewrite <- Heq in Hka.
        by destruct Hka.
      + apply elem_of_difference. split.
        * apply elem_of_list_to_set. by destruct Hxa as [->| ->].
        * rewrite elem_of_singleton. by destruct Hxa as [->| ->].
    - intros q Hq. apply list_elem_of_singleton in Hq as ->.
      subst universe. destruct (decide _) as [Heq|Hne]; [by apply elem_of_singleton|].
      apply elem_of_difference. split.
      + apply elem_of_list_to_set. subst ids. rewrite fmap_cons. apply list_elem_of_here.
      + rewrite elem_of_singleton. congruence.
    - apply singleton_subseteq_l.
      subst universe. destruct (decide _) as [Heq|Hne]; [by apply elem_of_singleton|].
      apply elem_of_difference. split.
      + apply elem_of_list_to_set. subst ids. rewrite fmap_cons. apply list_elem_of_here.
      + rewrite elem_of_singleton. congruence. }
  apply subseteq_size in Hsub. lia.
Qed.

(** X11: the connectivity check of validation follows the component
names stored in the wires, not the geometry.  In a circuit of two or more
components, a component that no wire with two named ends names is never
reached: [checkBasicConnectivity] does not answer "connected", and
[analyzeCircuit], when not served from the cache, returns an invalid
result. *)
Theorem unwired_component_is_rejected (stringify : CircuitData.t → list Z)
    (toFixed toExponential : float → nat → string)
    (st : CircuitAnalyzer.state) (circuit : Circuit.t) (clk : CircuitAnalyzer.clock)
    (component : Component.t) :
  component ∈ Circuit.components circuit →
  2 ≤ length (Circuit.components circuit) →
  (∀ wire a b, wire ∈ Circuit.wires circuit →
               NodeAnalyzer.namedEnd (Wire.startComponent wire) = Some a →
               NodeAnalyzer.namedEnd (Wire.endComponent wire) = Some b →
               a ≠ Component.id component ∧ b ≠ Component.id component) →
  NodeAnalyzer.checkBasicConnectivity circuit ≠ inr true ∧
  (JS.map_get (CircuitAnalyzer.analysisCache st)
              (CircuitAnalyzer.generateCircuitHash stringify circuit) = None →
   AnalysisResult.isValid
     (resultOf (CircuitAnalyzer.analyzeCircuit stringify toFixed toExponential
                  st circuit clk)) = false).
Proof.
  intros Hin Htwo Hunwired.
  pose proof (checkBasicConnectivity_unwired circuit component Hin Htwo Hunwired)
    as Hconn.
  split; [done|]. intros Hmiss.
  apply analyzeCircuit_rejected; [done|]. intros validation Hv.
  apply (validateCircuit_invalid circuit validation Hv). repeat right.
  destruct (NodeAnalyzer.checkBasicConnectivity circuit) as [thrown|[|]] eqn:Hc;
    [|done|done].
  unfold CircuitAnalyzer.validateCircuit in Hv. cbv zeta in Hv.
  destruct (fold_left _ _ _) as [e w]. by rewrite Hc in Hv.
Qed.

Lemma unwired_component_is_rejected_witness :
  let circuit :=
    Circuit.mk
      [ Samples.component "voltage_1" "voltage" 12 [Samples.pA; Samples.pB];
        Samples.component "resistor_1" "resistor" 1000 [Samples.pB; Samples.pA];
        Samples.component "ground_1" "ground" 0 [Samples.pA] ]
      [ Samples.joint "wire_1" Samples.pB "voltage_1" "resistor_1";
        plainWire "wire_2" Samples.pA Samples.pA 0 ] in
  let out := Samples.analyze CircuitAnalyzer.initial circuit Samples.clock1 in
  NodeAnalysis.isValid (NodeAnalyzer.analyzeNodes circuit) = true ∧
  AnalysisResult.isValid (resultOf out) = false ∧
  AnalysisResult.error (resultOf out)
  = Some "Circuito contiene componentes desconectados".
Proof.
  split; [vm_compute; reflexivity|]. split; [|vm_compute; reflexivity].
  apply (unwired_component_is_rejected Samples.stringify Samples.toFixed
           Samples.toExponential CircuitAnalyzer.initial _ Samples.clock1
           (Samples.component "ground_1" "ground" 0 [Samples.pA])).
  - do 2 apply list_elem_of_further. apply list_elem_of_here.
  - vm_compute. lia.
  - intros wire a b Hin.
    repeat (apply elem_of_cons in Hin as [->|Hin];
            [vm_compute; intros [= <-] [= <-]; split; discriminate || congruence|]).
    by apply elem_of_nil in Hin.
  - reflexivity.
Defined.

(** ** Nodal systems with voltage sources *)

Lemma foldThrow_thrown {A B} (f : A → B → string + A) (l : list B) (thrown : string) :
  fold_left (λ acc x, JS.bind acc (λ a, f a x)) l (inl thrown) = inl thrown.
Proof. induction l as [|x l IH]; [done|]. exact IH. Qed.

Lemma foldThrow_invariant {A B} (P : A → Prop) (f : A → B → string + A)
    (l : list B) (a a' : A) :
  (∀ a x a', P a → f a x = inr a' → P a') →
  P a → JS.foldThrow f l a = inr a' → P a'.
Proof.
  intros Hstep. unfold JS.foldThrow. revert a.
  induction l as [|x l IH]; intros a Ha; cbn [fold_left].
  - by intros [= <-].
  - cbn [JS.bind]. destruct (f a x) as [thrown|a1] eqn:Hf.
    + by rewrite foldThrow_thrown.
    + apply IH. by apply (Hstep a x).
Qed.

Lemma set2_length (m : list (list float)) (i j : nat) (v : float) :
  length (JS.set2 m i j v) = length m.
Proof. unfold JS.set2. apply length_insert. Qed.

Lemma addBranchToNodalMatrix_length (nodeIndexMap : JS.Map nat)
    (GI GI' : list (list float) * list float) (branch : Branch.t) :
  CircuitMatrixBuilder.addBranchToNodalMatrix nodeIndexMap GI branch = inr GI' →
  length (fst GI') = length (fst GI) ∧ length (snd GI') = length (snd GI).
Proof.
  destruct GI as [G Ivec]. unfold CircuitMatrixBuilder.addBranchToNodalMatrix.
  cbv zeta.
  destruct (negb _); [by intros [= <-]|].
  assert (∀ G', length (match JS.map_get nodeIndexMap (Branch.startNodeId branch),
                              JS.map_get nodeIndexMap (Branch.endNodeId branch) with
                        | Some s, Some e =>
                            CircuitMatrixBuilder.subFrom2
                              (CircuitMatrixBuilder.subFrom2
                                 (CircuitMatrixBuilder.addTo2
                                    (CircuitMatrixBuilder.addTo2 G s s G') e e G') s e G')
                              e s G'
                        | Some s, None => CircuitMatrixBuilder.addTo2 G s s G'
                        | None, Some e => CircuitMatrixBuilder.addTo2 G e e G'
                        | None, None => G
                        end) = length G) as HG.
  { intros a. unfold CircuitMatrixBuilder.subFrom2, CircuitMatrixBuilder.addTo2.
    destruct (JS.map_get _ _), (JS.map_get _ _); by rewrite ?set2_length. }
  destruct (String.eqb (Branch.type branch) "current").
  - destruct (Branch.componentValue branch) as [thrown|current]; [done|].
    cbn [JS.bind]. intros [= <-]. cbn [fst snd]. split; [apply HG|].
    destruct (JS.map_get _ _), (JS.map_get _ _); by rewrite ?length_insert.
  - intros [= <-]. cbn [fst snd]. split; [apply HG|done].
Qed.

Lemma handleVoltageSourcesNodal_length (nodeAnalysis : NodeAnalysis.t)
    (nodeIndexMap : JS.Map nat) (originalSize : nat)
    (admittanceMatrix : list (list float)) (rightHandSide : list float)
    (expanded : option (list (list float) * list float * nat)) :
  CircuitMatrixBuilder.handleVoltageSourcesNodal nodeAnalysis nodeIndexMap
    originalSize admittanceMatrix rightHandSide = inr expanded →
  match expanded with
  | Some (_, expandedRHS, k) =>
      k = NodeAnalyzer.countType "voltage" (NodeAnalysis.branches nodeAnalysis) ∧
      0 < k ∧ length expandedRHS = originalSize + k
  | None => NodeAnalyzer.countType "voltage" (NodeAnalysis.branches nodeAnalysis) = 0
  end.
Proof.
  unfold CircuitMatrixBuilder.handleVoltageSourcesNodal, NodeAnalyzer.countType.
  cbv zeta.
  set (voltageSources := filter _ (NodeAnalysis.branches nodeAnalysis)).
  destruct (Nat.eqb (length voltageSources) 0) eqn:Hzero.
  { intros [= <-]. by apply Nat.eqb_eq. }
  apply Nat.eqb_neq in Hzero.
  set (newSize := originalSize + length voltageSources).
  match goal with
  | |- JS.bind (JS.foldThrow ?f ?l ?copied) ?k = _ → _ =>
      assert (length (snd copied) = newSize) as Hcopied;
      [|destruct (JS.foldThrow f l copied) as [thrown|[M R]] eqn:Hfold;
        [done|pose proof (foldThrow_invariant
                            (λ MR : list (list float) * list float,
                               length (snd MR) = newSize)
                            f l copied (M, R)) as Hinv]]
  end.
  { apply (fold_left_invariant
             (λ MR : list (list float) * list float, length (snd MR) = newSize)
             (λ _, True)); [|by apply Forall_forall|].
    - intros [M R] i HR _. cbn [snd] in *. by rewrite length_insert.
    - cbn [snd]. apply length_replicate. }
  cbn [JS.bind]. intros [= <-].
  split; [done|]. split; [lia|].
  apply Hinv; [|done|done].
  intros [M1 R1] [idx source] [M2 R2] HR1. cbn [snd] in *.
  destruct (Branch.componentValue source) as [thrown|value]; [done|].
  cbn [JS.bind]. intros [= <- <-]. by rewrite length_insert.
Qed.

Lemma buildNodalMatrices_lengths (nodeAnalysis : NodeAnalysis.t)
    (nodeIndexMap : JS.Map nat) (nodeCount : nat)
    (b : CircuitMatrixBuilder.built) :
  CircuitMatrixBuilder.buildNodalMatrices nodeAnalysis nodeIndexMap nodeCount = inr b →
  length (CircuitMatrixBuilder.b_systemMatrix b) = nodeCount ∧
  length (CircuitMatrixBuilder.b_rightHandSide b)
  = nodeCount + NodeAnalyzer.countType "voltage" (NodeAnalysis.branches nodeAnalysis).
Proof.
  unfold CircuitMatrixBuilder.buildNodalMatrices. cbv zeta.
  destruct (JS.foldThrow _ _ _) as [thrown|[G Ivec]] eqn:Hfold; [done|].
  apply (foldThrow_invariant
           (λ GI : list (list float) * list float,
              length (fst GI) = nodeCount ∧ length (snd GI) = nodeCount)) in Hfold.
  - cbn [fst snd JS.bind] in *. destruct Hfold as [HG HI].
    destruct (CircuitMatrixBuilder.handleVoltageSourcesNodal _ _ _ _ _)
      as [thrown|expanded] eqn:Hexpanded; [done|].
    apply handleVoltageSourcesNodal_length in Hexpanded.
    cbn [JS.bind]. intros [= <-].
    cbn [CircuitMatrixBuilder.b_systemMatrix CircuitMatrixBuilder.b_rightHandSide].
    split; [done|].
    destruct expanded as [[[M R] k]|].
    + destruct Hexpanded as (-> & _ & ->). done.
    + rewrite Hexpanded. lia.
  - intros GI branch GI' [HG HI] Hstep.
    apply addBranchToNodalMatrix_length in Hstep as [-> ->]. done.
  - cbn [fst snd]. unfold CircuitMatrixBuilder.createMatrix, JS.fill.
    by rewrite !length_replicate.
Qed.

Lemma buildSystemMatrices_nodal (circuit : Circuit.t) (nodeAnalysis : NodeAnalysis.t)
    (method : string) (matrices : Matrices.t) :
  method = "nodal" ∨ method = "nodal_modified" ∨ method = "ladder" →
  CircuitMatrixBuilder.buildSystemMatrices circuit nodeAnalysis method
    = CircuitMatrixBuilder.Built matrices →
  ∃ G R, Matrices.systemMatrix matrices = Some G ∧
         Matrices.rightHandSide matrices = Some R ∧
         Matrices.method matrices = method ∧
         length R = length G
                    + NodeAnalyzer.countType "voltage" (NodeAnalysis.branches nodeAnalysis).
Proof.
  intros Hmethod. unfold CircuitMatrixBuilder.buildSystemMatrices.
  destruct (CircuitMatrixBuilder.createIndexMappings nodeAnalysis)
    as [[nodeIndexMap branchIndexMap] groundNodeId].
  cbv zeta.
  pose proof (buildNodalMatrices_lengths nodeAnalysis nodeIndexMap
                (JS.map_size nodeIndexMap)) as Hlen.
  destruct (CircuitMatrixBuilder.buildNodalMatrices _ _ _) as [thrown|b].
  { destruct Hmethod as [->|[->| ->]]; done. }
  destruct (Hlen b eq_refl) as [HG HR].
  destruct Hmethod as [->|[->| ->]]; cbn; intros [= <-]; cbn;
    eexists _, _; (split; [done|]); (split; [done|]); (split; [done|]); lia.
Qed.

Lemma validateInput_length_mismatch (matrices : Matrices.t)
    (G : list (list float)) (R : list float) :
  Matrices.systemMatrix matrices = Some G →
  Matrices.rightHandSide matrices = Some R →
  length R ≠ length G →
  is_Some (EquationSolver.validateInput matrices).
Proof.
  intros HG HR Hne. unfold EquationSolver.validateInput. rewrite HG, HR. cbv zeta.
  destruct (_ || _); [by eexists|].
  destruct (negb (Nat.eqb (length G) _)); [by eexists|].
  destruct (Nat.eqb_spec (length G) (length R)) as [Heq|_]; [lia|]. by eexists.
Qed.

(** X12: [buildNodalMatrices] keeps the right-hand side that
[handleVoltageSourcesNodal] expanded to [n + k] entries, and then puts the
[n x n] admittance matrix back as the system matrix.  So whenever the method
is nodal, nodal_modified or ladder and the analysis has [k > 0]
voltage-source branches, the system that is built has [k] more right-hand
sides than rows, the solver's input check rejects it, and [analyzeCircuit],
when not served from the cache, returns an invalid result. *)
Theorem nodal_system_with_voltage_source_is_rejected
    (stringify : CircuitData.t → list Z)
    (toFixed toExponential : float → nat → string)
    (circuit : Circuit.t) (nodeAnalysis : NodeAnalysis.t) (method : string) :
  method = "nodal" ∨ method = "nodal_modified" ∨ method = "ladder" →
  0 < NodeAnalyzer.countType "voltage" (NodeAnalysis.branches nodeAnalysis) →
  (∀ matrices solveTime,
     CircuitMatrixBuilder.buildSystemMatrices circuit nodeAnalysis method
       = CircuitMatrixBuilder.Built matrices →
     (∃ G R, Matrices.systemMatrix matrices = Some G ∧
             Matrices.rightHandSide matrices = Some R ∧
             length R = length G
                        + NodeAnalyzer.countType "voltage"
                            (NodeAnalysis.branches nodeAnalysis)) ∧
     is_Some (EquationSolver.validateInput matrices) ∧
     EquationSolver.SolveResult.isValid
       (EquationSolver.solve toExponential solveTime matrices) = false) ∧
  (∀ st clk,
     nodeAnalysis = NodeAnalyzer.analyzeNodes circuit →
     method = CircuitAnalyzer.selectOptimalMethod nodeAnalysis →
     JS.map_get (CircuitAnalyzer.analysisCache st)
                (CircuitAnalyzer.generateCircuitHash stringify circuit) = None →
     AnalysisResult.isValid
       (resultOf (CircuitAnalyzer.analyzeCircuit stringify toFixed toExponential
                    st circuit clk)) = false).
Proof.
  intros Hmethod Hsources.
  assert (∀ matrices solveTime,
            CircuitMatrixBuilder.buildSystemMatrices circuit nodeAnalysis method
              = CircuitMatrixBuilder.Built matrices →
            (∃ G R, Matrices.systemMatrix matrices = Some G ∧
                    Matrices.rightHandSide matrices = Some R ∧
                    length R = length G
                               + NodeAnalyzer.countType "voltage"
                                   (NodeAnalysis.branches nodeAnalysis)) ∧
            is_Some (EquationSolver.validateInput matrices) ∧
            EquationSolver.SolveResult.isValid
              (EquationSolver.solve toExponential solveTime matrices) = false)
    as Hsolve.
  { intros matrices solveTime Hbuilt.
    destruct (buildSystemMatrices_nodal circuit nodeAnalysis method matrices
                Hmethod Hbuilt) as (G & R & HG & HR & _ & Hlen).
    assert (is_Some (EquationSolver.validateInput matrices)) as [message Hmessage].
    { apply (validateInput_length_mismatch matrices G R HG HR). lia. }
    split; [by exists G, R|]. split; [by exists message|].
    unfold EquationSolver.solve. by rewrite Hmessage. }
  split; [exact Hsolve|].
  intros st clk -> -> Hmiss.
  destruct (AnalysisResult.isValid _) eqn:Hvalid; [|done].
  destruct (analyzeCircuit_pipeline stringify toFixed toExponential st circuit clk
              Hmiss Hvalid) as (_ & _ & matrices & Hbuilt & Hsolved & _).
  destruct (Hsolve matrices (CircuitAnalyzer.solveTime clk) Hbuilt) as (_ & _ & Hfail).
  congruence.
Qed.

Lemma nodal_system_with_voltage_source_is_rejected_witness :
  let circuit := fullMeshWithCurrentSource in
  let out := Samples.analyze CircuitAnalyzer.initial circuit Samples.clock1 in
  CircuitAnalyzer.selectOptimalMethod (NodeAnalyzer.analyzeNodes circuit)
  = "nodal_modified" ∧
  AnalysisResult.isValid (resultOf out) = false ∧
  AnalysisResult.error (resultOf out)
  = Some "Error en solucionador: Dimensiones inconsistentes: matriz 3x3, RHS 4".
Proof.
  split; [vm_compute; reflexivity|]. split; [|vm_compute; reflexivity].
  apply (proj2 (nodal_system_with_voltage_source_is_rejected
                  Samples.stringify Samples.toFixed Samples.toExponential
                  fullMeshWithCurrentSource
                  (NodeAnalyzer.analyzeNodes fullMeshWithCurrentSource)
                  "nodal_modified" (or_intror (or_introl eq_refl))
                  ltac:(vm_compute; lia))
               CircuitAnalyzer.initial Samples.clock1 eq_refl).
  - vm_compute. reflexivity.
  - reflexivity.
Defined.

(** ** Methods chosen and methods supported *)

Lemma selectOptimalMethod_supported (nodeAnalysis : NodeAnalysis.t) :
  CircuitAnalyzer.selectOptimalMethod nodeAnalysis ∈ supportedMethods.
Proof.
  unfold CircuitAnalyzer.selectOptimalMethod, supportedMethods. cbv zeta.
  repeat match goal with
         | |- context [if ?b then _ else _] => destruct b
         end; set_solver.
Qed.

(** X13: [buildSystemMatrices] answers "Método no soportado" for
every method name outside its seven cases, and [selectOptimalMethod] only
ever returns one of the seven; so with the method the coordinator chose, the
builder either returns a valid system that carries this method, a system
matrix, a right-hand side and a conditioning report, or an error raised while
building. *)
Theorem chosen_method_is_supported (circuit : Circuit.t) (nodeAnalysis : NodeAnalysis.t) :
  (∀ method, method ∉ supportedMethods →
             CircuitMatrixBuilder.buildSystemMatrices circuit nodeAnalysis method
             = CircuitMatrixBuilder.BuildFailed ("Método no soportado: " +:+ method)) ∧
  CircuitAnalyzer.selectOptimalMethod nodeAnalysis ∈ supportedMethods ∧
  match CircuitMatrixBuilder.buildSystemMatrices circuit nodeAnalysis
          (CircuitAnalyzer.selectOptimalMethod nodeAnalysis) with
  | CircuitMatrixBuilder.Built matrices =>
      Matrices.isValid matrices = true ∧
      Matrices.method matrices = CircuitAnalyzer.selectOptimalMethod nodeAnalysis ∧
      is_Some (Matrices.systemMatrix matrices) ∧
      is_Some (Matrices.rightHandSide matrices) ∧
      is_Some (Matrices.conditioning matrices)
  | CircuitMatrixBuilder.BuildFailed error =>
      ∃ thrown, error = "Error en construcción de matrices: " +:+ thrown
  end.
Proof.
  assert (∀ method,
            match CircuitMatrixBuilder.buildSystemMatrices circuit nodeAnalysis method with
            | CircuitMatrixBuilder.Built matrices =>
                method ∈ supportedMethods ∧
                Matrices.isValid matrices = true ∧
                Matrices.method matrices = method ∧
                is_Some (Matrices.systemMatrix matrices) ∧
                is_Some (Matrices.rightHandSide matrices) ∧
                is_Some (Matrices.conditioning matrices)
            | CircuitMatrixBuilder.BuildFailed error =>
                (method ∈ supportedMethods ∧
                 (∃ thrown, error = "Error en construcción de matrices: " +:+ thrown)) ∨
                ((method ∉ supportedMethods) ∧
                 error = "Método no soportado: " +:+ method)
            end) as Hdispatch.
  { intros method. unfold CircuitMatrixBuilder.buildSystemMatrices.
    destruct (CircuitMatrixBuilder.createIndexMappings nodeAnalysis)
      as [[nodeIndexMap branchIndexMap] groundNodeId].
    cbv zeta. unfold supportedMethods.
    destruct (String.eqb_spec method "nodal") as [->|H1].
    { cbn. destruct (CircuitMatrixBuilder.buildNodalMatrices _ _ _); cbn.
      - left. split; [set_solver|by eexists].
      - repeat split; (set_solver || by eexists). }
    destruct (String.eqb_spec method "nodal_modified") as [->|H2].
    { cbn. destruct (CircuitMatrixBuilder.buildNodalMatrices _ _ _); cbn.
      - left. split; [set_solver|by eexists].
      - repeat split; (set_solver || by eexists). }
    destruct (String.eqb_spec method "mesh") as [->|H3].
    { cbn. destruct (CircuitMatrixBuilder.buildMeshMatrices _); cbn.
      - left. split; [set_solver|by eexists].
      - repeat split; (set_solver || by eexists). }
    destruct (String.eqb_spec method "mesh_modified") as [->|H4].
    { cbn. destruct (CircuitMatrixBuilder.buildMeshMatrices _); cbn.
      - left. split; [set_solver|by eexists].
      - repeat split; (set_solver || by eexists). }
    destruct (String.eqb_spec method "series") as [->|H5].
    { cbn. destruct (CircuitMatrixBuilder.buildSeriesMatrices _); cbn.
      - left. split; [set_solver|by eexists].
      - repeat split; (set_solver || by eexists). }
    destruct (String.eqb_spec method "parallel") as [->|H6].
    { cbn. destruct (CircuitMatrixBuilder.buildParallelMatrices _); cbn.
      - left. split; [set_solver|by eexists].
      - repeat split; (set_solver || by eexists). }
    destruct (String.eqb_spec method "ladder") as [->|H7].
    { cbn. destruct (CircuitMatrixBuilder.buildNodalMatrices _ _ _); cbn.
      - left. split; [set_solver|by eexists].
      - repeat split; (set_solver || by eexists). }
    cbn. right. split; [|done].
    rewrite !elem_of_cons, elem_of_nil. intuition. }
  pose proof (selectOptimalMethod_supported nodeAnalysis) as Hchosen.
  split; [|split; [done|]].
  - intros method Hno. specialize (Hdispatch method).
    destruct (CircuitMatrixBuilder.buildSystemMatrices _ _ _) as [matrices|error].
    + by destruct Hdispatch.
    + destruct Hdispatch as [[? _]|[_ ->]]; done.
  - specialize (Hdispatch (CircuitAnalyzer.selectOptimalMethod nodeAnalysis)).
    destruct (CircuitMatrixBuilder.buildSystemMatrices _ _ _) as [matrices|error].
    + by destruct Hdispatch as (_ & ?).
    + destruct Hdispatch as [[_ ?]|[? _]]; done.
Qed.

(** X14: [checkMatrixConditioning] never sets
[isPositiveDefinite], and [selectSolverMethod] has no rule that yields
[iterative_jacobi]; so for every system [buildSystemMatrices] returns, the
solving method selected is one of the methods [solve] knows, and it is
neither Cholesky nor Jacobi. *)
Theorem built_system_never_solved_by_cholesky_or_jacobi (circuit : Circuit.t)
    (nodeAnalysis : NodeAnalysis.t) (method : string) (matrices : Matrices.t) :
  CircuitMatrixBuilder.buildSystemMatrices circuit nodeAnalysis method
    = CircuitMatrixBuilder.Built matrices →
  (∃ c, Matrices.conditioning matrices = Some c ∧
        Conditioning.isPositiveDefinite c = false) ∧
  EquationSolver.selectSolverMethod matrices ∈ solverMethods ∧
  EquationSolver.selectSolverMethod matrices ≠ "cholesky" ∧
  EquationSolver.selectSolverMethod matrices ≠ "iterative_jacobi".
Proof.
  intros Hbuilt.
  assert (∃ M, Matrices.conditioning matrices
               = Some (CircuitMatrixBuilder.checkMatrixConditioning M)) as [M HM].
  { unfold CircuitMatrixBuilder.buildSystemMatrices in Hbuilt.
    destruct (CircuitMatrixBuilder.createIndexMappings nodeAnalysis)
      as [[nodeIndexMap branchIndexMap] groundNodeId].
    cbv zeta in Hbuilt.
    destruct (if String.eqb method "nodal" || String.eqb method "nodal_modified"
              then _ else _) as [[thrown|[method' b]]|]; [done| |done].
    injection Hbuilt as <-. by eexists. }
  split; [by eexists|].
  unfold EquationSolver.selectSolverMethod, solverMethods. cbv zeta. rewrite HM.
  cbn [Conditioning.isPositiveDefinite CircuitMatrixBuilder.checkMatrixConditioning
       Conditioning.isSymmetric Conditioning.warning Conditioning.determinant
       Conditioning.isDiagonallyDominant].
  rewrite andb_false_r.
  repeat match goal with
         | |- context [if ?b then _ else _] => destruct b
         end; (split; [set_solver|done]).
Qed.

Lemma built_system_never_solved_by_cholesky_or_jacobi_witness :
  Matrices.systemMatrix fullMeshMatrices = Some [[2000%float]] ∧
  CircuitMatrixBuilder.isPositiveDefinite [[2000%float]] = true ∧
  EquationSolver.selectSolverMethod fullMeshMatrices ≠ "cholesky" ∧
  EquationSolver.selectSolverMethod fullMeshMatrices ≠ "iterative_jacobi".
Proof.
  split; [vm_compute; reflexivity|]. split; [vm_compute; reflexivity|].
  apply (built_system_never_solved_by_cholesky_or_jacobi Samples.fullMesh
           (NodeAnalyzer.analyzeNodes Samples.fullMesh) "mesh" fullMeshMatrices).
  vm_compute. reflexivity.
Defined.

(** ** Identifiers and index maps *)

Lemma addConnection_id (neighborId : string) (node : ElectricalNode.t) :
  ElectricalNode.id (NodeAnalyzer.addConnection neighborId node)
  = ElectricalNode.id node.
Proof. unfold NodeAnalyzer.addConnection. by destruct (existsb _ _). Qed.

Lemma alter_fmap_same {A B} (f : A → B) (g : A → A) (i : nat) (l : list A) :
  (∀ x, f (g x) = f x) → f <$> alter g i l = f <$> l.
Proof.
  intros Hfg. revert i. induction l as [|x l IH]; intros [|i]; cbn; [done|done| |].
  - by rewrite Hfg.
  - f_equal. apply IH.
Qed.

Lemma connect_ids (nodes : list ElectricalNode.t) (n1 n2 : option nat) :
  ElectricalNode.id <$> NodeAnalyzer.connect nodes n1 n2 = ElectricalNode.id <$> nodes.
Proof.
  unfold NodeAnalyzer.connect.
  destruct n1 as [i1|]; [|done]. destruct n2 as [i2|]; [|done].
  destruct (Nat.eqb i1 i2); [done|].
  rewrite !alter_fmap_same; [done|intros x; apply addConnection_id..].
Qed.

Lemma establishNodeConnections_ids (nodes : list ElectricalNode.t)
    (circuit : Circuit.t) :
  ElectricalNode.id <$> NodeAnalyzer.establishNodeConnections nodes circuit
  = ElectricalNode.id <$> nodes.
Proof.
  unfold NodeAnalyzer.establishNodeConnections. cbv zeta.
  apply (fold_left_invariant
           (λ ns, ElectricalNode.id <$> ns = ElectricalNode.id <$> nodes) (λ _, True));
    [|by apply Forall_forall|].
  - intros ns component Hns _.
    destruct (String.eqb (Component.type component) "ground"); [done|].
    destruct (Nat.leb 2 _); [|done]. by rewrite connect_ids.
  - apply (fold_left_invariant
             (λ ns, ElectricalNode.id <$> ns = ElectricalNode.id <$> nodes) (λ _, True));
      [|by apply Forall_forall|done].
    intros ns wire Hns _. by rewrite connect_ids.
Qed.

(** The [k]-th electrical node is named [enode_k]. *)
Lemma createElectricalNodes_ids (physicalNodes : list PhysicalNode.t)
    (circuit : Circuit.t) (k : nat) (node : ElectricalNode.t) :
  NodeAnalyzer.createElectricalNodes physicalNodes circuit !! k = Some node →
  ElectricalNode.id node = "enode_" +:+ pretty k.
Proof.
  intros Hk.
  assert ((ElectricalNode.id <$> NodeAnalyzer.createElectricalNodes physicalNodes circuit)
            !! k = Some (ElectricalNode.id node)) as Hid.
  { by rewrite list_lookup_fmap, Hk. }
  unfold NodeAnalyzer.createElectricalNodes in Hid. cbv zeta in Hid.
  rewrite establishNodeConnections_ids, list_lookup_fmap, list_lookup_imap in Hid.
  match type of Hid with
  | context [_ <$> (?groups !! k)] =>
      destruct (groups !! k) as [[rootIndex nodeGroup]|]; [|done]
  end.
  cbn [fmap option_fmap option_map ElectricalNode.id] in Hid. congruence.
Qed.

(** The [k]-th branch is named [branch_k]. *)
Lemma identifyBranches_ids (circuit : Circuit.t) (electricalNodes : list ElectricalNode.t)
    (k : nat) (branch : Branch.t) :
  NodeAnalyzer.identifyBranches circuit electricalNodes !! k = Some branch →
  Branch.id branch = "branch_" +:+ pretty k.
Proof.
  set (P := λ branches : list Branch.t,
         ∀ k b, branches !! k = Some b → Branch.id b = "branch_" +:+ pretty k).
  assert (∀ branches b, P branches →
            Branch.id b = "branch_" +:+ pretty (length branches) →
            P (branches ++ [b])) as Hsnoc.
  { intros branches b Hbranches Hb i x Hlook.
    apply lookup_app_Some in Hlook as [Hlook|[Hge Hlook]]; [by apply Hbranches|].
    apply list_lookup_singleton_Some in Hlook as [Hi ->].
    replace i with (length branches) by lia. done. }
  revert k branch. change (P (NodeAnalyzer.identifyBranches circuit electricalNodes)).
  unfold NodeAnalyzer.identifyBranches. cbv zeta.
  apply (fold_left_invariant P (λ _, True)); [|by apply Forall_forall|].
  - intros branches wire Hbranches _.
    destruct (JS.gt (Wire.resistance wire) _); [|done].
    destruct (NodeAnalyzer.findElectricalNodeAtPosition _ _ _) as [s|]; [|done].
    destruct (NodeAnalyzer.findElectricalNodeAtPosition _ _ _) as [e|]; [|done].
    destruct (Nat.eqb s e); [done|]. by apply Hsnoc.
  - apply (fold_left_invariant P (λ _, True)); [|by apply Forall_forall|].
    + intros branches component Hbranches _.
      destruct (String.eqb (Component.type component) "ground"); [done|].
      destruct (Nat.leb 2 _); [|done].
      destruct (NodeAnalyzer.findElectricalNodeAtPosition _ _ _) as [s|]; [|done].
      destruct (NodeAnalyzer.findElectricalNodeAtPosition _ _ _) as [e|]; [|done].
      by apply Hsnoc.
    + intros i b Hlook. by rewrite lookup_nil in Hlook.
Qed.

Lemma append_prefix_inj (prefix a b : string) :
  prefix +:+ a = prefix +:+ b → a = b.
Proof. induction prefix as [|c prefix IH]; [done|]. cbn. intros [= ?]. auto. Qed.

Lemma NoDup_numbered {A} (f : A → string) (prefix : string) (l : list A) :
  (∀ k x, l !! k = Some x → f x = prefix +:+ pretty k) → NoDup (f <$> l).
Proof.
  intros Hnames. apply NoDup_alt. intros i j name Hi Hj.
  rewrite list_lookup_fmap in Hi, Hj.
  destruct (l !! i) as [x|] eqn:Hx; [|done].
  destruct (l !! j) as [y|] eqn:Hy; [|done].
  injection Hi as <-. injection Hj as Heq.
  rewrite (Hnames i x Hx), (Hnames j y Hy) in Heq.
  apply append_prefix_inj in Heq. by apply (inj pretty).
Qed.

(** X15: in every node analysis the [k]-th electrical node is
named [enode_k] and the [k]-th branch [branch_k], so no two nodes and no two
branches have the same identifier. *)
Theorem analysis_identifiers_are_numbered (circuit : Circuit.t) :
  let nodeAnalysis := NodeAnalyzer.analyzeNodes circuit in
  (∀ k node, NodeAnalysis.nodes nodeAnalysis !! k = Some node →
             ElectricalNode.id node = "enode_" +:+ pretty k) ∧
  (∀ k branch, NodeAnalysis.branches nodeAnalysis !! k = Some branch →
               Branch.id branch = "branch_" +:+ pretty k) ∧
  NoDup (ElectricalNode.id <$> NodeAnalysis.nodes nodeAnalysis) ∧
  NoDup (Branch.id <$> NodeAnalysis.branches nodeAnalysis).
Proof.
  cbv zeta. unfold NodeAnalyzer.analyzeNodes, NodeAnalyzer.analyzeNodesOf.
  cbn [NodeAnalysis.nodes NodeAnalysis.branches].
  split; [|split; [|split]].
  - intros k node. apply createElectricalNodes_ids.
  - intros k branch. apply identifyBranches_ids.
  - apply (NoDup_numbered _ "enode_"). intros k node. apply createElectricalNodes_ids.
  - apply (NoDup_numbered _ "branch_"). intros k branch. apply identifyBranches_ids.
Qed.

Lemma map_set_fresh_size {V} (m : JS.Map V) (k : string) (v : V) :
  JS.map_get m k = None → JS.map_size (JS.map_set m k v) = S (JS.map_size m).
Proof.
  unfold JS.map_size. induction m as [|[k' v'] m IH]; cbn [JS.map_set JS.map_get];
    [done|].
  destruct (String.eqb k' k); [done|]. intros Hm. cbn [length]. by rewrite IH.
Qed.

Lemma not_is_Some_None {V} (o : option V) : ¬ is_Some o → o = None.
Proof. destruct o; [|done]. intros []. by eexists. Qed.

(** The branch index map of branches with distinct identifiers. *)
Lemma branchIndexMap_spec (branches : list Branch.t) :
  NoDup (Branch.id <$> branches) →
  let m := fold_left (λ m '(index, branch), JS.map_set m (Branch.id branch) index)
                     (imap (λ i b, (i, b)) branches) [] in
  (∀ k branch, branches !! k = Some branch →
               JS.map_get m (Branch.id branch) = Some k) ∧
  JS.map_size m = length branches ∧
  ∀ key, is_Some (JS.map_get m key) → key ∈ Branch.id <$> branches.
Proof.
  induction branches as [|x l IH] using rev_ind; intros Hnodup.
  { cbn. split; [intros k b Hk; by rewrite lookup_nil in Hk|].
    split; [done|]. by intros key [? ?]. }
  rewrite fmap_app in Hnodup. apply NoDup_app in Hnodup as (Hl & Hfresh & _).
  specialize (IH Hl). cbv zeta in IH |- *.
  rewrite imap_pair_snoc, fold_left_app. cbn [fold_left].
  match goal with
  | |- context [fold_left ?f (imap ?g l) ?e] => set (m := fold_left f (imap g l) e) in *
  end.
  destruct IH as (Hget & Hsize & Hkeys).
  assert (JS.map_get m (Branch.id x) = None) as Hnew.
  { apply not_is_Some_None. intros Hsome. apply Hkeys in Hsome.
    apply (Hfresh _ Hsome). cbn. apply list_elem_of_here. }
  split; [|split].
  - intros k b Hk. rewrite map_get_set.
    apply lookup_app_Some in Hk as [Hk|[Hge Hk]].
    + destruct (String.eqb_spec (Branch.id x) (Branch.id b)) as [Heq|_];
        [|by apply Hget].
      exfalso. apply (Hfresh (Branch.id b)); [|rewrite <- Heq; cbn; apply list_elem_of_here].
      apply list_elem_of_fmap_2. by eapply list_elem_of_lookup_2.
    + apply list_lookup_singleton_Some in Hk as [Hi ->].
      rewrite String.eqb_refl. f_equal. lia.
  - rewrite map_set_fresh_size by done. rewrite Hsize, length_app. cbn. lia.
  - intros key Hkey. apply map_set_keys in Hkey as [<-|Hkey].
    + rewrite fmap_app. apply elem_of_app. right. cbn. apply list_elem_of_here.
    + rewrite fmap_app. apply elem_of_app. left. by apply Hkeys.
Qed.

(** The node index map of nodes with distinct identifiers, where [skip]
tells the ground node. *)
Lemma nodeIndexMap_spec (skip : string → bool) (nodes : list ElectricalNode.t) :
  NoDup (ElectricalNode.id <$> nodes) →
  let out := fold_left (λ '(m, nodeIndex) node,
                          if skip (ElectricalNode.id node) then (m, nodeIndex)
                          else (JS.map_set m (ElectricalNode.id node) nodeIndex,
                                S nodeIndex))
                       nodes ([], 0) in
  JS.map_size (fst out) = snd out ∧
  (∀ key index, JS.map_get (fst out) key = Some index →
                index < snd out ∧ skip key = false ∧
                key ∈ ElectricalNode.id <$> nodes) ∧
  (∀ key key' index, JS.map_get (fst out) key = Some index →
                     JS.map_get (fst out) key' = Some index → key = key') ∧
  ∀ node, node ∈ nodes → skip (ElectricalNode.id node) = false →
          is_Some (JS.map_get (fst out) (ElectricalNode.id node)).
Proof.
  induction nodes as [|x l IH] using rev_ind; intros Hnodup.
  { cbn. split; [done|]. split; [done|]. split; [done|].
    intros node Hin. by apply elem_of_nil in Hin. }
  rewrite fmap_app in Hnodup. apply NoDup_app in Hnodup as (Hl & Hfresh & _).
  specialize (IH Hl). cbv zeta in IH |- *.
  rewrite fold_left_app. cbn [fold_left].
  match goal with
  | |- context [fold_left ?f l ?e] => destruct (fold_left f l e) as [m n]
  end.
  cbn [fst snd] in IH.
  destruct IH as (Hsize & Hget & Hinj & Hcover).
  assert (∀ key, key ∈ ElectricalNode.id <$> l →
                 key ∈ ElectricalNode.id <$> l ++ [x]) as Hleft.
  { intros key Hkey. rewrite fmap_app. apply elem_of_app. by left. }
  assert (ElectricalNode.id x ∈ ElectricalNode.id <$> l ++ [x]) as Hlast.
  { rewrite fmap_app. apply elem_of_app. right. cbn. apply list_elem_of_here. }
  destruct (skip (ElectricalNode.id x)) eqn:Hskip; cbn [fst snd].
  - split; [done|]. split; [|split; [done|]].
    + intros key index Hkey. destruct (Hget key index Hkey) as (? & ? & ?). auto.
    + intros node [Hin|Hin]%elem_of_app Hnode; [by apply Hcover|].
      apply list_elem_of_singleton in Hin as ->. congruence.
  - assert (JS.map_get m (ElectricalNode.id x) = None) as Hnew.
    { apply not_is_Some_None. intros [index Hsome].
      destruct (Hget _ _ Hsome) as (_ & _ & Hin).
      apply (Hfresh _ Hin). cbn. apply list_elem_of_here. }
    split; [by rewrite map_set_fresh_size, Hsize|]. split; [|split].
    + intros key index. rewrite map_get_set.
      destruct (String.eqb_spec (ElectricalNode.id x) key) as [<-|Hne].
      * intros [= <-]. split; [lia|]. by split.
      * intros Hkey. destruct (Hget key index Hkey) as (? & ? & ?).
        split; [lia|]. auto.
    + intros key key' index. rewrite !map_get_set.
      destruct (String.eqb_spec (ElectricalNode.id x) key) as [<-|Hne];
        destruct (String.eqb_spec (ElectricalNode.id x) key') as [<-|Hne'].
      * done.
      * intros [= <-] Hkey'. destruct (Hget key' n Hkey') as (? & _). lia.
      * intros Hkey [= <-]. destruct (Hget key n Hkey) as (? & _). lia.
      * apply Hinj.
    + intros node [Hin|Hin]%elem_of_app Hnode.
      * apply map_set_keys. right. by apply Hcover.
      * apply list_elem_of_singleton in Hin as ->. apply map_set_keys. by left.
Qed.

(** X16: the index maps built from a node analysis.  The branch
index map sends the identifier of the [k]-th branch to [k] and has one entry
per branch.  The node index map sends different identifiers to different
indices, all below its size (the dimension [n] of the nodal matrices, so
every cell [addBranchToNodalMatrix] writes exists); it has an entry for every
node except the ground node, which is the first node marked as ground. *)
Theorem index_maps_number_nodes_and_branches (circuit : Circuit.t) :
  let nodeAnalysis := NodeAnalyzer.analyzeNodes circuit in
  let maps := CircuitMatrixBuilder.createIndexMappings nodeAnalysis in
  let nodeIndexMap := fst (fst maps) in
  let branchIndexMap := snd (fst maps) in
  let groundNodeId := snd maps in
  (∀ k branch, NodeAnalysis.branches nodeAnalysis !! k = Some branch →
               JS.map_get branchIndexMap (Branch.id branch) = Some k) ∧
  JS.map_size branchIndexMap = length (NodeAnalysis.branches nodeAnalysis) ∧
  (∀ id index, JS.map_get nodeIndexMap id = Some index →
               index < JS.map_size nodeIndexMap ∧ Some id ≠ groundNodeId) ∧
  (∀ id id' index, JS.map_get nodeIndexMap id = Some index →
                   JS.map_get nodeIndexMap id' = Some index → id = id') ∧
  (∀ node, node ∈ NodeAnalysis.nodes nodeAnalysis →
           Some (ElectricalNode.id node) ≠ groundNodeId →
           is_Some (JS.map_get nodeIndexMap (ElectricalNode.id node))) ∧
  (ElectricalNode.id <$> List.find ElectricalNode.isGround
                           (NodeAnalysis.nodes nodeAnalysis)) = groundNodeId.
Proof.
  intros nodeAnalysis maps nodeIndexMap branchIndexMap groundNodeId.
  assert (NoDup (ElectricalNode.id <$> NodeAnalysis.nodes nodeAnalysis)) as Hnodes.
  { apply (NoDup_numbered _ "enode_"). intros k node. apply createElectricalNodes_ids. }
  assert (NoDup (Branch.id <$> NodeAnalysis.branches nodeAnalysis)) as Hbranches.
  { apply (NoDup_numbered _ "branch_"). intros k branch. apply identifyBranches_ids. }
  subst nodeIndexMap branchIndexMap groundNodeId maps.
  unfold CircuitMatrixBuilder.createIndexMappings. cbv zeta. cbn [fst snd].
  set (ground := ElectricalNode.id <$> List.find ElectricalNode.isGround
                                         (NodeAnalysis.nodes nodeAnalysis)).
  set (skip := λ nid : string, match ground with
                               | Some g => String.eqb nid g
                               | None => false
                               end).
  destruct (branchIndexMap_spec _ Hbranches) as (Hget & Hsize & _).
  destruct (nodeIndexMap_spec skip _ Hnodes) as (Hnsize & Hnget & Hninj & Hncover).
  assert (∀ id, skip id = false ↔ Some id ≠ ground) as Hskip.
  { intros id. unfold skip. destruct ground as [g|]; [|done].
    destruct (String.eqb_spec id g) as [->|Hne]; split; congruence. }
  split; [exact Hget|]. split; [exact Hsize|]. split; [|split; [|split; [|done]]].
  - intros id index Hid. destruct (Hnget id index Hid) as (Hlt & Hs & _).
    split; [|by apply Hskip].
    eapply Nat.lt_le_trans; [exact Hlt|]. apply Nat.eq_le_incl. symmetry. exact Hnsize.
  - exact Hninj.
  - intros node Hin Hnode. apply Hncover; [done|]. by apply Hskip.
Qed.

(** ** The meshes found *)

Lemma followPath_from_branches fuel allBranches startNode mesh currentNode
    (visited : gset string) :
  Forall (λ branch, branch ∈ allBranches) mesh →
  Forall (λ branch, branch ∈ allBranches)
         (fst (NodeAnalyzer.followPath fuel allBranches startNode mesh currentNode
                 visited)).
Proof.
  revert mesh currentNode visited.
  induction fuel as [|fuel IH]; intros mesh currentNode visited Hmesh; [done|].
  cbn [NodeAnalyzer.followPath].
  destruct (String.eqb currentNode startNode); [done|].
  destruct (List.find _ allBranches) as [nextBranch|] eqn:Hfind; [|done].
  apply IH. apply Forall_app. split; [done|]. constructor; [|done].
  apply List.find_some in Hfind as [Hin _]. by apply list_elem_of_In.
Qed.

(** What the loop of [findMeshes] keeps: every mesh holds branches of the
list only, and the [k]-th mesh is named [mesh_k]. *)
Lemma findMeshes_from_branches (nodes : list ElectricalNode.t)
    (branches : list Branch.t) :
  Forall (λ mesh, Forall (λ branch, branch ∈ branches) (Mesh.branches mesh))
         (NodeAnalyzer.findMeshes nodes branches) ∧
  ∀ k mesh, NodeAnalyzer.findMeshes nodes branches !! k = Some mesh →
            Mesh.id mesh = "mesh_" +:+ pretty k.
Proof.
  unfold NodeAnalyzer.findMeshes.
  set (P := λ st : list Mesh.t * gset string,
         Forall (λ mesh, Forall (λ branch, branch ∈ branches) (Mesh.branches mesh))
                (fst st) ∧
         ∀ k mesh, fst st !! k = Some mesh → Mesh.id mesh = "mesh_" +:+ pretty k).
  change (P (fold_left (NodeAnalyzer.findMeshesStep branches) branches ([], ∅))).
  apply (fold_left_invariant P (λ branch, branch ∈ branches));
    [|by apply Forall_forall|].
  - intros [meshes visited] startBranch [Hfrom Hnames] Hstart.
    unfold NodeAnalyzer.findMeshesStep.
    destruct (bool_decide _); [done|].
    pose proof (followPath_from_branches (length branches + 1) branches
                  (Branch.startNodeId startBranch) [startBranch]
                  (Branch.endNodeId startBranch)
                  ({[Branch.id startBranch]} ∪ visited)) as Hpath.
    unfold NodeAnalyzer.findMeshFromBranch. cbv zeta.
    destruct (NodeAnalyzer.followPath _ _ _ _ _ _) as [mesh visited'].
    cbn [fst] in Hpath. specialize (Hpath ltac:(by constructor)).
    destruct (Nat.ltb 2 (length mesh)); [|done].
    split; cbn [fst] in *.
    + apply Forall_app. split; [done|]. by constructor.
    + intros k m Hk. apply lookup_app_Some in Hk as [Hk|[Hge Hk]]; [by apply Hnames|].
      apply list_lookup_singleton_Some in Hk as [Hi <-]. cbn [Mesh.id].
      replace k with (length meshes) by lia. done.
  - split; [constructor|]. intros k mesh Hk. cbn [fst] in Hk.
    by rewrite lookup_nil in Hk.
Qed.

Lemma meshBranchIds_length (meshes : list Mesh.t) :
  Forall (λ mesh, 2 < length (Mesh.branches mesh)) meshes →
  3 * length meshes ≤ length (meshBranchIds meshes).
Proof.
  unfold meshBranchIds. induction 1 as [|mesh meshes Hmesh _ IH]; [done|].
  rewrite bind_cons, length_app, length_fmap. cbn [length]. lia.
Qed.

(** X17: the meshes [findMeshes] records never share a branch: no
branch identifier occurs in two meshes or twice in one.  Every mesh has at
least three branches, all taken from the list of branches, and the [k]-th
mesh is named [mesh_k]; so there are at most a third as many meshes as
branches. *)
Theorem meshes_are_disjoint_and_few (nodes : list ElectricalNode.t)
    (branches : list Branch.t) :
  let meshes := NodeAnalyzer.findMeshes nodes branches in
  (∀ i j mesh_i mesh_j,
     i ≠ j → meshes !! i = Some mesh_i → meshes !! j = Some mesh_j →
     CircuitMatrixBuilder.findSharedBranches mesh_i mesh_j = []) ∧
  NoDup (meshBranchIds meshes) ∧
  Forall (λ mesh, 2 < length (Mesh.branches mesh) ∧
                  Forall (λ branch, branch ∈ branches) (Mesh.branches mesh))
         meshes ∧
  (∀ k mesh, meshes !! k = Some mesh → Mesh.id mesh = "mesh_" +:+ pretty k) ∧
  3 * length meshes ≤ length branches.
Proof.
  intros meshes.
  pose proof (findMeshes_length nodes branches) as Hlong.
  pose proof (findMeshes_disjoint nodes branches) as Hnodup.
  destruct (findMeshes_from_branches nodes branches) as [Hfrom Hnames].
  fold meshes in Hlong, Hnodup, Hfrom, Hnames.
  split; [|split; [done|split; [|split; [done|]]]].
  - intros i j mesh_i mesh_j. apply findMeshes_share_no_branch.
  - apply Forall_forall. intros mesh Hin.
    rewrite Forall_forall in Hlong, Hfrom. split; auto.
  - pose proof (meshBranchIds_length meshes Hlong) as Hmany.
    assert (length (meshBranchIds meshes) ≤ length (Branch.id <$> branches)) as Hfew.
    { apply submseteq_length, NoDup_submseteq; [done|].
      intros id Hid. unfold meshBranchIds in Hid.
      apply list_elem_of_bind in Hid as (mesh & Hid & Hmesh).
      apply list_elem_of_fmap in Hid as (branch & -> & Hbranch).
      apply list_elem_of_fmap_2.
      rewrite Forall_forall in Hfrom. specialize (Hfrom mesh Hmesh).
      rewrite Forall_forall in Hfrom. by apply Hfrom. }
    rewrite length_fmap in Hfew. lia.
Qed.

(** The voltage vector of the meshes. *)
Lemma buildMeshVoltageVector_spec (meshes : list Mesh.t) (E0 E : list float) :
  length meshes ≤ length E0 →
  CircuitMatrixBuilder.buildMeshVoltageVector meshes E0 = inr E →
  length E = length E0 ∧
  ∀ i mesh, meshes !! i = Some mesh →
            CircuitMatrixBuilder.meshVoltage mesh = inr (JS.get E i).
Proof.
  unfold CircuitMatrixBuilder.buildMeshVoltageVector, JS.foldThrow.
  revert E. induction meshes as [|x l IH] using rev_ind; intros E Hlen.
  { cbn. intros [= <-]. split; [done|]. intros i mesh Hi. by rewrite lookup_nil in Hi. }
  rewrite length_app in Hlen. cbn [length] in Hlen.
  rewrite imap_pair_snoc, fold_left_app. cbn [fold_left].
  destruct (fold_left _ (imap _ l) (inr E0)) as [thrown|E1] eqn:Hprefix; [done|].
  destruct (IH E1 ltac:(lia) eq_refl) as [HE1 Hget].
  cbn [JS.bind].
  destruct (CircuitMatrixBuilder.meshVoltage x) as [thrown|voltage] eqn:Hx; [done|].
  cbn [JS.bind]. intros [= <-]. split; [by rewrite length_insert|].
  intros i mesh Hi. unfold JS.get.
  apply lookup_app_Some in Hi as [Hi|[Hge Hi]].
  - rewrite list_lookup_insert_ne by (apply lookup_lt_Some in Hi; lia).
    by apply Hget.
  - apply list_lookup_singleton_Some in Hi as [Hi ->].
    replace i with (length l) by lia.
    rewrite list_lookup_insert_eq by lia. done.
Qed.

(** X18: because the meshes of a node analysis share no branch, the
mesh system built for a circuit is decoupled: the matrix is [m x m] with the
sum of the real impedances of mesh [i] at [(i, i)] and 0 everywhere else, and
entry [i] of the right-hand side is the sum of the values of the voltage
sources of mesh [i]. *)
Theorem analyzed_mesh_system_is_decoupled (circuit : Circuit.t) (method : string)
    (matrices : Matrices.t) :
  let nodeAnalysis := NodeAnalyzer.analyzeNodes circuit in
  let meshes := Topology.meshes (NodeAnalysis.topology nodeAnalysis) in
  method = "mesh" ∨ method = "mesh_modified" →
  CircuitMatrixBuilder.buildSystemMatrices circuit nodeAnalysis method
    = CircuitMatrixBuilder.Built matrices →
  ∃ Z E,
    Matrices.systemMatrix matrices = Some Z ∧
    Matrices.rightHandSide matrices = Some E ∧
    length Z = length meshes ∧ length E = length meshes ∧
    ∀ i mesh_i,
      meshes !! i = Some mesh_i →
      JS.get2 Z i i = CircuitMatrixBuilder.sumRealImpedance (Mesh.branches mesh_i) ∧
      CircuitMatrixBuilder.meshVoltage mesh_i = inr (JS.get E i) ∧
      ∀ j, j < length meshes → j ≠ i →
           JS.get2 Z i j = 0%float ∧ JS.get2 Z j i = 0%float.
Proof.
  intros nodeAnalysis meshes Hmethod Hbuilt.
  pose proof (buildSystemMatrices_mesh _ _ _ _ Hmethod Hbuilt) as HZ.
  cbv zeta in HZ. fold meshes in HZ.
  assert (∃ E, Matrices.rightHandSide matrices = Some E ∧
               CircuitMatrixBuilder.buildMeshVoltageVector meshes
                 (JS.fill (length meshes) 0%float) = inr E) as (E & HE & Hvector).
  { unfold CircuitMatrixBuilder.buildSystemMatrices in Hbuilt.
    destruct (CircuitMatrixBuilder.createIndexMappings nodeAnalysis)
      as [[nodeIndexMap branchIndexMap] groundNodeId].
    assert (∃ b, CircuitMatrixBuilder.buildMeshMatrices nodeAnalysis = inr b ∧
                 Matrices.rightHandSide matrices
                 = Some (CircuitMatrixBuilder.b_rightHandSide b)) as (b & Hb & HR).
    { destruct Hmethod as [-> | ->]; simpl in Hbuilt;
        destruct (CircuitMatrixBuilder.buildMeshMatrices nodeAnalysis) as [e|b];
        simpl in Hbuilt; [done| |done|]; injection Hbuilt as <-; by exists b. }
    unfold CircuitMatrixBuilder.buildMeshMatrices in Hb. fold meshes in Hb.
    destruct (Nat.eqb (length meshes) 0); [done|].
    destruct (CircuitMatrixBuilder.buildMeshVoltageVector meshes _) as [thrown|E];
      [done|].
    injection Hb as <-. by exists E. }
  apply buildMeshVoltageVector_spec in Hvector as [HlenE Hvoltage];
    [|unfold JS.fill; by rewrite length_replicate].
  eexists _, E. split; [exact HZ|]. split; [exact HE|].
  split; [|split; [unfold JS.fill in HlenE; by rewrite length_replicate in HlenE|]].
  { rewrite buildMeshImpedanceMatrix_loop.
    destruct (meshRowsLoop_rows meshes meshes
                (CircuitMatrixBuilder.createMatrix (length meshes) (length meshes)))
      as [Hrows _].
    - unfold CircuitMatrixBuilder.createMatrix. by rewrite length_replicate.
    - rewrite Hrows. unfold CircuitMatrixBuilder.createMatrix.
      by rewrite length_replicate. }
  intros i mesh_i Hi. split; [|split; [by apply Hvoltage|]].
  - rewrite (buildMeshImpedanceMatrix_cell meshes i i mesh_i mesh_i Hi Hi).
    unfold meshCell. by rewrite Nat.eqb_refl.
  - intros j Hj Hji.
    destruct (lookup_lt_is_Some_2 meshes j Hj) as [mesh_j Hmesh_j].
    rewrite (buildMeshImpedanceMatrix_cell meshes i j mesh_i mesh_j Hi Hmesh_j).
    rewrite (buildMeshImpedanceMatrix_cell meshes j i mesh_j mesh_i Hmesh_j Hi).
    unfold meshCell.
    rewrite (proj2 (Nat.eqb_neq i j)) by done.
    rewrite (proj2 (Nat.eqb_neq j i)) by done.
    rewrite (findMeshes_share_no_branch (NodeAnalysis.nodes nodeAnalysis)
               (NodeAnalysis.branches nodeAnalysis) i j mesh_i mesh_j) by done.
    rewrite (findMeshes_share_no_branch (NodeAnalysis.nodes nodeAnalysis)
               (NodeAnalysis.branches nodeAnalysis) j i mesh_j mesh_i) by done.
    done.
Qed.

Lemma analyzed_mesh_system_is_decoupled_witness :
  let nodeAnalysis := NodeAnalyzer.analyzeNodes twoTriangles in
  CircuitAnalyzer.selectOptimalMethod nodeAnalysis = "mesh" ∧
  ∃ matrices,
    CircuitMatrixBuilder.buildSystemMatrices twoTriangles nodeAnalysis "mesh"
    = CircuitMatrixBuilder.Built matrices ∧
    Matrices.systemMatrix matrices = Some [[2000; 0]; [0; 3000]]%float ∧
    Matrices.rightHandSide matrices = Some [12; 0]%float.
Proof.
  split; [vm_compute; reflexivity|].
  destruct (CircuitMatrixBuilder.buildSystemMatrices twoTriangles
              (NodeAnalyzer.analyzeNodes twoTriangles) "mesh")
    as [matrices|error] eqn:Hbuilt; [|by vm_compute in Hbuilt].
  exists matrices. split; [done|].
  destruct (analyzed_mesh_system_is_decoupled twoTriangles "mesh" matrices
              (or_introl eq_refl) Hbuilt) as (Z & E & HZ & HE & _).
  vm_compute in Hbuilt. injection Hbuilt as <-. split; reflexivity.
Defined.

(** ** The solving methods: when they fail and what they return *)

Lemma luStep_run (n i : nat) (L U : list (list float)) :
  JS.lt (abs (pivotAfterSwap U n i)) EquationSolver.tolerance = false →
  ∃ LU, EquationSolver.luStep n (inr (L, U)) i = inr LU.
Proof.
  intros Hbig. unfold EquationSolver.luStep, pivotAfterSwap in *.
  destruct (negb (Nat.eqb (EquationSolver.findPivotRow U n i) i));
    rewrite Hbig; by eexists.
Qed.

Lemma luFactorisation_throws_iff (n : nat) (A : list (list float)) (i : nat) :
  EquationSolver.luFactorisation n A = inl i ↔ luSmallPivotArises n A i.
Proof.
  split; [|apply luFactorisation_throws].
  unfold EquationSolver.luFactorisation, luSmallPivotArises.
  set (start := inr (EquationSolver.createIdentityMatrix n, EquationSolver.cloneMatrix A)).
  assert (∀ k, fold_left (EquationSolver.luStep n) (seq 0 k) start = inl i →
               i < k ∧
               ∃ L U, fold_left (EquationSolver.luStep n) (seq 0 i) start = inr (L, U) ∧
                      JS.lt (abs (pivotAfterSwap U n i)) EquationSolver.tolerance = true)
    as Hk.
  { induction k as [|k IH]; [done|].
    rewrite seq_S, fold_left_app. cbn [fold_left Nat.add].
    destruct (fold_left (EquationSolver.luStep n) (seq 0 k) start)
      as [thrown|[L U]] eqn:Hprefix.
    - cbn [EquationSolver.luStep]. intros [= ->]. destruct (IH eq_refl) as [Hlt Hrest].
      split; [lia|exact Hrest].
    - destruct (JS.lt (abs (pivotAfterSwap U n k)) EquationSolver.tolerance) eqn:Hsmall.
      + rewrite (luStep_pivot n k L U Hsmall). intros [= <-]. split; [lia|].
        exists L, U. by rewrite Hprefix.
      + destruct (luStep_run n k L U Hsmall) as [LU ->]. done. }
  apply Hk.
Qed.

(** X19: on a square system each direct method gives an invalid
result exactly when its abort condition arises: Gaussian elimination and the
LU factorisation when some round meets a pivot of magnitude below [1e-10]
after the row exchange, Cramer's rule when the magnitude of the determinant
is below [1e-10].  Nothing else makes them fail. *)
Theorem direct_methods_fail_exactly_on_a_small_pivot (A : list (list float))
    (b : list float) :
  let n := length A in
  isSquareSystem A b = true →
  (Solution.isValid (EquationSolver.gaussianElimination A b) = false
   ↔ ∃ i, smallPivotArises n (augment A b) i) ∧
  (Solution.isValid (EquationSolver.luDecomposition A b) = false
   ↔ ∃ i, luSmallPivotArises n A i) ∧
  (Solution.isValid (EquationSolver.cramerRule A b) = false
   ↔ JS.lt (abs (EquationSolver.calculateDeterminant A)) EquationSolver.tolerance = true).
Proof.
  intros n _. split; [|split].
  - unfold EquationSolver.gaussianElimination. fold n. fold (augment A b).
    destruct (EquationSolver.forwardElimination n (augment A b)) as [i|reached] eqn:Hf.
    + split; [|done]. intros _. exists i. by apply forwardElimination_throws.
    + split; [done|]. intros [i Hi]. apply forwardElimination_throws in Hi. congruence.
  - unfold EquationSolver.luDecomposition. fold n.
    destruct (EquationSolver.luFactorisation n A) as [i|[L U]] eqn:Hf.
    + split; [|done]. intros _. exists i. by apply luFactorisation_throws_iff.
    + split; [done|]. intros [i Hi]. apply luFactorisation_throws_iff in Hi. congruence.
  - unfold EquationSolver.cramerRule. by destruct (JS.lt _ _).
Qed.

Lemma direct_methods_fail_exactly_on_a_small_pivot_witness :
  let A := [[2; 1]; [1; 3]]%float in
  let b := [3; 5]%float in
  Solution.isValid (EquationSolver.gaussianElimination A b) = true ∧
  (¬ ∃ i, smallPivotArises 2 (augment A b) i) ∧
  Solution.values (EquationSolver.gaussianElimination A b) = Some [0.8; 1.4]%float.
Proof.
  split; [vm_compute; reflexivity|]. split; [|vm_compute; reflexivity].
  intros Harises.
  apply (proj1 (direct_methods_fail_exactly_on_a_small_pivot
                  [[2; 1]; [1; 3]]%float [3; 5]%float eq_refl)) in Harises.
  vm_compute in Harises. discriminate.
Defined.

Lemma fold_left_keeps_length {A B} (step : list A → B → list A) (l : list B)
    (x : list A) :
  (∀ x i, length (step x i) = length x) →
  length (fold_left step l x) = length x.
Proof.
  intros Hstep. revert x. induction l as [|i l IH]; intros x; [done|].
  cbn [fold_left]. by rewrite IH, Hstep.
Qed.

Ltac keeps_length :=
  rewrite fold_left_keeps_length;
  [try apply length_replicate | intros; cbv zeta; apply length_insert].

Lemma backSubstitution_length (n : nat) (U : list (list float)) (rhs : nat → float) :
  length (EquationSolver.backSubstitution n U rhs) = n.
Proof. unfold EquationSolver.backSubstitution. keeps_length. Qed.

Lemma jacobiSweep_length (A : list (list float)) (b x xNew : list float) :
  length (EquationSolver.jacobiSweep A b x xNew) = length xNew.
Proof. unfold EquationSolver.jacobiSweep. cbv zeta. by keeps_length. Qed.

Lemma gaussSeidelSweep_length (A : list (list float)) (b x : list float) :
  length (EquationSolver.gaussSeidelSweep A b x) = length x.
Proof. unfold EquationSolver.gaussSeidelSweep. cbv zeta. by keeps_length. Qed.

Lemma jacobiLoop_length (fuel : nat) (A : list (list float)) (b : list float)
    (iter : nat) (x xNew residuals : list float) :
  length x = length A → length xNew = length A →
  ∃ v, Solution.values (EquationSolver.jacobiLoop fuel A b iter x xNew residuals)
       = Some v ∧ length v = length A.
Proof.
  revert iter x xNew residuals.
  induction fuel as [|fuel IH]; intros iter x xNew residuals Hx HxNew;
    cbn [EquationSolver.jacobiLoop].
  - by exists x.
  - cbv zeta. destruct (JS.lt _ _).
    + eexists. split; [done|]. by rewrite jacobiSweep_length.
    + apply IH; by rewrite jacobiSweep_length.
Qed.

Lemma gaussSeidelLoop_length (fuel : nat) (A : list (list float)) (b : list float)
    (iter : nat) (x residuals : list float) :
  length x = length A →
  ∃ v, Solution.values (EquationSolver.gaussSeidelLoop fuel A b iter x residuals)
       = Some v ∧ length v = length A.
Proof.
  revert iter x residuals.
  induction fuel as [|fuel IH]; intros iter x residuals Hx;
    cbn [EquationSolver.gaussSeidelLoop].
  - by exists x.
  - cbv zeta. destruct (JS.lt _ _).
    + eexists. split; [done|]. by rewrite gaussSeidelSweep_length.
    + apply IH. by rewrite gaussSeidelSweep_length.
Qed.

(** X20: on a square system of [n] rows each of the six solving
methods returns a vector of exactly [n] values, whether the result is valid
or not. *)
Theorem every_method_returns_one_value_per_row (A : list (list float))
    (b : list float) :
  isSquareSystem A b = true →
  Forall (λ result,
            ∃ x, Solution.values result = Some x ∧ length x = length A)
         [EquationSolver.gaussianElimination A b;
          EquationSolver.luDecomposition A b;
          EquationSolver.choleskyDecomposition A b;
          EquationSolver.jacobiMethod A b;
          EquationSolver.gaussSeidelMethod A b;
          EquationSolver.cramerRule A b].
Proof.
  intros _.
  assert (length (JS.fill (length A) 0%float) = length A) as Hzeros
    by apply length_replicate.
  repeat constructor.
  - unfold EquationSolver.gaussianElimination. cbv zeta.
    destruct (EquationSolver.forwardElimination _ _); eexists; (split; [done|]);
      [done|apply backSubstitution_length].
  - unfold EquationSolver.luDecomposition. cbv zeta.
    destruct (EquationSolver.luFactorisation _ _) as [|[L U]]; eexists;
      (split; [done|]); [done|apply backSubstitution_length].
  - unfold EquationSolver.choleskyDecomposition. cbv zeta.
    destruct (EquationSolver.choleskyFactorisation _ _) as [|L]; eexists;
      (split; [done|]); [done|].
    keeps_length.
  - unfold EquationSolver.jacobiMethod. cbv zeta.
    apply jacobiLoop_length; apply length_replicate.
  - unfold EquationSolver.gaussSeidelMethod.
    apply gaussSeidelLoop_length; apply length_replicate.
  - unfold EquationSolver.cramerRule. cbv zeta.
    destruct (JS.lt _ _); eexists; (split; [done|]); [done|].
    keeps_length.
Qed.

Lemma every_method_returns_one_value_per_row_witness :
  let A := [[4; 1]; [1; 3]]%float in
  let b := [1; 2]%float in
  Forall (λ result, ∃ x, Solution.values result = Some x ∧ length x = 2)
         [EquationSolver.gaussianElimination A b;
          EquationSolver.luDecomposition A b;
          EquationSolver.choleskyDecomposition A b;
          EquationSolver.jacobiMethod A b;
          EquationSolver.gaussSeidelMethod A b;
          EquationSolver.cramerRule A b].
Proof.
  exact (every_method_returns_one_value_per_row [[4; 1]; [1; 3]]%float [1; 2]%float
           eq_refl).
Defined.

Lemma jacobiLoop_report (limit fuel : nat) (A : list (list float)) (b : list float)
    (iter : nat) (x xNew residuals : list float) :
  iter + fuel = limit → length residuals = iter →
  Forall (λ r, JS.lt r EquationSolver.tolerance = false) residuals →
  convergenceReport A b limit "jacobi_iterative"
    ("Error en método Jacobi: Jacobi no convergió en " +:+
     pretty EquationSolver.maxIterations +:+ " iteraciones")
    (EquationSolver.jacobiLoop fuel A b iter x xNew residuals).
Proof.
  revert iter x xNew residuals.
  induction fuel as [|fuel IH]; intros iter x xNew residuals Hlimit Hlength Hlarge;
    cbn [EquationSolver.jacobiLoop].
  - unfold convergenceReport. cbn. repeat split; [lia|done].
  - cbv zeta.
    destruct (JS.lt (EquationSolver.calculateResidual A b
                       (EquationSolver.jacobiSweep A b x xNew))
                    EquationSolver.tolerance) eqn:Hsmall.
    + unfold convergenceReport. cbn [Solution.isValid].
      exists (iter + 1), (EquationSolver.jacobiSweep A b x xNew), residuals.
      cbn. repeat split; try done; lia.
    + apply IH; [lia|rewrite length_app; cbn; lia|].
      apply Forall_app. split; [done|]. by constructor.
Qed.

Lemma gaussSeidelLoop_report (limit fuel : nat) (A : list (list float))
    (b : list float) (iter : nat) (x residuals : list float) :
  iter + fuel = limit → length residuals = iter →
  Forall (λ r, JS.lt r EquationSolver.tolerance = false) residuals →
  convergenceReport A b limit "gauss_seidel_iterative"
    ("Error en método Gauss-Seidel: Gauss-Seidel no convergió en " +:+
     pretty EquationSolver.maxIterations +:+ " iteraciones")
    (EquationSolver.gaussSeidelLoop fuel A b iter x residuals).
Proof.
  revert iter x residuals.
  induction fuel as [|fuel IH]; intros iter x residuals Hlimit Hlength Hlarge;
    cbn [EquationSolver.gaussSeidelLoop].
  - unfold convergenceReport. cbn. repeat split; [lia|done].
  - cbv zeta.
    destruct (JS.lt (EquationSolver.calculateResidual A b
                       (EquationSolver.gaussSeidelSweep A b x))
                    EquationSolver.tolerance) eqn:Hsmall.
    + unfold convergenceReport. cbn [Solution.isValid].
      exists (iter + 1), (EquationSolver.gaussSeidelSweep A b x), residuals.
      cbn. repeat split; try done; lia.
    + apply IH; [lia|rewrite length_app; cbn; lia|].
      apply Forall_app. split; [done|]. by constructor.
Qed.

(** X21: Jacobi and Gauss-Seidel stop at the first sweep whose
residual is below [1e-10].  A valid result reports the number [k] of sweeps,
between 1 and 1000, and [k] residuals of which only the last, the residual of
the returned values, is below the tolerance.  An invalid result carries 1000
residuals, none below the tolerance, and the text that the method did not
converge in 1000 iterations. *)
Theorem iterative_methods_stop_at_first_small_residual (A : list (list float))
    (b : list float) :
  convergenceReport A b 1000 "jacobi_iterative"
    "Error en método Jacobi: Jacobi no convergió en 1000 iteraciones"
    (EquationSolver.jacobiMethod A b) ∧
  convergenceReport A b 1000 "gauss_seidel_iterative"
    "Error en método Gauss-Seidel: Gauss-Seidel no convergió en 1000 iteraciones"
    (EquationSolver.gaussSeidelMethod A b).
Proof.
  split.
  - exact (jacobiLoop_report EquationSolver.maxIterations EquationSolver.maxIterations
             A b 0 _ _ [] eq_refl eq_refl (Forall_nil_2 _)).
  - exact (gaussSeidelLoop_report EquationSolver.maxIterations
             EquationSolver.maxIterations A b 0 _ [] eq_refl eq_refl (Forall_nil_2 _)).
Qed.

(** ** Topology: a bridge is taken for a ladder *)

Lemma uniqueNat_elem (seen xs : list nat) (x : nat) :
  x ∈ NodeAnalyzer.uniqueNat seen xs ↔ x ∈ seen ∨ x ∈ xs.
Proof.
  revert seen. induction xs as [|y xs IH]; intros seen; cbn [NodeAnalyzer.uniqueNat].
  - split; [by left|]. intros [Hx|Hx]; [done|]. by apply elem_of_nil in Hx.
  - destruct (existsb (Nat.eqb y) seen) eqn:Hseen; rewrite IH.
    + apply existsb_exists in Hseen as (z & Hz & Heq).
      apply Nat.eqb_eq in Heq as <-. apply list_elem_of_In in Hz.
      rewrite elem_of_cons. split; [intros [?|?]; auto|].
      intros [?|[->|?]]; auto.
    + rewrite elem_of_app, list_elem_of_singleton, elem_of_cons. tauto.
Qed.

Lemma uniqueNat_NoDup (seen xs : list nat) :
  NoDup seen → NoDup (NodeAnalyzer.uniqueNat seen xs).
Proof.
  revert seen. induction xs as [|y xs IH]; intros seen Hseen;
    cbn [NodeAnalyzer.uniqueNat]; [done|].
  destruct (existsb (Nat.eqb y) seen) eqn:Hy; apply IH; [done|].
  apply NoDup_app. split; [done|]. split; [|apply NoDup_singleton].
  intros z Hz ->%list_elem_of_singleton.
  assert (existsb (Nat.eqb y) seen = true) as Hin; [|congruence].
  apply existsb_exists. exists y. split; [by apply list_elem_of_In|apply Nat.eqb_refl].
Qed.

Lemma two_counts_cover {A} (P Q : A → Prop) `{!∀ x, Decision (P x)}
    `{!∀ x, Decision (Q x)} (l : list A) :
  (∀ x, P x → Q x → False) →
  length (filter P l) + length (filter Q l) ≤ length l ∧
  (length (filter P l) + length (filter Q l) = length l → Forall (λ x, P x ∨ Q x) l).
Proof.
  intros Hdisjoint. induction l as [|x l [IHle IHall]]; [by split|].
  destruct (decide (P x)) as [HP|HP]; destruct (decide (Q x)) as [HQ|HQ].
  - destruct (Hdisjoint x HP HQ).
  - rewrite (filter_cons_True P) by done. rewrite (filter_cons_False Q) by done.
    cbn [length]. split; [lia|]. intros Hsum. constructor; [by left|]. apply IHall. lia.
  - rewrite (filter_cons_False P) by done. rewrite (filter_cons_True Q) by done.
    cbn [length]. split; [lia|]. intros Hsum. constructor; [by right|]. apply IHall. lia.
  - rewrite (filter_cons_False P) by done. rewrite (filter_cons_False Q) by done.
    cbn [length]. split; [lia|]. intros Hsum. lia.
Qed.

Lemma filter_nonempty_elem {A} (P : A → Prop) `{!∀ x, Decision (P x)} (l : list A) :
  0 < length (filter P l) → ∃ x, x ∈ l ∧ P x.
Proof.
  destruct (filter P l) as [|x rest] eqn:Hfilter; cbn [length]; [lia|]. intros _.
  assert (x ∈ filter P l) as Hx by (rewrite Hfilter; left).
  apply list_elem_of_filter in Hx as [HP Hx]. by exists x.
Qed.

Lemma detectBridge_is_ladder (nodes : list ElectricalNode.t) (branches : list Branch.t) :
  NodeAnalyzer.detectBridgeCircuit nodes branches = true →
  NodeAnalyzer.detectLadderCircuit nodes branches = true.
Proof.
  unfold NodeAnalyzer.detectBridgeCircuit, NodeAnalyzer.detectLadderCircuit.
  destruct (Nat.eqb_spec (length nodes) 5) as [Hfive|]; cbn [negb]; [|done].
  intros [Hthree Htwo]%andb_prop.
  apply Nat.eqb_eq in Hthree, Htwo.
  destruct (two_counts_cover (λ n, NodeAnalyzer.connectionCount n = 3)
              (λ n, NodeAnalyzer.connectionCount n = 2) nodes) as [_ Hall]; [congruence|].
  specialize (Hall ltac:(lia)).
  destruct (filter_nonempty_elem (λ n, NodeAnalyzer.connectionCount n = 3) nodes)
    as (n3 & Hn3 & Hc3); [lia|].
  destruct (filter_nonempty_elem (λ n, NodeAnalyzer.connectionCount n = 2) nodes)
    as (n2 & Hn2 & Hc2); [lia|].
  set (unique := NodeAnalyzer.uniqueNat [] (map NodeAnalyzer.connectionCount nodes)).
  assert (∀ k, k ∈ unique ↔ k ∈ [2; 3]) as Hunique.
  { intros k. unfold unique. rewrite uniqueNat_elem. split.
    - intros [Hk|Hk]; [by apply elem_of_nil in Hk|].
      apply list_elem_of_In, in_map_iff in Hk as (n & <- & Hn%list_elem_of_In).
      rewrite Forall_forall in Hall.
      destruct (Hall n Hn) as [->| ->]; repeat constructor.
    - intros Hk. right. apply list_elem_of_In, in_map_iff.
      apply elem_of_cons in Hk as [->|Hk]; [exists n2; by rewrite <- list_elem_of_In|].
      apply list_elem_of_singleton in Hk as ->. exists n3. by rewrite <- list_elem_of_In. }
  assert (length unique = 2) as ->.
  { apply (Permutation_length (l' := [2; 3])).
    apply NoDup_Permutation; [apply uniqueNat_NoDup, NoDup_nil_2| |exact Hunique].
    apply NoDup_cons. split; [|apply NoDup_singleton].
    by intros ?%list_elem_of_singleton. }
  assert (∀ k, k ∈ unique → existsb (Nat.eqb k) unique = true) as Hexists.
  { intros k Hk. apply existsb_exists. exists k.
    split; [by apply list_elem_of_In|apply Nat.eqb_refl]. }
  rewrite !Hexists; [done| |]; apply Hunique; repeat constructor.
Qed.

(** X22: whenever [detectBridgeCircuit] answers yes, so does
[detectLadderCircuit]: five nodes, four with three connections and one with
two, have exactly the connection counts 2 and 3.  As the ladder is asked
first, the description of such a topology is never [puente]: it is [serie],
[paralelo] or [escalera]. *)
Theorem bridge_is_reported_as_ladder (nodes : list ElectricalNode.t)
    (branches : list Branch.t) :
  NodeAnalyzer.detectBridgeCircuit nodes branches = true →
  let topology := NodeAnalyzer.analyzeTopology nodes branches in
  Topology.isBridgeCircuit topology = true ∧
  Topology.isLadderCircuit topology = true ∧
  Topology.description topology ∈ ["serie"; "paralelo"; "escalera"].
Proof.
  intros Hbridge. pose proof (detectBridge_is_ladder nodes branches Hbridge) as Hladder.
  unfold NodeAnalyzer.analyzeTopology. cbn. rewrite Hladder.
  split; [done|]. split; [done|].
  destruct (NodeAnalyzer.detectSeriesCircuit nodes branches);
    [|destruct (NodeAnalyzer.detectParallelCircuit nodes branches)];
    repeat constructor.
Qed.

Lemma bridge_is_reported_as_ladder_witness :
  Topology.isLadderCircuit (NodeAnalyzer.analyzeTopology bridgeNodes []) = true ∧
  Topology.description (NodeAnalyzer.analyzeTopology bridgeNodes [])
    ∈ ["serie"; "paralelo"; "escalera"].
Proof.
  exact (proj2 (bridge_is_reported_as_ladder bridgeNodes [] eq_refl)).
Defined.

(** ** Impedance: the node analyzer and the Ohm's-law helper *)

(** X23: for resistors, capacitors, inductors and sources the
impedance the node analyzer gives a branch is the impedance the Ohm's-law
helper computes, at every frequency; so the impedance the coordinator reports
for such a component is the one its branch was built with. *)
Theorem branch_and_reported_impedance_agree (component : Component.t)
    (frequency : float) :
  Component.type component ∈ ["resistor"; "capacitor"; "inductor"; "voltage"; "current"] →
  NodeAnalyzer.getComponentImpedance component frequency
  = OhmLawHelper.calculateImpedance component frequency ∧
  NodeAnalyzer.getComponentImpedance component 0
  = CircuitAnalyzer.getComponentImpedance component.
Proof.
  intros Htype.
  assert (∀ f, NodeAnalyzer.getComponentImpedance component f
               = OhmLawHelper.calculateImpedance component f) as Hagree.
  { intros f.
    unfold NodeAnalyzer.getComponentImpedance, OhmLawHelper.calculateImpedance,
      OhmLawHelper.isType, OhmLawHelper.PI.
    repeat (apply elem_of_cons in Htype as [->|Htype]; [reflexivity|]).
    by apply elem_of_nil in Htype. }
  split; [apply Hagree|]. unfold CircuitAnalyzer.getComponentImpedance. apply Hagree.
Qed.

Lemma branch_and_reported_impedance_agree_witness :
  let capacitor := Samples.component "capacitor_1" "capacitor" 0.000001
                     [Samples.pA; Samples.pB] in
  NodeAnalyzer.getComponentImpedance capacitor 50
  = OhmLawHelper.calculateImpedance capacitor 50 ∧
  NodeAnalyzer.getComponentImpedance capacitor 0
  = CircuitAnalyzer.getComponentImpedance capacitor.
Proof.
  apply branch_and_reported_impedance_agree. cbn. right. left.
Defined.

(** ** Node voltages: the solution vector, copied by position *)

Lemma map_set_fresh {V} (m : JS.Map V) (k : string) (v : V) :
  JS.map_get m k = None → JS.map_set m k v = m ++ [(k, v)].
Proof.
  induction m as [|[k' v'] m IH]; cbn [JS.map_set JS.map_get]; [done|].
  destruct (String.eqb k' k); [done|]. intros Hm. by rewrite IH.
Qed.

Lemma nodeIndexMap_values (skip : string → bool) (nodes : list ElectricalNode.t) :
  NoDup (ElectricalNode.id <$> nodes) →
  let out := fold_left (λ '(m, nodeIndex) node,
                          if skip (ElectricalNode.id node) then (m, nodeIndex)
                          else (JS.map_set m (ElectricalNode.id node) nodeIndex,
                                S nodeIndex))
                       nodes ([], 0) in
  (fst out).*2 = seq 0 (length (fst out)).
Proof.
  induction nodes as [|node nodes IH] using rev_ind; [done|].
  rewrite fmap_app. intros [Hnodes [Hfresh _]]%NoDup_app.
  specialize (IH Hnodes). cbv zeta in *.
  destruct (nodeIndexMap_spec skip nodes Hnodes) as (Hsize & Hget & _).
  rewrite fold_left_app. cbn [fold_left].
  match goal with
  | |- context [fold_left ?f nodes ?e] => destruct (fold_left f nodes e) as [m k]
  end.
  cbn [fst snd] in *.
  destruct (skip (ElectricalNode.id node)); [exact IH|]. cbn [fst].
  rewrite map_set_fresh.
  - rewrite fmap_app, length_app, IH. cbn [fmap list_fmap length snd].
    rewrite Nat.add_1_r, seq_S. unfold JS.map_size in Hsize. by rewrite Hsize.
  - apply not_is_Some_None. intros [index Hindex].
    destruct (Hget _ _ Hindex) as (_ & _ & Hin).
    apply (Hfresh (ElectricalNode.id node)); [done|]. cbn. left.
Qed.

Lemma extractNodeVoltages_fold (solution : list float) (total : nat)
    (m : JS.Map nat) :
  m.*2 = seq 0 (length m) → length m ≤ total →
  let nodeVoltages :=
    fold_left (λ nodeVoltages '(nodeId, index),
                 if Nat.ltb index (length solution)
                 then <[index := JS.get solution index]> nodeVoltages
                 else nodeVoltages)
              m (JS.fill total 0%float) in
  length nodeVoltages = total ∧
  ∀ i, i < total →
       nodeVoltages !! i
       = Some (if decide (i < length m) then default 0%float (solution !! i)
               else 0%float).
Proof.
  induction m as [|[nodeId index] m IH] using rev_ind; intros Hvalues Htotal.
  - cbn. split; [apply length_replicate|]. intros i Hi.
    unfold JS.fill. rewrite lookup_replicate_2 by done. by destruct (decide _); [lia|].
  - rewrite fmap_app, length_app in Hvalues. cbn [fmap list_fmap length snd] in Hvalues.
    rewrite Nat.add_1_r, seq_S in Hvalues. apply app_inj_tail in Hvalues as [Hm ->].
    rewrite length_app in Htotal. cbn [length] in Htotal.
    destruct (IH Hm ltac:(lia)) as [Hlength Hentries]. clear IH.
    cbv zeta. rewrite fold_left_app. cbn [fold_left].
    rewrite length_app. cbn [length Nat.add].
    match goal with
    | |- context [fold_left ?f m ?e] => set (before := fold_left f m e) in *
    end.
    destruct (Nat.ltb_spec (length m) (length solution)) as [Hin|Hout].
    + split; [by rewrite length_insert|]. intros i Hi.
      destruct (decide (i = length m)) as [->|Hne].
      * rewrite list_lookup_insert_eq by lia.
        destruct (decide _); [|lia]. unfold JS.get.
        by destruct (lookup_lt_is_Some_2 solution (length m) Hin) as [v ->].
      * rewrite list_lookup_insert_ne by done. rewrite Hentries by done.
        repeat destruct (decide _); try lia; done.
    + split; [done|]. intros i Hi. rewrite Hentries by done.
      repeat destruct (decide _); try lia; try done.
      rewrite (lookup_ge_None_2 solution i) by lia. done.
Qed.

(** X24: for the matrices built for a circuit with [n] nodes
other than ground, and any solution vector, [extractNodeVoltages] returns
[n + 1] numbers: entry [i < n] is entry [i] of the solution vector (0 when
the vector is shorter) and the last entry, for ground, is 0. *)
Theorem node_voltages_copy_the_solution_by_position (circuit : Circuit.t)
    (method : string) (matrices : Matrices.t) (solution : list float) :
  CircuitMatrixBuilder.buildSystemMatrices circuit
    (NodeAnalyzer.analyzeNodes circuit) method = CircuitMatrixBuilder.Built matrices →
  let n := JS.map_size (Matrices.nodeIndexMap matrices) in
  ∃ nodeVoltages,
    EquationSolver.extractNodeVoltages (Some solution) matrices = inr nodeVoltages ∧
    length nodeVoltages = n + 1 ∧
    nodeVoltages !! n = Some 0%float ∧
    ∀ i, i < n → nodeVoltages !! i = Some (default 0%float (solution !! i)).
Proof.
  intros Hbuilt n.
  assert ((Matrices.nodeIndexMap matrices).*2 = seq 0 n) as Hvalues.
  { unfold CircuitMatrixBuilder.buildSystemMatrices in Hbuilt.
    pose proof (nodeIndexMap_values
                  (λ nid, match ElectricalNode.id <$>
                                List.find ElectricalNode.isGround
                                  (NodeAnalysis.nodes (NodeAnalyzer.analyzeNodes circuit)) with
                          | Some g => String.eqb nid g
                          | None => false
                          end)
                  (NodeAnalysis.nodes (NodeAnalyzer.analyzeNodes circuit))) as Hmap.
    unfold CircuitMatrixBuilder.createIndexMappings in Hbuilt. cbv zeta in Hbuilt.
    destruct (if String.eqb method "nodal" || String.eqb method "nodal_modified"
              then _ else _) as [[thrown|[method' b]]|]; [done| |done].
    subst n. injection Hbuilt as <-. cbn [Matrices.nodeIndexMap].
    apply Hmap. apply (NoDup_numbered _ "enode_"). intros k node.
    apply createElectricalNodes_ids. }
  destruct (extractNodeVoltages_fold solution (n + 1) (Matrices.nodeIndexMap matrices))
    as [Hlength Hentries]; [exact Hvalues|unfold n, JS.map_size; lia|].
  unfold EquationSolver.extractNodeVoltages. cbv zeta. fold n.
  match goal with
  | |- context [fold_left ?f ?m ?e] => set (copied := fold_left f m e) in *
  end.
  exists (<[length copied - 1 := 0%float]> copied). split; [done|].
  rewrite length_insert, Hlength.
  replace (n + 1 - 1) with n by lia.
  split; [done|]. split.
  - apply list_lookup_insert_eq. lia.
  - intros i Hi. rewrite list_lookup_insert_ne by lia. rewrite Hentries by lia.
    destruct (decide _); [done|]. unfold n, JS.map_size in *. lia.
Qed.

Lemma node_voltages_copy_the_solution_by_position_witness :
  let n := JS.map_size (Matrices.nodeIndexMap fullMeshMatrices) in
  ∃ nodeVoltages,
    EquationSolver.extractNodeVoltages (Some [0.006%float]) fullMeshMatrices
    = inr nodeVoltages ∧
    length nodeVoltages = n + 1 ∧
    nodeVoltages !! n = Some 0%float ∧
    ∀ i, i < n → nodeVoltages !! i = Some (default 0%float ([0.006%float] !! i)).
Proof.
  apply (node_voltages_copy_the_solution_by_position Samples.fullMesh "mesh").
  vm_compute. reflexivity.
Defined.

(** ** The nodal admittance matrix is symmetric *)

Lemma set2_square (n : nat) (M : list (list float)) (i j : nat) (v : float) :
  squareMatrix n M → squareMatrix n (JS.set2 M i j v).
Proof.
  intros [Hlength Hrows]. unfold JS.set2. split; [by rewrite length_insert|].
  destruct (M !! i) as [row|] eqn:Hrow; cbn [from_option id].
  - apply Forall_insert; [done|]. rewrite length_insert.
    by apply (Forall_lookup_1 _ _ _ _ Hrows Hrow).
  - apply lookup_ge_None in Hrow. by rewrite list_insert_ge.
Qed.

Lemma get2_set2 (n : nat) (M : list (list float)) (i j : nat) (v : float)
    (a b : nat) :
  squareMatrix n M →
  JS.get2 (JS.set2 M i j v) a b
  = if decide (a = i ∧ b = j ∧ i < n ∧ j < n) then v else JS.get2 M a b.
Proof.
  intros [Hlength Hrows]. unfold JS.get2, JS.set2, JS.get.
  destruct (decide (a = i)) as [->|Hrow].
  - destruct (M !! i) as [row|] eqn:Hi; cbn [from_option id].
    + pose proof (Forall_lookup_1 _ _ _ _ Hrows Hi) as Hn. cbn beta in Hn.
      apply lookup_lt_Some in Hi as Hlt.
      rewrite list_lookup_insert_eq by done. cbn [from_option id].
      destruct (decide (b = j)) as [->|Hcol].
      * destruct (decide (j < n)) as [Hj|Hj].
        -- rewrite list_lookup_insert_eq by lia. cbn [from_option id].
           by destruct (decide _); [|lia].
        -- rewrite list_insert_ge by lia. by destruct (decide _); [lia|].
      * rewrite list_lookup_insert_ne by done. by destruct (decide _); [lia|].
    + apply lookup_ge_None in Hi as Hge. rewrite list_insert_ge by done.
      rewrite Hi. cbn [from_option id]. by destruct (decide _); [lia|].
  - rewrite list_lookup_insert_ne by done. by destruct (decide _); [lia|].
Qed.

Lemma addTo2_square (n : nat) (M : list (list float)) (i j : nat) (a : float) :
  squareMatrix n M → squareMatrix n (CircuitMatrixBuilder.addTo2 M i j a).
Proof. apply set2_square. Qed.

Lemma addTo2_diagonal_symmetric (n : nat) (M : list (list float)) (s : nat)
    (a : float) :
  squareMatrix n M → symmetricMatrix M → symmetricMatrix (CircuitMatrixBuilder.addTo2 M s s a).
Proof.
  intros Hsquare Hsym i j. unfold CircuitMatrixBuilder.addTo2.
  rewrite !(get2_set2 n) by done.
  repeat destruct (decide _); try lia; try done; apply Hsym.
Qed.

Lemma subFrom2_pair_symmetric (n : nat) (M : list (list float)) (s e : nat)
    (a : float) :
  squareMatrix n M → symmetricMatrix M →
  symmetricMatrix (CircuitMatrixBuilder.subFrom2 (CircuitMatrixBuilder.subFrom2 M s e a)
                 e s a).
Proof.
  intros Hsquare Hsym i j. unfold CircuitMatrixBuilder.subFrom2.
  pose proof (set2_square n M s e (JS.get2 M s e - a)%float Hsquare) as Hsquare1.
  rewrite !(get2_set2 n) by done.
  rewrite (Hsym e s).
  repeat destruct (decide _); try lia; try done;
    repeat match goal with H : _ ∧ _ |- _ => destruct H end; subst; try lia;
    try done.
  all: try apply Hsym.
  all: try (exfalso; match goal with H : ¬ _ |- _ => apply H; lia end).
Qed.

Lemma addBranchToNodalMatrix_symmetric (n : nat) (nodeIndexMap : JS.Map nat)
    (GI GI' : list (list float) * list float) (branch : Branch.t) :
  squareMatrix n (fst GI) ∧ symmetricMatrix (fst GI) →
  CircuitMatrixBuilder.addBranchToNodalMatrix nodeIndexMap GI branch = inr GI' →
  squareMatrix n (fst GI') ∧ symmetricMatrix (fst GI').
Proof.
  destruct GI as [G Ivec]. cbn [fst]. intros [Hsquare Hsym].
  unfold CircuitMatrixBuilder.addBranchToNodalMatrix. cbv zeta.
  destruct (negb _); [by intros [= <-]|].
  match goal with
  | |- context [if _ then JS.bind _ (λ current, inr (?G', _)) else _] =>
      assert (squareMatrix n G' ∧ symmetricMatrix G') as HG'
  end.
  { destruct (JS.map_get nodeIndexMap (Branch.startNodeId branch)) as [s|];
      destruct (JS.map_get nodeIndexMap (Branch.endNodeId branch)) as [e|].
    - split.
      + unfold CircuitMatrixBuilder.subFrom2. by repeat apply set2_square.
      + apply (subFrom2_pair_symmetric n); [by repeat apply addTo2_square|].
        apply (addTo2_diagonal_symmetric n); [by apply addTo2_square|].
        by apply (addTo2_diagonal_symmetric n).
    - split; [by apply addTo2_square|by apply (addTo2_diagonal_symmetric n)].
    - split; [by apply addTo2_square|by apply (addTo2_diagonal_symmetric n)].
    - done. }
  destruct (String.eqb _ _).
  - destruct (Branch.componentValue branch) as [thrown|current]; cbn [JS.bind];
      [done|]. by intros [= <-].
  - by intros [= <-].
Qed.

Lemma createMatrix_square_symmetric (n : nat) :
  squareMatrix n (CircuitMatrixBuilder.createMatrix n n) ∧
  symmetricMatrix (CircuitMatrixBuilder.createMatrix n n).
Proof.
  unfold CircuitMatrixBuilder.createMatrix. split; [split|].
  - apply length_replicate.
  - apply Forall_replicate. apply length_replicate.
  - intros i j. unfold JS.get2, JS.get.
    assert (∀ a b, default nan (default [] (replicate n (replicate n 0%float) !! a) !! b)
                   = if decide (a < n ∧ b < n) then 0%float else nan) as Hcell.
    { intros a b. destruct (decide (a < n)) as [Ha|Ha].
      - rewrite lookup_replicate_2 by done. cbn [from_option id].
        destruct (decide (b < n)) as [Hb|Hb].
        + rewrite lookup_replicate_2 by done. by destruct (decide _); [|lia].
        + rewrite (lookup_ge_None_2 (replicate n 0%float) b)
            by (rewrite length_replicate; lia).
          by destruct (decide _); [lia|].
      - rewrite (lookup_ge_None_2 (replicate n (replicate n 0%float)) a)
          by (rewrite length_replicate; lia).
        cbn [from_option id].
        rewrite lookup_nil. by destruct (decide _); [lia|]. }
    rewrite !Hcell. repeat destruct (decide _); try lia; done.
Qed.

(** X25: the matrix built for a circuit under nodal,
nodal_modified or ladder analysis is the admittance matrix, it is [n] by [n]
for the [n] nodes other than ground, and it is symmetric: cell [(i, j)] holds
the very number of cell [(j, i)]. *)
Theorem nodal_admittance_matrix_is_symmetric (circuit : Circuit.t)
    (method : string) (matrices : Matrices.t) :
  CircuitMatrixBuilder.buildSystemMatrices circuit
    (NodeAnalyzer.analyzeNodes circuit) method = CircuitMatrixBuilder.Built matrices →
  method ∈ ["nodal"; "nodal_modified"; "ladder"] →
  ∃ G, Matrices.systemMatrix matrices = Some G ∧
       Matrices.admittanceMatrix matrices = Some G ∧
       squareMatrix (Matrices.nodeCount matrices) G ∧ symmetricMatrix G.
Proof.
  intros Hbuilt Hmethod.
  unfold CircuitMatrixBuilder.buildSystemMatrices in Hbuilt.
  destruct (CircuitMatrixBuilder.createIndexMappings _)
    as [[nodeIndexMap branchIndexMap] groundNodeId].
  cbv zeta in Hbuilt.
  assert (∀ b, CircuitMatrixBuilder.buildNodalMatrices
                 (NodeAnalyzer.analyzeNodes circuit) nodeIndexMap
                 (JS.map_size nodeIndexMap) = inr b →
               CircuitMatrixBuilder.b_admittanceMatrix b
               = Some (CircuitMatrixBuilder.b_systemMatrix b) ∧
               squareMatrix (JS.map_size nodeIndexMap)
                 (CircuitMatrixBuilder.b_systemMatrix b) ∧
               symmetricMatrix (CircuitMatrixBuilder.b_systemMatrix b)) as Hnodal.
  { intros b. unfold CircuitMatrixBuilder.buildNodalMatrices. cbv zeta.
    destruct (JS.foldThrow _ _ _) as [thrown|[G Ivec]] eqn:Hfold; cbn [JS.bind];
      [done|].
    apply (foldThrow_invariant
             (λ GI, squareMatrix (JS.map_size nodeIndexMap) (fst GI) ∧ symmetricMatrix (fst GI)))
      in Hfold.
    - destruct (CircuitMatrixBuilder.handleVoltageSourcesNodal _ _ _ _ _)
        as [thrown|expanded]; cbn [JS.bind]; [done|].
      intros [= <-]. by cbn.
    - intros GI branch GI'. apply addBranchToNodalMatrix_symmetric.
    - apply createMatrix_square_symmetric. }
  destruct (CircuitMatrixBuilder.buildNodalMatrices _ _ _) as [thrown|b] eqn:Hb.
  - repeat (apply elem_of_cons in Hmethod as [->|Hmethod]; [by cbn in Hbuilt|]).
    by apply elem_of_nil in Hmethod.
  - destruct (Hnodal b eq_refl) as (Hadm & Hsquare & Hsym).
    exists (CircuitMatrixBuilder.b_systemMatrix b).
    repeat (apply elem_of_cons in Hmethod as [->|Hmethod];
            [cbn in Hbuilt; injection Hbuilt as <-; by cbn|]).
    by apply elem_of_nil in Hmethod.
Qed.

Lemma nodal_admittance_matrix_is_symmetric_witness :
  ∃ G, Matrices.systemMatrix fullMeshNodalMatrices = Some G ∧
       Matrices.admittanceMatrix fullMeshNodalMatrices = Some G ∧
       squareMatrix (Matrices.nodeCount fullMeshNodalMatrices) G ∧ symmetricMatrix G.
Proof.
  apply (nodal_admittance_matrix_is_symmetric Samples.fullMesh "nodal");
    [vm_compute; reflexivity|left].
Defined.

(** ** Connectivity: the queue loop visits what can be reached *)

Lemma visitNeighbors_spec (neighbors queue : list string) (visited : gset string) :
  let out :=
    fold_left (λ '(q, v) neighborId,
                 if bool_decide (neighborId ∈ v) then (q, v)
                 else (q ++ [neighborId], {[neighborId]} ∪ v))
              neighbors (queue, visited) in
  (∀ y, y ∈ snd out ↔ y ∈ visited ∨ y ∈ neighbors) ∧
  (∀ y, y ∈ fst out → y ∈ queue ∨ (y ∈ neighbors ∧ y ∉ visited)) ∧
  (∀ y, y ∈ queue → y ∈ fst out) ∧
  (∀ y, y ∈ neighbors → y ∉ visited → y ∈ fst out).
Proof.
  revert queue visited.
  induction neighbors as [|x neighbors IH]; intros queue visited; cbn [fold_left].
  - cbn [fst snd]. repeat split; try tauto.
    + intros [?|Hy]; [done|]. by apply elem_of_nil in Hy.
    + intros y Hy. by apply elem_of_nil in Hy.
  - case_bool_decide as Hx.
    + destruct (IH queue visited) as (Hv & Hq & Hkeep & Hnew). cbv zeta.
      repeat split.
      * intros Hy. apply Hv in Hy as [?|?]; [by left|right; by right].
      * intros [?|[->|?]%elem_of_cons]; apply Hv; auto.
      * intros y Hy. apply Hq in Hy as [?|[? ?]]; [by left|].
        right. split; [by right|done].
      * exact Hkeep.
      * intros y [->|Hy]%elem_of_cons Hfresh; [done|]. by apply Hnew.
    + destruct (IH (queue ++ [x]) ({[x]} ∪ visited)) as (Hv & Hq & Hkeep & Hnew).
      cbv zeta. repeat split.
      * intros Hy. apply Hv in Hy as [Hy|?]; [|right; by right].
        apply elem_of_union in Hy as [Hy|?]; [|by left].
        apply elem_of_singleton in Hy as ->. right. left.
      * intros [?|[->|?]%elem_of_cons]; apply Hv.
        -- left. apply elem_of_union. by right.
        -- left. apply elem_of_union. left. by apply elem_of_singleton.
        -- by right.
      * intros y Hy. apply Hq in Hy as [Hy|[Hy Hfresh]].
        -- apply elem_of_app in Hy as [?|Hy]; [by left|].
           apply list_elem_of_singleton in Hy as ->. right. split; [left|done].
        -- right. split; [by right|]. intros Hin. apply Hfresh, elem_of_union. by right.
      * intros y Hy. apply Hkeep, elem_of_app. by left.
      * intros y [->|Hy]%elem_of_cons Hfresh.
        -- apply Hkeep, elem_of_app. right. by apply list_elem_of_singleton.
        -- destruct (decide (y = x)) as [->|Hne].
           ++ apply Hkeep, elem_of_app. right. by apply list_elem_of_singleton.
           ++ apply Hnew; [done|]. intros Hin.
              apply elem_of_union in Hin as [Hin|?]; [|done].
              by apply elem_of_singleton in Hin.
Qed.

Lemma rtc_stays_inside {A} (R : relation A) (inside : A → Prop) (start x : A) :
  inside start → (∀ a b, inside a → R a b → inside b) → rtc R start x → inside x.
Proof.
  intros Hstart Hclosed Hrtc.
  induction Hrtc as [|a b c Hab Hbc IH]; [done|]. apply IH. by apply (Hclosed a b).
Qed.

Lemma bfs_spec (universe : gset string) (nodes : list ElectricalNode.t)
    (start : string) :
  (∀ node x, node ∈ nodes → x ∈ ElectricalNode.connections node → x ∈ universe) →
  ∀ fuel queue visited,
    queueWork universe queue visited ≤ fuel →
    start ∈ visited →
    (∀ x, x ∈ queue → x ∈ visited) →
    (∀ x, x ∈ visited → rtc (linked nodes) start x) →
    (∀ x y, x ∈ visited → x ∉ queue → linked nodes x y → y ∈ visited) →
    ∀ x, x ∈ NodeAnalyzer.bfs fuel nodes queue visited ↔ rtc (linked nodes) start x.
Proof.
  intros HU.
  induction fuel as [|fuel IH]; intros queue visited Hwork Hstart Hqueue Hsound Hclosed.
  - destruct queue as [|c queue]; [|unfold queueWork in Hwork; simpl in Hwork; lia].
    cbn [NodeAnalyzer.bfs]. intros x. split; [apply Hsound|].
    apply (rtc_stays_inside _ (λ y, y ∈ visited)); [done|].
    intros a b Ha Hab. apply (Hclosed a b); [done| |done].
    intros Hin. by apply elem_of_nil in Hin.
  - destruct queue as [|current queue].
    { cbn [NodeAnalyzer.bfs]. intros x. split; [apply Hsound|].
      apply (rtc_stays_inside _ (λ y, y ∈ visited)); [done|].
      intros a b Ha Hab. apply (Hclosed a b); [done| |done].
      intros Hin. by apply elem_of_nil in Hin. }
    cbn [NodeAnalyzer.bfs].
    destruct (List.find _ nodes) as [currentNode|] eqn:Hfind.
    + pose proof Hfind as Hin. apply List.find_some in Hin as [Hin _].
      apply list_elem_of_In in Hin.
      pose proof (visitNeighbors_work universe
                    (ElectricalNode.connections currentNode) queue visited
                    (λ x Hx, HU currentNode x Hin Hx)) as Hsame.
      destruct (visitNeighbors_spec (ElectricalNode.connections currentNode)
                  queue visited) as (Hv & Hq & Hkeep & Hnew).
      cbv zeta in Hsame, Hv, Hq, Hkeep, Hnew.
      destruct (fold_left _ (ElectricalNode.connections currentNode) (queue, visited))
        as [queue' visited'].
      cbn [fst snd] in *.
      assert (current ∈ visited) as Hcurrent by (apply Hqueue; left).
      apply IH.
      * rewrite Hsame. unfold queueWork in *. simpl in Hwork. lia.
      * apply Hv. by left.
      * intros x Hx. apply Hv. apply Hq in Hx as [Hx|[Hx _]]; [|by right].
        left. apply Hqueue. by right.
      * intros x Hx. apply Hv in Hx as [Hx|Hx]; [by apply Hsound|].
        eapply rtc_r; [by apply Hsound|]. by exists currentNode.
      * intros x y Hx Hout Hlink. apply Hv.
        destruct (decide (x = current)) as [->|Hne].
        -- destruct Hlink as (node & Hnode & Hy). right. congruence.
        -- apply Hv in Hx as [Hx|Hx].
           ++ left. apply (Hclosed x y); [done| |done].
              intros [->|Hin']%elem_of_cons; [done|]. by apply Hout, Hkeep.
           ++ destruct (decide (x ∈ visited)) as [Hvis|Hfresh].
              ** left. apply (Hclosed x y); [done| |done].
                 intros [->|Hin']%elem_of_cons; [done|]. by apply Hout, Hkeep.
              ** destruct Hout. by apply Hnew.
    + apply IH; [unfold queueWork in *; simpl in Hwork; lia|done| | |].
      * intros x Hx. apply Hqueue. by right.
      * exact Hsound.
      * intros x y Hx Hout Hlink.
        destruct (decide (x = current)) as [->|Hne].
        -- destruct Hlink as (node & Hnode & _). congruence.
        -- apply (Hclosed x y); [done| |done].
           intros [->|Hin']%elem_of_cons; done.
Qed.

(** X26: for nodes with distinct identifiers whose connections
name nodes of the list, [isGraphConnected] answers yes exactly when every
node can be reached from the first one by following connections. *)
Theorem isGraphConnected_decides_reachability (first : ElectricalNode.t)
    (rest : list ElectricalNode.t) :
  let nodes := first :: rest in
  NoDup (ElectricalNode.id <$> nodes) →
  (∀ node x, node ∈ nodes → x ∈ ElectricalNode.connections node →
             x ∈ ElectricalNode.id <$> nodes) →
  (NodeAnalyzer.isGraphConnected nodes = true
   ↔ ∀ node, node ∈ nodes →
             rtc (linked nodes) (ElectricalNode.id first) (ElectricalNode.id node)).
Proof.
  intros nodes Hnodup Hclosed.
  set (start := ElectricalNode.id first).
  set (universe := list_to_set (nodes ≫= ElectricalNode.connections) : gset string).
  assert (∀ x, x ∈ NodeAnalyzer.bfs (NodeAnalyzer.bfsFuel nodes) nodes [start] {[start]}
               ↔ rtc (linked nodes) start x) as Hvisited.
  { apply (bfs_spec universe).
    - intros node x Hnode Hx. apply elem_of_list_to_set, list_elem_of_bind.
      by exists node.
    - rewrite bfsFuel_connections. unfold queueWork. cbn [length].
      pose proof (size_list_to_set_le (nodes ≫= ElectricalNode.connections)) as Hle.
      assert (universe ∖ {[start]} ⊆ universe) as Hincl
        by apply subseteq_difference_l, reflexivity.
      apply subseteq_size in Hincl. fold universe in Hle. lia.
    - by apply elem_of_singleton.
    - intros x ->%list_elem_of_singleton. by apply elem_of_singleton.
    - intros x ->%elem_of_singleton. done.
    - intros x y Hx%elem_of_singleton Hout. destruct Hout. subst x. left. }
  set (ids := list_to_set (ElectricalNode.id <$> nodes) : gset string).
  assert (size ids = length nodes) as Hsize.
  { unfold ids. rewrite size_list_to_set by done. by rewrite length_fmap. }
  assert (∀ x, rtc (linked nodes) start x → x ∈ ids) as Hinside.
  { intros x. apply (rtc_stays_inside _ (λ y, y ∈ ids)).
    - apply elem_of_list_to_set. cbn. left.
    - intros a b _ (node & Hfind & Hb). apply elem_of_list_to_set.
      apply List.find_some in Hfind as [Hin _]. apply list_elem_of_In in Hin.
      by apply (Hclosed node). }
  unfold NodeAnalyzer.isGraphConnected. subst nodes. cbv zeta. fold start.
  set (visited := NodeAnalyzer.bfs _ _ _ _) in *.
  assert (visited ⊆ ids) as Hsub.
  { intros x Hx. by apply Hinside, Hvisited. }
  rewrite Nat.eqb_eq, <- Hsize. split.
  - intros Hsame node Hnode. apply Hvisited.
    assert (visited = ids) as ->.
    { apply (set_subseteq_size_eq _ _ Hsub). apply Nat.eq_le_incl. symmetry.
      exact Hsame. }
    apply elem_of_list_to_set, list_elem_of_fmap. by exists node.
  - intros Hall. f_equal. apply set_eq. intros x. split; [apply Hsub|].
    intros Hx. apply elem_of_list_to_set, list_elem_of_fmap in Hx as (node & -> & Hnode).
    by apply Hvisited, Hall.
Qed.

Lemma isGraphConnected_decides_reachability_witness :
  NodeAnalyzer.isGraphConnected bridgeNodes = true ∧
  ∀ node, node ∈ bridgeNodes →
          rtc (linked bridgeNodes) "enode_0" (ElectricalNode.id node).
Proof.
  split; [vm_compute; reflexivity|].
  apply (isGraphConnected_decides_reachability
           (junctionNode "enode_0" ["enode_1"; "enode_2"; "enode_4"])
           (tail bridgeNodes)).
  - cbn. repeat (apply NoDup_cons; split; [intros Hin; repeat (apply elem_of_cons in Hin as [Hin|Hin]; [discriminate|]); by apply elem_of_nil in Hin|]).
    apply NoDup_nil_2.
  - intros node x Hnode Hx.
    repeat (apply elem_of_cons in Hnode as [->|Hnode];
            [cbn in Hx |- *;
             repeat (apply elem_of_cons in Hx as [->|Hx];
                     [repeat first [by left|right]|]);
             by apply elem_of_nil in Hx|]).
    by apply elem_of_nil in Hnode.
  - vm_compute. reflexivity.
Defined.
